(* ===== verification/_CoqProject ===== *)
-Q . S2P
Prelude.v
GoStrings.v
GoPath.v
GoFloat.v
NetIP.v
Events.v
Api.v
Memory.v
BoundedFifo.v
TunnelFlood.v
SourceFlood.v
Blocklist.v
Wire.v
LoadTest.v
Loader.v
EventPump.v
Metrics.v
PolicyIndex.v
Attach.v
PodIPIndex.v
KillSwitch.v
ReactorLimiter.v
ScoringPipeline.v
Ingestion.v
World.v
Bus.v
Capture.v
Typing.v
Mesh.v
MeshProofs.v
AttachProofs.v
Decision.v
Config.v
Operator.v
OperatorProofs.v
OtherPlatform.v
Watcher.v
SampleWorld.v
WatcherProofs.v
Aliasing.v
Messaging.v
Pipeline.v
OperatorMain.v
FalcoBridge.v
ClosedLoop.v
Reconciler.v
ReconcilerProofs.v
BlocklistSync.v
SyncProofs.v
Fleet.v
System.v
