(* ===== verification/Prelude.v ===== *)
(** * Sentinel5G: a verification library for the Go operator

    Sentinel5G watches 5G signaling traffic on each node, scores it, and blocks
    or isolates what its policies tell it to. This library models the Go code of
    the operator and of the Falco bridge, and proves what they promise each other.

    ** The parts and how they interact

    An XDP program (bpf/packet_filter.c) drops packets by the addresses and
    tunnels in four kernel hash maps and reports signaling packets in two ring
    buffers. The Loader (pkg/ebpf) attaches it, writes the maps and decodes the
    records. The Publisher (pkg/ingestion) turns each record into a
    NormalizedEvent, runs two flood rules on it (pkg/detect) and publishes event
    and scores on NATS (pkg/events); Hubble flows and Falco alerts
    (pkg/hubble, pkg/falco) enter at the same place. The ThreatScoreWatcher
    (pkg/controller) receives scores, finds the policies of the Pod in an index
    and, for an armed crossing, records the intent in the policy's status, blocks
    in the kernel and isolates the workload in the service mesh (pkg/mesh). The
    Reconciler registers policies, de-escalates after a quiet period and releases
    everything when a policy is deleted. The BlocklistReconciler compares the
    statuses with the kernel maps and repairs either kind of drift. main
    (cmd/operator) builds all of it from the environment (pkg/config).

    ** Which file models what

    - this file: errors, results, the state monad [M], time, machine widths,
      tactics, the hint database [sentinel], generic list lemmas;
    - [GoStrings], [GoPath], [GoFloat], [NetIP]: the standard library the code
      uses: number formats and sorting, path/filepath, float64 (IEEE 754
      binary64 through [SpecFloat]), net.IP parsing and printing;
    - [Events], [Api]: pkg/events/types.go and the TelecomSecurityPolicy types;
    - [Memory]: policies as Go objects with references, and their deep copies;
    - [BoundedFifo], [TunnelFlood], [SourceFlood]: pkg/detect, its bounded tables
      and its two rules;
    - [Blocklist]: the interfaces of pkg/ebpf/blocklist.go as classes, with the
      laws [BlocklistSpec] and [InspectorSpec] the controllers rely on;
    - [Wire], [Loader], [Attach], [AttachProofs]: ring records, map operations and
      read-back, attaching with pinning; [Loader] discharges the laws of
      [Blocklist] from those of the map library, [BpfMapSpec];
    - [EventPump]: the goroutines of SignalingEvents, as a transition system;
    - [Metrics], [PolicyIndex], [PodIPIndex], [KillSwitch], [ReactorLimiter],
      [ScoringPipeline]: the in-memory components of pkg/controller;
    - [Ingestion], [Capture], [Typing]: the Publisher, and Hubble and Falco, and
      that what they capture fits its types;
    - [World]: the state the controllers share, the API server as the classes
      [ApiServer] and [ApiSpec], the mesh as [MeshAdapter]. Policies are read
      through the manager's cache, which lags behind etcd: [ApiSpec] says nothing
      of what a Get or List of a policy returns beyond the key, [StatusHistory]
      that it is something etcd has held, and only the start of the watcher
      assumes a complete List ([SyncedList]), as the manager starts it after its
      cache has synced;
    - [Bus]: pkg/events, the connection, the Connector and the delivery callback;
    - [Mesh], [MeshProofs]: pkg/mesh over a Kubernetes client [KubeClient];
    - [Decision], [Watcher], [WatcherProofs]: threat_score_watcher.go;
    - [Aliasing]: the index and the watcher's edits on the memory of [Memory];
    - [Messaging]: publishing and subscribing, and the watcher's Start;
    - [Pipeline]: EventPump, Ingestion and Messaging composed;
    - [Config], [Operator], [OperatorProofs], [OperatorMain]: pkg/config, what
      cmd/operator builds from it, and its main over a manager [CtrlManager];
    - [OtherPlatform]: the operator built for another system than Linux;
    - [FalcoBridge]: the bridge's server as a step relation, cmd/falco-bridge;
    - [LoadTest]: the frame generator of scripts/loadtest;
    - [ClosedLoop]: the composition from a packet to a drop;
    - [Reconciler], [ReconcilerProofs]: telecomsecuritypolicy_controller.go;
    - [BlocklistSync], [SyncProofs]: blocklist_reconciler.go;
    - [System]: any sequence of handler runs, restarts and other API writes;
    - [Fleet]: one replica per node: leader election and node-local kernels;
    - [SampleWorld] and the modules named [..Sample] and [Sim..]: concrete
      servers, hosts and clusters that satisfy the laws, at which the theorems
      are evaluated.

    Definitions keep the source's names; a method is prefixed with its type where
    two would clash. A handler is a function of state and arguments that returns
    its error as a value; the clock, uuids, the order of map iteration and every
    answer of a library are arguments or class parameters, so that each theorem
    holds for all of them.

    ** What the theorems show

    - Enforcement follows authority: a drop needs a crossing, an armed policy and
      no kill switch; whatever a score newly drops is claimed in etcd by then, or
      was claimed by the cached policy whose refresh was throttled; an armed
      crossing adds exactly what the policy's actions ask for; redelivery adds
      nothing ([WatcherProofs]); from a flooding packet to its drop, end to end,
      and which messages are redelivered, up to the limit of five deliveries
      ([ClosedLoop]).
    - Enforcement ends: de-escalation and finalization lift exactly what the
      status claims, and keep the record until they have; a reconcile lifts
      nothing its policy did not claim, however stale the object it read
      ([ReconcilerProofs]).
    - Drift is repaired: two error-free passes that list the same claims make the
      kernel agree with them, and a drop is removed only after two passes have
      found it in the kernel and unclaimed in what they listed ([SyncProofs]); on
      a fleet of nodes, each reading through its own cache, all kernels come to
      agree once the last two passes of each listed the same claims ([Fleet]).
    - Nothing is dropped that was never recorded: after any sequence of handler
      runs, with requests failing anywhere, failed writes that may have been
      committed and cached reads of any age, each kernel drop is claimed by a
      status some policy has had in etcd ([System]). Not that it still has it: see
      the throttled score below.
    - Treating policies as values is sound: an edit for a score happens on cells of
      its own, the cache keeps what it held, and the result is the value-level
      one ([Memory], [Aliasing]).
    - The kernel side refines sets of addresses and tunnels ([Loader]); drops
      survive a restart, and attaching leaks nothing ([AttachProofs]).
    - The stream of kernel events neither panics nor hangs under any interleaving
      of its goroutines and delivers what the kernel wrote, in order
      ([EventPump]), down to the messages Layer 2 receives ([Pipeline]); a
      restarted watcher has every policy before it takes the first score
      ([Messaging]).
    - The indexes refine flat maps, the limiter isolates policies, the kill switch
      holds the last conclusive answer ([PolicyIndex], [PodIPIndex],
      [ReactorLimiter], [KillSwitch]).
    - The rules report what they should: a report is backed by the traffic of its
      window, an aggregate flood within one window is reported while the sources
      fit the table; and their memory is bounded ([TunnelFlood], [SourceFlood]); batching changes no detection and loses no
      event ([Ingestion]).
    - Quarantine leaves exactly the deny objects of the mesh, is idempotent, and is
      undone by release where nothing bore its name before ([MeshProofs]).
    - A loaded configuration has its protections on unless switched off; losing eBPF, NATS or Hubble degrades without leak ([Config],
      [OperatorProofs], [Bus], [Capture]); the operator starts wherever it can work
      ([OperatorMain]).
    - An alert Falco got a 200 for is on the stream, and the bridge shuts down
      without leaving a request unanswered ([FalcoBridge]).
    - Where the code does something else than its comments say, the behaviour is
      stated as a theorem: a suppressed crossing strands a mitigation and a
      throttled score drops what etcd no longer claims ([WatcherProofs]), a
      zero-TEID entry wedges de-escalation
      ([ReconcilerProofs]), a NaN threshold is accepted ([Config]), a source
      rule that cannot fire is accepted ([OperatorProofs]), the Hubble
      backoff never resets ([Capture]), a node that does not lead attributes its
      floods to no Pod ([Fleet]).

    ** Bounds and fuel

    Recursion that is not structural carries fuel: the digits of a number (as many
    as its width can have), the groups of an IPv6 address (its length), the walk
    to an existing ancestor of the pin path ([walk_fuel], the length of the path
    plus three), the carries of a checksum (three rounds), the redeliveries of a
    message (four, the limit of the subscription less the first). Each is shown to be
    enough where its result is used ([of_to_digits], [parse6_join],
    [nearest_existing_clean], [fold_carries_done]). Loops over events are functions
    of the list of what the loop receives.

    ** Not modelled, and why

    The XDP program and the Python AI engine are not Go; the Go side relies on
    them through the map layouts, the records and the scores. The NATS, gRPC,
    HTTP, Kubernetes and eBPF libraries are parameters with their documented
    behaviour as laws. Logging, registration with the Prometheus registry and the JSON
    encoding of messages change no state of the operator.
    Goroutines are modelled by the sequences of steps they take; each component's
    mutex makes its operations atomic, and interleavings between components are
    the orders of those sequences ([sys_step] takes a handler run as one step, so
    two handlers on one policy meet as a stale read or a failed write, not in the
    middle of a run). A ring reader's Read may answer anything, ErrClosed from an
    open reader included ([EventPump]). Scheme registration and the mains of the test tools, which
    run commands and print, are left out. *)

From stdpp Require Export prelude gmap strings list sorting.
From Stdlib Require Export Ascii ZArith Lia.

Global Set Default Proof Using "Type".
Declare Scope go_scope.
Delimit Scope go_scope with go.

(** ** Automation shared by every component *)

Create HintDb sentinel.

(** Destructs every existential, conjunction and pair equation in sight. *)
Ltac deex :=
  repeat match goal with
    | H : exists x, _ |- _ => let y := fresh x in destruct H as [y H]
    | H : _ ∧ _ |- _ => destruct H
    end.

(** Case analysis on the scrutinee of a [match] or [if] of the goal, or of a
    hypothesis, keeping the equation. *)
Ltac case_scrut :=
  match goal with
  | |- context [match ?x with _ => _ end] =>
      lazymatch x with context [match _ with _ => _ end] => fail | _ => destruct x eqn:? end
  | H : context [match ?x with _ => _ end] |- _ =>
      lazymatch x with context [match _ with _ => _ end] => fail | _ => destruct x eqn:? end
  end.

(** The routine script of a branch analysis: split every branch, drop the
    impossible ones, substitute, and try the library hints. *)
Ltac branches :=
  repeat (case_scrut; simplify_eq/=); try done; eauto with sentinel.

(** Turns the boolean comparisons of the code into propositions. *)
Ltac unbool :=
  repeat match goal with
    | H : _ && _ = true |- _ => apply andb_true_iff in H as [? ?]
    | H : _ || _ = false |- _ => apply orb_false_iff in H as [? ?]
    | H : negb _ = true |- _ => apply negb_true_iff in H
    | H : negb _ = false |- _ => apply negb_false_iff in H
    | H : (_ <? _)%Z = true |- _ => apply Z.ltb_lt in H
    | H : (_ <? _)%Z = false |- _ => apply Z.ltb_ge in H
    | H : (_ <=? _)%Z = true |- _ => apply Z.leb_le in H
    | H : (_ <=? _)%Z = false |- _ => apply Z.leb_gt in H
    | H : (_ =? _)%Z = true |- _ => apply Z.eqb_eq in H
    | H : (_ =? _)%Z = false |- _ => apply Z.eqb_neq in H
    | H : (_ =? _)%string = true |- _ => apply String.eqb_eq in H
    | H : (_ =? _)%string = false |- _ => apply String.eqb_neq in H
    | H : bool_decide _ = true |- _ => apply bool_decide_eq_true in H
    | H : bool_decide _ = false |- _ => apply bool_decide_eq_false in H
    end.

(** ** Machine integers *)

(** A [w]-bit unsigned integer is a [Z] in [0, 2^w); conversions wrap. *)
Definition wrap (w : Z) (z : Z) : Z := z `mod` 2 ^ w.
Definition in_width (w : Z) (z : Z) : Prop := (0 ≤ z < 2 ^ w)%Z.

Definition min_int64 : Z := (- 2 ^ 63)%Z.
Definition max_int64 : Z := (2 ^ 63 - 1)%Z.

(** Go's two's complement conversion to int64. *)
Definition to_int64 (z : Z) : Z :=
  let m := wrap 64 z in if (m <? 2 ^ 63)%Z then m else (m - 2 ^ 64)%Z.

Lemma wrap_in_width w z : (0 ≤ w)%Z → in_width w (wrap w z).
Proof. intros. unfold in_width, wrap. apply Z.mod_pos_bound. by apply Z.pow_pos_nonneg. Qed.

Lemma wrap_id w z : in_width w z → wrap w z = z.
Proof. intros. by apply Z.mod_small. Qed.

Lemma to_int64_id z : (0 ≤ z < 2 ^ 63)%Z → to_int64 z = z.
Proof.
  intros H. unfold to_int64. rewrite wrap_id by (unfold in_width; lia).
  destruct (z <? 2 ^ 63)%Z eqn:E; unbool; lia.
Qed.

#[export] Hint Resolve wrap_in_width wrap_id : sentinel.

(** ** Time: nanoseconds relative to the Unix epoch *)

Abbreviation Time := Z (only parsing).
Abbreviation Duration := Z (only parsing).

Definition Millisecond : Duration := 1000000.
Definition Second : Duration := 1000000000.
Definition Minute : Duration := 60000000000.

(** The zero [time.Time]: January 1, year 1, UTC. *)
Definition zero_time : Time := (- 62135596800000000000)%Z.
Definition IsZero (t : Time) : bool := (t =? zero_time)%Z.

(** [t.Sub(u)] saturates at the bounds of a [time.Duration]. *)
Definition Sub (t u : Time) : Duration :=
  Z.max min_int64 (Z.min max_int64 (t - u)).

Lemma Sub_exact t u : (min_int64 ≤ t - u ≤ max_int64)%Z → Sub t u = (t - u)%Z.
Proof. unfold Sub. lia. Qed.

Lemma Sub_lt_iff t u d :
  (min_int64 < d ≤ max_int64)%Z → (Sub t u < d)%Z ↔ (t - u < d)%Z.
Proof. unfold Sub. lia. Qed.

Lemma Sub_refl t : Sub t t = 0%Z.
Proof. unfold Sub, min_int64, max_int64. lia. Qed.

Lemma Sub_mono t t' u : (t ≤ t')%Z → (Sub t u ≤ Sub t' u)%Z.
Proof. unfold Sub. lia. Qed.

(** ** Errors *)

(** The sentinel errors the program distinguishes with [errors.Is], with
    [apierrors.IsNotFound] and [apierrors.IsConflict]. *)
Inductive sentinel_error :=
  | ErrKeyNotExist        (* cilium/ebpf: no such key in the map *)
  | E2BIG                 (* kernel: the hash map is full *)
  | ErrMapIncompatible    (* cilium/ebpf: a pinned map of another shape *)
  | ErrNotFound           (* apierrors.IsNotFound *)
  | ErrConflict           (* apierrors.IsConflict *)
  | ErrInterfaceNotFound
  | ErrPinPathNotBPFFS
  | ErrNotExist           (* io/fs *)
  | ErrPermission         (* io/fs *)
  | ErrOther (n : nat).

#[export] Instance sentinel_error_eq_dec : EqDecision sentinel_error.
Proof. solve_decision. Defined.

(** A Go error value: [fmt.Errorf] without [%w], a sentinel, or a message
    wrapping the errors its [%w] verbs name (also [errors.Join]). *)
Inductive go_error :=
  | Errorf (msg : string)
  | Sentinel (s : sentinel_error)
  | Wrap (msg : string) (inner : list go_error).

(** [errors.Is] against a sentinel. *)
Fixpoint errors_Is (e : go_error) (s : sentinel_error) : bool :=
  match e with
  | Errorf _ => false
  | Sentinel s' => bool_decide (s' = s)
  | Wrap _ inner => existsb (λ e', errors_Is e' s) inner
  end.

Inductive result (A : Type) :=
  | Ok (a : A)
  | Fail (e : go_error).
Arguments Ok {A} a.
Arguments Fail {A} e.

Definition is_Ok {A} (r : result A) : bool :=
  match r with Ok _ => true | Fail _ => false end.

(** A nil [error] is [None]. *)
Abbreviation error := (option go_error).

(** ** Computations: state passing with an early return on error *)

Definition M (W A : Type) : Type := W → result A * W.

Definition mret {W A} (a : A) : M W A := λ w, (Ok a, w).
Definition mfail {W A} (e : go_error) : M W A := λ w, (Fail e, w).
Definition mbind {W A B} (m : M W A) (k : A → M W B) : M W B :=
  λ w, match m w with
       | (Ok a, w') => k a w'
       | (Fail e, w') => (Fail e, w')
       end.

(** Runs [m], hands its error (if any) to the continuation, never returns early. *)
Definition mtry {W A B} (m : M W A) (k : result A → M W B) : M W B :=
  λ w, let '(r, w') := m w in k r w'.

Definition mget {W A} (f : W → A) : M W A := λ w, (Ok (f w), w).
Definition mmodify {W} (f : W → W) : M W unit := λ w, (Ok tt, f w).

(** A computation that succeeds is its success and its final state. *)
Lemma run_ok {W X} (m : M W X) (w : W) x : (m w).1 = Ok x → m w = (Ok x, (m w).2).
Proof. by destruct (m w) as [[y|e] w']; simpl; [intros [= ->]|]. Qed.

Lemma run_pair {W X} (m : M W X) (w : W) : m w = ((m w).1, (m w).2).
Proof. by destruct (m w). Qed.

(** A library call that returns an [error]. *)
Definition mact {W} (f : W → error * W) : M W unit :=
  λ w, let '(e, w') := f w in (match e with None => Ok tt | Some e => Fail e end, w').

Notation "'let!' x := m 'in' k" := (mbind m (λ x, k))
  (at level 10, x pattern, m at level 100, k at level 200) : go_scope.
Notation "m ';;!' k" := (mbind m (λ _, k))
  (at level 100, k at level 200, right associativity) : go_scope.

(** [for _, x := range l { body }] where the body may return early. *)
Fixpoint mfor {W A} (l : list A) (body : A → M W unit) : M W unit :=
  match l with
  | [] => mret tt
  | x :: l' => mbind (body x) (λ _, mfor l' body)
  end.

(** Loop rule: an invariant kept by every iteration, successful or not. *)
Lemma mfor_inv {W A} (I : W → Prop) (l : list A) (body : A → M W unit) w r w' :
  (∀ x w r w', x ∈ l → body x w = (r, w') → I w → I w') →
  mfor l body w = (r, w') → I w → I w'.
Proof.
  revert w. induction l as [|x l IH]; intros w Hb Hrun HI; simpl in *.
  { unfold mret in Hrun. by simplify_eq. }
  unfold mbind in Hrun. destruct (body x w) as [[[]|e] w1] eqn:E.
  - eapply (IH w1); [|done|eapply Hb; [|done|done]; set_solver].
    intros y w2 r2 w3 Hy. apply Hb. set_solver.
  - simplify_eq. eapply Hb; [|done|done]. set_solver.
Qed.

(** ** Lists as Go slices used as sets *)

Lemma list_fmap_NoDup_inj {A B} (f : A → B) (l : list A) :
  (∀ x y, x ∈ l → y ∈ l → f x = f y → x = y) → NoDup l → NoDup (f <$> l).
Proof.
  induction l as [|x l IH]; intros Hinj Hnd; simpl; [constructor|].
  apply NoDup_cons in Hnd as [Hx Hnd]. constructor.
  - rewrite list_elem_of_fmap. intros (y & Heq & Hy). apply Hx.
    by rewrite (Hinj x y) by set_solver.
  - apply IH; [|done]. intros y z Hy Hz. apply Hinj; set_solver.
Qed.

(** A duplicate-free list included in another is no longer than it. *)
Lemma NoDup_incl_length {A} (l k : list A) :
  NoDup l → (∀ x, x ∈ l → x ∈ k) → length l ≤ length k.
Proof. intros Hl Hk. apply submseteq_length, NoDup_submseteq; [done|]. intros ?. apply Hk. Qed.
