(* ===== verification/GoStrings.v ===== *)
(** * GoStrings: the string functions of the Go standard library the operator uses

    Positional digits, [strconv.ParseUint], [strconv.Itoa], the [%x] and [%d]
    verbs, [strings.Cut], [strings.HasPrefix], [strings.TrimPrefix] and
    [sort.Strings], each executable, with the print/parse round trips that the
    tunnel and address encodings rest on. A Go string is a sequence of bytes,
    here a [String.string]. *)

From S2P Require Import Prelude.

Local Open Scope Z_scope.

(** ** Positional notation *)

(** The digits of [n] in base [b], most significant first, without leading
    zeros ([0] is the single digit 0). [fuel] bounds their number. *)
Fixpoint to_digits (fuel : nat) (b n : Z) : list Z :=
  match fuel with
  | O => []
  | S f => if n <? b then [n] else to_digits f b (n / b) ++ [n mod b]
  end.

Definition of_digits (b : Z) (l : list Z) : Z := fold_left (λ a d, a * b + d) l 0.

Section digits.
Context (b : Z) (Hb : 2 ≤ b).

Lemma of_digits_snoc l d : of_digits b (l ++ [d]) = of_digits b l * b + d.
Proof. unfold of_digits. by rewrite fold_left_app. Qed.

Lemma of_to_digits fuel n :
  0 ≤ n < b ^ Z.of_nat fuel → of_digits b (to_digits fuel b n) = n.
Proof using Hb.
  revert n. induction fuel as [|f IH]; intros n Hn; [simpl in *; unfold of_digits; simpl; lia|].
  simpl. destruct (n <? b) eqn:E; unbool; [unfold of_digits; simpl; lia|].
  rewrite of_digits_snoc, IH.
  - pose proof (Z.div_mod n b ltac:(lia)). lia.
  - rewrite Nat2Z.inj_succ, Z.pow_succ_r in Hn by lia.
    split; [apply Z.div_pos; lia|]. apply Z.div_lt_upper_bound; lia.
Qed.

Lemma to_digits_range fuel n :
  0 ≤ n → Forall (λ d, 0 ≤ d < b) (to_digits fuel b n).
Proof using Hb.
  revert n. induction fuel as [|f IH]; intros n Hn; simpl; [done|].
  destruct (n <? b) eqn:E; unbool; [constructor; [lia|done]|].
  apply Forall_app; split; [apply IH, Z.div_pos; lia|].
  constructor; [|done]. apply Z.mod_pos_bound. lia.
Qed.

Lemma to_digits_nonnil fuel n : fuel ≠ 0%nat → to_digits fuel b n ≠ [].
Proof using Type.
  destruct fuel; [done|]. intros _. simpl. case_match; [done|].
  by destruct (to_digits fuel b (n / b)).
Qed.

Lemma to_digits_length fuel n : (length (to_digits fuel b n) ≤ fuel)%nat.
Proof using Type.
  revert n. induction fuel as [|f IH]; intros n; simpl; [lia|].
  case_match; simpl; [lia|]. rewrite length_app. simpl. pose proof (IH (n / b)). lia.
Qed.

(** Only [0] starts with a zero digit, and it is that digit alone. *)
Lemma to_digits_head fuel n d l :
  0 ≤ n < b ^ Z.of_nat fuel → to_digits fuel b n = d :: l → d = 0 → l = [] ∧ n = 0.
Proof using Hb.
  revert n d l. induction fuel as [|f IH]; intros n d l Hn Heq Hd; [done|].
  simpl in Heq. destruct (n <? b) eqn:E; unbool; [by simplify_eq|].
  rewrite Nat2Z.inj_succ, Z.pow_succ_r in Hn by lia.
  assert (Hq : 0 ≤ n / b < b ^ Z.of_nat f).
  { split; [apply Z.div_pos; lia|]. apply Z.div_lt_upper_bound; lia. }
  destruct (to_digits f b (n / b)) as [|d' l'] eqn:E'.
  - exfalso. destruct f; [simpl in Hq|by eapply to_digits_nonnil in E'].
    assert (1 ≤ n / b) by (apply Z.div_le_lower_bound; lia). lia.
  - simplify_eq/=. destruct (IH _ _ _ Hq E' eq_refl) as [-> H0].
    assert (1 ≤ n / b) by (apply Z.div_le_lower_bound; lia). lia.
Qed.

(** Accumulating digits never decreases the value. *)
Lemma of_digits_acc_le l a :
  0 ≤ a → Forall (λ d, 0 ≤ d) l → a ≤ fold_left (λ a d, a * b + d) l a.
Proof using Hb.
  revert a. induction l as [|d l IH]; intros a Ha Hl; simpl; [lia|].
  apply Forall_cons in Hl as [Hd Hl].
  transitivity (a * b + d); [nia|]. apply IH; [nia|done].
Qed.
End digits.

(** ** Digit characters *)

Definition ascii_of_Z (z : Z) : ascii := ascii_of_N (Z.to_N z).
Definition Z_of_ascii (c : ascii) : Z := Z.of_N (N_of_ascii c).

(** Lowercase digit, as [%x], [%d] and [strconv] print it. *)
Definition digit_char (d : Z) : ascii :=
  if d <? 10 then ascii_of_Z (48 + d) else ascii_of_Z (87 + d).

(** Value of a digit of any base up to 16, both letter cases. *)
Definition digit_val (c : ascii) : option Z :=
  let z := Z_of_ascii c in
  if (48 <=? z) && (z <=? 57) then Some (z - 48)
  else if (97 <=? z) && (z <=? 102) then Some (z - 87)
  else if (65 <=? z) && (z <=? 70) then Some (z - 55)
  else None.

Lemma Z_of_ascii_of_Z z : 0 ≤ z < 256 → Z_of_ascii (ascii_of_Z z) = z.
Proof.
  intros. unfold Z_of_ascii, ascii_of_Z. rewrite N_ascii_embedding by lia. lia.
Qed.

Lemma digit_val_char d : 0 ≤ d < 16 → digit_val (digit_char d) = Some d.
Proof.
  intros Hd. unfold digit_val, digit_char.
  destruct (d <? 10) eqn:E; unbool; rewrite Z_of_ascii_of_Z by lia;
    repeat (case_match; unbool); try lia; try (f_equal; lia);
    repeat match goal with H : _ && _ = false |- _ => apply andb_false_iff in H as [?|?] end;
    unbool; lia.
Qed.

Fixpoint string_of_digits (l : list Z) : string :=
  match l with
  | [] => ""
  | d :: l' => String (digit_char d) (string_of_digits l')
  end.

(** [strconv.Itoa] and the [%d] verb on a nonnegative 32-bit value. *)
Definition format_dec (n : Z) : string := string_of_digits (to_digits 10 10 n).

(** The [%x] verb on a uint32. *)
Definition format_hex (n : Z) : string := string_of_digits (to_digits 8 16 n).

(** The [%#x] verb on a uint32. *)
Definition format_hex_alt (n : Z) : string := String.append "0x" (format_hex n).

(** The [%08x] verb on a uint32. *)
Definition format_hex08 (n : Z) : string :=
  let l := to_digits 8 16 n in
  string_of_digits (replicate (8 - length l) 0 ++ l).

(** ** strconv.ParseUint *)

(** [ParseUint(s, base, bits)] for base 10 or 16: every byte a digit of the
    base, at least one, value at most [2^bits - 1]. *)
Definition uint_step (b max : Z) (acc : option Z) (c : ascii) : option Z :=
  a ← acc;
  d ← digit_val c;
  if (d <? b) && (a * b + d <=? max) then Some (a * b + d) else None.

Fixpoint string_fold {A} (f : A → ascii → A) (s : string) (a : A) : A :=
  match s with
  | "" => a
  | String c s' => string_fold f s' (f a c)
  end%string.

Definition ParseUint (s : string) (b bits : Z) : option Z :=
  if (s =? "")%string then None
  else string_fold (uint_step b (2 ^ bits - 1)) s (Some 0).

Lemma string_fold_app {A} (f : A → ascii → A) s t a :
  string_fold f (String.append s t) a = string_fold f t (string_fold f s a).
Proof. revert a. induction s; intros; simpl; auto. Qed.

Lemma uint_fold_digits b max l a :
  2 ≤ b ≤ 16 → 0 ≤ a → Forall (λ d, 0 ≤ d < b) l →
  fold_left (λ a d, a * b + d) l a ≤ max →
  string_fold (uint_step b max) (string_of_digits l) (Some a) =
    Some (fold_left (λ a d, a * b + d) l a).
Proof.
  intros Hb. revert a. induction l as [|d l IH]; intros a Ha Hl Hmax; simpl in *; [done|].
  apply Forall_cons in Hl as [Hd Hl].
  rewrite digit_val_char by lia. simpl.
  assert (a * b + d ≤ max).
  { etransitivity; [|exact Hmax]. apply of_digits_acc_le; [lia|nia|].
    eapply Forall_impl; [exact Hl|]. simpl; lia. }
  replace (d <? b) with true by (symmetry; apply Z.ltb_lt; lia).
  replace (a * b + d <=? max) with true by (symmetry; apply Z.leb_le; lia).
  simpl. apply IH; [nia|done|done].
Qed.

(** Printing then parsing a uint gives it back. *)
Lemma ParseUint_digits fuel b bits n :
  2 ≤ b ≤ 16 → fuel ≠ 0%nat → 0 ≤ n < 2 ^ bits → n < b ^ Z.of_nat fuel →
  ParseUint (string_of_digits (to_digits fuel b n)) b bits = Some n.
Proof.
  intros Hb Hf Hn Hfu. unfold ParseUint.
  pose proof (to_digits_nonnil b fuel n Hf) as Hnn.
  destruct (_ =? _)%string eqn:E.
  { apply String.eqb_eq in E. by destruct (to_digits fuel b n). }
  rewrite uint_fold_digits; [|done|lia|apply to_digits_range; lia|].
  - f_equal. apply (of_to_digits b); lia.
  - change (fold_left _ _ _) with (of_digits b (to_digits fuel b n)).
    rewrite of_to_digits; lia.
Qed.

Lemma ParseUint_range s b bits n :
  0 ≤ bits → 0 ≤ b → ParseUint s b bits = Some n → 0 ≤ n < 2 ^ bits.
Proof.
  intros Hbits Hb0. unfold ParseUint. case_match; [done|]. intros Hf.
  assert (Hinv : ∀ s a r, (∀ x, a = Some x → 0 ≤ x < 2 ^ bits) →
    string_fold (uint_step b (2 ^ bits - 1)) s a = Some r → 0 ≤ r < 2 ^ bits).
  { clear. intros s. induction s as [|c s IH]; intros a r Ha Hr; simpl in *; [auto|].
    eapply IH; [|exact Hr]. intros x Hx. unfold uint_step in Hx.
    destruct a as [a|]; simpl in Hx; [|done].
    destruct (digit_val c) as [d|] eqn:Ed; simpl in Hx; [|done].
    assert (0 ≤ d).
    { unfold digit_val in Ed. repeat (case_match; simplify_eq; unbool); lia. }
    specialize (Ha a eq_refl).
    destruct ((d <? b) && _) eqn:E; simplify_eq; unbool. nia. }
  eapply (Hinv s (Some 0)); [|exact Hf]. intros x [= <-].
  split; [lia|]. apply Z.pow_pos_nonneg; lia.
Qed.

(** ** strings.Cut, strings.HasPrefix, strings.TrimPrefix *)

Fixpoint Cut (s : string) (sep : ascii) : option (string * string) :=
  match s with
  | "" => None
  | String c s' =>
      if Ascii.eqb c sep then Some ("", s')
      else match Cut s' sep with
           | Some (before, after) => Some (String c before, after)
           | None => None
           end
  end%string.

Fixpoint strip_prefix (p s : string) : option string :=
  match p, s with
  | "", _ => Some s
  | String a p', String c s' => if Ascii.eqb a c then strip_prefix p' s' else None
  | String _ _, "" => None
  end%string.

Definition HasPrefix (s p : string) : bool :=
  match strip_prefix p s with Some _ => true | None => false end.

Definition TrimPrefix (s p : string) : string :=
  match strip_prefix p s with Some s' => s' | None => s end.

Fixpoint string_all (P : ascii → bool) (s : string) : bool :=
  match s with
  | "" => true
  | String c s' => P c && string_all P s'
  end%string.

Lemma string_all_app P s t :
  string_all P (String.append s t) = string_all P s && string_all P t.
Proof. induction s as [|c s IH]; simpl; [done|]. by rewrite IH, andb_assoc. Qed.

Lemma string_all_impl (P Q : ascii → bool) s :
  (∀ c, P c = true → Q c = true) → string_all P s = true → string_all Q s = true.
Proof.
  intros HPQ. induction s as [|c s IH]; simpl; [done|]. intros H. unbool.
  rewrite HPQ, IH; auto.
Qed.

(** A separator that does not occur in the first part is where [Cut] cuts. *)
Lemma Cut_app s sep t :
  string_all (λ c, negb (Ascii.eqb c sep)) s = true →
  Cut (String.append s (String sep t)) sep = Some (s, t).
Proof.
  induction s as [|c s IH]; simpl; intros H.
  - by rewrite Ascii.eqb_refl.
  - unbool. by rewrite H, IH.
Qed.

Lemma Cut_spec s sep a t :
  Cut s sep = Some (a, t) → s = String.append a (String sep t).
Proof.
  revert a. induction s as [|c s IH]; intros a; simpl; [done|].
  destruct (Ascii.eqb c sep) eqn:E.
  - intros [= <- <-]. apply Ascii.eqb_eq in E. by subst.
  - destruct (Cut s sep) as [[a' t']|] eqn:E'; intros [= <- <-].
    apply (f_equal (String c)). by apply IH.
Qed.

Lemma append_cons c s t : String.append (String c s) t = String c (String.append s t).
Proof. reflexivity. Qed.

Lemma append_nil_r s : String.append s "" = s.
Proof. induction s as [|c s IH]; rewrite ?append_cons; [done|congruence]. Qed.

Lemma append_assoc_s s t u :
  String.append (String.append s t) u = String.append s (String.append t u).
Proof. induction s as [|c s IH]; rewrite ?append_cons; [done|congruence]. Qed.

Lemma string_of_digits_app l k :
  string_of_digits (l ++ k) = String.append (string_of_digits l) (string_of_digits k).
Proof. induction l; simpl; rewrite ?append_cons; [done|congruence]. Qed.

(** The characters a printed number is made of. *)
Definition is_hex_digit (c : ascii) : bool :=
  match digit_val c with Some _ => true | None => false end.

Lemma string_of_digits_hex l :
  Forall (λ d, 0 ≤ d < 16) l → string_all is_hex_digit (string_of_digits l) = true.
Proof.
  induction 1 as [|d l Hd Hl IH]; simpl; [done|].
  unfold is_hex_digit at 1. by rewrite digit_val_char.
Qed.

Lemma ParseUint_hex_roundtrip n :
  0 ≤ n < 2 ^ 32 → ParseUint (TrimPrefix (format_hex_alt n) "0x") 16 32 = Some n.
Proof.
  intros Hn. change (TrimPrefix (format_hex_alt n) "0x") with (format_hex n).
  apply ParseUint_digits; lia.
Qed.

(** ** sort.Strings *)

Definition string_le (s t : string) : Prop := String.leb s t = true.
#[export] Instance string_le_dec s t : Decision (string_le s t).
Proof. unfold string_le. solve_decision. Defined.

Definition sort_strings (l : list string) : list string := merge_sort string_le l.

Lemma sort_strings_perm l : sort_strings l ≡ₚ l.
Proof. apply merge_sort_Permutation. Qed.

(** The byte-wise order is total and antisymmetric, so the sorted form of a list
    does not depend on the order of its elements. *)
#[export] Instance string_le_order : PartialOrder string_le.
Proof.
  assert (Hle : ∀ s t, string_le s t ↔ String.le s t).
  { intros s t. unfold string_le, String.le. by rewrite Is_true_true. }
  repeat split.
  - intros s. by apply Hle.
  - intros s t u. rewrite !Hle. by etrans.
  - intros s t H1 H2. by apply String.leb_antisym.
Qed.
#[export] Instance string_le_total : Total string_le.
Proof. intros s t. apply String.leb_total. Qed.

Lemma sort_strings_canonical l k : l ≡ₚ k → sort_strings l = sort_strings k.
Proof.
  intros Hp. apply (Sorted_unique string_le); [apply (Sorted_merge_sort string_le)..|].
  by rewrite !sort_strings_perm.
Qed.

Lemma elem_of_sort_strings x l : x ∈ sort_strings l ↔ x ∈ l.
Proof. by rewrite sort_strings_perm. Qed.

#[export] Hint Resolve sort_strings_perm : sentinel.
