(* ===== verification/GoPath.v ===== *)
(** * GoPath: path/filepath on Unix

    [Clean], [Dir] and [Join] as the attach path uses them: a path is split at
    its slashes, the components are folded over a stack, and the stack is
    printed back. [Dir_strip] gives the parent of a cleaned path, which is what
    makes a walk towards the root terminate. *)

From S2P Require Import Prelude GoStrings.

Definition slash : ascii := "/".

Fixpoint split_slash (s : string) : list string :=
  match s with
  | EmptyString => [""]
  | String c s' =>
      if Ascii.eqb c slash then "" :: split_slash s'
      else match split_slash s' with
           | h :: t => String c h :: t
           | [] => [String c ""]
           end
  end.

Fixpoint join_slash (l : list string) : string :=
  match l with
  | [] => ""
  | [x] => x
  | x :: l' => String.append x (String slash (join_slash l'))
  end.

(** One component of a path, on the stack of the components kept so far. *)
Definition clean_step (rooted : bool) (acc : list string) (c : string) : list string :=
  if (c =? "")%string || (c =? ".")%string then acc
  else if (c =? "..")%string then
    match acc with
    | top :: acc' => if (top =? "..")%string then c :: acc else acc'
    | [] => if rooted then [] else [c]
    end
  else c :: acc.

Definition clean_comps (rooted : bool) (l : list string) : list string :=
  rev (fold_left (clean_step rooted) l []).

Definition is_rooted (s : string) : bool := HasPrefix s "/".

Definition render (rooted : bool) (cs : list string) : string :=
  if rooted then String slash (join_slash cs)
  else match cs with [] => "." | _ => join_slash cs end.

Definition Clean (path : string) : string :=
  render (is_rooted path) (clean_comps (is_rooted path) (split_slash path)).

(** [Dir]: everything up to the last slash, cleaned. *)
Definition Dir (path : string) : string :=
  Clean (join_slash (removelast (split_slash path) ++ [""])).

(** [Join]: the non-empty elements separated by slashes, cleaned. *)
Definition Join (elems : list string) : string :=
  match filter (λ e, e ≠ "") elems with
  | [] => ""
  | l => Clean (join_slash l)
  end.

(** ** Components *)

Definition no_slash_in (s : string) : bool := string_all (λ c, negb (Ascii.eqb c slash)) s.

Lemma split_slash_free s : no_slash_in s = true → split_slash s = [s].
Proof.
  induction s as [|c s IH]; [done|]. unfold no_slash_in. simpl.
  destruct (Ascii.eqb c slash); [done|]. simpl. intros Hs. by rewrite IH.
Qed.

Lemma split_slash_app x t : no_slash_in x = true →
  split_slash (String.append x (String slash t)) = x :: split_slash t.
Proof.
  induction x as [|c x IH]; [done|]. unfold no_slash_in. simpl.
  destruct (Ascii.eqb c slash) eqn:E; [done|]. simpl. intros Hs. by rewrite IH.
Qed.

Lemma split_join l : l ≠ [] → Forall (λ x, no_slash_in x = true) l → split_slash (join_slash l) = l.
Proof.
  induction l as [|x l IH]; [done|]. intros _ [Hx Hl]%Forall_cons.
  destruct l as [|y l]; [by apply split_slash_free|].
  change (join_slash (x :: y :: l)) with (String.append x (String slash (join_slash (y :: l)))).
  rewrite split_slash_app by done. by rewrite IH.
Qed.

Lemma split_slash_comps s : Forall (λ x, no_slash_in x = true) (split_slash s).
Proof.
  induction s as [|c s IH]; simpl; [by repeat constructor|].
  destruct (Ascii.eqb c slash) eqn:E; [by constructor|].
  destruct (split_slash s) as [|h t].
  - constructor; [|constructor]. unfold no_slash_in. simpl. by rewrite E.
  - apply Forall_cons in IH as [Hh Ht]. constructor; [|done].
    unfold no_slash_in in *. simpl. by rewrite E.
Qed.

(** ** Cleaning *)

Lemma clean_fold_length rooted l acc :
  length (fold_left (clean_step rooted) l acc) ≤ length acc + length l.
Proof.
  revert acc. induction l as [|c l IH]; intros acc; simpl; [lia|].
  etransitivity; [apply IH|]. unfold clean_step. repeat case_match; simpl; lia.
Qed.

Definition stack_clean (rooted : bool) (acc : list string) : Prop :=
  fold_left (clean_step rooted) (rev acc) [] = acc.

(** Popping a clean stack leaves a clean stack. *)
Lemma stack_clean_tail rooted t acc : stack_clean rooted (t :: acc) → stack_clean rooted acc.
Proof.
  unfold stack_clean. simpl. rewrite fold_left_app. simpl. intros Hs.
  pose proof (clean_fold_length rooted (rev acc) []) as Hlen. rewrite length_rev in Hlen. simpl in Hlen.
  set (b := fold_left (clean_step rooted) (rev acc) []) in *.
  assert (Hne : clean_step rooted b t = t :: b → b = acc) by congruence.
  assert (Hlong : length (clean_step rooted b t) = S (length acc)) by by rewrite Hs.
  unfold clean_step in Hs, Hlong. repeat case_match; simplify_eq/=; (done || lia).
Qed.

Lemma stack_clean_step rooted acc c : stack_clean rooted acc → stack_clean rooted (clean_step rooted acc c).
Proof.
  intros Hacc.
  assert (Hpush : clean_step rooted acc c = c :: acc → stack_clean rooted (c :: acc)).
  { intros E. unfold stack_clean. simpl. by rewrite fold_left_app, Hacc. }
  destruct (decide (clean_step rooted acc c = c :: acc)) as [E|Hne]; [rewrite E; by apply Hpush|].
  revert Hne. unfold clean_step. repeat case_match; intros Hne; simplify_eq; try done.
  by eapply stack_clean_tail.
Qed.

Lemma clean_fold_clean rooted l acc :
  stack_clean rooted acc → stack_clean rooted (fold_left (clean_step rooted) l acc).
Proof.
  revert acc. induction l as [|c l IH]; intros acc Hacc; simpl; [done|].
  by apply IH, stack_clean_step.
Qed.

(** The components of a clean path: fixed by cleaning, free of slashes. *)
Definition comps_ok (rooted : bool) (cs : list string) : Prop :=
  clean_comps rooted cs = cs ∧ Forall (λ x, no_slash_in x = true) cs.

Lemma fold_left_comps rooted l acc :
  Forall (λ x, no_slash_in x = true) l → Forall (λ x, no_slash_in x = true) acc →
  Forall (λ x, no_slash_in x = true) (fold_left (clean_step rooted) l acc).
Proof.
  revert acc. induction l as [|c l IH]; intros acc Hl Hacc; simpl; [done|].
  apply Forall_cons in Hl as [Hc Hl]. apply IH; [done|].
  unfold clean_step. repeat case_match; repeat (apply Forall_cons in Hacc as [? ?] || constructor); done.
Qed.

Lemma clean_comps_ok rooted l : Forall (λ x, no_slash_in x = true) l →
  comps_ok rooted (clean_comps rooted l).
Proof.
  intros Hl. split.
  - pose proof (clean_fold_clean rooted l [] eq_refl) as Hs. unfold stack_clean in Hs.
    unfold clean_comps. by rewrite Hs.
  - apply Forall_rev, fold_left_comps; [done|constructor].
Qed.

Lemma comps_ok_removelast rooted cs : comps_ok rooted cs → comps_ok rooted (removelast cs).
Proof.
  destruct cs as [|x cs _] using rev_ind; [done|]. rewrite removelast_last.
  intros [Hc Hf]. apply Forall_app in Hf as [Hf _]. split; [|done].
  unfold clean_comps in *.
  assert (Hs : stack_clean rooted (x :: rev cs)).
  { unfold stack_clean. simpl. rewrite rev_involutive.
    rewrite <- (rev_involutive (fold_left _ _ _)), Hc, rev_app_distr. done. }
  apply stack_clean_tail in Hs. unfold stack_clean in Hs. rewrite rev_involutive in Hs.
  by rewrite Hs, rev_involutive.
Qed.

Lemma clean_comps_skip rooted l : clean_comps rooted (l ++ [""]) = clean_comps rooted l.
Proof. unfold clean_comps. by rewrite fold_left_app. Qed.

Lemma comps_ok_proper rooted cs : comps_ok rooted cs → Forall (λ x, x ≠ "" ∧ x ≠ ".") cs.
Proof.
  intros [Hc _]. rewrite <- Hc. apply Forall_rev.
  assert (Hgen : ∀ l acc, Forall (λ x : string, x ≠ "" ∧ x ≠ ".") acc →
    Forall (λ x, x ≠ "" ∧ x ≠ ".") (fold_left (clean_step rooted) l acc)).
  { induction l as [|c l IH]; intros acc Hacc; simpl; [done|]. apply IH.
    unfold clean_step. repeat case_match; unbool; subst; rewrite ?Forall_cons in *; naive_solver. }
  by apply Hgen.
Qed.

Lemma is_rooted_join x l : no_slash_in x = true → x ≠ "" → is_rooted (join_slash (x :: l)) = false.
Proof.
  intros Hx Hne. destruct x as [|c x]; [congruence|].
  assert (Hc : Ascii.eqb c slash = false).
  { unfold no_slash_in in Hx. simpl in Hx. by destruct (Ascii.eqb c slash). }
  assert (Hgen : ∀ s, is_rooted (String c s) = false).
  { intros s. unfold is_rooted, HasPrefix. cbn [strip_prefix]. destruct (Ascii.eqb "/" c) eqn:E; [|done].
    apply Ascii.eqb_eq in E. by subst. }
  destruct l; apply Hgen.
Qed.

Lemma Clean_join l : l ≠ [] → Forall (λ x, no_slash_in x = true) l →
  Clean (join_slash l) =
    render (is_rooted (join_slash l)) (clean_comps (is_rooted (join_slash l)) l).
Proof. intros Hne Hf. unfold Clean. by rewrite split_join. Qed.

(** The parent of a clean path drops its last component; the root and the
    current directory are their own parents. *)
Lemma Dir_strip rooted cs : comps_ok rooted cs → Dir (render rooted cs) = render rooted (removelast cs).
Proof.
  intros Hok. pose proof (comps_ok_proper _ _ Hok) as Hn.
  destruct (comps_ok_removelast _ _ Hok) as [Hc' Hf']. destruct Hok as [_ Hf].
  assert (Hnil : Forall (λ x, no_slash_in x = true) [""]) by by repeat constructor.
  unfold Dir. destruct rooted.
  - destruct cs as [|x cs]; [done|]. set (l := x :: cs) in *.
    change (split_slash (render true l)) with ("" :: split_slash (join_slash l)).
    rewrite split_join by done.
    change (removelast ("" :: l)) with ("" :: removelast l).
    rewrite Clean_join; [|done|repeat (constructor || apply Forall_app_2 || done)].
    replace (is_rooted _) with true by (by destruct (removelast l)).
    f_equal. transitivity (clean_comps true (removelast l ++ [""])); [done|]. by rewrite clean_comps_skip.
  - destruct cs as [|x cs]; [done|]. destruct cs as [|y cs].
    { change (render false [x]) with x. rewrite split_slash_free; [done|by apply Forall_inv in Hf]. }
    change (render false (x :: y :: cs)) with (join_slash (x :: y :: cs)).
    rewrite split_join by done. set (l := y :: cs) in *.
    change (removelast (x :: l)) with (x :: removelast l) in *.
    apply Forall_cons in Hf as [Hx _], Hn as [[Hxn _] _].
    rewrite Clean_join; [|done|by apply Forall_app_2].
    change ((x :: removelast l) ++ [""]) with (x :: (removelast l ++ [""])).
    rewrite is_rooted_join by done. f_equal. change (x :: (removelast l ++ [""])) with ((x :: removelast l) ++ [""]).
    by rewrite clean_comps_skip.
Qed.

Lemma string_length_append s t :
  String.length (String.append s t) = (String.length s + String.length t)%nat.
Proof. induction s as [|c s IH]; simpl; [done|]. by rewrite IH. Qed.

Lemma join_slash_last cs x : cs ≠ [] → (String.length (join_slash cs) < String.length (join_slash (cs ++ [x])))%nat.
Proof.
  intros Hne. induction cs as [|y cs IH]; [done|]. destruct cs as [|z cs].
  - simpl. rewrite string_length_append. simpl. lia.
  - change (join_slash (y :: z :: cs)) with (String.append y (String slash (join_slash (z :: cs)))).
    change (join_slash ((y :: z :: cs) ++ [x])) with
      (String.append y (String slash (join_slash ((z :: cs) ++ [x])))).
    rewrite !string_length_append. simpl String.length in *. specialize (IH ltac:(done)). lia.
Qed.

(** Stripping a component changes the path: the walk stops only at the top. *)
Lemma render_strip_ne rooted cs x : comps_ok rooted (cs ++ [x]) →
  render rooted cs ≠ render rooted (cs ++ [x]).
Proof.
  intros Hok Heq. pose proof (comps_ok_proper _ _ Hok) as Hp.
  apply Forall_app in Hp as [_ [[Hx1 Hx2] _]%Forall_cons].
  destruct cs as [|y cs].
  - destruct rooted; simpl in Heq; congruence.
  - pose proof (join_slash_last (y :: cs) x ltac:(done)) as Hlen.
    assert (join_slash (y :: cs) = join_slash ((y :: cs) ++ [x])) as Hj by (destruct rooted; simpl in *; congruence).
    rewrite Hj in Hlen. lia.
Qed.

Lemma Clean_comps path : ∃ rooted cs, Clean path = render rooted cs ∧ comps_ok rooted cs ∧
  (length cs ≤ String.length path + 1)%nat.
Proof.
  exists (is_rooted path), (clean_comps (is_rooted path) (split_slash path)).
  split; [done|]. split; [apply clean_comps_ok, split_slash_comps|].
  unfold clean_comps. rewrite length_rev. etransitivity; [apply clean_fold_length|]. simpl.
  induction path as [|c s IH]; simpl; [lia|]. destruct (Ascii.eqb c slash); simpl; [lia|].
  destruct (split_slash s); simpl in *; lia.
Qed.

Example clean_samples :
  Clean "/sys//fs/./bpf/../bpf/" = "/sys/fs/bpf" ∧ Clean "" = "." ∧ Clean "../a/.." = ".." ∧
  Dir "/sys/fs/bpf" = "/sys/fs" ∧ Dir "/" = "/" ∧ Dir "a" = "." ∧
  Join ["/sys/fs/bpf/sentinel5g"; "blocklist"] = "/sys/fs/bpf/sentinel5g/blocklist" ∧ Join [""; ""] = "".
Proof. by vm_compute. Qed.
