(* ===== verification/GoFloat.v ===== *)
(** * GoFloat: float64 as IEEE 754 binary64

    Threat scores, thresholds and rates are [float64] in the Go code. They are
    modelled with the Standard Library's executable [SpecFloat] at precision 53
    and exponent bound 1024, so NaN, signed zeros, infinities and rounding are
    the ones of the hardware. Includes the [%.4f] verb used to record a score. *)

From S2P Require Import Prelude GoStrings.
From Stdlib Require Import SpecFloat.

Local Open Scope Z_scope.

Abbreviation f64 := spec_float (only parsing).

Definition f64_ltb (x y : f64) : bool := SFltb x y.
Definition f64_leb (x y : f64) : bool := SFleb x y.
Definition f64_mul (x y : f64) : f64 := SFmul 53 1024 x y.
Definition f64_is_nan (x : f64) : bool := match x with S754_nan => true | _ => false end.

(** Conversion of an integer, rounded to nearest even. *)
Definition f64_of_Z (z : Z) : f64 := binary_normalize 53 1024 z 0 false.

(** The float64 nearest to the decimal literal [p/q] ([p], [q] below 2^53). *)
Definition f64_lit (p q : Z) : f64 := SFdiv 53 1024 (f64_of_Z p) (f64_of_Z q).

Definition f64_zero : f64 := S754_zero false.
Definition f64_one : f64 := f64_of_Z 1.

(** ** Exactness of integer conversions *)

Lemma digits2_pos_size p : digits2_pos p = Pos.size p.
Proof. induction p; simpl; congruence. Qed.

Lemma pos_iter_xO m k : Z.pos (Pos.iter xO m k) = Z.pos m * 2 ^ Z.pos k.
Proof.
  induction k as [|k IH] using Pos.peano_ind; [simpl; lia|].
  rewrite Pos.iter_succ, Pos2Z.inj_xO, IH, Pos2Z.inj_succ, Z.pow_succ_r by lia. lia.
Qed.

Lemma pos_size_iter_xO m k : Pos.size (Pos.iter xO m k) = (Pos.size m + k)%positive.
Proof.
  induction k as [|k IH] using Pos.peano_ind; [simpl; lia|].
  rewrite Pos.iter_succ. simpl. rewrite IH. lia.
Qed.

(** Size bounds, in [Z]. *)
Lemma pos_size_bounds m : 2 ^ (Z.pos (Pos.size m) - 1) ≤ Z.pos m < 2 ^ Z.pos (Pos.size m).
Proof.
  split.
  - pose proof (Pos.size_le m) as H. apply Pos2Z.pos_le_pos in H.
    rewrite Pos2Z.inj_pow, (Pos2Z.inj_xO m) in H.
    replace (Z.pos (Pos.size m)) with (Z.succ (Z.pos (Pos.size m) - 1)) in H by lia.
    rewrite Z.pow_succ_r in H by lia. lia.
  - pose proof (Pos.size_gt m) as H. apply Pos2Z.pos_lt_pos in H.
    by rewrite Pos2Z.inj_pow in H.
Qed.

(** Shifted mantissa of an exact integer: always 53 bits wide. *)
Definition mant (m : positive) : positive :=
  match (53 - Z.pos (Pos.size m))%Z with
  | Z.pos k => Pos.iter xO m k
  | _ => m
  end.

Lemma mant_val m : Z.pos (Pos.size m) ≤ 53 →
  Z.pos (mant m) = Z.pos m * 2 ^ (53 - Z.pos (Pos.size m)).
Proof.
  intros H. unfold mant. destruct (53 - Z.pos (Pos.size m)) as [|k|k] eqn:E; try lia.
  apply pos_iter_xO.
Qed.

Lemma mant_size m : Z.pos (Pos.size m) ≤ 53 → Z.pos (Pos.size (mant m)) = 53.
Proof.
  intros H. unfold mant. destruct (53 - Z.pos (Pos.size m)) as [|k|k] eqn:E; try lia.
  rewrite pos_size_iter_xO. lia.
Qed.

Lemma size_le_53 m : Z.pos m < 2 ^ 53 → Z.pos (Pos.size m) ≤ 53.
Proof.
  intros H. destruct (pos_size_bounds m) as [Hlo _].
  destruct (Z.le_gt_cases (Z.pos (Pos.size m)) 53); [done|exfalso].
  assert (2 ^ 53 ≤ 2 ^ (Z.pos (Pos.size m) - 1)) by (apply Z.pow_le_mono_r; lia). lia.
Qed.

Lemma shr_fexp_exact m e :
  Z.pos (Pos.size m) = 53 → - 1074 ≤ e →
  shr_fexp 53 1024 (Z.pos m) e loc_Exact =
    ({| shr_m := Z.pos m; shr_r := false; shr_s := false |}, e).
Proof.
  intros Hs He. unfold shr_fexp. cbn [Zdigits2 shr_record_of_loc].
  rewrite digits2_pos_size, Hs. unfold fexp, emin.
  replace (Z.max (53 + e - 53) (3 - 1024 - 53) - e) with 0 by lia. done.
Qed.

(** An integer below 2^53 is represented exactly. *)
Lemma f64_of_Z_pos m :
  Z.pos m < 2 ^ 53 → f64_of_Z (Z.pos m) = S754_finite false (mant m) (Z.pos (Pos.size m) - 53).
Proof.
  intros Hm. pose proof (size_le_53 m Hm) as Hs.
  unfold f64_of_Z, binary_normalize, binary_round.
  rewrite digits2_pos_size. unfold fexp, emin.
  replace (Z.max (Z.pos (Pos.size m) + 0 - 53) (3 - 1024 - 53)) with (Z.pos (Pos.size m) - 53) by lia.
  assert (Hal : shl_align m 0 (Z.pos (Pos.size m) - 53) = (mant m, Z.pos (Pos.size m) - 53)).
  { unfold shl_align, mant. rewrite Z.sub_0_r.
    destruct (Z.pos (Pos.size m) - 53) as [|k|k] eqn:E.
    - by replace (53 - Z.pos (Pos.size m)) with 0 by lia.
    - lia.
    - by replace (53 - Z.pos (Pos.size m)) with (Z.pos k) by lia. }
  rewrite Hal. unfold binary_round_aux.
  rewrite shr_fexp_exact by (rewrite ?mant_size; lia). cbn [shr_m loc_of_shr_record round_nearest_even].
  rewrite shr_fexp_exact by (rewrite ?mant_size; lia). cbn [shr_m].
  destruct (Z.leb_spec (Z.pos (Pos.size m) - 53) (1024 - 53)); [done|lia].
Qed.

(** Comparing converted integers is comparing the integers. *)
Lemma f64_ltb_of_Z a b :
  0 ≤ a < 2 ^ 53 → 0 ≤ b < 2 ^ 53 → f64_ltb (f64_of_Z a) (f64_of_Z b) = (a <? b).
Proof.
  intros Ha Hb. destruct a as [|a|a], b as [|b|b]; try lia; try done.
  - rewrite (f64_of_Z_pos b) by lia. done.
  - rewrite (f64_of_Z_pos a) by lia. done.
  - rewrite (f64_of_Z_pos a), (f64_of_Z_pos b) by lia.
    pose proof (size_le_53 a ltac:(lia)) as Hsa. pose proof (size_le_53 b ltac:(lia)) as Hsb.
    pose proof (pos_size_bounds a) as Ba. pose proof (pos_size_bounds b) as Bb.
    unfold f64_ltb, SFltb, SFcompare.
    set (sa := Z.pos (Pos.size a)) in *. set (sb := Z.pos (Pos.size b)) in *.
    destruct (Z.compare_spec (sa - 53) (sb - 53)) as [E|E|E].
    + change (Pos.compare_cont Eq (mant a) (mant b)) with (Z.pos (mant a) ?= Z.pos (mant b)).
      rewrite !mant_val by done.
      fold sa sb. replace sb with sa by lia.
      assert (0 < 2 ^ (53 - sa)) by (apply Z.pow_pos_nonneg; lia).
      destruct (Z.compare_spec (Z.pos a * 2 ^ (53 - sa)) (Z.pos b * 2 ^ (53 - sa)));
        destruct (Z.ltb_spec (Z.pos a) (Z.pos b)); nia.
    + assert (2 ^ sa ≤ 2 ^ (sb - 1)) by (apply Z.pow_le_mono_r; lia).
      destruct (Z.ltb_spec (Z.pos a) (Z.pos b)); [done|lia].
    + assert (2 ^ sb ≤ 2 ^ (sa - 1)) by (apply Z.pow_le_mono_r; lia).
      destruct (Z.ltb_spec (Z.pos a) (Z.pos b)); [lia|done].
Qed.

Lemma f64_ltb_irrefl x : f64_ltb x x = false.
Proof.
  destruct x as [[]|[]| |[] m e]; try done; unfold f64_ltb, SFltb, SFcompare;
    rewrite Z.compare_refl; change (Pos.compare_cont Eq m m) with ((m ?= m)%positive);
    by rewrite Pos.compare_refl.
Qed.

(** NaN compares with nothing. *)
Lemma f64_ltb_nan_r x : f64_ltb x S754_nan = false.
Proof. by destruct x as [[]|[]| |[] m e]. Qed.

(** ** The [%.4f] verb *)

(** Nearest integer to [n / d], ties to even. *)
Definition div_half_even (n d : Z) : Z :=
  let q := n / d in
  let r := n mod d in
  if 2 * r <? d then q
  else if d <? 2 * r then q + 1
  else if Z.even q then q else q + 1.

(** [|x| * 10^4] rounded to an integer, for a finite [x = m * 2^e]. *)
Definition scale4 (m : positive) (e : Z) : Z :=
  if 0 <=? e then Z.pos m * 10000 * 2 ^ e
  else div_half_even (Z.pos m * 10000) (2 ^ (- e)).

(** An integer part below 10^320 covers every finite float64. *)
Definition format_nat (n : Z) : string := string_of_digits (to_digits 320 10 n).

Definition pad4 (n : Z) : string :=
  string_of_digits [n / 1000 mod 10; n / 100 mod 10; n / 10 mod 10; n mod 10].

Definition format_fixed4 (x : f64) : string :=
  match x with
  | S754_nan => "NaN"
  | S754_infinity s => if s then "-Inf" else "+Inf"
  | S754_zero s => if s then "-0.0000" else "0.0000"
  | S754_finite s m e =>
      let n := scale4 m e in
      String.append (if s then "-" else "")
        (String.append (format_nat (n / 10000)) (String.append "." (pad4 (n mod 10000))))
  end.

Example format_fixed4_sample : format_fixed4 (f64_lit 93 100) = "0.9300"%string.
Proof. vm_compute. reflexivity. Qed.

Example format_fixed4_one : format_fixed4 f64_one = "1.0000"%string.
Proof. vm_compute. reflexivity. Qed.
