(* ===== verification/NetIP.v ===== *)
(** * NetIP: package net's IP addresses

    [net.IP] values, [To4], [To16], [String] (dotted IPv4, RFC 5952 IPv6) and
    [net.ParseIP], as the Go standard library defines them. The operator uses an
    address text as a map key (status entries, drift reconciliation), so what the
    other components need is that text and address determine each other: the
    round trips [ParseIP_String_v4], [ParseIP_String_v6] and the injectivity of
    [IPString] on canonical addresses. *)

From S2P Require Import Prelude GoStrings.

Local Open Scope Z_scope.

(** A [net.IP] is a byte slice; the nil slice is the empty list. *)
Abbreviation net_IP := (list Z) (only parsing).

Definition is_byte (z : Z) : Prop := 0 ≤ z < 256.
Definition v4InV6Prefix : list Z := replicate 10 0 ++ [255; 255].

Definition To4 (ip : net_IP) : option net_IP :=
  if (length ip =? 4)%nat then Some ip
  else if (length ip =? 16)%nat && bool_decide (take 12 ip = v4InV6Prefix) then Some (drop 12 ip)
  else None.

Definition To16 (ip : net_IP) : option net_IP :=
  if (length ip =? 4)%nat then Some (v4InV6Prefix ++ ip)
  else if (length ip =? 16)%nat then Some ip
  else None.

(** ** Printing *)

Definition colon : ascii := ":".
Definition dot : ascii := ".".

Definition hex16 (g : Z) : string := string_of_digits (to_digits 4 16 g).
Definition dec8 (b : Z) : string := string_of_digits (to_digits 3 10 b).

Definition string_v4 (a b c d : Z) : string :=
  String.append (dec8 a) (String dot (String.append (dec8 b) (String dot
    (String.append (dec8 c) (String dot (dec8 d)))))).

(** The eight 16-bit groups of a 16-byte address. *)
Fixpoint groups (l : list Z) : list Z :=
  match l with
  | hi :: lo :: l' => (hi * 256 + lo) :: groups l'
  | _ => []
  end.

Fixpoint group_bytes (gs : list Z) : list Z :=
  match gs with
  | [] => []
  | g :: gs' => g / 256 :: g mod 256 :: group_bytes gs'
  end.

Fixpoint zrun (gs : list Z) : nat :=
  match gs with
  | 0 :: gs' => S (zrun gs')
  | _ => O
  end.

(** The longest run of at least two zero groups, the first one on a tie. *)
Definition longer_run (gs : list Z) (best : option (nat * nat)) (i : nat) : option (nat * nat) :=
  let l := zrun (drop i gs) in
  if (2 <=? l)%nat && (match best with Some (_, n) => n | None => 0 end <? l)%nat
  then Some (i, l) else best.

Definition best_run (gs : list Z) : option (nat * nat) := fold_left (longer_run gs) (seq 0 8) None.

Fixpoint join_groups (gs : list Z) : string :=
  match gs with
  | [] => ""
  | [g] => hex16 g
  | g :: gs' => String.append (hex16 g) (String colon (join_groups gs'))
  end.

Definition string_v6 (ip : net_IP) : string :=
  let gs := groups ip in
  match best_run gs with
  | None => join_groups gs
  | Some (i, l) => String.append (join_groups (take i gs))
      (String colon (String colon (join_groups (drop (i + l) gs))))
  end.

Definition IPString (ip : net_IP) : string :=
  match ip with
  | [] => "<nil>"
  | _ =>
      match To4 ip with
      | Some [a; b; c; d] => string_v4 a b c d
      | Some _ => ""
      | None =>
          if (length ip =? 16)%nat then string_v6 ip
          else String "?" (string_of_digits (concat ((λ b, [b / 16; b mod 16]) <$> ip)))
      end
  end.

(** ** Parsing *)

Definition dec_val (c : ascii) : option Z :=
  let z := Z_of_ascii c in if (48 <=? z) && (z <=? 57) then Some (z - 48) else None.

(** [parseIPv4Fields]: [n] digits read so far in the current octet, of value
    [v]; [fs] the finished octets. An octet without digits (a leading, doubled
    or trailing dot) and a leading zero are errors. *)
Fixpoint parse4 (s : string) (v : Z) (n : nat) (fs : list Z) : option (list Z) :=
  match s with
  | EmptyString => if (n =? 0)%nat then None else if (length fs =? 3)%nat then Some (fs ++ [v]) else None
  | String c s' =>
      match dec_val c with
      | Some d =>
          if (n =? 1)%nat && (v =? 0) then None
          else if 255 <? v * 10 + d then None
          else parse4 s' (v * 10 + d) (S n) fs
      | None =>
          if Ascii.eqb c dot then
            if (n =? 0)%nat || (length fs =? 3)%nat then None
            else parse4 s' 0 0 (fs ++ [v])
          else None
      end
  end.

Fixpoint scan_hex (s : string) (off : nat) (acc : Z) : option (Z * nat * string) :=
  match s with
  | EmptyString => Some (acc, off, EmptyString)
  | String c s' =>
      match digit_val c with
      | Some d =>
          if (3 <? off)%nat || (65535 <? acc * 16 + d) then None
          else scan_hex s' (S off) (acc * 16 + d)
      | None => Some (acc, off, s)
      end
  end.

(** The loop of [parseIPv6]: each turn reads a group of two bytes, so [fuel] is
    half the number of bytes still missing. Returns the bytes read, the
    position of the ellipsis and what is left of the text. *)
Fixpoint parse6_loop (fuel : nat) (s : string) (acc : list Z) (ell : option nat)
    : option (list Z * option nat * string) :=
  match fuel with
  | O => Some (acc, ell, s)
  | S f =>
      match scan_hex s 0 0 with
      | None => None
      | Some (g, off, s1) =>
          if (off =? 0)%nat then None else
          match s1 with
          | EmptyString => Some (acc ++ [g / 256; g mod 256], ell, EmptyString)
          | String c s2 =>
              if Ascii.eqb c dot then
                if (match ell with None => negb (length acc =? 12)%nat | Some _ => false end)
                   || (16 <? length acc + 4)%nat then None
                else match parse4 s 0 0 [] with
                     | None => None
                     | Some fs => Some (acc ++ fs, ell, EmptyString)
                     end
              else if Ascii.eqb c colon then
                match s2 with
                | EmptyString => None
                | String c2 s3 =>
                    let acc' := acc ++ [g / 256; g mod 256] in
                    if Ascii.eqb c2 colon then
                      match ell with
                      | Some _ => None
                      | None =>
                          match s3 with
                          | EmptyString => Some (acc', Some (length acc'), EmptyString)
                          | _ => parse6_loop f s3 acc' (Some (length acc'))
                          end
                      end
                    else parse6_loop f s2 acc' ell
                end
              else None
          end
      end
  end.

Definition expand_ellipsis (r : option (list Z * option nat * string)) : option (list Z) :=
  match r with
  | Some (acc, ell, EmptyString) =>
      match (length acc <? 16)%nat, ell with
      | true, Some e => Some (take e acc ++ replicate (16 - length acc) 0 ++ drop e acc)
      | false, None => Some acc
      | _, _ => None
      end
  | _ => None
  end.

Definition parse6 (s : string) : option (list Z) :=
  match strip_prefix "::" s with
  | Some EmptyString => Some (replicate 16 0)
  | Some s' => expand_ellipsis (parse6_loop 8 s' [] (Some 0%nat))
  | None => expand_ellipsis (parse6_loop 8 s [] None)
  end.

(** The first of the bytes '.', ':' and '%' decides the family. *)
Fixpoint first_special (s : string) : option ascii :=
  match s with
  | EmptyString => None
  | String c s' =>
      if Ascii.eqb c dot || Ascii.eqb c colon || Ascii.eqb c "%" then Some c else first_special s'
  end.

Definition ParseIP (s : string) : option net_IP :=
  match first_special s with
  | Some c =>
      if Ascii.eqb c dot then fs ← parse4 s 0 0 []; Some (v4InV6Prefix ++ fs)
      else if Ascii.eqb c colon then
        if string_all (λ c, negb (Ascii.eqb c "%")) s then parse6 s else None
      else None
  | None => None
  end.

(** ** Canonical addresses *)

(** The endpoint an address denotes: 4 bytes for IPv4 (a v4-mapped IPv6
    address included), 16 bytes otherwise. *)
Definition canon (ip : net_IP) : option (list Z) :=
  match To4 ip with
  | Some v4 => Some v4
  | None => if (length ip =? 16)%nat then Some ip else None
  end.

Definition ip_wf (ip : net_IP) : Prop :=
  Forall is_byte ip ∧ (length ip = 4%nat ∨ length ip = 16%nat).

(** A canonical address: what [canon] returns. *)
Definition addr_wf (a : list Z) : Prop := Forall is_byte a ∧ canon a = Some a.

Example ParseIP_samples :
  ParseIP "10.0.0.1" = Some (v4InV6Prefix ++ [10; 0; 0; 1]) ∧
  ParseIP "::ffff:10.0.0.1" = Some (v4InV6Prefix ++ [10; 0; 0; 1]) ∧
  ParseIP "2001:db8::1" = Some ([32; 1; 13; 184] ++ replicate 11 0 ++ [1]) ∧
  ParseIP "1.2.3" = None ∧ ParseIP "01.2.3.4" = None ∧ ParseIP "1::2::3" = None ∧
  ParseIP "fe80::1%eth0" = None ∧ ParseIP "" = None ∧
  IPString ([32; 1; 13; 184] ++ replicate 11 0 ++ [1]) = "2001:db8::1"%string ∧
  IPString (replicate 16 0) = "::"%string.
Proof. vm_compute. repeat split. Qed.

(** ** IPv4 round trip *)

Lemma dec_val_char d : 0 ≤ d < 10 → dec_val (digit_char d) = Some d.
Proof.
  intros Hd. unfold dec_val, digit_char.
  destruct (d <? 10) eqn:E; unbool; [|lia]. rewrite Z_of_ascii_of_Z by lia.
  replace (48 <=? 48 + d) with true by (symmetry; apply Z.leb_le; lia).
  replace (48 + d <=? 57) with true by (symmetry; apply Z.leb_le; lia).
  simpl. f_equal. lia.
Qed.

(** Reading the digits of an octet whose value stays within a byte; the octet
    so far has a digit already unless it is empty, and is not a lone zero. *)
Lemma parse4_digits l v n fs rest :
  Forall (λ d, 0 ≤ d < 10) l → 0 ≤ v → (l = [] ∨ n ≠ 1%nat ∨ v ≠ 0) →
  (∀ d l', l = d :: l' → n = 0%nat → d = 0 → l' = []) → (n = 0%nat → v = 0) →
  fold_left (λ a d, a * 10 + d) l v ≤ 255 →
  parse4 (String.append (string_of_digits l) rest) v n fs =
    parse4 rest (fold_left (λ a d, a * 10 + d) l v) (n + length l) fs.
Proof.
  revert v n. induction l as [|d l IH]; intros v n Hl Hv Hz Hlead Hn0 Hmax;
    cbn [string_of_digits fold_left length].
  { by rewrite Nat.add_0_r. }
  apply Forall_cons in Hl as [Hd Hl].
  assert (Hle : v * 10 + d ≤ fold_left (λ a d, a * 10 + d) l (v * 10 + d)).
  { apply of_digits_acc_le; [lia|lia|]. eapply Forall_impl; [exact Hl|]. simpl. lia. }
  simpl in Hmax. rewrite append_cons. cbn [parse4]. rewrite dec_val_char by done.
  destruct ((n =? 1)%nat && (v =? 0)) eqn:E.
  { unbool. apply Nat.eqb_eq in H. destruct Hz as [?|[?|?]]; done. }
  destruct (255 <? v * 10 + d) eqn:E2; [unbool; lia|].
  rewrite IH; [|done|lia| | |lia|done].
  - f_equal. lia.
  - destruct l as [|d2 l]; [by left|right].
    destruct (decide (n = 0%nat)) as [Hn|Hn]; [|left; lia]. right.
    intros Hv0. specialize (Hlead d (d2 :: l) eq_refl Hn). rewrite Hn0 in Hv0 by done.
    assert (d2 :: l = []) by (apply Hlead; lia). done.
  - intros ? ? _ ?. lia.
Qed.

Lemma dec8_digits b : is_byte b →
  Forall (λ d, 0 ≤ d < 10) (to_digits 3 10 b) ∧ of_digits 10 (to_digits 3 10 b) = b
  ∧ to_digits 3 10 b ≠ [].
Proof.
  intros Hb. unfold is_byte in Hb. repeat split.
  - apply (to_digits_range 10); lia.
  - apply (of_to_digits 10); lia.
  - by apply to_digits_nonnil.
Qed.

Lemma parse4_octet b fs rest : is_byte b →
  parse4 (String.append (dec8 b) rest) 0 0 fs =
    parse4 rest b (length (to_digits 3 10 b)) fs ∧ length (to_digits 3 10 b) ≠ 0%nat.
Proof.
  intros Hb. destruct (dec8_digits b Hb) as (Hr & Hv & Hn). unfold dec8. split.
  - unfold of_digits in Hv. rewrite parse4_digits; [by rewrite Hv|done|lia|right; left; lia| |done|].
    + intros d l Hd _ ->. unfold is_byte in Hb.
      destruct (to_digits_head 10 ltac:(lia) 3 b 0 l) as [-> _]; [lia|done|done|done].
    + rewrite Hv. unfold is_byte in Hb. lia.
  - by destruct (to_digits 3 10 b).
Qed.

Lemma parse4_string_v4 a b c d :
  is_byte a → is_byte b → is_byte c → is_byte d →
  parse4 (string_v4 a b c d) 0 0 [] = Some [a; b; c; d].
Proof.
  intros Ha Hb Hc Hd. unfold string_v4.
  assert (Hdot : ∀ (rest : string) v n fs, n ≠ 0%nat → (length fs < 3)%nat →
    parse4 (String dot rest) v n fs = parse4 rest 0 0 (fs ++ [v])).
  { intros rest v n fs Hn Hl. cbn [parse4]. change (dec_val dot) with (@None Z).
    change (Ascii.eqb dot dot) with true. cbn iota.
    destruct (n =? 0)%nat eqn:E1; [by apply Nat.eqb_eq in E1|].
    destruct (length fs =? 3)%nat eqn:E2; [apply Nat.eqb_eq in E2; lia|done]. }
  destruct (parse4_octet a [] (String dot (String.append (dec8 b) (String dot
    (String.append (dec8 c) (String dot (dec8 d)))))) Ha) as [-> Hna].
  rewrite Hdot by (simpl; lia || done).
  destruct (parse4_octet b ([] ++ [a]) (String dot
    (String.append (dec8 c) (String dot (dec8 d)))) Hb) as [-> Hnb].
  rewrite Hdot by (simpl; lia || done).
  destruct (parse4_octet c (([] ++ [a]) ++ [b]) (String dot (dec8 d)) Hc) as [-> Hnc].
  rewrite Hdot by (simpl; lia || done).
  rewrite <- (append_nil_r (dec8 d)).
  destruct (parse4_octet d ((([] ++ [a]) ++ [b]) ++ [c]) "" Hd) as [-> Hnd].
  revert Hnd. cbn [parse4]. by destruct (length (to_digits 3 10 d)).
Qed.

Lemma first_special_skip s t :
  string_all is_hex_digit s = true → first_special (String.append s t) = first_special t.
Proof.
  induction s as [|c s IH]; [done|]. rewrite append_cons. simpl. intros H. unbool.
  rewrite <- IH by done.
  assert (Hc : Ascii.eqb c dot || Ascii.eqb c colon || Ascii.eqb c "%" = false).
  { destruct (Ascii.eqb c dot) eqn:E1; [apply Ascii.eqb_eq in E1; by subst|].
    destruct (Ascii.eqb c colon) eqn:E2; [apply Ascii.eqb_eq in E2; by subst|].
    destruct (Ascii.eqb c "%") eqn:E3; [apply Ascii.eqb_eq in E3; by subst|done]. }
  by rewrite Hc.
Qed.

Lemma dec8_hex_digits b : is_byte b → string_all is_hex_digit (dec8 b) = true.
Proof.
  intros Hb. apply string_of_digits_hex. destruct (dec8_digits b Hb) as (Hr & _).
  eapply Forall_impl; [exact Hr|]. simpl. lia.
Qed.

Lemma Forall_byte4 a b c d :
  Forall is_byte [a; b; c; d] ↔ is_byte a ∧ is_byte b ∧ is_byte c ∧ is_byte d.
Proof. rewrite !Forall_cons, Forall_nil. tauto. Qed.

Lemma length_4_inv {A} (l : list A) : length l = 4%nat → ∃ a b c d, l = [a; b; c; d].
Proof. destruct l as [|a [|b [|c [|d [|]]]]]; try done. eauto 6. Qed.

(** Parsing the text of an IPv4 address gives its v4-mapped form. *)
Lemma ParseIP_String_v4 (a : net_IP) :
  Forall is_byte a → length a = 4%nat → ParseIP (IPString a) = Some (v4InV6Prefix ++ a).
Proof.
  intros Hb Hl. destruct (length_4_inv _ Hl) as (x & y & z & t & ->).
  apply Forall_byte4 in Hb as (Hx & Hy & Hz & Ht).
  change (IPString [x; y; z; t]) with (string_v4 x y z t). unfold ParseIP.
  assert (first_special (string_v4 x y z t) = Some dot) as ->.
  { unfold string_v4. rewrite first_special_skip by by apply dec8_hex_digits. done. }
  change (Ascii.eqb dot dot) with true. cbn iota.
  by rewrite parse4_string_v4.
Qed.

(** ** IPv6 round trip *)

Definition is_group (g : Z) : Prop := 0 ≤ g < 65536.

Definition hex_stop (s : string) : Prop :=
  match s with EmptyString => True | String c _ => digit_val c = None end.

Lemma scan_hex_digits l off acc rest :
  Forall (λ d, 0 ≤ d < 16) l → 0 ≤ acc → (off + length l ≤ 4)%nat →
  fold_left (λ a d, a * 16 + d) l acc ≤ 65535 → hex_stop rest →
  scan_hex (String.append (string_of_digits l) rest) off acc =
    Some (fold_left (λ a d, a * 16 + d) l acc, (off + length l)%nat, rest).
Proof.
  revert off acc. induction l as [|d l IH]; intros off acc Hl Ha Hlen Hmax Hstop;
    cbn [string_of_digits fold_left length] in *.
  { rewrite Nat.add_0_r. change (String.append "" rest) with rest.
    destruct rest as [|c rest]; cbn [scan_hex]; [done|]. simpl in Hstop. by rewrite Hstop. }
  apply Forall_cons in Hl as [Hd Hl].
  assert (Hle : acc * 16 + d ≤ fold_left (λ a d, a * 16 + d) l (acc * 16 + d)).
  { apply of_digits_acc_le; [lia|lia|]. eapply Forall_impl; [exact Hl|]. simpl. lia. }
  rewrite append_cons. cbn [scan_hex]. rewrite digit_val_char by done.
  destruct ((3 <? off)%nat || (65535 <? acc * 16 + d)) eqn:E.
  { apply orb_true_iff in E as [E|E]; [apply Nat.ltb_lt in E; lia|unbool; lia]. }
  rewrite IH by (done || lia). f_equal. f_equal. f_equal. lia.
Qed.

Lemma hex16_digits g : is_group g →
  Forall (λ d, 0 ≤ d < 16) (to_digits 4 16 g) ∧ of_digits 16 (to_digits 4 16 g) = g
  ∧ to_digits 4 16 g ≠ [].
Proof.
  intros Hg. unfold is_group in Hg. repeat split.
  - apply (to_digits_range 16); lia.
  - apply (of_to_digits 16); lia.
  - by apply to_digits_nonnil.
Qed.

Lemma hex16_scan g rest : is_group g → hex_stop rest →
  ∃ n, scan_hex (String.append (hex16 g) rest) 0 0 = Some (g, S n, rest).
Proof.
  intros Hg Hs. destruct (hex16_digits g Hg) as (Hr & Hv & Hn). unfold of_digits in Hv.
  exists (pred (length (to_digits 4 16 g))). unfold hex16.
  rewrite scan_hex_digits; [|done|lia|apply to_digits_length| |done].
  - rewrite Hv. f_equal. f_equal. f_equal. by destruct (to_digits 4 16 g).
  - rewrite Hv. unfold is_group in Hg. lia.
Qed.

(** The text of a nonempty group list starts with a hex digit. *)
Lemma hex16_head g rest : is_group g →
  ∃ c s, String.append (hex16 g) rest = String c s ∧ is_hex_digit c = true.
Proof.
  intros Hg. destruct (hex16_digits g Hg) as (Hr & _ & Hn). unfold hex16.
  destruct (to_digits 4 16 g) as [|d l]; [done|]. apply Forall_cons in Hr as [Hd _].
  cbn [string_of_digits]. rewrite append_cons. do 2 eexists. split; [done|].
  unfold is_hex_digit. by rewrite digit_val_char.
Qed.

Lemma join_groups_cons g gs : gs ≠ [] →
  join_groups (g :: gs) = String.append (hex16 g) (String colon (join_groups gs)).
Proof. by destruct gs. Qed.

Lemma join_groups_head gs rest : gs ≠ [] → Forall is_group gs →
  ∃ c s, String.append (join_groups gs) rest = String c s ∧ is_hex_digit c = true.
Proof.
  destruct gs as [|g gs]; [done|]. intros _ [Hg _]%Forall_cons.
  destruct (decide (gs = [])) as [->|Hne]; [by apply hex16_head|].
  rewrite join_groups_cons, append_assoc_s by done. by apply hex16_head.
Qed.

Lemma hex_digit_not_colon c : is_hex_digit c = true → Ascii.eqb c colon = false.
Proof. intros H. destruct (Ascii.eqb c colon) eqn:E; [|done]. apply Ascii.eqb_eq in E. by subst. Qed.

(** One group followed by a colon and another group. *)
Lemma parse6_group f g s acc ell : is_group g →
  (∃ c t, s = String c t ∧ is_hex_digit c = true) →
  parse6_loop (S f) (String.append (hex16 g) (String colon s)) acc ell =
    parse6_loop f s (acc ++ [g / 256; g mod 256]) ell.
Proof.
  intros Hg (c & t & -> & Hc). cbn [parse6_loop].
  destruct (hex16_scan g (String colon (String c t)) Hg) as [n ->]; [done|].
  change (Ascii.eqb colon dot) with false. change (Ascii.eqb colon colon) with true.
  cbn iota. by rewrite (hex_digit_not_colon c Hc).
Qed.

Lemma parse6_join gs fuel acc ell :
  gs ≠ [] → Forall is_group gs → (length gs ≤ fuel)%nat →
  parse6_loop fuel (join_groups gs) acc ell = Some (acc ++ group_bytes gs, ell, EmptyString).
Proof.
  revert fuel acc. induction gs as [|g gs IH]; intros fuel acc Hne Hgs Hf; [done|].
  apply Forall_cons in Hgs as [Hg Hgs]. destruct fuel as [|f]; simpl in Hf; [lia|].
  destruct (decide (gs = [])) as [->|Hgne].
  - cbn [join_groups]. rewrite <- (append_nil_r (hex16 g)). cbn [parse6_loop].
    destruct (hex16_scan g "" Hg) as [n ->]; done.
  - rewrite join_groups_cons by done. rewrite parse6_group; [|done|].
    + rewrite IH by (done || lia). cbn [group_bytes]. by rewrite <- app_assoc.
    + destruct (join_groups_head gs "" Hgne Hgs) as (c & t & Heq & Hc).
      rewrite append_nil_r in Heq. eauto.
Qed.

Lemma parse6_join_ellipsis gs1 gs2 fuel acc :
  gs1 ≠ [] → Forall is_group gs1 → Forall is_group gs2 → (length gs1 + length gs2 ≤ fuel)%nat →
  parse6_loop fuel
    (String.append (join_groups gs1) (String colon (String colon (join_groups gs2)))) acc None =
  Some (acc ++ group_bytes gs1 ++ group_bytes gs2,
        Some (length acc + length (group_bytes gs1))%nat, EmptyString).
Proof.
  revert fuel acc. induction gs1 as [|g gs IH]; intros fuel acc Hne H1 H2 Hf; [done|].
  apply Forall_cons in H1 as [Hg Hgs]. destruct fuel as [|f]; simpl in Hf; [lia|].
  destruct (decide (gs = [])) as [->|Hgne].
  - cbn [join_groups parse6_loop].
    destruct (hex16_scan g (String colon (String colon (join_groups gs2))) Hg) as [n ->]; [done|].
    change (Ascii.eqb colon dot) with false. change (Ascii.eqb colon colon) with true. cbn iota.
    rewrite length_app. cbn [group_bytes length app]. change (S n =? 0)%nat with false. cbn iota.
    destruct (decide (gs2 = [])) as [->|Hne2].
    + done.
    + destruct (join_groups_head gs2 "" Hne2 H2) as (c & t & Heq & Hc).
      rewrite append_nil_r in Heq.
      assert (Hj : parse6_loop f (join_groups gs2) (acc ++ [g / 256; g mod 256])
        (Some (length acc + 2)%nat) = Some ((acc ++ [g / 256; g mod 256]) ++ group_bytes gs2,
        Some (length acc + 2)%nat, EmptyString)) by (apply parse6_join; simpl in *; auto; lia).
      rewrite Heq in Hj |- *. rewrite Hj, <- app_assoc. done.
  - rewrite join_groups_cons, append_assoc_s, append_cons by done.
    rewrite parse6_group; [|done|by apply join_groups_head].
    rewrite IH by (done || lia). cbn [group_bytes length]. rewrite length_app. simpl.
    rewrite <- app_assoc. simpl. f_equal. f_equal. f_equal. f_equal. lia.
Qed.

(** Groups and bytes determine each other. *)
Lemma group_bytes_groups l : Forall is_byte l → Nat.even (length l) = true →
  group_bytes (groups l) = l.
Proof.
  assert (H : ∀ n l, (length l ≤ n)%nat → Forall is_byte l → Nat.even (length l) = true →
    group_bytes (groups l) = l); [|intros; by eapply H].
  intros n. induction n as [|n IH]; intros [|x [|y t]] Hl Hb He; simpl in *; try done; try lia.
  apply Forall_cons in Hb as [Hx [Hy Ht]%Forall_cons]. unfold is_byte in *.
  rewrite (IH t) by (done || lia).
  replace ((x * 256 + y) / 256) with x by (rewrite Z.div_add_l, Z.div_small by lia; lia).
  replace ((x * 256 + y) mod 256) with y; [done|].
  rewrite Z.add_comm, Z.mod_add, Z.mod_small by lia. done.
Qed.

Lemma groups_range l : Forall is_byte l → Forall is_group (groups l).
Proof.
  assert (H : ∀ n l, (length l ≤ n)%nat → Forall is_byte l → Forall is_group (groups l));
    [|intros; by eapply H].
  intros n. induction n as [|n IH]; intros [|x [|y t]] Hl Hb; simpl in *; try done; try lia.
  apply Forall_cons in Hb as [Hx [Hy Ht]%Forall_cons]. unfold is_byte, is_group in *.
  constructor; [unfold is_group; lia|]. apply IH; [lia|done].
Qed.

Lemma groups_length_16 l : length l = 16%nat → length (groups l) = 8%nat.
Proof. intros H. do 17 (destruct l as [|? l]; try done). Qed.

Lemma group_bytes_app gs hs : group_bytes (gs ++ hs) = group_bytes gs ++ group_bytes hs.
Proof. induction gs as [|g gs IH]; simpl; [done|]. by rewrite IH. Qed.

Lemma group_bytes_length gs : length (group_bytes gs) = (2 * length gs)%nat.
Proof. induction gs as [|g gs IH]; simpl in *; [done|]. rewrite IH. lia. Qed.

Lemma group_bytes_zeros n : group_bytes (replicate n 0) = replicate (2 * n) 0.
Proof.
  induction n as [|n IH]; [done|]. rewrite Nat.mul_succ_r, Nat.add_comm. simpl. by rewrite IH.
Qed.

(** A zero run splits the groups around zeros. *)
Lemma zrun_spec gs : gs = replicate (zrun gs) 0 ++ drop (zrun gs) gs.
Proof.
  induction gs as [|g gs IH]; [done|]. destruct g as [|p|p]; [|done|done].
  simpl. by rewrite <- IH.
Qed.

Lemma zrun_le gs : (zrun gs ≤ length gs)%nat.
Proof. induction gs as [|[|p|p] gs IH]; simpl; lia. Qed.

Lemma best_run_spec gs i l : length gs = 8%nat → best_run gs = Some (i, l) →
  (i + l ≤ 8)%nat ∧ (2 ≤ l)%nat ∧ gs = take i gs ++ replicate l 0 ++ drop (i + l) gs.
Proof.
  intros Hlen. unfold best_run.
  set (good := λ b : option (nat * nat), match b with None => True
    | Some (i, l) => (i < 8)%nat ∧ (2 ≤ l)%nat ∧ l = zrun (drop i gs) end).
  assert (Hinv : ∀ ks b, Forall (λ i, (i < 8)%nat) ks → good b →
    good (fold_left (longer_run gs) ks b)).
  { induction ks as [|j js IH]; intros b Hi Hb; simpl; [done|].
    apply Forall_cons in Hi as [Hj Hjs]. apply IH; [done|]. unfold longer_run.
    case_match eqn:E; [|done]. apply andb_true_iff in E as [E1 _].
    apply Nat.leb_le in E1. done. }
  intros Heq. specialize (Hinv (seq 0 8) None). rewrite Heq in Hinv. destruct Hinv as (Hi & Hl & ->).
  { apply Forall_seq. lia. }
  { done. }
  pose proof (zrun_le (drop i gs)) as Hz. rewrite length_drop in Hz.
  split; [lia|]. split; [done|]. rewrite <- drop_drop, <- zrun_spec. by rewrite take_drop.
Qed.

Lemma parse6_string_v6 (ip : net_IP) :
  Forall is_byte ip → length ip = 16%nat → parse6 (string_v6 ip) = Some ip.
Proof.
  intros Hb Hl. pose proof (groups_range ip Hb) as Hg. pose proof (groups_length_16 ip Hl) as H8.
  pose proof (group_bytes_groups ip Hb) as Hgb. rewrite Hl in Hgb. specialize (Hgb eq_refl).
  unfold string_v6, parse6. set (gs := groups ip) in *.
  assert (Hstrip : ∀ hs rest, hs ≠ [] → Forall is_group hs →
    strip_prefix "::" (String.append (join_groups hs) rest) = None).
  { intros hs rest Hne Hhs. destruct (join_groups_head hs rest Hne Hhs) as (c & t & -> & Hc).
    apply hex_digit_not_colon in Hc. cbn [strip_prefix]. rewrite Ascii.eqb_sym. 
    change (":"%char) with colon. by rewrite Hc. }
  destruct (best_run gs) as [[i l]|] eqn:Erun.
  - destruct (best_run_spec gs i l H8 Erun) as (Hil & Hl2 & Hsplit).
    assert (Hpost : Forall is_group (drop (i + l) gs)) by by apply Forall_drop.
    assert (Hbytes : ip = group_bytes (take i gs) ++ replicate (2 * l) 0
      ++ group_bytes (drop (i + l) gs)).
    { rewrite <- Hgb at 1. rewrite Hsplit at 1. by rewrite !group_bytes_app, group_bytes_zeros. }
    assert (Hlp : length (group_bytes (take i gs)) = (2 * i)%nat)
      by (rewrite group_bytes_length, length_take; lia).
    assert (Hlq : length (group_bytes (drop (i + l) gs)) = (2 * (8 - (i + l)))%nat)
      by (rewrite group_bytes_length, length_drop; lia).
    destruct (decide (i = 0%nat)) as [->|Hi].
    + rewrite take_0 in Hbytes. cbn [group_bytes app] in Hbytes.
      change (String.append (join_groups (take 0 gs)) ?x) with x.
      cbn [strip_prefix]. rewrite !Ascii.eqb_refl.
      destruct (decide (drop (0 + l) gs = [])) as [Hnil|Hne].
      * rewrite Hnil. cbn [join_groups]. rewrite Hnil in Hlq, Hbytes. simpl in Hlq, Hbytes.
        rewrite Hbytes, app_nil_r. f_equal. f_equal. lia.
      * destruct (join_groups_head _ "" Hne Hpost) as (c & t & Heq & _). rewrite append_nil_r in Heq.
        pose proof (parse6_join _ 8 [] (Some 0%nat) Hne Hpost) as Hp.
        rewrite length_drop in Hp. specialize (Hp ltac:(lia)).
        rewrite Heq in Hp |- *. rewrite Hp. cbn [expand_ellipsis app].
        destruct (_ <? 16)%nat eqn:E; [|apply Nat.ltb_ge in E; lia].
        rewrite take_0, drop_0, Hlq. cbn [app]. rewrite Hbytes at 1. f_equal.
        f_equal. f_equal. lia.
    + assert (Hne : take i gs ≠ []) by (intros E; apply (f_equal length) in E;
        rewrite length_take in E; simpl in E; lia).
      rewrite Hstrip by (done || by apply Forall_take).
      rewrite parse6_join_ellipsis; [|done|by apply Forall_take|done|
        rewrite length_take, length_drop; lia].
      cbn [expand_ellipsis length app Nat.add]. rewrite !length_app, Hlp, Hlq.
      destruct (_ <? 16)%nat eqn:E; [|apply Nat.ltb_ge in E; lia].
      rewrite take_app_length', drop_app_length' by done.
      rewrite Hbytes at 1. f_equal. f_equal. f_equal. f_equal. lia.
  - assert (gs ≠ []) as Hne by (by destruct gs).
    pose proof (Hstrip gs "" Hne Hg) as Hs. rewrite append_nil_r in Hs. rewrite Hs.
    rewrite parse6_join by (done || lia). cbn [expand_ellipsis app].
    rewrite Hgb, Hl. done.
Qed.

Definition hex_or_colon (c : ascii) : bool := is_hex_digit c || Ascii.eqb c colon.

Lemma hex16_hex_digits g : is_group g → string_all is_hex_digit (hex16 g) = true.
Proof. intros Hg. apply string_of_digits_hex. by destruct (hex16_digits g Hg). Qed.

Lemma join_groups_chars gs : Forall is_group gs → string_all hex_or_colon (join_groups gs) = true.
Proof.
  induction gs as [|g gs IH]; intros Hgs; [done|]. apply Forall_cons in Hgs as [Hg Hgs].
  assert (Hx : string_all hex_or_colon (hex16 g) = true).
  { eapply string_all_impl; [|by apply hex16_hex_digits]. intros c Hc. unfold hex_or_colon. by rewrite Hc. }
  destruct (decide (gs = [])) as [->|Hne]; [done|].
  rewrite join_groups_cons, string_all_app, Hx by done. cbn. by apply IH.
Qed.

Lemma first_special_hex_colon s : string_all hex_or_colon s = true →
  string_all is_hex_digit s = true ∨ first_special s = Some colon.
Proof.
  induction s as [|c s IH]; cbn [string_all first_special]; intros H; [by left|]. unbool.
  unfold hex_or_colon in H. apply orb_true_iff in H as [H|H].
  - pose proof (first_special_skip (String c "") s) as Hsk. cbn [string_all] in Hsk.
    rewrite H in Hsk. specialize (Hsk eq_refl). change (String.append (String c "") s) with (String c s) in Hsk.
    cbn [first_special] in Hsk. rewrite Hsk, H. by apply IH.
  - right. apply Ascii.eqb_eq in H. by subst.
Qed.

Lemma string_v6_chars (ip : net_IP) : Forall is_byte ip →
  string_all hex_or_colon (string_v6 ip) = true.
Proof.
  intros Hb. pose proof (groups_range ip Hb) as Hg. unfold string_v6.
  destruct (best_run (groups ip)) as [[i l]|]; [|by apply join_groups_chars].
  rewrite string_all_app, join_groups_chars by by apply Forall_take.
  cbn. by apply join_groups_chars, Forall_drop.
Qed.

Lemma string_v6_has_colon (ip : net_IP) : length ip = 16%nat →
  string_all is_hex_digit (string_v6 ip) = false.
Proof.
  intros Hl. unfold string_v6. destruct (best_run (groups ip)) as [[i l]|].
  - rewrite string_all_app. cbn. apply andb_false_r.
  - pose proof (groups_length_16 ip Hl) as H8. destruct (groups ip) as [|g [|h gs]]; try done.
    rewrite join_groups_cons, string_all_app by done. cbn. apply andb_false_r.
Qed.

(** Parsing the text of an IPv6 address gives it back. *)
Lemma ParseIP_String_v6 (ip : net_IP) :
  Forall is_byte ip → length ip = 16%nat → To4 ip = None → ParseIP (IPString ip) = Some ip.
Proof.
  intros Hb Hl H4.
  assert (IPString ip = string_v6 ip) as ->.
  { unfold IPString. rewrite H4, Hl. by destruct ip. }
  pose proof (string_v6_chars ip Hb) as Hc. unfold ParseIP.
  destruct (first_special_hex_colon _ Hc) as [Hh| ->].
  { rewrite string_v6_has_colon in Hh by done. done. }
  change (Ascii.eqb colon dot) with false. change (Ascii.eqb colon colon) with true. cbn iota.
  assert (string_all (λ c, negb (Ascii.eqb c "%")) (string_v6 ip) = true) as ->.
  { eapply string_all_impl; [|exact Hc]. intros c Hcc. apply negb_true_iff.
    destruct (Ascii.eqb c "%") eqn:E; [|done]. apply Ascii.eqb_eq in E. by subst. }
  by apply parse6_string_v6.
Qed.

(** ** Canonical addresses determine and are determined by their text *)

Lemma To4_length (ip v : net_IP) : To4 ip = Some v → length v = 4%nat.
Proof.
  unfold To4. destruct (length ip =? 4)%nat eqn:E; [intros [= <-]; by apply Nat.eqb_eq|].
  destruct (_ && _) eqn:E2; [|done]. intros [= <-]. apply andb_true_iff in E2 as [E2 _].
  apply Nat.eqb_eq in E2. rewrite length_drop. lia.
Qed.

Lemma To4_bytes (ip v : net_IP) : Forall is_byte ip → To4 ip = Some v → Forall is_byte v.
Proof. unfold To4. intros Hb H. repeat case_match; simplify_eq; [done|by apply Forall_drop]. Qed.

Lemma To4_mapped (v : net_IP) : length v = 4%nat → To4 (v4InV6Prefix ++ v) = Some v.
Proof. intros H. by destruct (length_4_inv _ H) as (a & b & c & d & ->). Qed.

Lemma To4_4 (v : net_IP) : length v = 4%nat → To4 v = Some v.
Proof. intros H. unfold To4. by rewrite H. Qed.

Lemma canon_wf (ip : net_IP) : ip_wf ip → ∃ a, canon ip = Some a ∧ addr_wf a.
Proof.
  intros [Hb Hl]. unfold canon. destruct (To4 ip) as [v|] eqn:E.
  - exists v. pose proof (To4_length _ _ E). split; [done|]. split; [by eapply To4_bytes|].
    unfold canon. by rewrite To4_4.
  - destruct Hl as [Hl|Hl]; [by rewrite To4_4 in E|]. rewrite Hl. exists ip.
    split; [done|]. split; [done|]. unfold canon. by rewrite E, Hl.
Qed.

Lemma addr_wf_cases (a : list Z) : addr_wf a →
  Forall is_byte a ∧ (length a = 4%nat ∨ (length a = 16%nat ∧ To4 a = None)).
Proof.
  intros [Hb Hc]. split; [done|]. unfold canon in Hc. destruct (To4 a) as [v|] eqn:E.
  - left. simplify_eq. by eapply To4_length.
  - right. destruct (length a =? 16)%nat eqn:E2; [|done]. split; [by apply Nat.eqb_eq|done].
Qed.

Lemma addr_wf_ip_wf (a : list Z) : addr_wf a → ip_wf a.
Proof. intros [Hb [?|[? _]]]%addr_wf_cases; split; auto. Qed.

(** The text of an address depends only on the endpoint it denotes. *)
Lemma IPString_canon (ip a : net_IP) : canon ip = Some a → IPString ip = IPString a.
Proof.
  unfold canon. destruct (To4 ip) as [v|] eqn:E.
  - intros [= <-]. pose proof (To4_length _ _ E) as Hl.
    destruct (length_4_inv _ Hl) as (x & y & z & t & ->). unfold IPString. rewrite E.
    by destruct ip.
  - destruct (length ip =? 16)%nat eqn:E2; [|done]. by intros [= <-].
Qed.

(** Parsing the text of an address finds the same endpoint. *)
Lemma ParseIP_IPString (ip : net_IP) : ip_wf ip →
  ∃ ip', ParseIP (IPString ip) = Some ip' ∧ canon ip' = canon ip.
Proof.
  intros Hwf. destruct (canon_wf ip Hwf) as (a & Ha & Hawf).
  rewrite (IPString_canon _ _ Ha). destruct (addr_wf_cases a Hawf) as [Hb [Hl|[Hl H4]]].
  - rewrite ParseIP_String_v4 by done. eexists. split; [done|].
    rewrite Ha. unfold canon. by rewrite To4_mapped.
  - rewrite ParseIP_String_v6 by done. eexists. split; [done|]. by destruct Hawf as [_ ->].
Qed.

Lemma IPString_inj (a b : list Z) : addr_wf a → addr_wf b → IPString a = IPString b → a = b.
Proof.
  intros Ha Hb Heq. destruct (ParseIP_IPString a (addr_wf_ip_wf _ Ha)) as (x & Hx & Hcx).
  destruct (ParseIP_IPString b (addr_wf_ip_wf _ Hb)) as (y & Hy & Hcy).
  rewrite Heq, Hy in Hx. simplify_eq. destruct Ha as [_ Ha], Hb as [_ Hb]. congruence.
Qed.

Lemma IPString_no_slash (ip : net_IP) : ip_wf ip →
  string_all (λ c, negb (Ascii.eqb c "/")) (IPString ip) = true.
Proof.
  intros Hwf. destruct (canon_wf ip Hwf) as (a & Ha & Hawf). rewrite (IPString_canon _ _ Ha).
  assert (Himp : ∀ c, is_hex_digit c = true → negb (Ascii.eqb c "/") = true).
  { intros c Hc. destruct (Ascii.eqb c "/") eqn:E; [|done]. apply Ascii.eqb_eq in E. by subst. }
  destruct (addr_wf_cases a Hawf) as [Hb [Hl|[Hl H4]]].
  - destruct (length_4_inv _ Hl) as (x & y & z & t & ->).
    apply Forall_byte4 in Hb as (Hx & Hy & Hz & Ht).
    change (IPString [x; y; z; t]) with (string_v4 x y z t). unfold string_v4.
    assert (Hd : ∀ q, is_byte q → string_all (λ c, negb (Ascii.eqb c "/")) (dec8 q) = true).
    { intros q Hq. eapply string_all_impl; [exact Himp|by apply dec8_hex_digits]. }
    repeat (rewrite string_all_app, Hd by done; cbn [string_all];
      change (negb (Ascii.eqb dot "/")) with true; cbn [andb]). by apply Hd.
  - assert (IPString a = string_v6 a) as -> by (unfold IPString; rewrite H4, Hl; by destruct a).
    eapply string_all_impl; [|by apply string_v6_chars]. intros c Hc.
    unfold hex_or_colon in Hc. apply orb_true_iff in Hc as [Hc|Hc]; [auto|].
    apply Ascii.eqb_eq in Hc. by subst.
Qed.

(** ** What [ParseIP] returns is a 16-byte address *)

Lemma dec_val_range c d : dec_val c = Some d → 0 ≤ d < 10.
Proof. unfold dec_val. case_match eqn:E; [|done]. intros [= <-]. unbool. lia. Qed.

Lemma parse4_wf s v n fs r :
  parse4 s v n fs = Some r → 0 ≤ v ≤ 255 → Forall is_byte fs → (length fs ≤ 3)%nat →
  Forall is_byte r ∧ length r = 4%nat.
Proof.
  revert v n fs. induction s as [|c s IH]; intros v n fs H Hv Hfs Hl; cbn [parse4] in H.
  - destruct (n =? 0)%nat; [done|]. destruct (length fs =? 3)%nat eqn:E; [|done].
    apply Nat.eqb_eq in E. simplify_eq. split.
    + apply Forall_app; split; [done|]. constructor; [unfold is_byte; lia|done].
    + rewrite length_app. simpl. lia.
  - destruct (dec_val c) as [d|] eqn:Ed.
    + pose proof (dec_val_range _ _ Ed). repeat (case_match; try done). unbool.
      eapply IH; [exact H|lia|done|done].
    + destruct (Ascii.eqb c dot); [|done].
      destruct (_ || _) eqn:E; [done|]. apply orb_false_iff in E as [_ E].
      apply Nat.eqb_neq in E. eapply IH; [exact H|lia| |].
      * apply Forall_app; split; [done|]. constructor; [unfold is_byte; lia|done].
      * rewrite length_app. simpl. lia.
Qed.

Lemma digit_val_range c d : digit_val c = Some d → 0 ≤ d < 16.
Proof. unfold digit_val. intros. repeat (case_match; simplify_eq; unbool); lia. Qed.

Lemma scan_hex_range s off acc g n t :
  scan_hex s off acc = Some (g, n, t) → is_group acc → is_group g.
Proof.
  revert off acc. induction s as [|c s IH]; intros off acc H Ha; cbn [scan_hex] in H; [by simplify_eq|].
  destruct (digit_val c) as [d|] eqn:Ed; [|by simplify_eq].
  pose proof (digit_val_range _ _ Ed). case_match eqn:E; [done|]. apply orb_false_iff in E as [_ E].
  unbool. eapply IH; [exact H|]. unfold is_group in *. lia.
Qed.

Lemma group_pair_bytes g : is_group g → Forall is_byte [g / 256; g mod 256].
Proof.
  unfold is_group, is_byte. intros Hg. repeat constructor; try (apply Z.mod_pos_bound; lia).
  - apply Z.div_pos; lia.
  - apply Z.div_lt_upper_bound; lia.
Qed.

Lemma parse6_loop_wf fuel s acc ell r e t :
  parse6_loop fuel s acc ell = Some (r, e, t) →
  Forall is_byte acc → (length acc + 2 * fuel = 16)%nat → (∀ k, ell = Some k → (k ≤ length acc)%nat) →
  Forall is_byte r ∧ (length r ≤ 16)%nat ∧ (∀ k, e = Some k → (k ≤ length r)%nat).
Proof.
  revert s acc ell. induction fuel as [|f IH]; intros s acc ell H Hb Hl He; cbn [parse6_loop] in H.
  { simplify_eq. split; [done|]. split; [lia|done]. }
  destruct (scan_hex s 0 0) as [[[g n] s1]|] eqn:Es; [|done].
  assert (Hg : is_group g) by (eapply scan_hex_range; [exact Es|unfold is_group; lia]).
  pose proof (group_pair_bytes g Hg) as Hgb. destruct (n =? 0)%nat; [done|].
  assert (Hb' : Forall is_byte (acc ++ [g / 256; g mod 256])) by by apply Forall_app.
  assert (Hl' : length (acc ++ [g / 256; g mod 256]) = (length acc + 2)%nat) by by rewrite length_app.
  destruct s1 as [|c s2].
  { simplify_eq. split; [done|]. rewrite Hl'. split; [lia|]. intros k Hk. specialize (He k Hk). lia. }
  destruct (Ascii.eqb c dot).
  { destruct (_ || (16 <? length acc + 4)%nat) eqn:E; [done|]. apply orb_false_iff in E as [_ E].
    apply Nat.ltb_ge in E. destruct (parse4 s 0 0 []) as [fs|] eqn:E4; [|done]. simplify_eq.
    apply parse4_wf in E4 as [Hfs Hfl]; [|lia|done|simpl; lia].
    split; [by apply Forall_app|]. rewrite length_app. split; [lia|]. intros k Hk.
    specialize (He k Hk). lia. }
  destruct (Ascii.eqb c colon); [|done]. destruct s2 as [|c2 s3]; [done|].
  destruct (Ascii.eqb c2 colon).
  - destruct ell; [done|]. destruct s3 as [|c3 s4].
    + simplify_eq. split; [done|]. rewrite Hl'. split; [lia|]. intros k Hk. simplify_eq. lia.
    + eapply IH; [exact H|done|lia|]. intros k Hk. simplify_eq. lia.
  - eapply IH; [exact H|done|lia|]. intros k Hk. specialize (He k Hk). lia.
Qed.

Lemma expand_ellipsis_wf fuel s acc ell ip :
  expand_ellipsis (parse6_loop fuel s acc ell) = Some ip →
  Forall is_byte acc → (length acc + 2 * fuel = 16)%nat → (∀ k, ell = Some k → (k ≤ length acc)%nat) →
  Forall is_byte ip ∧ length ip = 16%nat.
Proof.
  intros H Hb Hl He. destruct (parse6_loop fuel s acc ell) as [[[r e] t]|] eqn:E; [|done].
  destruct (parse6_loop_wf _ _ _ _ _ _ _ E Hb Hl He) as (Hrb & Hrl & Hre).
  cbn [expand_ellipsis] in H. destruct t; [|done].
  destruct (length r <? 16)%nat eqn:E16, e as [k|]; simplify_eq.
  - apply Nat.ltb_lt in E16. specialize (Hre k eq_refl). split.
    + apply Forall_app; split; [by apply Forall_take|]. apply Forall_app; split; [|by apply Forall_drop].
      apply Forall_replicate. unfold is_byte. lia.
    + rewrite !length_app, length_take, length_replicate, length_drop. lia.
  - apply Nat.ltb_ge in E16. split; [done|lia].
Qed.

Lemma ParseIP_wf s ip : ParseIP s = Some ip → ip_wf ip ∧ length ip = 16%nat.
Proof.
  assert (Hsuf : Forall is_byte ip ∧ length ip = 16%nat → ip_wf ip ∧ length ip = 16%nat)
    by (intros [??]; split; [split; auto|done]).
  unfold ParseIP. destruct (first_special s) as [c|]; [|done].
  destruct (Ascii.eqb c dot).
  - destruct (parse4 s 0 0 []) as [fs|] eqn:E; [|done]. intros [= <-]. apply Hsuf.
    apply parse4_wf in E as [Hf Hl]; [|lia|done|simpl; lia]. split.
    + repeat (constructor; [unfold is_byte; lia|]). done.
    + simpl. by rewrite Hl.
  - destruct (Ascii.eqb c colon); [|done]. case_match; [|done]. unfold parse6. intros H0. apply Hsuf.
    destruct (strip_prefix "::" s) as [[|c2 s2]|].
    + simplify_eq. split; [|done]. apply Forall_replicate. unfold is_byte. lia.
    + eapply expand_ellipsis_wf; [exact H0|done|done|]. intros k Hk. simplify_eq. done.
    + eapply expand_ellipsis_wf; [exact H0|done|done|]. done.
Qed.

(** ** What [ParseIP] accepts holds no slash *)

Definition not_slash (c : ascii) : bool := negb (Ascii.eqb c "/").

Lemma digit_val_not_slash c d : digit_val c = Some d → not_slash c = true.
Proof. unfold not_slash. destruct (Ascii.eqb c "/") eqn:E; [|done]. apply Ascii.eqb_eq in E. by subst. Qed.

Lemma dec_val_not_slash c d : dec_val c = Some d → not_slash c = true.
Proof. unfold not_slash. destruct (Ascii.eqb c "/") eqn:E; [|done]. apply Ascii.eqb_eq in E. by subst. Qed.

Lemma eqb_not_slash c d : Ascii.eqb c d = true → not_slash d = true → not_slash c = true.
Proof. intros H%Ascii.eqb_eq. by subst. Qed.

Lemma parse4_no_slash s v n fs r : parse4 s v n fs = Some r → string_all not_slash s = true.
Proof.
  revert v n fs. induction s as [|c s IH]; intros v n fs H; cbn [parse4 string_all] in *; [done|].
  destruct (dec_val c) as [d|] eqn:Ed.
  - rewrite (dec_val_not_slash _ _ Ed). repeat (case_match; try done). by eapply IH.
  - destruct (Ascii.eqb c dot) eqn:Ec; [|done]. rewrite (eqb_not_slash _ _ Ec) by done.
    case_match; [done|]. by eapply IH.
Qed.

Lemma scan_hex_no_slash s off acc g n t : scan_hex s off acc = Some (g, n, t) →
  string_all not_slash t = true → string_all not_slash s = true.
Proof.
  revert off acc. induction s as [|c s IH]; intros off acc H Ht; cbn [scan_hex string_all] in *; [done|].
  destruct (digit_val c) as [d|] eqn:Ed; [|by simplify_eq].
  rewrite (digit_val_not_slash _ _ Ed). case_match; [done|]. by eapply IH.
Qed.

Lemma parse6_loop_no_slash fuel s acc ell r e t :
  parse6_loop fuel s acc ell = Some (r, e, t) →
  string_all not_slash t = true → string_all not_slash s = true.
Proof.
  revert s acc ell. induction fuel as [|f IH]; intros s acc ell H Ht; cbn [parse6_loop] in H; [by simplify_eq|].
  destruct (scan_hex s 0 0) as [[[g n] s1]|] eqn:Es; [|done]. destruct (n =? 0)%nat; [done|].
  destruct s1 as [|c s2]; [by eapply scan_hex_no_slash|].
  destruct (Ascii.eqb c dot) eqn:Edot.
  { case_match; [done|]. destruct (parse4 s 0 0 []) eqn:E4; [|done]. by eapply parse4_no_slash. }
  destruct (Ascii.eqb c colon) eqn:Ecol; [|done].
  apply (scan_hex_no_slash _ _ _ _ _ _ Es). cbn [string_all].
  rewrite (eqb_not_slash _ _ Ecol) by done. cbn [andb].
  destruct s2 as [|c2 s3]; [done|]. destruct (Ascii.eqb c2 colon) eqn:E2.
  - cbn [string_all]. rewrite (eqb_not_slash _ _ E2) by done. cbn [andb].
    destruct ell; [done|]. destruct s3; [done|]. by eapply IH.
  - by eapply IH.
Qed.

Lemma ParseIP_no_slash s ip : ParseIP s = Some ip → string_all not_slash s = true.
Proof.
  unfold ParseIP. destruct (first_special s) as [c|]; [|done]. destruct (Ascii.eqb c dot).
  { destruct (parse4 s 0 0 []) eqn:E; [|done]. intros _. by eapply parse4_no_slash. }
  destruct (Ascii.eqb c colon); [|done]. case_match; [|done].
  assert (Hexp : ∀ s ell, expand_ellipsis (parse6_loop 8 s [] ell) = Some ip → string_all not_slash s = true).
  { intros s' ell H'. destruct (parse6_loop 8 s' [] ell) as [[[r e] t]|] eqn:E; [|done].
    destruct t; [|done]. by eapply parse6_loop_no_slash. }
  unfold parse6. destruct (strip_prefix "::" s) as [s'|] eqn:Ep; [|apply Hexp].
  assert (Hs : s = String.append "::" s').
  { destruct s as [|a [|b s]]; cbn [strip_prefix] in Ep; [done|by case_match|].
    destruct (Ascii.eqb ":" a) eqn:Ea; [|done]. destruct (Ascii.eqb ":" b) eqn:Eb; [|done].
    apply Ascii.eqb_eq in Ea, Eb. by simplify_eq. }
  intros H1. rewrite Hs, string_all_app. change (string_all not_slash "::") with true. cbn [andb].
  destruct s'; [done|]. by eapply Hexp.
Qed.

#[export] Hint Resolve ParseIP_wf addr_wf_ip_wf : sentinel.
