(* ===== verification/Events.v ===== *)
(** * Events: the wire schema shared by capture, scoring and control

    The records of pkg/events/types.go: [NormalizedEvent], published by the
    capture side, and [ThreatScoreEvent], published by the scoring side and
    consumed by the operator. *)

From S2P Require Import Prelude GoStrings GoFloat.
From Stdlib Require Import SpecFloat.

(** [type Protocol string] and its constants. *)
Definition Protocol := string.
Definition ProtocolGTPU : Protocol := "GTP-U".
Definition ProtocolSIP : Protocol := "SIP".
Definition ProtocolSMPP : Protocol := "SMPP".
Definition ProtocolHTTP2 : Protocol := "HTTP2".
Definition ProtocolPortScan : Protocol := "PORT_SCAN".
Definition ProtocolUnknown : Protocol := "UNKNOWN".

Record NormalizedEvent := {
  ne_EventID : string;
  ne_ObservedAt : Time;
  ne_Namespace : string;
  ne_PodName : string;
  ne_NodeName : string;
  ne_SourceIP : string;
  ne_DestIP : string;
  ne_DestPort : Z;            (* uint16 *)
  ne_Protocol : Protocol;
  ne_PayloadSize : Z;         (* uint32 *)
  ne_RatePerSecond : f64;
  ne_Malformed : bool;
  ne_VLANID : Z;              (* uint16 *)
  ne_TEID : Z;                (* uint32 *)
  ne_TunnelRatePerSecond : f64
}.

Record ThreatScoreEvent := {
  ts_SourceEventID : string;
  ts_Namespace : string;
  ts_PodName : string;
  ts_SourceIP : string;
  ts_TEID : Z;                (* uint32 *)
  ts_Score : f64;
  ts_Model : string;
  ts_DetectedAt : Time
}.

(** The zero values a Go function returns next to [false]. *)
Definition zero_NormalizedEvent : NormalizedEvent := {|
  ne_EventID := ""; ne_ObservedAt := zero_time; ne_Namespace := ""; ne_PodName := "";
  ne_NodeName := ""; ne_SourceIP := ""; ne_DestIP := ""; ne_DestPort := 0;
  ne_Protocol := ""; ne_PayloadSize := 0; ne_RatePerSecond := f64_zero; ne_Malformed := false;
  ne_VLANID := 0; ne_TEID := 0; ne_TunnelRatePerSecond := f64_zero |}.

Definition zero_ThreatScoreEvent : ThreatScoreEvent := {|
  ts_SourceEventID := ""; ts_Namespace := ""; ts_PodName := ""; ts_SourceIP := "";
  ts_TEID := 0; ts_Score := f64_zero; ts_Model := ""; ts_DetectedAt := zero_time |}.
