(* ===== verification/Api.v ===== *)
(** * Api: the TelecomSecurityPolicy custom resource

    The types of api/v1alpha1/telecomsecuritypolicy_types.go, as values: a Go
    [DeepCopy] is the value itself and an update is a new record. [Memory] has the
    objects with their references, and [Aliasing] shows that the index and the
    watcher may be read this way. *)

From S2P Require Import Prelude.

Definition Sensitivity := string.
Definition SensitivityLow : Sensitivity := "low".
Definition SensitivityMedium : Sensitivity := "medium".
Definition SensitivityHigh : Sensitivity := "high".

Record WorkloadSelector := {
  ws_App : string;
  ws_MatchLabels : gmap string string
}.

Record ThreatDetectionSpec := {
  td_Sensitivity : Sensitivity;
  td_AutoMitigate : bool
}.

Record ActionsSpec := {
  act_EbpfBlock : bool;
  act_EbpfBlockTunnel : bool;
  act_IsolatePod : bool
}.

Record TelecomSecurityPolicySpec := {
  spec_TargetWorkloads : list WorkloadSelector;
  spec_ThreatDetection : ThreatDetectionSpec;
  spec_Actions : ActionsSpec
}.

(** [type PolicyPhase string]; the empty string of a fresh object is
    [PhaseUnset], the five others are the enum the CRD schema admits. *)
Inductive PolicyPhase :=
  | PhaseUnset
  | PolicyPhasePending
  | PolicyPhaseMonitoring
  | PolicyPhaseAlerting
  | PolicyPhaseMitigating
  | PolicyPhaseDegraded.

#[export] Instance PolicyPhase_eq_dec : EqDecision PolicyPhase.
Proof. solve_decision. Defined.

Inductive ConditionStatus := ConditionTrue | ConditionFalse | ConditionUnknown.

#[export] Instance ConditionStatus_eq_dec : EqDecision ConditionStatus.
Proof. solve_decision. Defined.

(** metav1.Condition, without the transition time the API machinery keeps. *)
Record Condition := {
  cond_Type : string;
  cond_Status : ConditionStatus;
  cond_Reason : string;
  cond_Message : string;
  cond_ObservedGeneration : Z
}.

Record TelecomSecurityPolicyStatus := {
  st_Phase : PolicyPhase;
  st_ObservedThreatScore : string;
  st_LastMitigationTime : option Time;
  st_BlockedSourceIPs : list string;
  st_BlockedTunnels : list string;
  st_Conditions : list Condition
}.

Record NamespacedName := { nn_Namespace : string; nn_Name : string }.

#[export] Instance NamespacedName_eq_dec : EqDecision NamespacedName.
Proof. solve_decision. Defined.

#[export] Program Instance NamespacedName_countable : Countable NamespacedName :=
  inj_countable' (λ k, (nn_Namespace k, nn_Name k)) (λ p, {| nn_Namespace := p.1; nn_Name := p.2 |}) _.
Next Obligation. by intros []. Qed.

(** The part of metav1.ObjectMeta the code reads and writes. *)
Record ObjectMeta := {
  om_Namespace : string;
  om_Name : string;
  om_Generation : Z;
  om_DeletionTimestamp : option Time;
  om_Finalizers : list string
}.

Record TelecomSecurityPolicy := {
  pol_Meta : ObjectMeta;
  pol_Spec : TelecomSecurityPolicySpec;
  pol_Status : TelecomSecurityPolicyStatus
}.

Definition pol_Namespace (p : TelecomSecurityPolicy) : string := om_Namespace (pol_Meta p).
Definition pol_Name (p : TelecomSecurityPolicy) : string := om_Name (pol_Meta p).
Definition pol_key (p : TelecomSecurityPolicy) : NamespacedName :=
  {| nn_Namespace := pol_Namespace p; nn_Name := pol_Name p |}.

(** [DeletionTimestamp.IsZero()]: a nil timestamp. *)
Definition deletion_is_zero (p : TelecomSecurityPolicy) : bool :=
  match om_DeletionTimestamp (pol_Meta p) with None => true | Some t => IsZero t end.

(** ** Field updates *)

Definition set_status (p : TelecomSecurityPolicy) (s : TelecomSecurityPolicyStatus) : TelecomSecurityPolicy :=
  {| pol_Meta := pol_Meta p; pol_Spec := pol_Spec p; pol_Status := s |}.

Definition set_meta (p : TelecomSecurityPolicy) (m : ObjectMeta) : TelecomSecurityPolicy :=
  {| pol_Meta := m; pol_Spec := pol_Spec p; pol_Status := pol_Status p |}.

Definition with_phase (ph : PolicyPhase) (s : TelecomSecurityPolicyStatus) : TelecomSecurityPolicyStatus :=
  {| st_Phase := ph; st_ObservedThreatScore := st_ObservedThreatScore s;
     st_LastMitigationTime := st_LastMitigationTime s; st_BlockedSourceIPs := st_BlockedSourceIPs s;
     st_BlockedTunnels := st_BlockedTunnels s; st_Conditions := st_Conditions s |}.

Definition with_score (sc : string) (s : TelecomSecurityPolicyStatus) : TelecomSecurityPolicyStatus :=
  {| st_Phase := st_Phase s; st_ObservedThreatScore := sc;
     st_LastMitigationTime := st_LastMitigationTime s; st_BlockedSourceIPs := st_BlockedSourceIPs s;
     st_BlockedTunnels := st_BlockedTunnels s; st_Conditions := st_Conditions s |}.

Definition with_mitigation_time (t : option Time) (s : TelecomSecurityPolicyStatus) : TelecomSecurityPolicyStatus :=
  {| st_Phase := st_Phase s; st_ObservedThreatScore := st_ObservedThreatScore s;
     st_LastMitigationTime := t; st_BlockedSourceIPs := st_BlockedSourceIPs s;
     st_BlockedTunnels := st_BlockedTunnels s; st_Conditions := st_Conditions s |}.

Definition with_ips (l : list string) (s : TelecomSecurityPolicyStatus) : TelecomSecurityPolicyStatus :=
  {| st_Phase := st_Phase s; st_ObservedThreatScore := st_ObservedThreatScore s;
     st_LastMitigationTime := st_LastMitigationTime s; st_BlockedSourceIPs := l;
     st_BlockedTunnels := st_BlockedTunnels s; st_Conditions := st_Conditions s |}.

Definition with_tunnels (l : list string) (s : TelecomSecurityPolicyStatus) : TelecomSecurityPolicyStatus :=
  {| st_Phase := st_Phase s; st_ObservedThreatScore := st_ObservedThreatScore s;
     st_LastMitigationTime := st_LastMitigationTime s; st_BlockedSourceIPs := st_BlockedSourceIPs s;
     st_BlockedTunnels := l; st_Conditions := st_Conditions s |}.

Definition with_conditions (l : list Condition) (s : TelecomSecurityPolicyStatus) : TelecomSecurityPolicyStatus :=
  {| st_Phase := st_Phase s; st_ObservedThreatScore := st_ObservedThreatScore s;
     st_LastMitigationTime := st_LastMitigationTime s; st_BlockedSourceIPs := st_BlockedSourceIPs s;
     st_BlockedTunnels := st_BlockedTunnels s; st_Conditions := l |}.

Definition with_finalizers (l : list string) (m : ObjectMeta) : ObjectMeta :=
  {| om_Namespace := om_Namespace m; om_Name := om_Name m; om_Generation := om_Generation m;
     om_DeletionTimestamp := om_DeletionTimestamp m; om_Finalizers := l |}.

(** A spec and a status used by the examples and witnesses. *)
Definition zero_status : TelecomSecurityPolicyStatus :=
  {| st_Phase := PhaseUnset; st_ObservedThreatScore := ""; st_LastMitigationTime := None;
     st_BlockedSourceIPs := []; st_BlockedTunnels := []; st_Conditions := [] |}.

Definition mk_policy (ns name app : string) (auto block tunnel isolate : bool)
    (s : TelecomSecurityPolicyStatus) : TelecomSecurityPolicy :=
  {| pol_Meta := {| om_Namespace := ns; om_Name := name; om_Generation := 1;
                    om_DeletionTimestamp := None; om_Finalizers := [] |};
     pol_Spec := {| spec_TargetWorkloads := [{| ws_App := app; ws_MatchLabels := ∅ |}];
                    spec_ThreatDetection := {| td_Sensitivity := SensitivityMedium; td_AutoMitigate := auto |};
                    spec_Actions := {| act_EbpfBlock := block; act_EbpfBlockTunnel := tunnel;
                                       act_IsolatePod := isolate |} |};
     pol_Status := s |}.
