(* ===== verification/Memory.v ===== *)
(** * Memory: policies as Go objects, and their deep copies
    (api/v1alpha1/zz_generated.deepcopy.go)

    Elsewhere in the development a policy is a value. In Go it is a struct whose
    slices, map and time pointer refer to cells that other structs may share. This
    file has the cells, the generated [DeepCopyInto] functions over them, and what
    a struct in memory stands for: [den_policy]. A specification [run_in σ P m Q]
    says that [m] may read the cells of [σ] but changes only cells of its own, of
    which [P] holds before and [Q] after; cells outside [σ] and its own are
    not touched either, since [σ] is arbitrary. *)

From S2P Require Import Prelude Api.

Local Open Scope go_scope.

(** ** Cells *)

Definition Loc : Type := nat.

(** A slice: its backing array and its length; nil is [None]. *)
Record Slice := { sl_arr : Loc; sl_len : nat }.

Record SelectorMem := { sm_App : string; sm_MatchLabels : option Loc }.
Record SpecMem := {
  pm_TargetWorkloads : option Slice; pm_ThreatDetection : ThreatDetectionSpec; pm_Actions : ActionsSpec
}.
Record StatusMem := {
  tm_Phase : PolicyPhase; tm_ObservedThreatScore : string; tm_LastMitigationTime : option Loc;
  tm_BlockedSourceIPs : option Slice; tm_BlockedTunnels : option Slice; tm_Conditions : option Slice
}.
Record MetaMem := {
  mm_Namespace : string; mm_Name : string; mm_Generation : Z;
  mm_DeletionTimestamp : option Loc; mm_Finalizers : option Slice
}.
Record PolicyMem := { py_Meta : MetaMem; py_Spec : SpecMem; py_Status : StatusMem }.

(** A backing array (as long as its capacity), a map, a time, a struct. *)
Inductive Cell :=
  | Strings (l : list string)
  | Labels (m : gmap string string)
  | Selectors (l : list SelectorMem)
  | Conditions (l : list Condition)
  | TimeAt (t : Time)
  | PolicyArray (l : list PolicyMem)
  | PolicyAt (p : PolicyMem).

Abbreviation Mem := (gmap nat Cell).

Definition bad_address : go_error := Errorf "invalid memory address or nil pointer dereference".

(** A loop that collects its results. *)
Fixpoint mmapM {W A B} (f : A → M W B) (l : list A) : M W (list B) :=
  match l with
  | [] => mret []
  | x :: l' => let! y := f x in let! ys := mmapM f l' in mret (y :: ys)
  end.

(** Reads that expect a kind of cell; Go's types rule out the failure. *)
Class CellOf (X : Type) := { in_cell : X → Cell; of_cell : Cell → option X; of_in_cell x : of_cell (in_cell x) = Some x }.
#[export] Instance strings_cell : CellOf (list string) :=
  {| in_cell := Strings; of_cell c := match c with Strings l => Some l | _ => None end; of_in_cell x := eq_refl |}.
#[export] Instance labels_cell : CellOf (gmap string string) :=
  {| in_cell := Labels; of_cell c := match c with Labels l => Some l | _ => None end; of_in_cell x := eq_refl |}.
#[export] Instance selectors_cell : CellOf (list SelectorMem) :=
  {| in_cell := Selectors; of_cell c := match c with Selectors l => Some l | _ => None end; of_in_cell x := eq_refl |}.
#[export] Instance conditions_cell : CellOf (list Condition) :=
  {| in_cell := Conditions; of_cell c := match c with Conditions l => Some l | _ => None end; of_in_cell x := eq_refl |}.
#[export] Instance time_cell : CellOf Time :=
  {| in_cell := TimeAt; of_cell c := match c with TimeAt l => Some l | _ => None end; of_in_cell x := eq_refl |}.
#[export] Instance policies_cell : CellOf (list PolicyMem) :=
  {| in_cell := PolicyArray; of_cell c := match c with PolicyArray l => Some l | _ => None end; of_in_cell x := eq_refl |}.
#[export] Instance policy_cell : CellOf PolicyMem :=
  {| in_cell := PolicyAt; of_cell c := match c with PolicyAt l => Some l | _ => None end; of_in_cell x := eq_refl |}.

Definition load `{CellOf X} (l : Loc) : M Mem X :=
  λ σ, (match σ !! l ≫= of_cell with Some x => Ok x | None => Fail bad_address end, σ).
Definition new `{CellOf X} (x : X) : M Mem Loc := λ σ, let l := fresh (dom σ) in (Ok l, <[l := in_cell x]> σ).
Definition store `{CellOf X} (l : Loc) (x : X) : M Mem unit :=
  λ σ, match σ !! l with Some _ => (Ok tt, <[l := in_cell x]> σ) | None => (Fail bad_address, σ) end.

(** ** Deep copies *)

(** The copies of k8s.io/apimachinery, of the types this API embeds. *)
Class MetaV1 := {
  ObjectMeta_DeepCopyInto : MetaMem → M Mem MetaMem;
  Time_DeepCopy : Loc → M Mem Loc;
  Condition_DeepCopyInto : Condition → M Mem Condition
}.

Definition copy_ptr {X} (copy : X → M Mem X) (o : option X) : M Mem (option X) :=
  match o with None => mret None | Some x => let! y := copy x in mret (Some y) end.

(** [*out = make([]T, len( *in))], then a copy of each element. *)
Definition copy_slice {X} `{CellOf (list X)} (copy : X → M Mem X) (s : Slice) : M Mem Slice :=
  let! l := load (sl_arr s) in
  let! out := mmapM copy (take (sl_len s) l) in
  let! a := new out in
  mret {| sl_arr := a; sl_len := sl_len s |}.

(** [copy( *out, *in)] of strings. *)
Definition copy_strings : Slice → M Mem Slice := copy_slice (λ x : string, mret x).

(** [*out = make(map[string]string, len( *in)); for key, val := range *in { ... }] *)
Definition copy_labels (l : Loc) : M Mem Loc :=
  let! m := load l in new (map_fold (λ key val out, <[key := val]> out) (∅ : gmap string string) m).

Section DeepCopy.
Context `{HM : MetaV1}.

Definition WorkloadSelector_DeepCopyInto (x : SelectorMem) : M Mem SelectorMem :=
  let! labels := copy_ptr copy_labels (sm_MatchLabels x) in
  mret {| sm_App := sm_App x; sm_MatchLabels := labels |}.

Definition Spec_DeepCopyInto (x : SpecMem) : M Mem SpecMem :=
  let! workloads := copy_ptr (copy_slice WorkloadSelector_DeepCopyInto) (pm_TargetWorkloads x) in
  mret {| pm_TargetWorkloads := workloads; pm_ThreatDetection := pm_ThreatDetection x; pm_Actions := pm_Actions x |}.

Definition Status_DeepCopyInto (x : StatusMem) : M Mem StatusMem :=
  let! time := copy_ptr Time_DeepCopy (tm_LastMitigationTime x) in
  let! ips := copy_ptr copy_strings (tm_BlockedSourceIPs x) in
  let! tunnels := copy_ptr copy_strings (tm_BlockedTunnels x) in
  let! conditions := copy_ptr (copy_slice Condition_DeepCopyInto) (tm_Conditions x) in
  mret {| tm_Phase := tm_Phase x; tm_ObservedThreatScore := tm_ObservedThreatScore x; tm_LastMitigationTime := time;
          tm_BlockedSourceIPs := ips; tm_BlockedTunnels := tunnels; tm_Conditions := conditions |}.

Definition Policy_DeepCopyInto (x : PolicyMem) : M Mem PolicyMem :=
  let! meta := ObjectMeta_DeepCopyInto (py_Meta x) in
  let! spec := Spec_DeepCopyInto (py_Spec x) in
  let! status := Status_DeepCopyInto (py_Status x) in
  mret {| py_Meta := meta; py_Spec := spec; py_Status := status |}.

(** [DeepCopy] of a pointer; nil is copied to nil. *)
Definition Policy_DeepCopy (l : Loc) : M Mem Loc :=
  let! x := load l in
  let! y := Policy_DeepCopyInto x in new y.
Definition DeepCopy (l : option Loc) : M Mem (option Loc) := copy_ptr Policy_DeepCopy l.

(** The list's items; its ListMeta has no counterpart in [Api]. *)
Definition PolicyList_DeepCopyInto (items : option Slice) : M Mem (option Slice) :=
  copy_ptr (copy_slice Policy_DeepCopyInto) items.
End DeepCopy.

(** ** What an object stands for *)

Definition den_ptr {X V} (den : Mem → X → option V) (σ : Mem) (o : option X) : option (option V) :=
  match o with None => Some None | Some x => Some <$> den σ x end.
(** A nil slice or map reads as an empty one. *)
Definition den_nil {X V} (zero : V) (den : Mem → X → option V) (σ : Mem) (o : option X) : option V :=
  match o with None => Some zero | Some x => den σ x end.

Definition den_cell `{CellOf X} (σ : Mem) (l : Loc) : option X := σ !! l ≫= of_cell.
(** A slice: the first elements of an array whose capacity is at least the length. *)
Definition den_slice {X V} `{CellOf (list X)} (den : Mem → X → option V) (σ : Mem) (s : Slice) : option (list V) :=
  l ← den_cell (X := list X) σ (sl_arr s);
  if decide (sl_len s ≤ length l) then mapM (den σ) (take (sl_len s) l) else None.
Definition den_value {X} (σ : Mem) (x : X) : option X := Some x.
Abbreviation den_strings := (den_nil [] (den_slice (den_value (X := string)))).

Definition den_selector (σ : Mem) (x : SelectorMem) : option WorkloadSelector :=
  m ← den_nil ∅ den_cell σ (sm_MatchLabels x); Some {| ws_App := sm_App x; ws_MatchLabels := m |}.
Definition den_spec (σ : Mem) (x : SpecMem) : option TelecomSecurityPolicySpec :=
  w ← den_nil [] (den_slice den_selector) σ (pm_TargetWorkloads x);
  Some {| spec_TargetWorkloads := w; spec_ThreatDetection := pm_ThreatDetection x; spec_Actions := pm_Actions x |}.
Definition den_status (σ : Mem) (x : StatusMem) : option TelecomSecurityPolicyStatus :=
  t ← den_ptr den_cell σ (tm_LastMitigationTime x);
  ips ← den_strings σ (tm_BlockedSourceIPs x);
  tuns ← den_strings σ (tm_BlockedTunnels x);
  conds ← den_nil [] (den_slice den_value) σ (tm_Conditions x);
  Some {| st_Phase := tm_Phase x; st_ObservedThreatScore := tm_ObservedThreatScore x; st_LastMitigationTime := t;
          st_BlockedSourceIPs := ips; st_BlockedTunnels := tuns; st_Conditions := conds |}.
Definition den_meta (σ : Mem) (x : MetaMem) : option ObjectMeta :=
  d ← den_ptr den_cell σ (mm_DeletionTimestamp x);
  f ← den_strings σ (mm_Finalizers x);
  Some {| om_Namespace := mm_Namespace x; om_Name := mm_Name x; om_Generation := mm_Generation x;
          om_DeletionTimestamp := d; om_Finalizers := f |}.
Definition den_policy (σ : Mem) (x : PolicyMem) : option TelecomSecurityPolicy :=
  m ← den_meta σ (py_Meta x); sp ← den_spec σ (py_Spec x); st ← den_status σ (py_Status x);
  Some {| pol_Meta := m; pol_Spec := sp; pol_Status := st |}.
Definition den_policy_at (σ : Mem) (l : Loc) : option TelecomSecurityPolicy :=
  p ← den_cell σ l; den_policy σ p.

(** ** Facts that more memory keeps *)

(** [keeps o o']: every cell of [o] is in [o'], but for structs held by a pointer. *)
Definition is_struct (c : Cell) : bool := match c with PolicyAt _ => true | _ => false end.
Definition keeps (o o' : Mem) : Prop := ∀ (l : Loc) c, o !! l = Some c → is_struct c = false → o' !! l = Some c.

Lemma subseteq_keeps o o' : o ⊆ o' → keeps o o'.
Proof. intros Hs l c Hl _. by eapply lookup_weaken. Qed.

(** A policy's denotation reads no struct by a pointer: [DataDen]. *)
Class Mono (P : Mem → Prop) := mono : ∀ o o', o ⊆ o' → P o → P o'.
Class MonoDen {X V} (den : Mem → X → option V) :=
  den_mono : ∀ σ σ' x v, σ ⊆ σ' → den σ x = Some v → den σ' x = Some v.
Class DataDen {X V} (den : Mem → X → option V) :=
  den_keeps : ∀ σ σ' x v, keeps σ σ' → den σ x = Some v → den σ' x = Some v.
Class DataCell (X : Type) `{CellOf X} := data_cell : ∀ p, of_cell (PolicyAt p) = None.

#[export] Instance data_mono {X V} (den : Mem → X → option V) : DataDen den → MonoDen den.
Proof. intros Hd σ σ' x v Hs. apply Hd. by apply subseteq_keeps. Qed.

#[export] Instance mono_and P Q : Mono P → Mono Q → Mono (λ o, P o ∧ Q o).
Proof. intros HP HQ o o' Hs [??]. split; [by eapply HP|by eapply HQ]. Qed.
#[export] Instance mono_den_is {X V} (den : Mem → X → option V) x v : MonoDen den → Mono (λ o, den o x = Some v).
Proof. intros Hd o o' Hs. by apply Hd. Qed.
#[export] Instance mono_true : Mono (λ _, True).
Proof. by intros o. Qed.

#[export] Instance strings_data : DataCell (list string).
Proof. done. Qed.
#[export] Instance labels_data : DataCell (gmap string string).
Proof. done. Qed.
#[export] Instance selectors_data : DataCell (list SelectorMem).
Proof. done. Qed.
#[export] Instance conditions_data : DataCell (list Condition).
Proof. done. Qed.
#[export] Instance time_data : DataCell Time.
Proof. done. Qed.
#[export] Instance policies_data : DataCell (list PolicyMem).
Proof. done. Qed.

#[export] Instance den_value_data {X} : DataDen (den_value (X := X)).
Proof. by intros σ σ' x v. Qed.
#[export] Instance den_ptr_data {X V} (den : Mem → X → option V) : DataDen den → DataDen (den_ptr den).
Proof.
  intros Hd σ σ' [x|] v Hs; simpl; [|done]. intros (w & Hw & ->)%fmap_Some. by rewrite (Hd _ _ _ _ Hs Hw).
Qed.
#[export] Instance den_nil_data {X V} zero (den : Mem → X → option V) : DataDen den → DataDen (den_nil zero den).
Proof. intros Hd σ σ' [x|] v Hs; simpl; [by apply Hd|done]. Qed.
#[export] Instance mapM_data {X V} (den : Mem → X → option V) : DataDen den → DataDen (λ σ, mapM (den σ)).
Proof.
  intros Hd σ σ' l v Hs. rewrite !mapM_Some. intros Hl. eapply Forall2_impl; [exact Hl|]. intros x y. by apply Hd.
Qed.
#[export] Instance den_cell_data `{DataCell X} : DataDen (den_cell (X := X)).
Proof.
  intros σ σ' l v Hs (c & Hc & Hv)%bind_Some. unfold den_cell. rewrite (Hs _ _ Hc); [done|].
  destruct c; try done. by rewrite data_cell in Hv.
Qed.
#[export] Instance den_cell_mono `{CellOf X} : MonoDen (den_cell (X := X)).
Proof.
  intros σ σ' l v Hs (c & Hc & Hv)%bind_Some. unfold den_cell. by rewrite (lookup_weaken _ _ _ _ Hc Hs).
Qed.

(** Splits a denotation into the denotations of its parts, and puts the same
    parts back together in another memory that keeps them. *)
Ltac den_inv H :=
  repeat match type of H with
  | (_ ≫= _) = Some _ => let v := fresh "v" in let E := fresh "E" in apply bind_Some in H as (v & E & H)
  end.
Ltac den_again Hs :=
  repeat match goal with E : _ = Some _ |- _ => rewrite (den_keeps _ _ _ _ Hs E); clear E; simpl end.

#[export] Instance den_slice_data {X V} `{DataCell (list X)} (den : Mem → X → option V) : DataDen den → DataDen (den_slice den).
Proof.
  intros Hd σ σ' s v Hs Hv. unfold den_slice in *. den_inv Hv. rewrite (den_keeps _ _ _ _ Hs E). simpl.
  case_decide; [|done]. by apply (mapM_data den Hd σ σ').
Qed.
#[export] Instance den_selector_data : DataDen den_selector.
Proof. intros σ σ' x v Hs Hv. unfold den_selector in *. den_inv Hv. by den_again Hs. Qed.
#[export] Instance den_spec_data : DataDen den_spec.
Proof. intros σ σ' x v Hs Hv. unfold den_spec in *. den_inv Hv. by den_again Hs. Qed.
#[export] Instance den_status_data : DataDen den_status.
Proof. intros σ σ' x v Hs Hv. unfold den_status in *. den_inv Hv. by den_again Hs. Qed.
#[export] Instance den_meta_data : DataDen den_meta.
Proof. intros σ σ' x v Hs Hv. unfold den_meta in *. den_inv Hv. by den_again Hs. Qed.
#[export] Instance den_policy_data : DataDen den_policy.
Proof. intros σ σ' x v Hs Hv. unfold den_policy in *. den_inv Hv. by den_again Hs. Qed.
#[export] Instance den_policy_at_mono : MonoDen den_policy_at.
Proof.
  intros σ σ' x v Hs Hv. unfold den_policy_at in *. den_inv Hv. rewrite (den_mono _ _ _ _ Hs E). simpl.
  by apply (den_mono σ σ').
Qed.

(** A fact about the data of a memory, whatever its structs hold. *)
Class Data (P : Mem → Prop) := data_keeps : ∀ o o', keeps o o' → P o → P o'.
#[export] Instance data_and P Q : Data P → Data Q → Data (λ o, P o ∧ Q o).
Proof. intros HP HQ o o' Hs [??]. split; [by eapply HP|by eapply HQ]. Qed.
#[export] Instance data_den_is {X V} (den : Mem → X → option V) x v : DataDen den → Data (λ o, den o x = Some v).
Proof. intros Hd o o' Hs. by apply Hd. Qed.
#[export] Instance data_true : Data (λ _, True).
Proof. by intros o. Qed.
#[export] Instance data_is_mono P : Data P → Mono P | 10.
Proof. intros HP o o' Hs. apply HP. by apply subseteq_keeps. Qed.

(** ** Triples *)

Definition run_in {X} (σ : Mem) (P : Mem → Prop) (m : M Mem X) (Q : X → Mem → Prop) : Prop :=
  ∀ o, σ ##ₘ o → P o → ∃ x o', m (σ ∪ o) = (Ok x, σ ∪ o') ∧ σ ##ₘ o' ∧ Q x o'.

Lemma run_ret {X} σ (P : Mem → Prop) (x : X) (Q : X → Mem → Prop) : (∀ o, P o → Q x o) → run_in σ P (mret x) Q.
Proof. intros HQ o Hd HP. exists x, o. auto. Qed.

Lemma run_bind {X Y} σ P (m : M Mem X) (k : X → M Mem Y) Q R :
  run_in σ P m Q → (∀ x, run_in σ (Q x) (k x) R) → run_in σ P (mbind m k) R.
Proof.
  intros Hm Hk o Hd HP. destruct (Hm o Hd HP) as (x & o1 & E & Hd1 & HQ). unfold mbind. rewrite E. by apply Hk.
Qed.

Lemma run_exists {X A} σ (P : A → Mem → Prop) (m : M Mem X) Q :
  (∀ a, run_in σ (P a) m Q) → run_in σ (λ o, ∃ a, P a o) m Q.
Proof. intros Hm o Hd [a Ha]. by apply (Hm a o). Qed.

Lemma run_weaken {X} σ P P' (m : M Mem X) Q Q' :
  run_in σ P m Q → (∀ o, P' o → P o) → (∀ x o, Q x o → Q' x o) → run_in σ P' m Q'.
Proof. intros Hm HP HQ o Hd Ho. destruct (Hm o Hd (HP o Ho)) as (x & o' & E & Hd' & Hq). exists x, o'. auto. Qed.

(** Reading a cell of the read-only part, or one of its own. *)
Lemma run_load `{CellOf X} {Y} σ P l (x : X) (k : X → M Mem Y) Q : den_cell σ l = Some x →
  run_in σ P (k x) Q → run_in σ P (mbind (load l) k) Q.
Proof.
  intros (c & Hc & Hx)%bind_Some Hk o Hd HP. unfold mbind, load.
  rewrite (lookup_union_Some_l _ _ _ _ Hc). simpl. rewrite Hx. by apply Hk.
Qed.

Lemma run_load_own `{CellOf X} {Y} σ (P : Mem → Prop) l (x : X) (k : X → M Mem Y) Q : (∀ o, P o → den_cell o l = Some x) →
  run_in σ P (k x) Q → run_in σ P (mbind (load l) k) Q.
Proof.
  intros Hx Hk o Hd HP. unfold mbind, load. pose proof (Hx o HP) as (c & Hc & Hv)%bind_Some.
  assert (Hs : σ !! l = None) by by eapply map_disjoint_Some_l.
  rewrite lookup_union_r, Hc by done. simpl. rewrite Hv. by apply Hk.
Qed.

(** A fresh cell is the program's own. *)
Lemma run_new `{CellOf X} σ P (x : X) : Mono P → run_in σ P (new x) (λ l o, P o ∧ den_cell o l = Some x).
Proof.
  intros HP o Hd Ho. unfold new. set (l := fresh (dom (σ ∪ o))).
  assert (Hl : l ∉ dom (σ ∪ o)) by apply is_fresh. rewrite dom_union_L, not_elem_of_union, !not_elem_of_dom in Hl.
  destruct Hl as [Hs Hn]. exists l, (<[l := in_cell x]> o). split; [|split; [|split]].
  - f_equal. by rewrite insert_union_r.
  - by apply map_disjoint_insert_r.
  - eapply HP; [by apply insert_subseteq|done].
  - unfold den_cell. rewrite lookup_insert_eq. apply of_in_cell.
Qed.

(** A cell the program owns, overwritten. *)
Lemma run_store `{CellOf X} σ (P : Mem → Prop) (Q : unit → Mem → Prop) l (x : X) :
  (∀ o, P o → is_Some (o !! l) ∧ Q tt (<[l := in_cell x]> o)) → run_in σ P (store l x) Q.
Proof.
  intros HPQ o Hd Ho. destruct (HPQ o Ho) as [[c Hc] HQ].
  assert (Hs : σ !! l = None) by by eapply map_disjoint_Some_l.
  exists tt, (<[l := in_cell x]> o). unfold store. rewrite lookup_union_r, Hc by done. split; [|split; [|done]].
  - f_equal. by rewrite insert_union_r.
  - by apply map_disjoint_insert_r.
Qed.

(** ** What the copies promise *)

(** [copy] returns an object that stands for the same value within the program's
    own cells, whatever else ([F]) it has there. *)
Class Copies {X V} (den : Mem → X → option V) (copy : X → M Mem X) :=
  copies : ∀ σ x v F, Mono F → den σ x = Some v → run_in σ F (copy x) (λ y o, F o ∧ den o y = Some v).

(** The laws of the apimachinery's copies. *)
Class MetaV1Spec `{MetaV1} := {
  meta_copies :: Copies den_meta ObjectMeta_DeepCopyInto;
  time_copies :: Copies (den_cell (X := Time)) Time_DeepCopy;
  condition_copies :: Copies den_value Condition_DeepCopyInto
}.

#[export] Instance value_copies {X} : Copies den_value (λ x : X, mret x).
Proof. intros σ x v F HF Hx. by apply run_ret. Qed.

#[export] Instance ptr_copies {X V} (den : Mem → X → option V) copy : Copies den copy → Copies (den_ptr den) (copy_ptr copy).
Proof.
  intros Hc σ [x|] v F HF Hv; simpl in Hv; [|simplify_eq; by apply run_ret].
  apply fmap_Some in Hv as (w & Hw & ->). eapply run_bind; [by eapply Hc|].
  intros y. apply run_ret. intros o [HFo Hy]. simpl. by rewrite Hy.
Qed.
#[export] Instance nil_copies {X V} zero (den : Mem → X → option V) copy : Copies den copy → Copies (den_nil zero den) (copy_ptr copy).
Proof.
  intros Hc σ [x|] v F HF Hv; simpl in Hv; [|simplify_eq; by apply run_ret].
  eapply run_bind; [by eapply Hc|]. intros y. by apply run_ret.
Qed.

#[export] Instance mmapM_copies {X V} (den : Mem → X → option V) copy :
  DataDen den → Copies den copy → Copies (λ σ, mapM (den σ)) (mmapM copy).
Proof.
  intros Hd Hc σ l. induction l as [|x l IH]; intros vs F HF Hv.
  { simpl in Hv. simplify_eq. by apply run_ret. }
  apply mapM_Some, Forall2_cons_inv_l in Hv as (v & vs' & Hv & Hvs & ->). apply mapM_Some in Hvs.
  eapply run_bind; [by eapply Hc|]. intros y.
  eapply run_bind; [by apply (IH vs' (λ o, F o ∧ den o y = Some v)); [apply _|]|].
  intros ys. apply run_ret. intros o [[HFo Hy] Hys]. split; [done|]. simpl. by rewrite Hy; simpl; rewrite Hys.
Qed.

#[export] Instance slice_copies {X V} `{CellOf (list X)} (den : Mem → X → option V) copy :
  DataDen den → Copies den copy → Copies (den_slice den) (copy_slice copy).
Proof.
  intros Hd Hc σ s v F HF Hv. unfold den_slice in Hv. den_inv Hv. case_decide as Hlen; [|done].
  eapply run_load; [done|]. eapply run_bind; [by eapply (mmapM_copies den copy Hd Hc σ)|].
  intros out. eapply run_bind; [by apply run_new, _|].
  intros a. apply run_ret. intros o [[HFo Hout] Ha]. split; [done|]. unfold den_slice. simpl. rewrite Ha. simpl.
  assert (Hl : length out = sl_len s).
  { apply length_mapM in Hv, Hout. rewrite length_take in Hv. lia. }
  rewrite decide_True by lia. by rewrite take_ge by lia.
Qed.

(** A copied slice has no spare capacity: appending to it moves it. *)
Definition full {X} `{CellOf (list X)} (o : Mem) (s : option Slice) : Prop :=
  match s with None => True | Some s => ∃ l : list X, den_cell o (sl_arr s) = Some l ∧ length l = sl_len s end.
#[export] Instance full_data {X} `{DataCell (list X)} s : Data (λ o, full (X := X) o s).
Proof.
  intros o o' Hs. destruct s as [s|]; [|done]. intros (l & Hl & ?). exists l. split; [by apply (den_keeps o o')|done].
Qed.

Lemma copy_strings_full σ s v F : Mono F → den_strings σ s = Some v →
  run_in σ F (copy_ptr copy_strings s) (λ y o, F o ∧ den_strings o y = Some v ∧ full (X := string) o y).
Proof.
  intros HF Hv. destruct s as [s|]; simpl in Hv; [|simplify_eq; by apply run_ret].
  unfold den_slice in Hv. den_inv Hv. case_decide as Hlen; [|done].
  unfold copy_ptr.
  apply (run_bind _ _ _ _ (λ y o, F o ∧ den_slice den_value o y = Some v ∧ full (X := string) o (Some y))); [|intros y; by apply run_ret].
  eapply run_load; [exact E|]. eapply run_bind; [by eapply (mmapM_copies den_value _ _ _ σ)|].
  intros out. eapply run_bind; [by apply run_new, _|]. intros a. apply run_ret. intros o [[HFo Hout] Ha].
  assert (Hl : length out = sl_len s). { apply length_mapM in Hv, Hout. rewrite length_take in Hv. lia. }
  split; [done|]. split; [|by exists out].
  simpl. unfold den_slice. simpl. rewrite Ha. simpl. rewrite decide_True by lia. by rewrite take_ge by lia.
Qed.

#[export] Instance labels_copies : Copies (den_cell (X := gmap string string)) copy_labels.
Proof.
  intros σ l m F HF Hm. eapply run_load; [exact Hm|].
  replace (map_fold (λ key val out, <[key:=val]> out) ∅ m) with m; [by apply run_new|].
  symmetry. apply (map_fold_weak_ind (λ r m, r = m)); [done|]. by intros k x m' r _ ->.
Qed.

Section DeepCopySpec.
Context `{HM : MetaV1} `{HS : !MetaV1Spec}.

#[export] Instance selector_copies : Copies den_selector WorkloadSelector_DeepCopyInto.
Proof using HS.
  intros σ x v F HF Hv. unfold den_selector in Hv. den_inv Hv. simplify_eq.
  eapply run_bind; [by eapply copies|]. intros y. apply run_ret.
  intros o [HFo Hy]. split; [done|]. unfold den_selector. simpl. by rewrite Hy.
Qed.
#[export] Instance spec_copies : Copies den_spec Spec_DeepCopyInto.
Proof using HS.
  intros σ x v F HF Hv. unfold den_spec in Hv. den_inv Hv. simplify_eq.
  eapply run_bind; [by eapply copies|]. intros y. apply run_ret.
  intros o [HFo Hy]. split; [done|]. unfold den_spec. simpl. by rewrite Hy.
Qed.

Definition full_status (o : Mem) (x : StatusMem) : Prop :=
  full (X := string) o (tm_BlockedSourceIPs x) ∧ full (X := string) o (tm_BlockedTunnels x).
#[export] Instance full_status_data x : Data (λ o, full_status o x).
Proof using Type. apply data_and; apply _. Qed.

Lemma status_copied σ x v F : Mono F → den_status σ x = Some v →
  run_in σ F (Status_DeepCopyInto x) (λ y o, F o ∧ den_status o y = Some v ∧ full_status o y).
Proof using HS.
  intros HF Hv. unfold den_status in Hv. den_inv Hv. simplify_eq.
  eapply run_bind; [by eapply (copies (den := den_ptr den_cell))|]. intros t.
  eapply run_bind; [by eapply copy_strings_full; [apply _|]|]. intros ips.
  eapply run_bind; [by eapply copy_strings_full; [apply _|]|]. intros tuns.
  eapply run_bind; [by eapply (copies (den := den_nil [] (den_slice den_value))); [apply _|]|]. intros conds.
  apply run_ret. intros o ((((HFo & Ht) & Hi & Hfi) & Hn & Hfn) & Hc). split; [done|]. split; [|by split].
  unfold den_status. simpl. rewrite Ht. simpl. rewrite Hi. simpl. rewrite Hn. simpl. by rewrite Hc.
Qed.

Lemma policy_copied σ x v F : Mono F → den_policy σ x = Some v →
  run_in σ F (Policy_DeepCopyInto x) (λ y o, F o ∧ den_policy o y = Some v ∧ full_status o (py_Status y)).
Proof using HS.
  intros HF Hv. unfold den_policy in Hv. den_inv Hv. simplify_eq.
  eapply run_bind; [by eapply (copies (den := den_meta))|]. intros meta.
  eapply run_bind; [by eapply (copies (den := den_spec)); [apply _|]|]. intros spec.
  eapply run_bind; [by eapply status_copied; [apply _|]|]. intros status.
  apply run_ret. intros o (((HFo & Hm) & Hs) & Ht & Hf). split; [done|]. split; [|done]. unfold den_policy. simpl.
  rewrite Hm. simpl. rewrite Hs. simpl. by rewrite Ht.
Qed.
#[export] Instance policy_copies : Copies den_policy Policy_DeepCopyInto.
Proof using HS.
  intros σ x v F HF Hv. eapply run_weaken; [by eapply (policy_copied σ x v F)|done|]. by intros y o (? & ? & _).
Qed.

(** A struct of one's own that stands for [v], its lists without spare room. *)
Definition holds (v : TelecomSecurityPolicy) (l : Loc) (p : PolicyMem) (o : Mem) : Prop :=
  den_cell o l = Some p ∧ den_policy o p = Some v.
Definition owned (v : TelecomSecurityPolicy) (l : Loc) (o : Mem) : Prop :=
  ∃ p, holds v l p o ∧ full_status o (py_Status p).
#[export] Instance holds_mono v l p : Mono (holds v l p).
Proof using Type. apply mono_and; apply _. Qed.

Lemma policy_at_copied σ l v F : Mono F → den_policy_at σ l = Some v →
  run_in σ F (Policy_DeepCopy l) (λ l' o, F o ∧ owned v l' o).
Proof using HS.
  intros HF Hv. unfold den_policy_at in Hv. den_inv Hv.
  eapply run_load; [exact E|]. eapply run_bind; [by eapply policy_copied|]. intros y.
  eapply run_weaken; [eapply (run_new _ (λ o, F o ∧ den_policy o y = Some v ∧ full_status o (py_Status y))), _|done|].
  intros l' o [(HFo & Hy & Hf) Hl]. split; [done|]. exists y. split; [by split|done].
Qed.

Lemma owned_den v l o : owned v l o → den_policy_at o l = Some v.
Proof using Type. intros (p & [Hp Hd] & _). unfold den_policy_at. by rewrite Hp. Qed.

(** A deep copy is a copy and shares nothing. Whatever the memory holds, the
    generated DeepCopy of a policy succeeds, writes to no existing cell, and returns
    a policy that stands for the same value in cells that did not exist before: no
    later change to those of the original, or to anything else outside the
    copy's cells, changes the copy, and no change within them changes the original;
    nil is copied to nil, and the items of a list likewise. *)
Theorem deepcopy_isolates σ :
  (∀ l v, den_policy_at σ l = Some v →
    ∃ l' o, DeepCopy (Some l) σ = (Ok (Some l'), σ ∪ o) ∧ σ ##ₘ o ∧
      (∀ σ', σ' ##ₘ o → den_policy_at (σ' ∪ o) l' = Some v) ∧
      (∀ o', σ ##ₘ o' → den_policy_at (σ ∪ o') l = Some v)) ∧
  (∀ s vs, den_nil [] (den_slice den_policy) σ s = Some vs →
    ∃ s' o, PolicyList_DeepCopyInto s σ = (Ok s', σ ∪ o) ∧ σ ##ₘ o ∧ (s' = None ↔ s = None) ∧
      ∀ σ', σ' ##ₘ o → den_nil [] (den_slice den_policy) (σ' ∪ o) s' = Some vs) ∧
  DeepCopy None σ = (Ok None, σ).
Proof using HS.
  split; [|split; [|done]].
  - intros l v Hv. destruct (policy_at_copied σ l v (λ _, True) _ Hv ∅) as (l' & o & E & Hd & _ & Ho);
      [by apply map_disjoint_empty_r|done|]. rewrite map_union_empty in E.
    exists l', o. split; [unfold DeepCopy, copy_ptr, mbind; by rewrite E|]. split; [done|]. split.
    + intros σ' Hσ. eapply den_mono; [by apply map_union_subseteq_r|]. by apply owned_den.
    + intros o' Ho'. eapply den_mono; [by apply map_union_subseteq_l|done].
  - intros s vs Hvs.
    destruct (copies (den := den_nil [] (den_slice den_policy)) (copy := copy_ptr (copy_slice Policy_DeepCopyInto))
      σ s vs (λ _, True) _ Hvs ∅) as (s' & o & E & Hd & _ & Ho); [by apply map_disjoint_empty_r|done|].
    rewrite map_union_empty in E. exists s', o. split; [done|]. split; [done|]. split.
    + unfold copy_ptr, mbind in E. destruct s as [s|]; [|by injection E as <- _].
      destruct (copy_slice Policy_DeepCopyInto s σ) as [[y|] σ1]; [|done]. by injection E as <- _.
    + intros σ' Hσ. eapply den_mono; [by apply map_union_subseteq_r|done].
Qed.
End DeepCopySpec.

(** ** Concrete copies, and a policy with spare capacity *)

Module MemorySample.

Definition copy_time (l : Loc) : M Mem Loc := let! t := load l in new (t : Time).
#[export] Instance api_copies : MetaV1 := {|
  ObjectMeta_DeepCopyInto x :=
    let! d := copy_ptr copy_time (mm_DeletionTimestamp x) in
    let! f := copy_ptr copy_strings (mm_Finalizers x) in
    mret {| mm_Namespace := mm_Namespace x; mm_Name := mm_Name x; mm_Generation := mm_Generation x;
            mm_DeletionTimestamp := d; mm_Finalizers := f |};
  Time_DeepCopy := copy_time;
  Condition_DeepCopyInto c := mret c |}.

#[export] Instance copy_time_copies : Copies (den_cell (X := Time)) copy_time.
Proof. intros σ l t F HF Ht. eapply run_load; [exact Ht|]. by apply run_new. Qed.

#[export] Instance api_copies_spec : MetaV1Spec.
Proof.
  split; [|apply _|apply _]. intros σ x v F HF Hv. unfold den_meta in Hv. den_inv Hv. simplify_eq.
  eapply run_bind; [by eapply (copies (den := den_ptr den_cell))|]. intros d.
  eapply run_bind; [by eapply (copies (den := den_strings)); [apply _|]|]. intros f.
  apply run_ret. intros o [[HFo Hd] Hf]. split; [done|]. unfold den_meta. simpl. rewrite Hd. simpl. by rewrite Hf.
Qed.

(** A policy that blocks one address, in an array with room for two more. *)
Definition meta : MetaMem :=
  {| mm_Namespace := "core"; mm_Name := "upf"; mm_Generation := 1; mm_DeletionTimestamp := None; mm_Finalizers := None |}.
Definition policy : PolicyMem :=
  {| py_Meta := meta;
     py_Spec := {| pm_TargetWorkloads := Some {| sl_arr := 1; sl_len := 1 |};
                   pm_ThreatDetection := {| td_Sensitivity := "high"; td_AutoMitigate := true |};
                   pm_Actions := {| act_EbpfBlock := true; act_EbpfBlockTunnel := true; act_IsolatePod := false |} |};
     py_Status := {| tm_Phase := PolicyPhaseMitigating; tm_ObservedThreatScore := "0.9000"; tm_LastMitigationTime := Some 4;
                     tm_BlockedSourceIPs := Some {| sl_arr := 3; sl_len := 1 |}; tm_BlockedTunnels := None; tm_Conditions := None |} |}%nat.
Definition mem : Mem :=
  <[0%nat := PolicyAt policy]> (<[1%nat := Selectors [{| sm_App := "upf"; sm_MatchLabels := Some 2%nat |}]]>
  (<[2%nat := Labels {["tier" := "core"]}]> (<[3%nat := Strings ["10.0.0.9"; ""; ""]]> (<[4%nat := TimeAt 77%Z]> ∅)))).

Definition value : TelecomSecurityPolicy :=
  match den_policy_at mem 0 with Some v => v | None =>
    {| pol_Meta := {| om_Namespace := ""; om_Name := ""; om_Generation := 0; om_DeletionTimestamp := None; om_Finalizers := [] |};
       pol_Spec := {| spec_TargetWorkloads := []; spec_ThreatDetection := pm_ThreatDetection (py_Spec policy);
                      spec_Actions := pm_Actions (py_Spec policy) |};
       pol_Status := zero_status |} end.

Lemma mem_holds : den_policy_at mem 0 = Some value.
Proof. vm_compute. reflexivity. Qed.

Lemma deepcopy_isolates_witness :
  st_BlockedSourceIPs (pol_Status value) = ["10.0.0.9"] ∧
  ∃ l' o, DeepCopy (Some 0%nat) mem = (Ok (Some l'), mem ∪ o) ∧ mem ##ₘ o ∧ den_policy_at (∅ ∪ o) l' = Some value.
Proof.
  split; [vm_compute; reflexivity|].
  destruct (deepcopy_isolates mem) as [Hp _]. destruct (Hp 0%nat value mem_holds) as (l' & o & E & Hd & Hc & _).
  exists l', o. split; [exact E|]. split; [exact Hd|]. apply Hc. apply map_disjoint_empty_l.
Defined.
End MemorySample.
