(* ===== verification/BoundedFifo.v ===== *)
(** * BoundedFifo: the capacity-bounded map both flood detectors keep

    GTPUFloodDetector and GTPUSourceFloodDetector store attacker-influenced
    keys in a Go map next to a ring buffer [order]/[next] of the same capacity,
    and evict the oldest key on overflow. The ring is modelled as the code has
    it; [fifo_queue] reads it as the queue it implements, and
    [fifo_insert_queue] is the refinement: an insert is an enqueue preceded by
    a dequeue when full. *)

From S2P Require Import Prelude.

Record fifo (K V : Type) `{Countable K} := {
  ff_map : gmap K V;
  ff_order : list K;
  ff_next : nat
}.
Arguments ff_map {K V _ _} f.
Arguments ff_order {K V _ _} f.
Arguments ff_next {K V _ _} f.
Arguments Build_fifo {K V _ _} _ _ _.

Section fifo.
Context {K V : Type} `{Countable K}.
Implicit Types (f : fifo K V) (k : K) (v : V).

(** [make(map[K]V, capacity)], [make([]K, capacity)]: the ring starts filled
    with the zero key. *)
Definition fifo_empty (zero : K) (capacity : nat) : fifo K V :=
  {| ff_map := ∅; ff_order := replicate capacity zero; ff_next := 0 |}.

(** The insertion of a key that is not in the map:
    [if len(m) >= len(order) { delete(m, order[next]) }; order[next] = k;
     next = (next + 1) % len(order); m[k] = v]. *)
Definition fifo_insert (k : K) (v : V) (f : fifo K V) : fifo K V :=
  let m := if length (ff_order f) <=? size (ff_map f)
           then match ff_order f !! ff_next f with
                | Some old => delete old (ff_map f)
                | None => ff_map f
                end
           else ff_map f in
  {| ff_map := <[k := v]> m;
     ff_order := <[ff_next f := k]> (ff_order f);
     ff_next := (ff_next f + 1) mod length (ff_order f) |}.

(** The update of a key that is in the map: [m[k] = v]. *)
Definition fifo_update (k : K) (v : V) (f : fifo K V) : fifo K V :=
  {| ff_map := <[k := v]> (ff_map f); ff_order := ff_order f; ff_next := ff_next f |}.

(** The keys held, oldest first. *)
Definition fifo_queue (f : fifo K V) : list K :=
  if size (ff_map f) <? length (ff_order f) then take (size (ff_map f)) (ff_order f)
  else drop (ff_next f) (ff_order f) ++ take (ff_next f) (ff_order f).

Record fifo_wf (f : fifo K V) : Prop := {
  ffw_next : ff_next f < length (ff_order f);
  ffw_size : size (ff_map f) ≤ length (ff_order f);
  ffw_fill : size (ff_map f) < length (ff_order f) → ff_next f = size (ff_map f);
  ffw_nodup : NoDup (fifo_queue f);
  ffw_dom : ∀ k, k ∈ fifo_queue f ↔ is_Some (ff_map f !! k)
}.

Lemma fifo_empty_wf zero capacity : 0 < capacity → fifo_wf (fifo_empty zero capacity).
Proof.
  intros Hc. unfold fifo_empty. split; simpl; rewrite ?length_replicate, ?map_size_empty; try lia.
  - unfold fifo_queue. simpl. rewrite length_replicate, map_size_empty.
    destruct (0 <? capacity) eqn:E; [constructor|apply Nat.ltb_ge in E; lia].
  - intros k. unfold fifo_queue. simpl. rewrite length_replicate, map_size_empty, lookup_empty.
    destruct (0 <? capacity) eqn:E; [|apply Nat.ltb_ge in E; lia].
    simpl. rewrite elem_of_nil. split; [done|intros [? ?]; done].
Qed.

Lemma fifo_queue_full f : size (ff_map f) = length (ff_order f) →
  fifo_queue f = drop (ff_next f) (ff_order f) ++ take (ff_next f) (ff_order f).
Proof. intros Hs. unfold fifo_queue. by rewrite Hs, Nat.ltb_irrefl. Qed.

Lemma fifo_queue_part f : size (ff_map f) < length (ff_order f) →
  fifo_queue f = take (size (ff_map f)) (ff_order f).
Proof. intros Hs. unfold fifo_queue. by apply Nat.ltb_lt in Hs as ->. Qed.

Lemma fifo_queue_length f : fifo_wf f → length (fifo_queue f) = size (ff_map f).
Proof.
  intros [Hn Hs Hf _ _]. destruct (decide (size (ff_map f) < length (ff_order f))) as [Hlt|Hge].
  - rewrite fifo_queue_part by done. rewrite length_take. lia.
  - rewrite fifo_queue_full by lia. rewrite length_app, length_take, length_drop. lia.
Qed.

(** The oldest key is the one under [next] when the ring is full. *)
Lemma fifo_queue_head f : fifo_wf f → size (ff_map f) = length (ff_order f) →
  ∃ old rest, ff_order f !! ff_next f = Some old ∧ fifo_queue f = old :: rest ∧
    rest = drop (S (ff_next f)) (ff_order f) ++ take (ff_next f) (ff_order f).
Proof.
  intros [Hn _ _ _ _] Hfull. destruct (lookup_lt_is_Some_2 _ _ Hn) as [old Hold].
  exists old. eexists. split; [done|]. split; [|done].
  rewrite fifo_queue_full by done. by rewrite (drop_S _ old) by done.
Qed.

Lemma insert_snoc_take (l : list K) n k : n < length l → take (S n) (<[n := k]> l) = take n l ++ [k].
Proof.
  intros Hn. rewrite (take_S_r _ _ k) by by apply list_lookup_insert_eq.
  by rewrite take_insert_ge by lia.
Qed.

(** The map after the eviction step. *)
Definition fifo_evicted (f : fifo K V) : gmap K V :=
  if length (ff_order f) <=? size (ff_map f)
  then match ff_order f !! ff_next f with Some old => delete old (ff_map f) | None => ff_map f end
  else ff_map f.

(** The queue after the eviction step. *)
Definition queue_evicted (f : fifo K V) : list K :=
  if length (ff_order f) <=? size (ff_map f) then tail (fifo_queue f) else fifo_queue f.

Lemma insert_last_queue (l : list K) n k : length l = S n → <[n := k]> l = take n l ++ [k].
Proof.
  intros Hl. rewrite <- (firstn_all (<[n := k]> l)), length_insert, Hl.
  apply insert_snoc_take. lia.
Qed.

(** Eviction keeps queue and map in step. *)
Lemma fifo_evict_spec f : fifo_wf f →
  NoDup (queue_evicted f) ∧ (∀ j, j ∈ queue_evicted f ↔ is_Some (fifo_evicted f !! j)) ∧
  length (queue_evicted f) = size (fifo_evicted f).
Proof.
  intros Hwf. pose proof Hwf as [Hn Hs Hfill Hnd Hdom]. pose proof (fifo_queue_length f Hwf) as Hql.
  unfold queue_evicted, fifo_evicted. destruct (length (ff_order f) <=? size (ff_map f)) eqn:E; [|done].
  apply Nat.leb_le in E. destruct (fifo_queue_head f Hwf ltac:(lia)) as (old & rest & Hold & Hq & _).
  rewrite Hold, Hq. rewrite Hq in *. cbn [tail]. apply NoDup_cons in Hnd as [Hnot Hnd].
  assert (is_Some (ff_map f !! old)) by (apply Hdom; set_solver). split; [done|split].
  - intros j. rewrite lookup_delete_is_Some, <- Hdom. set_solver.
  - rewrite map_size_delete_Some by done. simpl in Hql. lia.
Qed.

Lemma fifo_insert_size k v f : fifo_wf f → ff_map f !! k = None →
  size (ff_map (fifo_insert k v f)) = S (length (queue_evicted f)).
Proof.
  intros Hwf Hk. destruct (fifo_evict_spec f Hwf) as (_ & _ & Hl).
  change (ff_map (fifo_insert k v f)) with (<[k := v]> (fifo_evicted f)).
  rewrite map_size_insert_None, Hl; [done|]. unfold fifo_evicted.
  repeat case_match; try done. apply lookup_delete_None. by right.
Qed.

(** Refinement, full ring: the oldest key leaves, the new one enters last. *)
Lemma fifo_insert_queue_full k v f : fifo_wf f → ff_map f !! k = None →
  size (ff_map f) = length (ff_order f) →
  fifo_queue (fifo_insert k v f) = tail (fifo_queue f) ++ [k].
Proof.
  intros Hwf Hk Hfull. pose proof Hwf as [Hn _ _ _ _]. pose proof (fifo_queue_length f Hwf) as Hql.
  destruct (fifo_queue_head f Hwf Hfull) as (old & rest & Hold & Hq & Hrest).
  pose proof (fifo_insert_size k v f Hwf Hk) as Hsz. unfold queue_evicted in Hsz.
  rewrite Hfull, Nat.leb_refl, Hq in Hsz. rewrite Hq in Hql |- *. cbn [tail length] in *.
  rewrite fifo_queue_full by (rewrite Hsz; simpl; rewrite length_insert; lia).
  cbn [fifo_insert ff_order ff_next]. rewrite Hrest.
  destruct (decide (ff_next f + 1 < length (ff_order f))) as [Hlt|Hge].
  - rewrite Nat.mod_small by done. rewrite Nat.add_1_r, drop_insert_lt, insert_snoc_take by lia.
    by rewrite app_assoc.
  - replace (ff_next f + 1) with (length (ff_order f)) by lia.
    rewrite Nat.Div0.mod_same, take_0, app_nil_r, drop_0, (drop_ge (ff_order f)) by lia.
    apply insert_last_queue. lia.
Qed.

(** Refinement, room left: the new key enters last. *)
Lemma fifo_insert_queue_part k v f : fifo_wf f → ff_map f !! k = None →
  size (ff_map f) < length (ff_order f) →
  fifo_queue (fifo_insert k v f) = fifo_queue f ++ [k].
Proof.
  intros Hwf Hk Hroom. pose proof Hwf as [_ _ Hfill _ _]. specialize (Hfill Hroom).
  pose proof (fifo_insert_size k v f Hwf Hk) as Hsz. unfold queue_evicted in Hsz.
  apply Nat.leb_gt in Hroom as Hgt. rewrite Hgt, fifo_queue_length in Hsz by done.
  rewrite (fifo_queue_part f) by done.
  destruct (decide (S (size (ff_map f)) < length (ff_order f))) as [Hlt|Hge].
  - rewrite fifo_queue_part by (rewrite Hsz; simpl; by rewrite length_insert).
    rewrite Hsz. cbn [fifo_insert ff_order]. rewrite Hfill. by apply insert_snoc_take.
  - rewrite fifo_queue_full by (rewrite Hsz; simpl; rewrite length_insert; lia).
    cbn [fifo_insert ff_order ff_next]. rewrite Hfill.
    replace (size (ff_map f) + 1) with (length (ff_order f)) by lia.
    rewrite Nat.Div0.mod_same, take_0, app_nil_r, drop_0. apply insert_last_queue. lia.
Qed.

(** Refinement: the ring implements a bounded FIFO queue. *)
Lemma fifo_insert_queue k v f : fifo_wf f → ff_map f !! k = None →
  fifo_queue (fifo_insert k v f) =
    (if length (ff_order f) <=? size (ff_map f) then tail (fifo_queue f) else fifo_queue f) ++ [k].
Proof.
  intros Hwf Hk. pose proof (ffw_size f Hwf). case_match eqn:E.
  - apply Nat.leb_le in E. apply fifo_insert_queue_full; [done|done|lia].
  - apply Nat.leb_gt in E. by apply fifo_insert_queue_part.
Qed.

Lemma fifo_insert_capacity k v f : length (ff_order (fifo_insert k v f)) = length (ff_order f).
Proof. unfold fifo_insert. simpl. apply length_insert. Qed.

Lemma queue_evicted_length f : fifo_wf f →
  S (length (queue_evicted f)) ≤ length (ff_order f) ∧
  (S (length (queue_evicted f)) < length (ff_order f) →
    length (queue_evicted f) = size (ff_map f) ∧ size (ff_map f) < length (ff_order f)).
Proof.
  intros Hwf. pose proof Hwf as [Hn Hs _ _ _]. pose proof (fifo_queue_length f Hwf) as Hql.
  unfold queue_evicted. case_match eqn:E.
  - apply Nat.leb_le in E. destruct (fifo_queue f); simpl in *; lia.
  - apply Nat.leb_gt in E. rewrite Hql. lia.
Qed.

Lemma fifo_insert_wf k v f : fifo_wf f → ff_map f !! k = None → fifo_wf (fifo_insert k v f).
Proof.
  intros Hwf Hk. pose proof Hwf as [Hn Hs Hfill _ _].
  pose proof (fifo_insert_size k v f Hwf Hk) as Hsz.
  pose proof (fifo_insert_queue k v f Hwf Hk) as Hq. fold (queue_evicted f) in Hq.
  destruct (fifo_evict_spec f Hwf) as (Hnd & Hin & _).
  destruct (queue_evicted_length f Hwf) as [Hle Hpart].
  assert (Hkq : k ∉ queue_evicted f).
  { rewrite Hin. unfold fifo_evicted. intros [x Hx]. repeat case_match; try congruence.
    apply lookup_delete_Some in Hx as [_ Hx]. congruence. }
  split; rewrite ?fifo_insert_capacity.
  - apply Nat.mod_upper_bound. lia.
  - lia.
  - rewrite Hsz. intros Hlt. destruct (Hpart Hlt) as [-> Hlt1].
    cbn [fifo_insert ff_next]. rewrite Hfill by done. rewrite Nat.mod_small; lia.
  - rewrite Hq. apply NoDup_app. split; [done|split; [set_solver|apply NoDup_singleton]].
  - intros j. rewrite Hq, elem_of_app, list_elem_of_singleton, Hin.
    change (ff_map (fifo_insert k v f)) with (<[k := v]> (fifo_evicted f)).
    rewrite lookup_insert_is_Some'. naive_solver.
Qed.

Lemma fifo_update_queue k v f : is_Some (ff_map f !! k) →
  fifo_queue (fifo_update k v f) = fifo_queue f ∧ size (ff_map (fifo_update k v f)) = size (ff_map f).
Proof.
  intros [x Hx]. assert (Hs : size (<[k := v]> (ff_map f)) = size (ff_map f)).
  { by rewrite map_size_insert, Hx. }
  unfold fifo_queue, fifo_update. simpl. by rewrite Hs.
Qed.

Lemma fifo_update_wf k v f : fifo_wf f → is_Some (ff_map f !! k) → fifo_wf (fifo_update k v f).
Proof.
  intros [Hn Hs Hfill Hnd Hdom] Hk. destruct (fifo_update_queue k v f Hk) as [Hq Hsz].
  split; [done|by rewrite Hsz|by rewrite Hsz|by rewrite Hq|].
  intros j. rewrite Hq, Hdom. unfold fifo_update. simpl. rewrite lookup_insert_is_Some'.
  split; [by right|intros [->|?]; done].
Qed.

(** With room left nothing is evicted. *)
Lemma fifo_insert_room k v f : size (ff_map f) < length (ff_order f) →
  ff_map (fifo_insert k v f) = <[k := v]> (ff_map f).
Proof.
  intros Hs. unfold fifo_insert. simpl.
  by replace (length (ff_order f) <=? size (ff_map f)) with false by (symmetry; by apply Nat.leb_gt).
Qed.
End fifo.

#[export] Hint Resolve fifo_insert_wf fifo_update_wf fifo_empty_wf : sentinel.
