(* ===== verification/TunnelFlood.v ===== *)
(** * TunnelFlood: the per-tunnel flood rule (pkg/detect/gtpu_flood.go)

    [GTPUFloodDetector] reports a GTP-U tunnel whose own packet rate crosses a
    threshold, at most once per cooldown, in bounded memory. The cooldown table
    is a [fifo] from tunnels to the time of their last report. *)

From S2P Require Import Prelude GoStrings GoFloat Events BoundedFifo.
From Stdlib Require Import SpecFloat.

Local Open Scope Z_scope.

Definition ModelGTPUTunnelFlood : string := "rule:gtpu-tunnel-flood".
Definition DefaultCooldown : Duration := 30 * Second.
Definition defaultTrackedTunnels : Z := 4096.

Record GTPUFloodConfig := {
  fc_Enabled : bool;
  fc_PacketsPerSecond : Z;     (* uint32 *)
  fc_Cooldown : Duration;
  fc_MaxTrackedTunnels : Z     (* int *)
}.

Record tunnelID := mk_tid { tid_sourceIP : string; tid_teid : Z }.

#[export] Instance tunnelID_eq_dec : EqDecision tunnelID.
Proof. solve_decision. Defined.

#[export] Program Instance tunnelID_countable : Countable tunnelID :=
  inj_countable' (λ t, (tid_sourceIP t, tid_teid t)) (λ p, mk_tid p.1 p.2) _.
Next Obligation. by intros []. Qed.

Record GTPUFloodDetector := {
  fd_cfg : GTPUFloodConfig;
  fd_seen : fifo tunnelID Time     (* lastFired, order, next *)
}.

Definition NewGTPUFloodDetector (cfg : GTPUFloodConfig) : GTPUFloodDetector :=
  let capacity := if fc_MaxTrackedTunnels cfg <=? 0 then defaultTrackedTunnels
                  else fc_MaxTrackedTunnels cfg in
  let cooldown := if fc_Cooldown cfg <=? 0 then DefaultCooldown else fc_Cooldown cfg in
  {| fd_cfg := {| fc_Enabled := fc_Enabled cfg; fc_PacketsPerSecond := fc_PacketsPerSecond cfg;
                  fc_Cooldown := cooldown; fc_MaxTrackedTunnels := fc_MaxTrackedTunnels cfg |};
     fd_seen := fifo_empty (mk_tid "" 0) (Z.to_nat capacity) |}.

(** [claim]: records that [id] fired at [now], unless it is still cooling down. *)
Definition claim (d : GTPUFloodDetector) (id : tunnelID) (now : Time) : bool * GTPUFloodDetector :=
  match ff_map (fd_seen d) !! id with
  | Some last =>
      if Sub now last <? fc_Cooldown (fd_cfg d) then (false, d)
      else (true, {| fd_cfg := fd_cfg d; fd_seen := fifo_update id now (fd_seen d) |})
  | None => (true, {| fd_cfg := fd_cfg d; fd_seen := fifo_insert id now (fd_seen d) |})
  end.

(** [Evaluate]: the score when [evt] is a flood not yet reported. *)
Definition Evaluate (d : GTPUFloodDetector) (evt : NormalizedEvent) (now : Time)
    : ThreatScoreEvent * bool * GTPUFloodDetector :=
  if negb (fc_Enabled (fd_cfg d)) || (fc_PacketsPerSecond (fd_cfg d) =? 0)
  then (zero_ThreatScoreEvent, false, d)
  else if negb (ne_Protocol evt =? ProtocolGTPU)%string || (ne_TEID evt =? 0)
  then (zero_ThreatScoreEvent, false, d)
  else if f64_ltb (ne_TunnelRatePerSecond evt) (f64_of_Z (fc_PacketsPerSecond (fd_cfg d)))
  then (zero_ThreatScoreEvent, false, d)
  else
    let '(ok, d') := claim d (mk_tid (ne_SourceIP evt) (ne_TEID evt)) now in
    if negb ok then (zero_ThreatScoreEvent, false, d')
    else ({| ts_SourceEventID := ne_EventID evt; ts_Namespace := ne_Namespace evt;
             ts_PodName := ne_PodName evt; ts_SourceIP := ne_SourceIP evt; ts_TEID := ne_TEID evt;
             ts_Score := f64_one; ts_Model := ModelGTPUTunnelFlood; ts_DetectedAt := now |}, true, d').

(** ** Memory stays bounded *)

Definition capacity (d : GTPUFloodDetector) : nat := length (ff_order (fd_seen d)).

Definition detector_wf (d : GTPUFloodDetector) : Prop :=
  fifo_wf (fd_seen d) ∧ 0 < fc_Cooldown (fd_cfg d).

Lemma New_wf cfg : detector_wf (NewGTPUFloodDetector cfg).
Proof.
  split; simpl.
  - apply fifo_empty_wf. destruct (_ <=? 0) eqn:E; unbool; [unfold defaultTrackedTunnels; lia|lia].
  - destruct (fc_Cooldown cfg <=? 0) eqn:E; unbool; [unfold DefaultCooldown, Second; lia|lia].
Qed.

Lemma claim_wf d id now b d' : detector_wf d → claim d id now = (b, d') →
  detector_wf d' ∧ fd_cfg d' = fd_cfg d ∧ capacity d' = capacity d.
Proof.
  intros [Hf Hc]. unfold claim. destruct (ff_map (fd_seen d) !! id) as [last|] eqn:E.
  - destruct (_ <? _); intros [= <- <-]; [done|].
    split; [|done]. split; [|done]. apply fifo_update_wf; [done|by eexists].
  - intros [= <- <-]. unfold capacity, detector_wf. cbn [fd_cfg fd_seen].
    rewrite fifo_insert_capacity. auto with sentinel.
Qed.

(** Every reachable detector: the evaluations made so far, from a fresh one. *)
Inductive reachable (cfg : GTPUFloodConfig) : GTPUFloodDetector → Prop :=
  | reach_new : reachable cfg (NewGTPUFloodDetector cfg)
  | reach_eval d evt now s b d' :
      reachable cfg d → Evaluate d evt now = (s, b, d') → reachable cfg d'.

Lemma Evaluate_claim d evt now s b d' : Evaluate d evt now = (s, b, d') →
  d' = d ∧ b = false ∨ ∃ ok, claim d (mk_tid (ne_SourceIP evt) (ne_TEID evt)) now = (ok, d') ∧ b = ok.
Proof.
  unfold Evaluate. repeat (case_match; [intros [= <- <- <-]; by left|]).
  destruct (claim _ _ _) as [ok d1] eqn:E. intros H2. right. exists ok.
  destruct ok; simplify_eq/=; auto.
Qed.

Lemma reachable_wf cfg d : reachable cfg d →
  detector_wf d ∧ capacity d = capacity (NewGTPUFloodDetector cfg).
Proof.
  induction 1 as [|d evt now s b d' Hr [IH1 IH2] He]; [split; [apply New_wf|done]|].
  apply Evaluate_claim in He as [[-> _]|(ok & Hc & _)]; [done|].
  destruct (claim_wf _ _ _ _ _ IH1 Hc) as (? & _ & ?). split; [done|congruence].
Qed.

(** The cooldown table never holds more tunnels than its configured
    capacity, whatever the traffic. *)
Theorem tunnel_table_bounded cfg d : reachable cfg d →
  (size (ff_map (fd_seen d)) ≤ capacity (NewGTPUFloodDetector cfg))%nat.
Proof. intros Hr. destruct (reachable_wf cfg d Hr) as [[Hf _] <-]. apply Hf. Qed.

(** ** When the rule fires *)

(** The precise condition under which [claim] grants a report. *)
Lemma claim_true_iff d id now b d' : claim d id now = (b, d') →
  b = true ↔ match ff_map (fd_seen d) !! id with
             | Some last => fc_Cooldown (fd_cfg d) ≤ Sub now last
             | None => True
             end.
Proof.
  unfold claim. destruct (ff_map (fd_seen d) !! id) as [last|]; [|by intros [= <- <-]].
  destruct (_ <? _) eqn:E; intros [= <- <-]; unbool; split; (done || lia).
Qed.

(** A granted claim is remembered. *)
Lemma claim_records d id now d' : claim d id now = (true, d') → ff_map (fd_seen d') !! id = Some now.
Proof.
  unfold claim. repeat case_match; intros [= <-]; simpl; by rewrite lookup_insert_eq.
Qed.

(** ** Equivalence with an unbounded reference detector *)

(** The reference keeps every tunnel forever. *)
Definition ref_claim (cooldown : Duration) (m : gmap tunnelID Time) (id : tunnelID) (now : Time)
    : bool * gmap tunnelID Time :=
  match m !! id with
  | Some last => if Sub now last <? cooldown then (false, m) else (true, <[id := now]> m)
  | None => (true, <[id := now]> m)
  end.

Fixpoint run_claims (d : GTPUFloodDetector) (l : list (tunnelID * Time)) : list bool :=
  match l with
  | [] => []
  | (id, now) :: l' => let '(b, d') := claim d id now in b :: run_claims d' l'
  end.

Fixpoint ref_run (cooldown : Duration) (m : gmap tunnelID Time) (l : list (tunnelID * Time)) : list bool :=
  match l with
  | [] => []
  | (id, now) :: l' => let '(b, m') := ref_claim cooldown m id now in b :: ref_run cooldown m' l'
  end.

Lemma run_claims_ref d l :
  detector_wf d →
  (size (dom (ff_map (fd_seen d)) ∪ list_to_set (l.*1)) ≤ capacity d)%nat →
  run_claims d l = ref_run (fc_Cooldown (fd_cfg d)) (ff_map (fd_seen d)) l.
Proof.
  revert d. induction l as [|[id now] l IH]; intros d Hwf Hcap; [done|].
  cbn [run_claims ref_run]. destruct (claim d id now) as [b d'] eqn:Ec.
  destruct (claim_wf _ _ _ _ _ Hwf Ec) as (Hwf' & Hcfg & Hcap').
  unfold claim in Ec. unfold ref_claim. cbn [fmap list_fmap fst] in Hcap.
  assert (Hdom : is_Some (ff_map (fd_seen d) !! id) ∨ (size (ff_map (fd_seen d)) < capacity d)%nat).
  { destruct (ff_map (fd_seen d) !! id) as [x|] eqn:E; [left; by eexists|right].
    apply not_elem_of_dom in E. rewrite <- size_dom.
    eapply Nat.lt_le_trans; [|exact Hcap]. apply subset_size. set_solver. }
  destruct (ff_map (fd_seen d) !! id) as [last|] eqn:El.
  - destruct (_ <? _) eqn:E; simplify_eq; f_equal.
    + apply IH; [done|]. etransitivity; [|exact Hcap]. apply subseteq_size. set_solver.
    + rewrite IH; [done|done|]. rewrite Hcap'. etransitivity; [|exact Hcap].
      apply subseteq_size. simpl. rewrite dom_insert_L. set_solver.
  - destruct Hdom as [[? ?]|Hroom]; [done|]. simplify_eq. f_equal.
    rewrite IH; [cbn [fd_cfg fd_seen]; by rewrite fifo_insert_room|done|].
    rewrite Hcap'. etransitivity; [|exact Hcap]. apply subseteq_size. cbn [fd_seen].
    rewrite fifo_insert_room by done. rewrite dom_insert_L. set_solver.
Qed.

(** C23: As long as no more distinct tunnels are claimed than the table holds,
    the bounded detector answers exactly like one with unbounded memory. *)
Theorem claims_match_unbounded cfg (l : list (tunnelID * Time)) :
  (size (list_to_set (l.*1) : gset tunnelID) ≤ capacity (NewGTPUFloodDetector cfg))%nat →
  run_claims (NewGTPUFloodDetector cfg) l =
    ref_run (fc_Cooldown (fd_cfg (NewGTPUFloodDetector cfg))) ∅ l.
Proof.
  intros Hcap. rewrite run_claims_ref; [done|apply New_wf|].
  simpl. rewrite dom_empty_L, (left_id_L ∅ (∪)). exact Hcap.
Qed.

(** The events a capture path without tunnel visibility emits (TEID 0)
    never trip the rule and never touch its table. *)
Lemma no_teid_never_fires d evt now :
  ne_TEID evt = 0 → Evaluate d evt now = (zero_ThreatScoreEvent, false, d).
Proof.
  intros Ht. unfold Evaluate. case_match; [done|]. rewrite Ht, Z.eqb_refl, orb_true_r. done.
Qed.

(** A report means: the rule is enabled with a nonzero threshold, the packet
    is GTP-U with a tunnel, the kernel counted at least the threshold, and the
    tunnel was not reported within the cooldown. It names that very tunnel,
    with the maximal score. *)
Theorem Evaluate_fires d evt now rate s d' :
  0 ≤ rate < 2 ^ 32 → 0 ≤ fc_PacketsPerSecond (fd_cfg d) < 2 ^ 32 →
  ne_TunnelRatePerSecond evt = f64_of_Z rate →
  Evaluate d evt now = (s, true, d') →
  fc_Enabled (fd_cfg d) = true ∧ ne_Protocol evt = ProtocolGTPU ∧ ne_TEID evt ≠ 0 ∧
  0 < fc_PacketsPerSecond (fd_cfg d) ≤ rate ∧
  (∀ last, ff_map (fd_seen d) !! (mk_tid (ne_SourceIP evt) (ne_TEID evt)) = Some last →
     fc_Cooldown (fd_cfg d) ≤ Sub now last) ∧
  ff_map (fd_seen d') !! (mk_tid (ne_SourceIP evt) (ne_TEID evt)) = Some now ∧
  ts_SourceIP s = ne_SourceIP evt ∧ ts_TEID s = ne_TEID evt ∧ ts_Score s = f64_one ∧
  ts_Model s = ModelGTPUTunnelFlood.
Proof.
  intros Hrate Hpps Hev. unfold Evaluate. case_match eqn:E1; [done|].
  case_match eqn:E2; [done|]. case_match eqn:E3; [done|].
  destruct (claim _ _ _) as [[] d1] eqn:Ec; simpl; [|done]. intros [= <- <-].
  rewrite Hev, f64_ltb_of_Z in E3 by lia. unbool.
  pose proof (claim_true_iff _ _ _ _ _ Ec) as [Hlast _]. specialize (Hlast eq_refl).
  repeat split; try done; try lia.
  - by intros last Hl; rewrite Hl in Hlast.
  - by eapply claim_records.
Qed.

(** ** The properties at work *)

Module TunnelFloodSample.

Definition sample_cfg : GTPUFloodConfig :=
  {| fc_Enabled := true; fc_PacketsPerSecond := 100; fc_Cooldown := 0; fc_MaxTrackedTunnels := 2 |}.

(** A packet of tunnel [teid] of the peer 10.0.0.9, its tunnel at [rate] packets
    per second. *)
Definition gtpu_packet (teid rate : Z) : NormalizedEvent :=
  {| ne_EventID := "e1"; ne_ObservedAt := 0; ne_Namespace := "core"; ne_PodName := "upf-0";
     ne_NodeName := "n1"; ne_SourceIP := "10.0.0.9"; ne_DestIP := "10.0.0.1"; ne_DestPort := 2152;
     ne_Protocol := ProtocolGTPU; ne_PayloadSize := 64; ne_RatePerSecond := f64_of_Z rate;
     ne_Malformed := false; ne_VLANID := 0; ne_TEID := teid;
     ne_TunnelRatePerSecond := f64_of_Z rate |}.

Definition sample_detector : GTPUFloodDetector := NewGTPUFloodDetector sample_cfg.

(** The detector after one report. *)
Definition reported : GTPUFloodDetector := (Evaluate sample_detector (gtpu_packet 7 150) 10).2.

Lemma tunnel_table_bounded_witness :
  (size (ff_map (fd_seen reported)) ≤ capacity (NewGTPUFloodDetector sample_cfg))%nat.
Proof.
  apply tunnel_table_bounded.
  eapply (reach_eval sample_cfg sample_detector (gtpu_packet 7 150) 10); [constructor|reflexivity].
Defined.

Definition sample_claims : list (tunnelID * Time) :=
  [(mk_tid "a" 1, 0); (mk_tid "b" 1, 1); (mk_tid "a" 1, 2); (mk_tid "a" 1, 40 * Second)].

Lemma claims_match_unbounded_witness :
  run_claims (NewGTPUFloodDetector sample_cfg) sample_claims =
    ref_run (fc_Cooldown (fd_cfg (NewGTPUFloodDetector sample_cfg))) ∅ sample_claims ∧
  run_claims (NewGTPUFloodDetector sample_cfg) sample_claims = [true; true; false; true].
Proof. split; [apply claims_match_unbounded; vm_compute; lia|reflexivity]. Defined.

Lemma Evaluate_fires_witness :
  ff_map (fd_seen reported) !! mk_tid "10.0.0.9" 7 = Some 10.
Proof.
  destruct (Evaluate_fires sample_detector (gtpu_packet 7 150) 10 150
    (Evaluate sample_detector (gtpu_packet 7 150) 10).1.1 reported)
    as (_ & _ & _ & _ & _ & H & _); [lia|vm_compute; split; congruence|reflexivity|reflexivity|].
  exact H.
Defined.

End TunnelFloodSample.
