(* ===== verification/SourceFlood.v ===== *)
(** * SourceFlood: the per-peer flood rule (pkg/detect/gtpu_source_flood.go)

    [GTPUSourceFloodDetector] counts, per source address and measurement
    window, the packets of every tunnel together and the distinct TEIDs, and
    reports a source that crosses either threshold, at most once per cooldown
    while it stays in the table.
    The Go map holds pointers to [sourceWindow]; a step reads the window,
    changes it and leaves the changed one in the map. *)

From S2P Require Import Prelude GoStrings GoFloat Events BoundedFifo TunnelFlood.
From Stdlib Require Import SpecFloat.

Local Open Scope Z_scope.

Definition ModelGTPUSourceFlood : string := "rule:gtpu-source-flood".
Definition DefaultSourceFloodWindow : Duration := Second.
Definition defaultTrackedSources : Z := 1024.
Definition defaultTunnelsPerSource : Z := 4096.

Record GTPUSourceFloodConfig := {
  sc_Enabled : bool;
  sc_PacketsPerSecond : Z;      (* uint32 *)
  sc_DistinctTunnels : Z;       (* int *)
  sc_Window : Duration;
  sc_Cooldown : Duration;
  sc_MaxTrackedSources : Z;
  sc_MaxTunnelsPerSource : Z
}.

Record sourceWindow := {
  sw_start : Time;
  sw_packets : Z;               (* uint32 *)
  sw_teids : gset Z;
  sw_lastFired : Time
}.

Record GTPUSourceFloodDetector := {
  sd_cfg : GTPUSourceFloodConfig;
  sd_sources : fifo string sourceWindow    (* sources, order, next *)
}.

Definition or_default (v dflt : Z) : Z := if v <=? 0 then dflt else v.

Definition NewGTPUSourceFloodDetector (cfg : GTPUSourceFloodConfig) : GTPUSourceFloodDetector :=
  let cfg' := {|
    sc_Enabled := sc_Enabled cfg; sc_PacketsPerSecond := sc_PacketsPerSecond cfg;
    sc_DistinctTunnels := sc_DistinctTunnels cfg;
    sc_Window := or_default (sc_Window cfg) DefaultSourceFloodWindow;
    sc_Cooldown := or_default (sc_Cooldown cfg) DefaultCooldown;
    sc_MaxTrackedSources := or_default (sc_MaxTrackedSources cfg) defaultTrackedSources;
    sc_MaxTunnelsPerSource := or_default (sc_MaxTunnelsPerSource cfg) defaultTunnelsPerSource |} in
  {| sd_cfg := cfg'; sd_sources := fifo_empty ""%string (Z.to_nat (sc_MaxTrackedSources cfg')) |}.

Definition Configured (d : GTPUSourceFloodDetector) : bool :=
  sc_Enabled (sd_cfg d) &&
  ((0 <? sc_PacketsPerSecond (sd_cfg d)) || (0 <? sc_DistinctTunnels (sd_cfg d))).

Record SourceFloodObservation := { so_PacketsInWindow : Z; so_DistinctTunnels : Z }.
Definition zero_observation : SourceFloodObservation := {| so_PacketsInWindow := 0; so_DistinctTunnels := 0 |}.

(** [report]: either threshold crossed; a zero threshold is off. *)
Definition report (cfg : GTPUSourceFloodConfig) (packets distinct : Z) : bool :=
  if (0 <? sc_PacketsPerSecond cfg) && (sc_PacketsPerSecond cfg <=? packets) then true
  else (0 <? sc_DistinctTunnels cfg) && (sc_DistinctTunnels cfg <=? distinct).

Definition fresh_window (now : Time) : sourceWindow :=
  {| sw_start := now; sw_packets := 0; sw_teids := ∅; sw_lastFired := zero_time |}.

(** The window reset: counts start over, the last report time does not. *)
Definition roll (cfg : GTPUSourceFloodConfig) (w : sourceWindow) (now : Time) : sourceWindow :=
  if sc_Window cfg <=? Sub now (sw_start w)
  then {| sw_start := now; sw_packets := 0; sw_teids := ∅; sw_lastFired := sw_lastFired w |}
  else w.

(** [w.packets++] and the bounded TEID set. *)
Definition count (cfg : GTPUSourceFloodConfig) (w : sourceWindow) (teid : Z) : sourceWindow :=
  {| sw_start := sw_start w;
     sw_packets := wrap 32 (sw_packets w + 1);
     sw_teids := if Z.of_nat (size (sw_teids w)) <? sc_MaxTunnelsPerSource cfg
                 then {[teid]} ∪ sw_teids w else sw_teids w;
     sw_lastFired := sw_lastFired w |}.

Definition mark_fired (w : sourceWindow) (now : Time) : sourceWindow :=
  {| sw_start := sw_start w; sw_packets := sw_packets w; sw_teids := sw_teids w; sw_lastFired := now |}.

(** [observe]: folds one packet into its source's window. *)
Definition observe (d : GTPUSourceFloodDetector) (sourceIP : string) (teid : Z) (now : Time)
    : Z * Z * bool * GTPUSourceFloodDetector :=
  let cfg := sd_cfg d in
  let '(w, f) := match ff_map (sd_sources d) !! sourceIP with
                 | Some w => (w, sd_sources d)
                 | None => (fresh_window now, fifo_insert sourceIP (fresh_window now) (sd_sources d))
                 end in
  let w := count cfg (roll cfg w now) teid in
  let store w' := {| sd_cfg := cfg; sd_sources := fifo_update sourceIP w' f |} in
  let packets := sw_packets w in
  let distinct := Z.of_nat (size (sw_teids w)) in
  if negb (report cfg packets distinct) then (packets, distinct, false, store w)
  else if negb (IsZero (sw_lastFired w)) && (Sub now (sw_lastFired w) <? sc_Cooldown cfg)
  then (packets, distinct, false, store w)
  else (packets, distinct, true, store (mark_fired w now)).

(** [Evaluate]. *)
Definition EvaluateSource (d : GTPUSourceFloodDetector) (evt : NormalizedEvent) (now : Time)
    : ThreatScoreEvent * SourceFloodObservation * bool * GTPUSourceFloodDetector :=
  if negb (Configured d) then (zero_ThreatScoreEvent, zero_observation, false, d)
  else if negb (ne_Protocol evt =? ProtocolGTPU)%string || (ne_TEID evt =? 0) || (ne_SourceIP evt =? "")%string
  then (zero_ThreatScoreEvent, zero_observation, false, d)
  else
    let '(packets, distinct, fired, d') := observe d (ne_SourceIP evt) (ne_TEID evt) now in
    let observed := {| so_PacketsInWindow := packets; so_DistinctTunnels := distinct |} in
    if negb fired then (zero_ThreatScoreEvent, observed, false, d')
    else ({| ts_SourceEventID := ne_EventID evt; ts_Namespace := ne_Namespace evt;
             ts_PodName := ne_PodName evt; ts_SourceIP := ne_SourceIP evt; ts_TEID := 0;
             ts_Score := f64_one; ts_Model := ModelGTPUSourceFlood; ts_DetectedAt := now |},
          observed, true, d').

(** ** Invariant: bounded sources, bounded TEID sets *)

Definition source_wf (d : GTPUSourceFloodDetector) : Prop :=
  fifo_wf (sd_sources d) ∧ 0 < sc_MaxTunnelsPerSource (sd_cfg d) ∧ 0 < sc_Window (sd_cfg d) ∧
  map_Forall (λ _ w, Z.of_nat (size (sw_teids w)) ≤ sc_MaxTunnelsPerSource (sd_cfg d))
    (ff_map (sd_sources d)).

Lemma or_default_pos v dflt : 0 < dflt → 0 < or_default v dflt.
Proof. unfold or_default. case_match; unbool; lia. Qed.

Lemma NewSource_wf cfg : source_wf (NewGTPUSourceFloodDetector cfg).
Proof.
  split; [apply fifo_empty_wf; simpl|split; [|split]].
  - pose proof (or_default_pos (sc_MaxTrackedSources cfg) defaultTrackedSources ltac:(done)). lia.
  - by apply or_default_pos.
  - by apply or_default_pos.
  - intros k w. simpl. by rewrite lookup_empty.
Qed.

(** One packet, as the window it leaves behind. *)
Definition step_window (cfg : GTPUSourceFloodConfig) (ow : option sourceWindow) (teid : Z) (now : Time)
    : sourceWindow * bool :=
  let w := count cfg (roll cfg (default (fresh_window now) ow) now) teid in
  if negb (report cfg (sw_packets w) (Z.of_nat (size (sw_teids w)))) then (w, false)
  else if negb (IsZero (sw_lastFired w)) && (Sub now (sw_lastFired w) <? sc_Cooldown cfg) then (w, false)
  else (mark_fired w now, true).

(** The other sources a packet may touch: only an evicted one. *)
Definition admit_source (d : GTPUSourceFloodDetector) (sourceIP : string) (now : Time)
    : fifo string sourceWindow :=
  match ff_map (sd_sources d) !! sourceIP with
  | Some _ => sd_sources d
  | None => fifo_insert sourceIP (fresh_window now) (sd_sources d)
  end.

Lemma observe_step d src teid now :
  let '(w, b) := step_window (sd_cfg d) (ff_map (sd_sources d) !! src) teid now in
  observe d src teid now =
    (sw_packets w, Z.of_nat (size (sw_teids w)), b,
     {| sd_cfg := sd_cfg d; sd_sources := fifo_update src w (admit_source d src now) |}).
Proof.
  unfold observe, step_window, admit_source.
  destruct (ff_map (sd_sources d) !! src) as [w0|]; simpl; repeat (case_match; simplify_eq/=; try done).
Qed.

Lemma count_size cfg w teid : 0 < sc_MaxTunnelsPerSource cfg →
  Z.of_nat (size (sw_teids w)) ≤ sc_MaxTunnelsPerSource cfg →
  Z.of_nat (size (sw_teids (count cfg w teid))) ≤ sc_MaxTunnelsPerSource cfg.
Proof.
  intros Hpos Hle. unfold count. simpl. case_match eqn:E; [|done]. unbool.
  destruct (decide (teid ∈ sw_teids w)) as [Hin|Hnin].
  - replace ({[teid]} ∪ sw_teids w) with (sw_teids w) by set_solver. done.
  - rewrite size_union by set_solver. rewrite size_singleton. lia.
Qed.

Lemma step_window_size cfg ow teid now w b : 0 < sc_MaxTunnelsPerSource cfg →
  (∀ w0, ow = Some w0 → Z.of_nat (size (sw_teids w0)) ≤ sc_MaxTunnelsPerSource cfg) →
  step_window cfg ow teid now = (w, b) → Z.of_nat (size (sw_teids w)) ≤ sc_MaxTunnelsPerSource cfg.
Proof.
  intros Hpos Hold Hs.
  assert (Hc : Z.of_nat (size (sw_teids (count cfg (roll cfg (default (fresh_window now) ow) now) teid)))
    ≤ sc_MaxTunnelsPerSource cfg).
  { apply count_size; [done|]. pose proof (size_empty (C:=gset Z)) as He. unfold roll.
    case_match; [cbn [sw_teids]; lia|]. destruct ow as [w0|]; [by apply Hold|cbn; lia]. }
  unfold step_window in Hs. repeat case_match; simplify_eq; done.
Qed.

Lemma admit_source_spec d src now : fifo_wf (sd_sources d) →
  fifo_wf (admit_source d src now) ∧ is_Some (ff_map (admit_source d src now) !! src) ∧
  length (ff_order (admit_source d src now)) = length (ff_order (sd_sources d)) ∧
  (∀ k w, k ≠ src → ff_map (admit_source d src now) !! k = Some w → ff_map (sd_sources d) !! k = Some w).
Proof.
  intros Hf. unfold admit_source. destruct (ff_map (sd_sources d) !! src) as [w0|] eqn:E; [by rewrite E|].
  split; [by apply fifo_insert_wf|]. split; [|split].
  - unfold fifo_insert. simpl. rewrite lookup_insert_eq. by eexists.
  - apply fifo_insert_capacity.
  - intros k w Hk. unfold fifo_insert. simpl. rewrite lookup_insert_ne by done.
    repeat case_match; try done. intros Hd. by apply lookup_delete_Some in Hd as [_ ?].
Qed.

Lemma observe_wf d src teid now p n b d' : source_wf d → observe d src teid now = (p, n, b, d') →
  source_wf d' ∧ sd_cfg d' = sd_cfg d ∧
  length (ff_order (sd_sources d')) = length (ff_order (sd_sources d)) ∧
  n ≤ sc_MaxTunnelsPerSource (sd_cfg d).
Proof.
  intros (Hf & Hm & Hw & Hall) Ho. pose proof (observe_step d src teid now) as Hs.
  destruct (step_window _ _ _ _) as [w b'] eqn:Es. rewrite Ho in Hs. simplify_eq.
  assert (Hsz : Z.of_nat (size (sw_teids w)) ≤ sc_MaxTunnelsPerSource (sd_cfg d)).
  { eapply step_window_size; [done| |exact Es]. intros w0 Hw0. by eapply Hall. }
  destruct (admit_source_spec d src now Hf) as (Hfa & Hsrc & Hcap & Hother).
  split; [|done]. split; [by apply fifo_update_wf|]. split; [done|]. split; [done|].
  intros k v. simpl. destruct (decide (k = src)) as [->|Hne].
  - rewrite lookup_insert_eq. by intros [= <-].
  - rewrite lookup_insert_ne by done. intros Hv. apply Hother in Hv; [|done]. by eapply Hall.
Qed.

Inductive reachable_source (cfg : GTPUSourceFloodConfig) : GTPUSourceFloodDetector → Prop :=
  | reach_source_new : reachable_source cfg (NewGTPUSourceFloodDetector cfg)
  | reach_source_eval d evt now s o b d' :
      reachable_source cfg d → EvaluateSource d evt now = (s, o, b, d') → reachable_source cfg d'.

Lemma EvaluateSource_observe d evt now s o b d' : EvaluateSource d evt now = (s, o, b, d') →
  d' = d ∨ ∃ p n, observe d (ne_SourceIP evt) (ne_TEID evt) now = (p, n, b, d').
Proof.
  unfold EvaluateSource. repeat (case_match; [intros [= <- <- <- <-]; by left|]).
  destruct (observe _ _ _ _) as [[[p n] f] d1] eqn:E. intros H2. right. exists p, n.
  destruct f; simplify_eq/=; done.
Qed.

(** C37: Whatever the traffic, the detector holds at most the configured number
    of sources, and at most the configured number of TEIDs for each. *)
Theorem source_memory_bounded cfg d : reachable_source cfg d →
  (size (ff_map (sd_sources d)) ≤ length (ff_order (sd_sources (NewGTPUSourceFloodDetector cfg))))%nat ∧
  map_Forall (λ _ w, Z.of_nat (size (sw_teids w)) ≤
    sc_MaxTunnelsPerSource (sd_cfg (NewGTPUSourceFloodDetector cfg))) (ff_map (sd_sources d)).
Proof.
  intros Hr.
  assert (source_wf d ∧ sd_cfg d = sd_cfg (NewGTPUSourceFloodDetector cfg) ∧
    length (ff_order (sd_sources d)) = length (ff_order (sd_sources (NewGTPUSourceFloodDetector cfg))))
    as ((Hf & _ & _ & Hall) & Hcfg & <-).
  { induction Hr as [|d evt now s o b d' Hr (IH1 & IH2 & IH3) He]; [split; [apply NewSource_wf|done]|].
    apply EvaluateSource_observe in He as [->|(p & n & Ho)]; [done|].
    destruct (observe_wf _ _ _ _ _ _ _ _ IH1 Ho) as (? & ? & ? & _). split; [done|]. split; congruence. }
  split; [apply Hf|]. by rewrite <- Hcfg.
Qed.

(** ** Soundness: a report is backed by the traffic *)

Definition tunneled_from (src : string) (evt : NormalizedEvent) : Prop :=
  ne_Protocol evt = ProtocolGTPU ∧ ne_TEID evt ≠ 0 ∧ ne_SourceIP evt = src.

#[export] Instance tunneled_from_dec src evt : Decision (tunneled_from src evt).
Proof. unfold tunneled_from. apply _. Defined.

(** What a detector has been fed: the events and the clock at each. *)
Abbreviation traffic := (list (NormalizedEvent * Time)).

Definition clock_ordered (l : traffic) : Prop := StronglySorted (λ p q, p.2 ≤ q.2) l.

Definition run_source (d : GTPUSourceFloodDetector) (l : traffic) : GTPUSourceFloodDetector :=
  fold_left (λ d p, (EvaluateSource d p.1 p.2).2) l d.

(** The packets of a source, those not older than an instant, those inside a
    window that ends now, and the tunnels they name. *)
Definition from_source (src : string) (l : traffic) : traffic := filter (λ p, tunneled_from src p.1) l.
Definition since (t0 : Time) (l : traffic) : traffic := filter (λ p, t0 ≤ p.2) l.
Definition within (W : Duration) (now : Time) (l : traffic) : traffic := filter (λ p, Sub now p.2 < W) l.
Definition tunnels (l : traffic) : gset Z := list_to_set ((λ p, ne_TEID p.1) <$> l).

Lemma since_within W now t0 l : Sub now t0 < W → since t0 l `sublist_of` within W now l.
Proof.
  intros Hw. unfold since, within. induction l as [|p l IH]; [done|]. rewrite !filter_cons.
  destruct (decide (t0 ≤ p.2)) as [Hp|]; case_decide as Hq;
    [by constructor|exfalso|by constructor|done].
  apply Hq. unfold Sub in *. lia.
Qed.

Lemma tunnels_mono l1 l2 : l1 `sublist_of` l2 → tunnels l1 ⊆ tunnels l2.
Proof.
  intros Hs t. unfold tunnels. rewrite !elem_of_list_to_set, !list_elem_of_fmap.
  intros (p & -> & Hp). exists p. split; [done|]. by eapply elem_of_sublist.
Qed.

(** A window holds no more than its source sent since the window opened. *)
Record accounted (l : traffic) (src : string) (w : sourceWindow) : Prop := {
  ac_start : ∃ p, p ∈ l ∧ sw_start w = p.2;
  ac_packets : 0 ≤ sw_packets w ≤ Z.of_nat (length (since (sw_start w) (from_source src l)));
  ac_teids : sw_teids w ⊆ tunnels (since (sw_start w) (from_source src l))
}.

Lemma since_from_app t0 src l1 l2 :
  since t0 (from_source src (l1 ++ l2)) = since t0 (from_source src l1) ++ since t0 (from_source src l2).
Proof. unfold since, from_source. by rewrite !filter_app. Qed.

Lemma since_from_one t0 src evt now : tunneled_from src evt → t0 ≤ now →
  since t0 (from_source src [(evt, now)]) = [(evt, now)].
Proof.
  intros He Ht. unfold since, from_source. rewrite filter_cons_True by done. by rewrite filter_cons_True.
Qed.

Lemma tunnels_app l1 l2 : tunnels (l1 ++ l2) = tunnels l1 ∪ tunnels l2.
Proof. unfold tunnels. by rewrite fmap_app, list_to_set_app_L. Qed.

Lemma accounted_app l l' src w : accounted l src w → accounted (l ++ l') src w.
Proof.
  intros [(p & Hp & Hs) Hk Ht]. split; [exists p; set_solver| |]; rewrite since_from_app.
  - rewrite length_app. lia.
  - rewrite tunnels_app. set_solver.
Qed.

Lemma wrap_le z : 0 ≤ z → 0 ≤ wrap 32 z ≤ z.
Proof.
  intros Hz. unfold wrap. pose proof (Z.mod_pos_bound z (2 ^ 32)). pose proof (Z.mod_le z (2 ^ 32)). lia.
Qed.

(** One more packet, counted into a window that is accounted for or empty. *)
Lemma count_accounted cfg l src evt now w : tunneled_from src evt → sw_start w ≤ now →
  (∃ p, p ∈ l ++ [(evt, now)] ∧ sw_start w = p.2) →
  0 ≤ sw_packets w ≤ Z.of_nat (length (since (sw_start w) (from_source src l))) →
  sw_teids w ⊆ tunnels (since (sw_start w) (from_source src l)) →
  accounted (l ++ [(evt, now)]) src (count cfg w (ne_TEID evt)).
Proof.
  intros He Hle Hst Hk Ht. split; [done| |]; cbn [count sw_start sw_packets sw_teids];
    rewrite since_from_app, since_from_one by done.
  - rewrite length_app. cbn [length]. pose proof (wrap_le (sw_packets w + 1)). lia.
  - rewrite tunnels_app. unfold tunnels at 2. cbn. case_match; set_solver.
Qed.

Lemma step_window_accounted cfg l src evt now ow w b : 0 < sc_Window cfg → tunneled_from src evt →
  (∀ p, p ∈ l → p.2 ≤ now) → (∀ w0, ow = Some w0 → accounted l src w0) →
  step_window cfg ow (ne_TEID evt) now = (w, b) →
  accounted (l ++ [(evt, now)]) src w ∧ Sub now (sw_start w) < sc_Window cfg.
Proof.
  intros HW He Hl Hold Hs. set (r := roll cfg (default (fresh_window now) ow) now).
  assert (Hr : accounted (l ++ [(evt, now)]) src (count cfg r (ne_TEID evt)) ∧
               Sub now (sw_start r) < sc_Window cfg).
  { assert (Hnew : ∃ p, p ∈ l ++ [(evt, now)] ∧ now = p.2) by (exists (evt, now); set_solver).
    unfold r, roll. case_match eqn:E; [|unbool; destruct ow as [w0|]; cbn [from_option id fresh_window sw_start] in *].
    - split; [apply count_accounted; cbn; [done|lia|done|lia|set_solver]|]. cbn. rewrite Sub_refl. lia.
    - destruct (Hold w0 eq_refl) as [(p & Hp & Hst) Hk Ht]. split; [|done].
      apply count_accounted; try done; [by rewrite Hst; apply Hl|exists p; set_solver].
    - split; [apply count_accounted; cbn; [done|lia|done|lia|set_solver]|done]. }
  destruct Hr as [Hr1 Hr2]. unfold step_window in Hs. fold r in Hs.
  repeat case_match; simplify_eq; split; try done. by destruct Hr1; split.
Qed.

(** An event either is not tunneled traffic and leaves the detector alone, or
    is folded into the window of its source. *)
Lemma EvaluateSource_cases d evt now s o b d' : EvaluateSource d evt now = (s, o, b, d') →
  (d' = d ∧ b = false) ∨
  Configured d = true ∧ tunneled_from (ne_SourceIP evt) evt ∧
  ∃ w, step_window (sd_cfg d) (ff_map (sd_sources d) !! ne_SourceIP evt) (ne_TEID evt) now = (w, b) ∧
    o = {| so_PacketsInWindow := sw_packets w; so_DistinctTunnels := Z.of_nat (size (sw_teids w)) |} ∧
    d' = {| sd_cfg := sd_cfg d;
            sd_sources := fifo_update (ne_SourceIP evt) w (admit_source d (ne_SourceIP evt) now) |} ∧
    (b = true → ts_TEID s = 0 ∧ ts_Score s = f64_one ∧ ts_SourceIP s = ne_SourceIP evt).
Proof.
  unfold EvaluateSource. case_match eqn:Ec; [intros [= <- <- <- <-]; by left|].
  case_match eqn:Ee; [intros [= <- <- <- <-]; by left|]. unbool.
  pose proof (observe_step d (ne_SourceIP evt) (ne_TEID evt) now) as Ho.
  destruct (step_window _ _ _ _) as [w f] eqn:Es. rewrite Ho. intros Hr. right.
  split; [done|]. split; [done|]. exists w. destruct f; cbn [negb] in Hr; simplify_eq; done.
Qed.

Definition all_accounted (l : traffic) (d : GTPUSourceFloodDetector) : Prop :=
  source_wf d ∧ ∀ src w, ff_map (sd_sources d) !! src = Some w → accounted l src w.

Lemma source_wf_eval d evt now : source_wf d → source_wf (EvaluateSource d evt now).2.
Proof.
  intros Hwf. destruct (EvaluateSource d evt now) as [[[s o] b] d'] eqn:E.
  apply EvaluateSource_observe in E as [->|(p & n & Ho)]; [done|]. by eapply observe_wf in Ho as [? _].
Qed.

Lemma run_source_wf d l : source_wf d → source_wf (run_source d l) ∧ sd_cfg (run_source d l) = sd_cfg d.
Proof.
  revert d. induction l as [|[evt now] l IH]; intros d Hwf; [done|].
  change (run_source d ((evt, now) :: l)) with (run_source (EvaluateSource d evt now).2 l).
  destruct (IH _ (source_wf_eval d evt now Hwf)) as [? ->]. split; [done|].
  destruct (EvaluateSource d evt now) as [[[s o] b] d'] eqn:E. cbn [snd].
  apply EvaluateSource_cases in E as [[-> _]|(_ & _ & w & _ & _ & -> & _)]; done.
Qed.

Lemma all_accounted_step l d evt now : all_accounted l d → (∀ p, p ∈ l → p.2 ≤ now) →
  all_accounted (l ++ [(evt, now)]) (EvaluateSource d evt now).2.
Proof.
  intros [Hwf Hall] Hl. split; [by apply source_wf_eval|]. intros src w.
  destruct (EvaluateSource d evt now) as [[[s o] b] d'] eqn:E. cbn [snd].
  apply EvaluateSource_cases in E as [[-> _]|(_ & He & w' & Hs & _ & -> & _)].
  { intros Hw. by apply accounted_app, Hall. }
  destruct Hwf as (Hf & _ & HW & _). cbn [sd_sources fifo_update ff_map].
  destruct (decide (src = ne_SourceIP evt)) as [->|Hne].
  - rewrite lookup_insert_eq. intros [= <-]. eapply step_window_accounted; [done..| |done].
    intros w0 Hw0. by apply Hall.
  - rewrite lookup_insert_ne by done. intros Hw. apply accounted_app, Hall.
    by apply (admit_source_spec d (ne_SourceIP evt) now Hf).
Qed.

Lemma run_source_accounted cfg l : clock_ordered l →
  all_accounted l (run_source (NewGTPUSourceFloodDetector cfg) l) ∧
  sd_cfg (run_source (NewGTPUSourceFloodDetector cfg) l) = sd_cfg (NewGTPUSourceFloodDetector cfg).
Proof.
  induction l as [|[evt now] l IH] using rev_ind; intros Ho.
  { split; [|done]. split; [apply NewSource_wf|]. intros src w. cbn. by rewrite lookup_empty. }
  apply StronglySorted_app in Ho as (Hle & Hl & _). destruct (IH Hl) as [IH1 IH2].
  unfold run_source in *. rewrite fold_left_app. cbn [fold_left fst snd]. split.
  - apply all_accounted_step; [done|]. intros p Hp. by apply (Hle p (evt, now) Hp), list_elem_of_singleton.
  - change (sd_cfg (run_source (NewGTPUSourceFloodDetector cfg) l) = sd_cfg (NewGTPUSourceFloodDetector cfg)) in IH2.
    rewrite <- IH2. exact (proj2 (run_source_wf _ [(evt, now)] (proj1 IH1))).
Qed.

Lemma report_true cfg p n : report cfg p n = true →
  0 < sc_PacketsPerSecond cfg ≤ p ∨ 0 < sc_DistinctTunnels cfg ≤ n.
Proof.
  unfold report. destruct (0 <? sc_PacketsPerSecond cfg) eqn:E1; cbn [andb]; intros Hr; unbool.
  - case_match; unbool; [left; lia|right; unbool; lia].
  - right. unbool. lia.
Qed.

Lemma step_window_fires cfg ow teid now w : step_window cfg ow teid now = (w, true) →
  report cfg (sw_packets w) (Z.of_nat (size (sw_teids w))) = true ∧
  (∀ w0, ow = Some w0 → IsZero (sw_lastFired w0) = false → sc_Cooldown cfg ≤ Sub now (sw_lastFired w0)).
Proof.
  unfold step_window. case_match eqn:E1; [done|]. case_match eqn:E2; [done|]. intros [= <-]. unbool.
  split; [done|]. intros w0 -> Hz. cbn in E2.
  replace (sw_lastFired (roll cfg w0 now)) with (sw_lastFired w0) in E2 by (unfold roll; by case_match).
  rewrite Hz in E2. cbn in E2. by unbool.
Qed.


(** ** Completeness: an aggregate flood is reported *)

(** The reports of a sequence of packets. *)
Fixpoint run_evaluate (d : GTPUSourceFloodDetector) (l : traffic) : list bool :=
  match l with
  | [] => []
  | (evt, now) :: l' => let '(_, _, b, d') := EvaluateSource d evt now in b :: run_evaluate d' l'
  end.

(** Some packet of [src] in [l] is answered with a report. *)
Definition source_reported (src : string) (d : GTPUSourceFloodDetector) (l : traffic) : Prop :=
  ∃ i p, l !! i = Some p ∧ tunneled_from src p.1 ∧ run_evaluate d l !! i = Some true.

(** The sources whose windows a detector holds or will have to hold. *)
Definition sources_of (l : traffic) : gset string := list_to_set ((λ p, ne_SourceIP p.1) <$> l).
Definition has_room (d : GTPUSourceFloodDetector) (l : traffic) : Prop :=
  (size (dom (ff_map (sd_sources d)) ∪ sources_of l) ≤ length (ff_order (sd_sources d)))%nat.

(** The cooldown of a last report, at [t0] and from then on. *)
Definition cooled (cfg : GTPUSourceFloodConfig) (t0 : Time) (w : sourceWindow) : Prop :=
  IsZero (sw_lastFired w) = true ∨ sc_Cooldown cfg ≤ Sub t0 (sw_lastFired w).

(** A packet at [t0] opens a window for [src], free to report. *)
Definition opens (d : GTPUSourceFloodDetector) (src : string) (t0 : Time) : Prop :=
  ∀ w, ff_map (sd_sources d) !! src = Some w →
    sc_Window (sd_cfg d) ≤ Sub t0 (sw_start w) ∧ cooled (sd_cfg d) t0 w.

Lemma admit_source_room d k now evt l : fifo_wf (sd_sources d) → ne_SourceIP evt = k →
  has_room d ((evt, now) :: l) →
  ff_map (admit_source d k now) =
    match ff_map (sd_sources d) !! k with
    | Some _ => ff_map (sd_sources d)
    | None => <[k := fresh_window now]> (ff_map (sd_sources d))
    end ∧ length (ff_order (admit_source d k now)) = length (ff_order (sd_sources d)).
Proof.
  intros Hf Hk Hroom. split; [|by apply admit_source_spec].
  unfold admit_source. destruct (ff_map (sd_sources d) !! k) as [w|] eqn:E; [done|].
  unfold fifo_insert. cbn [ff_map]. destruct (_ <=? _)%nat eqn:Efull; [|done]. exfalso.
  apply Nat.leb_le in Efull. unfold has_room, sources_of in Hroom. cbn in Hroom. rewrite Hk in Hroom.
  apply not_elem_of_dom in E.
  assert (size ({[k]} ∪ dom (ff_map (sd_sources d))) ≤
    size (dom (ff_map (sd_sources d)) ∪ ({[k]} ∪ list_to_set ((λ p, ne_SourceIP p.1) <$> l) : gset string)))%nat
    as Hle by (apply subseteq_size; set_solver).
  rewrite size_union, size_singleton, size_dom in Hle by set_solver. lia.
Qed.

(** While no source is evicted, an event changes no window but its source's. *)
Lemma EvaluateSource_other d evt now l src s o b d' : source_wf d → has_room d ((evt, now) :: l) →
  EvaluateSource d evt now = (s, o, b, d') →
  source_wf d' ∧ sd_cfg d' = sd_cfg d ∧ has_room d' l ∧
  (¬ tunneled_from src evt → ff_map (sd_sources d') !! src = ff_map (sd_sources d) !! src).
Proof.
  intros Hwf Hroom HE. pose proof (source_wf_eval d evt now Hwf) as Hwf'. rewrite HE in Hwf'. cbn in Hwf'.
  apply EvaluateSource_cases in HE as [[-> _]|(_ & He & w & _ & _ & -> & _)].
  { split_and!; try done. unfold has_room, sources_of in *. cbn in Hroom. etrans; [|exact Hroom].
    apply subseteq_size. set_solver. }
  destruct (admit_source_room d _ now evt l (proj1 Hwf) eq_refl Hroom) as [Hm Ho].
  split_and!; [done|done| |].
  - unfold has_room, sources_of in *. cbn [sd_sources fifo_update ff_map ff_order]. rewrite Ho, Hm.
    cbn in Hroom. etrans; [|exact Hroom]. apply subseteq_size. case_match; rewrite ?dom_insert_L; set_solver.
  - intros Hnot. cbn [sd_sources fifo_update ff_map].
    assert (src ≠ ne_SourceIP evt) by (intros ->; contradiction).
    rewrite lookup_insert_ne, Hm by done. case_match; [done|]. by rewrite lookup_insert_ne.
Qed.

Lemma EvaluateSource_tunneled d evt now src : Configured d = true → src ≠ ""%string →
  tunneled_from src evt →
  let '(w, b) := step_window (sd_cfg d) (ff_map (sd_sources d) !! src) (ne_TEID evt) now in
  ∃ s o d', EvaluateSource d evt now = (s, o, b, d') ∧ ff_map (sd_sources d') !! src = Some w.
Proof.
  intros Hc Hsrc (Hp & Ht & Hs). pose proof (observe_step d src (ne_TEID evt) now) as Ho.
  destruct (step_window _ _ _ _) as [w b]. unfold EvaluateSource. rewrite Hc, Hp, Hs. cbn [negb].
  replace (ProtocolGTPU =? ProtocolGTPU)%string with true by done.
  destruct (ne_TEID evt =? 0) eqn:E1; [unbool; done|]. destruct (src =? "")%string eqn:E2; [unbool; done|].
  cbn [negb orb]. rewrite Ho. destruct b; cbn [negb]; do 3 eexists; (split; [done|]);
    cbn; by rewrite lookup_insert_eq.
Qed.

(** A window that opened at [t0], has counted [k] packets and may report. *)
Definition counting (d : GTPUSourceFloodDetector) (src : string) (t0 : Time) (k : Z) : Prop :=
  ∃ w, ff_map (sd_sources d) !! src = Some w ∧ sw_start w = t0 ∧ sw_packets w = k ∧
       cooled (sd_cfg d) t0 w.

(** One packet into a running window, or into the window it opens: a report,
    or one more packet counted and the threshold not reached. *)
Lemma step_window_counts cfg ow teid now t0 k :
  0 < sc_PacketsPerSecond cfg < 2 ^ 32 → 0 ≤ k < sc_PacketsPerSecond cfg → t0 ≤ now →
  let r := roll cfg (default (fresh_window now) ow) now in
  sw_start r = t0 → sw_packets r = k → cooled cfg t0 r →
  (step_window cfg ow teid now).2 = true ∨
  ∃ w, step_window cfg ow teid now = (w, false) ∧ sw_start w = t0 ∧ sw_packets w = k + 1 ∧
    k + 1 < sc_PacketsPerSecond cfg ∧ cooled cfg t0 w.
Proof.
  intros Hpps Hk Ht r Hst Hp Hcool. unfold step_window. fold r. set (w1 := count cfg r teid).
  assert (Hp1 : sw_packets w1 = k + 1) by (cbn; rewrite Hp; apply wrap_id; unfold in_width; lia).
  destruct (report cfg (sw_packets w1) _) eqn:Er; cbn [negb].
  - left. change (sw_lastFired w1) with (sw_lastFired r). destruct Hcool as [->|Hc]; [done|].
    destruct (_ <? _) eqn:E; [|by rewrite andb_false_r]. unbool.
    pose proof (Sub_mono t0 now (sw_lastFired r) Ht). lia.
  - right. exists w1. split_and!; try done. unfold report in Er. rewrite Hp1 in Er.
    destruct (0 <? sc_PacketsPerSecond cfg) eqn:E0; [|unbool; lia]. cbn [andb] in Er.
    destruct (_ <=? k + 1) eqn:E1; [done|]. by unbool.
Qed.

Lemma source_reported_cons src d evt now l s o b d' : EvaluateSource d evt now = (s, o, b, d') →
  tunneled_from src evt ∧ b = true ∨ source_reported src d' l → source_reported src d ((evt, now) :: l).
Proof.
  intros HE [[Ht ->]|(i & p & Hi & Hp & Hb)].
  - exists 0%nat, (evt, now). cbn. by rewrite HE.
  - exists (S i), p. cbn. by rewrite HE.
Qed.

(** A packet of [src] that finds [k] packets counted, in the running window or
    in the one it opens: the rest of the traffic decides. *)
Lemma packet_counts d src evt now l t0 k :
  source_wf d → Configured d = true → src ≠ ""%string → 0 < sc_PacketsPerSecond (sd_cfg d) < 2 ^ 32 →
  has_room d ((evt, now) :: l) → tunneled_from src evt → t0 ≤ now → 0 ≤ k < sc_PacketsPerSecond (sd_cfg d) →
  (let r := roll (sd_cfg d) (default (fresh_window now) (ff_map (sd_sources d) !! src)) now in
   sw_start r = t0 ∧ sw_packets r = k ∧ cooled (sd_cfg d) t0 r) →
  (∀ d', source_wf d' → sd_cfg d' = sd_cfg d → has_room d' l → counting d' src t0 (k + 1) →
     k + 1 < sc_PacketsPerSecond (sd_cfg d) → source_reported src d' l) →
  source_reported src d ((evt, now) :: l).
Proof.
  intros Hwf Hc Hsrc Hpps Hroom Hev Ht Hk (Hst & Hp & Hcool) Hrest.
  pose proof (EvaluateSource_tunneled d evt now src Hc Hsrc Hev) as He.
  destruct (step_window_counts (sd_cfg d) (ff_map (sd_sources d) !! src) (ne_TEID evt) now t0 k
    Hpps Hk Ht Hst Hp Hcool) as [Hfire|(w & Hs & Hwst & Hwp & Hlt & Hwc)].
  - destruct (step_window _ _ _ _) as [w b]. cbn in Hfire. subst b. destruct He as (s & o & d' & HE & _).
    eapply source_reported_cons; [exact HE|by left].
  - rewrite Hs in He. destruct He as (s & o & d' & HE & Hw).
    destruct (EvaluateSource_other _ _ _ _ src _ _ _ _ Hwf Hroom HE) as (Hwf' & Hcfg & Hroom' & _).
    eapply source_reported_cons; [exact HE|]. right. apply Hrest; try done.
    exists w. rewrite Hcfg. done.
Qed.

Lemma running_window_reports src t0 l : src ≠ ""%string → ∀ d k,
  source_wf d → Configured d = true → 0 < sc_PacketsPerSecond (sd_cfg d) < 2 ^ 32 → has_room d l →
  Forall (λ p, t0 ≤ p.2 ∧ Sub p.2 t0 < sc_Window (sd_cfg d)) l → counting d src t0 k →
  0 ≤ k < sc_PacketsPerSecond (sd_cfg d) →
  sc_PacketsPerSecond (sd_cfg d) ≤ k + Z.of_nat (length (from_source src l)) →
  source_reported src d l.
Proof.
  intros Hsrc. induction l as [|[evt now] l IH]; intros d k Hwf Hc Hpps Hroom Hl Hcnt Hk Hlen.
  { cbn in Hlen. lia. }
  apply Forall_cons in Hl as [[Ht Hin] Hl]. cbn [fst snd] in *. unfold from_source in Hlen.
  destruct (decide (tunneled_from src evt)) as [Hev|Hev].
  - rewrite filter_cons_True in Hlen by done. cbn [length] in Hlen.
    destruct Hcnt as (w & Hw & Hst & Hp & Hcool). apply (packet_counts d src evt now l t0 k); try done.
    + rewrite Hw. cbn [from_option id]. unfold roll. rewrite Hst.
      destruct (_ <=? _) eqn:E; [unbool; lia|done].
    + intros d' Hwf' Hcfg Hroom' Hcnt' Hlt. apply (IH d' (k + 1)); try done; rewrite ?Hcfg; try done; try lia.
      * unfold Configured in *. by rewrite Hcfg.
      * unfold from_source. lia.
  - rewrite filter_cons_False in Hlen by done.
    destruct (EvaluateSource d evt now) as [[[s o] b] d'] eqn:HE.
    destruct (EvaluateSource_other _ _ _ _ src _ _ _ _ Hwf Hroom HE) as (Hwf' & Hcfg & Hroom' & Hsame).
    eapply source_reported_cons; [exact HE|]. right. apply (IH d' k); rewrite ?Hcfg; try done.
    + unfold Configured in *. by rewrite Hcfg.
    + destruct Hcnt as (w & Hw & Hrest). exists w. by rewrite (Hsame Hev), Hcfg.
Qed.

(** C22: The evasion the rule exists for is closed, for a detector in any state
    and a peer's packets mixed with any other traffic: from the packet that
    opens a window for the peer (unknown, or its last window run out, and not
    within the cooldown of an earlier report), as many of the peer's tunneled
    packets as the configured aggregate rate, within that one window, produce a
    report of the peer, however they are spread over tunnels, provided the
    sources tracked and seen fit the tracking capacity. *)
Theorem aggregate_flood_detected d src evt0 t0 l :
  source_wf d → Configured d = true → src ≠ ""%string → 0 < sc_PacketsPerSecond (sd_cfg d) < 2 ^ 32 →
  has_room d ((evt0, t0) :: l) → tunneled_from src evt0 → opens d src t0 →
  Forall (λ p, t0 ≤ p.2 ∧ Sub p.2 t0 < sc_Window (sd_cfg d)) l →
  sc_PacketsPerSecond (sd_cfg d) ≤ Z.of_nat (length (from_source src ((evt0, t0) :: l))) →
  source_reported src d ((evt0, t0) :: l).
Proof.
  intros Hwf Hc Hsrc Hpps Hroom Hev Hopen Hl Hlen. unfold from_source in Hlen.
  rewrite filter_cons_True in Hlen by done. cbn [length] in Hlen.
  apply (packet_counts d src evt0 t0 l t0 0); try done; [lia| |].
  - destruct (ff_map (sd_sources d) !! src) as [w|] eqn:E; cbn [from_option id]; unfold roll.
    + destruct (Hopen w E) as [Hw Hcool]. apply Z.leb_le in Hw. by rewrite Hw.
    + cbn [sw_start fresh_window]. rewrite Sub_refl. destruct Hwf as (_ & _ & HW & _).
      destruct (_ <=? 0) eqn:E0; [unbool; lia|]. split_and!; [done|done|by left].
  - intros d' Hwf' Hcfg Hroom' Hcnt Hlt. apply (running_window_reports src t0 l Hsrc d' (0 + 1));
      rewrite ?Hcfg; try done; try (unfold from_source; lia). unfold Configured in *. by rewrite Hcfg.
Qed.

(** ** The properties at work *)

Module SourceFloodSample.
Import TunnelFloodSample.

Definition sample_cfg : GTPUSourceFloodConfig :=
  {| sc_Enabled := true; sc_PacketsPerSecond := 3; sc_DistinctTunnels := 0; sc_Window := 0;
     sc_Cooldown := 0; sc_MaxTrackedSources := 2; sc_MaxTunnelsPerSource := 2 |}.

Definition sample_detector : GTPUSourceFloodDetector := NewGTPUSourceFloodDetector sample_cfg.

Definition after1 : GTPUSourceFloodDetector := (EvaluateSource sample_detector (gtpu_packet 1 1) 10).2.
Definition after2 : GTPUSourceFloodDetector := (EvaluateSource after1 (gtpu_packet 2 1) 20).2.

Lemma source_memory_bounded_witness :
  (size (ff_map (sd_sources after2)) ≤
    length (ff_order (sd_sources (NewGTPUSourceFloodDetector sample_cfg))))%nat.
Proof.
  apply (source_memory_bounded sample_cfg after2).
  eapply (reach_source_eval sample_cfg after1 (gtpu_packet 2 1) 20); [|reflexivity].
  eapply (reach_source_eval sample_cfg sample_detector (gtpu_packet 1 1) 10); [constructor|reflexivity].
Defined.

Definition history : traffic := [(gtpu_packet 1 1, 10); (gtpu_packet 2 1, 20)].
Definition third : ThreatScoreEvent * SourceFloodObservation * bool * GTPUSourceFloodDetector :=
  EvaluateSource (run_source sample_detector history) (gtpu_packet 3 1) 30.


(** A second peer's packets in between, on a detector that has seen both and
    whose window for the first has run out. *)
Definition other_packet (teid : Z) : NormalizedEvent :=
  {| ne_EventID := "e2"; ne_ObservedAt := 0; ne_Namespace := "core"; ne_PodName := "upf-0";
     ne_NodeName := "n1"; ne_SourceIP := "10.0.0.8"; ne_DestIP := "10.0.0.1"; ne_DestPort := 2152;
     ne_Protocol := ProtocolGTPU; ne_PayloadSize := 64; ne_RatePerSecond := f64_of_Z 1;
     ne_Malformed := false; ne_VLANID := 0; ne_TEID := teid; ne_TunnelRatePerSecond := f64_of_Z 1 |}.

Definition busy_detector : GTPUSourceFloodDetector :=
  run_source sample_detector [(gtpu_packet 1 1, 10); (other_packet 5, 15)].
Definition later : Time := 2 * Second.
Definition mixed : traffic :=
  [(other_packet 6, later + 1); (gtpu_packet 2 1, later + 2); (other_packet 7, later + 3);
   (gtpu_packet 3 1, later + 4)].

Lemma aggregate_flood_detected_witness :
  source_reported "10.0.0.9" busy_detector ((gtpu_packet 1 1, later) :: mixed) ∧
  run_evaluate busy_detector ((gtpu_packet 1 1, later) :: mixed) = [false; false; false; false; true].
Proof.
  split; [|vm_compute; reflexivity].
  apply (aggregate_flood_detected busy_detector "10.0.0.9" (gtpu_packet 1 1) later mixed).
  - apply (source_wf_eval _ (other_packet 5) 15), (source_wf_eval _ (gtpu_packet 1 1) 10), NewSource_wf.
  - reflexivity.
  - congruence.
  - vm_compute. split; reflexivity.
  - apply Nat.leb_le. vm_compute. reflexivity.
  - split; [reflexivity|]. split; [cbn; lia|reflexivity].
  - intros w Hw. vm_compute in Hw. injection Hw as <-. split; [vm_compute; congruence|by left].
  - repeat (constructor; [split; [apply Z.leb_le; vm_compute; reflexivity|vm_compute; reflexivity]|]). constructor.
  - apply Z.leb_le. vm_compute. reflexivity.
Defined.

End SourceFloodSample.
