(* ===== verification/Blocklist.v ===== *)
(** * Blocklist: the enforcement interfaces (pkg/ebpf/blocklist.go)

    [BlocklistUpdater] and [BlocklistInspector] are the Go interfaces the
    controllers call; [BlocklistSpec] states what an enforcing implementation
    promises, in terms of the sets of canonical addresses and tunnels the
    kernel drops. The controllers are verified against the classes; Loader.v
    discharges them for the real Loader. Also the address-family routing
    ([isIPv4], [ipv4Key], [ipv6Key]) and the signaling record. *)

From S2P Require Import Prelude GoStrings NetIP.

Local Open Scope Z_scope.

Definition DefaultPinPath : string := "/sys/fs/bpf/sentinel5g".

Record BlockedTunnel := { bt_IP : net_IP; bt_TEID : Z }.

(** ** Signaling records *)

Definition SignalProtoUnknown : Z := 0.
Definition SignalProtoGTPU : Z := 1.
Definition SignalProtoSIP : Z := 2.
Definition SignalProtoPortScan : Z := 3.

Definition gtpuPort : Z := 2152.
Definition sipPort : Z := 5060.

Record SignalingEvent := {
  se_ObservedAt : Time;
  se_SourceIP : net_IP;
  se_DestIP : net_IP;
  se_DestPort : Z;       (* uint16 *)
  se_PayloadSize : Z;    (* uint16 *)
  se_Protocol : Z;       (* SignalProtocol, uint8 *)
  se_Malformed : bool;
  se_VLANID : Z;         (* uint16 *)
  se_TEID : Z;           (* uint32 *)
  se_TunnelRate : Z      (* uint32 *)
}.

(** ** Address family routing *)

Definition isIPv4 (ip : net_IP) : bool :=
  match To4 ip with Some _ => true | None => false end.

Definition ipv4Key (ip : net_IP) : result (list Z) :=
  match To4 ip with
  | Some v4 => Ok v4
  | None => Fail (Errorf "blocklist only supports IPv4 addresses")
  end.

Definition ipv6Key (ip : net_IP) : result (list Z) :=
  if isIPv4 ip then Fail (Errorf "blocklist_v6 only supports IPv6 addresses")
  else match To16 ip with
       | Some v6 => Ok v6
       | None => Fail (Errorf "blocklist_v6 only supports IPv6 addresses")
       end.

(** The key either family uses is the canonical address. *)
Lemma ipv4Key_canon (ip k : net_IP) : ipv4Key ip = Ok k → canon ip = Some k ∧ length k = 4%nat.
Proof.
  unfold ipv4Key, canon. destruct (To4 ip) as [v|] eqn:E; intros [= <-].
  split; [done|by eapply To4_length].
Qed.

Lemma ipv6Key_canon (ip k : net_IP) : ipv6Key ip = Ok k →
  canon ip = Some k ∧ length k = 16%nat ∧ To4 k = None.
Proof.
  unfold ipv6Key, isIPv4, canon, To16. destruct (To4 ip) eqn:E; [done|].
  destruct (length ip =? 4)%nat eqn:E4.
  { apply Nat.eqb_eq in E4. by rewrite To4_4 in E. }
  destruct (length ip =? 16)%nat eqn:E16; [|done]. apply Nat.eqb_eq in E16.
  by intros [= <-].
Qed.

(** ** The interfaces *)

Class BlocklistUpdater (S : Type) := {
  Block : net_IP → S → error * S;
  Unblock : net_IP → S → error * S;
  BlockTunnel : net_IP → Z → S → error * S;
  UnblockTunnel : net_IP → Z → S → error * S
}.

Class BlocklistInspector (S : Type) := {
  BlockedIPs : S → result (list net_IP);
  BlockedTunnels : S → result (list BlockedTunnel);
  PinPath : S → string;
  PinReset : S → bool;
  MapCapacity : S → Z * Z;
  ObservationOccupancy : S → result (Z * Z)
}.

(** A tunnel the kernel can hold: a canonical source and a nonzero TEID. *)
Definition tunnel_wf (t : list Z * Z) : Prop := addr_wf t.1 ∧ 0 < t.2 < 2 ^ 32.

(** What the operations promise about the dropped addresses and tunnels. A
    failed operation changes nothing; an unblock of something absent succeeds. *)
Class BlocklistSpec (S : Type) `{BlocklistUpdater S} := {
  bl_inv : S → Prop;
  bl_ips : S → gset (list Z);
  bl_tunnels : S → gset (list Z * Z);

  Block_inv ip s e s' : bl_inv s → ip_wf ip → Block ip s = (e, s') → bl_inv s';
  Block_ok ip a s s' : bl_inv s → ip_wf ip → canon ip = Some a → Block ip s = (None, s') →
    bl_ips s' = {[a]} ∪ bl_ips s ∧ bl_tunnels s' = bl_tunnels s;
  Block_err ip s e s' : bl_inv s → ip_wf ip → Block ip s = (Some e, s') →
    bl_ips s' = bl_ips s ∧ bl_tunnels s' = bl_tunnels s;

  Unblock_inv ip s e s' : bl_inv s → ip_wf ip → Unblock ip s = (e, s') → bl_inv s';
  Unblock_ok ip a s s' : bl_inv s → ip_wf ip → canon ip = Some a → Unblock ip s = (None, s') →
    bl_ips s' = bl_ips s ∖ {[a]} ∧ bl_tunnels s' = bl_tunnels s;
  Unblock_err ip s e s' : bl_inv s → ip_wf ip → Unblock ip s = (Some e, s') →
    bl_ips s' = bl_ips s ∧ bl_tunnels s' = bl_tunnels s;

  BlockTunnel_inv ip teid s e s' : bl_inv s → ip_wf ip → 0 ≤ teid < 2 ^ 32 →
    BlockTunnel ip teid s = (e, s') → bl_inv s';
  BlockTunnel_ok ip a teid s s' : bl_inv s → ip_wf ip → 0 ≤ teid < 2 ^ 32 → canon ip = Some a →
    BlockTunnel ip teid s = (None, s') →
    teid ≠ 0 ∧ bl_tunnels s' = {[(a, teid)]} ∪ bl_tunnels s ∧ bl_ips s' = bl_ips s;
  BlockTunnel_err ip teid s e s' : bl_inv s → ip_wf ip → 0 ≤ teid < 2 ^ 32 →
    BlockTunnel ip teid s = (Some e, s') →
    bl_ips s' = bl_ips s ∧ bl_tunnels s' = bl_tunnels s;

  UnblockTunnel_inv ip teid s e s' : bl_inv s → ip_wf ip → 0 ≤ teid < 2 ^ 32 →
    UnblockTunnel ip teid s = (e, s') → bl_inv s';
  UnblockTunnel_ok ip a teid s s' : bl_inv s → ip_wf ip → 0 ≤ teid < 2 ^ 32 → canon ip = Some a →
    UnblockTunnel ip teid s = (None, s') →
    teid ≠ 0 ∧ bl_tunnels s' = bl_tunnels s ∖ {[(a, teid)]} ∧ bl_ips s' = bl_ips s;
  UnblockTunnel_err ip teid s e s' : bl_inv s → ip_wf ip → 0 ≤ teid < 2 ^ 32 →
    UnblockTunnel ip teid s = (Some e, s') →
    bl_ips s' = bl_ips s ∧ bl_tunnels s' = bl_tunnels s
}.

(** What reading the kernel state back promises: the sets themselves, each
    member once and canonical. *)
Class InspectorSpec (S : Type) `{BlocklistSpec S} `{!BlocklistInspector S} := {
  BlockedIPs_spec s l : bl_inv s → BlockedIPs s = Ok l →
    NoDup l ∧ Forall addr_wf l ∧ ∀ a, a ∈ l ↔ a ∈ bl_ips s;
  BlockedTunnels_spec s l : bl_inv s → BlockedTunnels s = Ok l →
    NoDup ((λ t, (bt_IP t, bt_TEID t)) <$> l) ∧ Forall (λ t, tunnel_wf (bt_IP t, bt_TEID t)) l ∧
    ∀ p, p ∈ ((λ t, (bt_IP t, bt_TEID t)) <$> l) ↔ p ∈ bl_tunnels s
}.

(** The no-op blocklist cmd/operator/main.go installs when eBPF is not attached:
    an updater, deliberately not an inspector, and not enforcing. *)
#[export] Instance noopBlocklist : BlocklistUpdater unit := {|
  Block _ s := (None, s); Unblock _ s := (None, s);
  BlockTunnel _ _ s := (None, s); UnblockTunnel _ _ s := (None, s) |}.
