(* ===== verification/Wire.v ===== *)
(** * Wire: ring-buffer records and little-endian fields (pkg/ebpf/loader_linux.go)

    The byte-level mirror structs [rawSignalingEvent] and
    [rawSignalingEventV6], their sizes, and the two hand-written decoders that
    index a ring-buffer sample by explicit offsets. *)

From S2P Require Import Prelude GoStrings NetIP Blocklist.

Local Open Scope Z_scope.

(** ** encoding/binary, little endian *)

Fixpoint le_decode (l : list Z) : Z :=
  match l with
  | [] => 0
  | b :: l' => b + 256 * le_decode l'
  end.

Fixpoint le_encode (n : nat) (z : Z) : list Z :=
  match n with
  | O => []
  | S n' => z mod 256 :: le_encode n' (z / 256)
  end.

(** [le.Uint16(sample[off:])] and its siblings. *)
Definition Uint16 (s : list Z) : Z := le_decode (take 2 s).
Definition Uint32 (s : list Z) : Z := le_decode (take 4 s).
Definition Uint64 (s : list Z) : Z := le_decode (take 8 s).
Definition PutUint32 (z : Z) : list Z := le_encode 4 z.

Lemma le_encode_length n z : length (le_encode n z) = n.
Proof. revert z. induction n; intros; simpl; auto. Qed.

Lemma le_encode_bytes n z : Forall is_byte (le_encode n z).
Proof.
  revert z. induction n; intros; simpl; constructor; [|done].
  unfold is_byte. pose proof (Z.mod_pos_bound z 256). lia.
Qed.

Lemma le_decode_encode n z : 0 ≤ z < 256 ^ Z.of_nat n → le_decode (le_encode n z) = z.
Proof.
  revert z. induction n as [|n IH]; intros z Hz.
  { simpl in *. lia. }
  cbn [le_encode le_decode]. rewrite IH.
  - pose proof (Z.div_mod z 256). lia.
  - rewrite Nat2Z.inj_succ, Z.pow_succ_r in Hz by lia. split.
    + apply Z.div_pos; lia.
    + apply Z.div_lt_upper_bound; lia.
Qed.

Lemma le_encode_decode l : Forall is_byte l → le_encode (length l) (le_decode l) = l.
Proof.
  induction 1 as [|b l Hb Hl IH]; simpl; [done|]. unfold is_byte in Hb.
  replace (b + 256 * le_decode l) with (b + le_decode l * 256) by lia.
  rewrite Z_mod_plus_full, Z.mod_small, Z_div_plus_full, (Z.div_small b 256), Z.add_0_l by lia.
  by rewrite IH.
Qed.

Lemma le_decode_range l : Forall is_byte l → 0 ≤ le_decode l < 256 ^ Z.of_nat (length l).
Proof.
  induction 1 as [|b l Hb Hl IH]; [simpl; lia|]. unfold is_byte in Hb.
  cbn [le_decode length]. rewrite Nat2Z.inj_succ, Z.pow_succ_r by lia. lia.
Qed.

Definition ipv4FromU32 (raw : Z) : net_IP := PutUint32 raw.

(** The numeric register value and the four address bytes determine each other. *)
Lemma ipv4FromU32_Uint32 (v4 : net_IP) : Forall is_byte v4 → length v4 = 4%nat →
  ipv4FromU32 (Uint32 v4) = v4 ∧ in_width 32 (Uint32 v4).
Proof.
  intros Hb Hl. unfold ipv4FromU32, PutUint32, Uint32, in_width. rewrite take_ge by lia. split.
  - pose proof (le_encode_decode v4 Hb) as H. by rewrite Hl in H.
  - pose proof (le_decode_range v4 Hb) as H. rewrite Hl in H. simpl in H. lia.
Qed.

Lemma Uint32_ipv4FromU32 z : in_width 32 z → Uint32 (ipv4FromU32 z) = z.
Proof.
  intros Hz. unfold Uint32, ipv4FromU32, PutUint32.
  rewrite take_ge by (rewrite le_encode_length; lia).
  rewrite le_decode_encode; [done|]. unfold in_width in Hz. simpl. lia.
Qed.

Lemma ipv4FromU32_length z : length (ipv4FromU32 z) = 4%nat.
Proof. apply le_encode_length. Qed.

Lemma ipv4FromU32_bytes z : Forall is_byte (ipv4FromU32 z).
Proof. apply le_encode_bytes. Qed.

(** ** The mirror structs *)

Record rawSignalingEvent := {
  r4_TimestampNs : Z; r4_Saddr : Z; r4_Daddr : Z; r4_DestPort : Z; r4_PayloadSize : Z;
  r4_Protocol : Z; r4_Malformed : Z; r4_VlanID : Z; r4_TEID : Z; r4_TunnelRate : Z
}.

Record rawSignalingEventV6 := {
  r6_TimestampNs : Z; r6_Saddr : list Z; r6_Daddr : list Z; r6_DestPort : Z;
  r6_PayloadSize : Z; r6_Protocol : Z; r6_Malformed : Z; r6_VlanID : Z;
  r6_TEID : Z; r6_TunnelRate : Z
}.

(** [binary.Write] of the structs: the fields in declaration order, no
    implicit padding. This is the layout the kernel emits. *)
Definition encode_raw (r : rawSignalingEvent) : list Z :=
  le_encode 8 (r4_TimestampNs r) ++ le_encode 4 (r4_Saddr r) ++ le_encode 4 (r4_Daddr r) ++
  le_encode 2 (r4_DestPort r) ++ le_encode 2 (r4_PayloadSize r) ++ le_encode 1 (r4_Protocol r) ++
  le_encode 1 (r4_Malformed r) ++ le_encode 2 (r4_VlanID r) ++ le_encode 4 (r4_TEID r) ++
  le_encode 4 (r4_TunnelRate r).

Definition encode_raw_v6 (r : rawSignalingEventV6) : list Z :=
  le_encode 8 (r6_TimestampNs r) ++ r6_Saddr r ++ r6_Daddr r ++
  le_encode 2 (r6_DestPort r) ++ le_encode 2 (r6_PayloadSize r) ++ le_encode 1 (r6_Protocol r) ++
  le_encode 1 (r6_Malformed r) ++ le_encode 2 (r6_VlanID r) ++ le_encode 4 (r6_TEID r) ++
  le_encode 4 (r6_TunnelRate r).

(** [binary.Size] sums the sizes of the fields. *)
Definition rawSignalingEventSize : nat :=
  length (encode_raw {| r4_TimestampNs := 0; r4_Saddr := 0; r4_Daddr := 0; r4_DestPort := 0;
    r4_PayloadSize := 0; r4_Protocol := 0; r4_Malformed := 0; r4_VlanID := 0; r4_TEID := 0;
    r4_TunnelRate := 0 |}).

Definition rawSignalingEventV6Size : nat :=
  length (encode_raw_v6 {| r6_TimestampNs := 0; r6_Saddr := replicate 16 0;
    r6_Daddr := replicate 16 0; r6_DestPort := 0; r6_PayloadSize := 0; r6_Protocol := 0;
    r6_Malformed := 0; r6_VlanID := 0; r6_TEID := 0; r6_TunnelRate := 0 |}).

Definition raw_wf (r : rawSignalingEvent) : Prop :=
  in_width 64 (r4_TimestampNs r) ∧ in_width 32 (r4_Saddr r) ∧ in_width 32 (r4_Daddr r) ∧
  in_width 16 (r4_DestPort r) ∧ in_width 16 (r4_PayloadSize r) ∧ in_width 8 (r4_Protocol r) ∧
  in_width 8 (r4_Malformed r) ∧ in_width 16 (r4_VlanID r) ∧ in_width 32 (r4_TEID r) ∧
  in_width 32 (r4_TunnelRate r).

Definition raw_v6_wf (r : rawSignalingEventV6) : Prop :=
  in_width 64 (r6_TimestampNs r) ∧ length (r6_Saddr r) = 16%nat ∧ length (r6_Daddr r) = 16%nat ∧
  in_width 16 (r6_DestPort r) ∧ in_width 16 (r6_PayloadSize r) ∧ in_width 8 (r6_Protocol r) ∧
  in_width 8 (r6_Malformed r) ∧ in_width 16 (r6_VlanID r) ∧ in_width 32 (r6_TEID r) ∧
  in_width 32 (r6_TunnelRate r).

(** ** The decoders *)

(** [sample[i]]; every index used is below the length the guard checked. *)
Definition byte_at (s : list Z) (i : nat) : Z := nth i s 0.

Definition decodeSignalingEvent (bootTime : Time) (sample : list Z) : result SignalingEvent :=
  if (length sample <? rawSignalingEventSize)%nat then
    Fail (Errorf "signaling_events record is too short")
  else Ok {|
    se_ObservedAt := bootTime + to_int64 (Uint64 (drop 0 sample));
    se_SourceIP := ipv4FromU32 (Uint32 (drop 8 sample));
    se_DestIP := ipv4FromU32 (Uint32 (drop 12 sample));
    se_DestPort := Uint16 (drop 16 sample);
    se_PayloadSize := Uint16 (drop 18 sample);
    se_Protocol := byte_at sample 20;
    se_Malformed := negb (byte_at sample 21 =? 0);
    se_VLANID := Uint16 (drop 22 sample);
    se_TEID := Uint32 (drop 24 sample);
    se_TunnelRate := Uint32 (drop 28 sample) |}.

Definition decodeSignalingEventV6 (bootTime : Time) (sample : list Z) : result SignalingEvent :=
  if (length sample <? rawSignalingEventV6Size)%nat then
    Fail (Errorf "signaling_events_v6 record is too short")
  else Ok {|
    se_ObservedAt := bootTime + to_int64 (Uint64 (drop 0 sample));
    se_SourceIP := take 16 (drop 8 sample);
    se_DestIP := take 16 (drop 24 sample);
    se_DestPort := Uint16 (drop 40 sample);
    se_PayloadSize := Uint16 (drop 42 sample);
    se_Protocol := byte_at sample 44;
    se_Malformed := negb (byte_at sample 45 =? 0);
    se_VLANID := Uint16 (drop 46 sample);
    se_TEID := Uint32 (drop 48 sample);
    se_TunnelRate := Uint32 (drop 52 sample) |}.

(** The fields of the mirror structs, in the types of [SignalingEvent]. *)
Definition event_of_raw (bootTime : Time) (r : rawSignalingEvent) : SignalingEvent := {|
  se_ObservedAt := bootTime + to_int64 (r4_TimestampNs r);
  se_SourceIP := ipv4FromU32 (r4_Saddr r); se_DestIP := ipv4FromU32 (r4_Daddr r);
  se_DestPort := r4_DestPort r; se_PayloadSize := r4_PayloadSize r;
  se_Protocol := r4_Protocol r; se_Malformed := negb (r4_Malformed r =? 0);
  se_VLANID := r4_VlanID r; se_TEID := r4_TEID r; se_TunnelRate := r4_TunnelRate r |}.

Definition event_of_raw_v6 (bootTime : Time) (r : rawSignalingEventV6) : SignalingEvent := {|
  se_ObservedAt := bootTime + to_int64 (r6_TimestampNs r);
  se_SourceIP := r6_Saddr r; se_DestIP := r6_Daddr r;
  se_DestPort := r6_DestPort r; se_PayloadSize := r6_PayloadSize r;
  se_Protocol := r6_Protocol r; se_Malformed := negb (r6_Malformed r =? 0);
  se_VLANID := r6_VlanID r; se_TEID := r6_TEID r; se_TunnelRate := r6_TunnelRate r |}.

(** ** Round trips *)

(** A field of [n] bytes at the head of the sample decodes to itself. *)
Lemma field_roundtrip n z t : 0 ≤ z < 256 ^ Z.of_nat n →
  le_decode (take n (le_encode n z ++ t)) = z.
Proof.
  intros. rewrite take_app_le by (rewrite le_encode_length; lia).
  rewrite take_ge by (rewrite le_encode_length; lia). by apply le_decode_encode.
Qed.

Lemma drop_field k n z t : (k = n + 0 ∨ n ≤ k)%nat →
  drop k (le_encode n z ++ t) = drop (k - n) t.
Proof. intros. rewrite drop_app_ge; rewrite le_encode_length; [done|lia]. Qed.

Lemma drop_bytes k (l t : list Z) : (length l ≤ k)%nat →
  drop k (l ++ t) = drop (k - length l) t.
Proof. intros. by apply drop_app_ge. Qed.

Lemma byte_at_drop s i : byte_at s i = byte_at (drop i s) 0.
Proof.
  unfold byte_at. revert s. induction i; intros [|x s]; simpl; auto.
Qed.

Lemma byte_at_field z t : 0 ≤ z < 256 → byte_at (le_encode 1 z ++ t) 0 = z.
Proof. intros. unfold byte_at. simpl. by apply Z.mod_small. Qed.

Ltac walk_fields :=
  repeat (rewrite drop_field by lia); repeat (rewrite drop_bytes by lia);
  repeat (rewrite drop_field by lia); simpl Nat.sub; rewrite ?drop_0.

Lemma encode_raw_length r : length (encode_raw r) = 32%nat.
Proof. unfold encode_raw. rewrite !length_app, !le_encode_length. done. Qed.

Lemma encode_raw_v6_length r : raw_v6_wf r → length (encode_raw_v6 r) = 56%nat.
Proof.
  intros (_ & Hs & Hd & _). unfold encode_raw_v6.
  rewrite !length_app, !le_encode_length, Hs, Hd. done.
Qed.

Lemma field_last n z : 0 ≤ z < 256 ^ Z.of_nat n → le_decode (take n (le_encode n z)) = z.
Proof. intros. rewrite <- (app_nil_r (le_encode n z)). by apply field_roundtrip. Qed.

#[local] Arguments le_encode : simpl never.

Ltac decode_field :=
  walk_fields; rewrite ?byte_at_field by lia;
  first [rewrite field_roundtrip by (simpl; lia) | rewrite field_last by (simpl; lia) | idtac];
  try done.

(** Every field of an IPv4 record lands where the mirror struct declares it. *)
Lemma decode_encode_raw bt r : raw_wf r →
  decodeSignalingEvent bt (encode_raw r) = Ok (event_of_raw bt r).
Proof.
  intros Hwf. unfold decodeSignalingEvent. rewrite encode_raw_length.
  change (32 <? rawSignalingEventSize)%nat with false. cbv iota.
  unfold raw_wf, in_width in Hwf. destruct_and! Hwf. unfold event_of_raw.
  rewrite (byte_at_drop _ 20), (byte_at_drop _ 21). unfold encode_raw, Uint64, Uint32, Uint16.
  f_equal. f_equal; decode_field.
Qed.

(** The IPv6 counterpart: the addresses are copied out byte for byte. *)
Lemma decode_encode_raw_v6 bt r : raw_v6_wf r →
  decodeSignalingEventV6 bt (encode_raw_v6 r) = Ok (event_of_raw_v6 bt r).
Proof.
  intros Hwf. unfold decodeSignalingEventV6. rewrite encode_raw_v6_length by done.
  change (56 <? rawSignalingEventV6Size)%nat with false. cbv iota.
  unfold raw_v6_wf, in_width in Hwf. destruct Hwf as (? & Hs & Hd & Hwf). destruct_and! Hwf.
  unfold event_of_raw_v6.
  rewrite (byte_at_drop _ 44), (byte_at_drop _ 45). unfold encode_raw_v6, Uint64, Uint32, Uint16.
  f_equal. f_equal; repeat (rewrite drop_field by lia); rewrite ?drop_0.
  2,3: rewrite ?(drop_bytes _ (r6_Saddr r)) by lia; rewrite ?Hs;
    rewrite ?drop_0, take_app_le, take_ge by lia; done.
  all: rewrite ?(drop_bytes _ (r6_Saddr r)), ?(drop_bytes _ (r6_Daddr r)), ?Hs, ?Hd by lia;
    decode_field.
Qed.
