(* ===== verification/LoadTest.v ===== *)
(** * LoadTest: the frame generator of the saturation tool
    (scripts/loadtest/xdp_saturation/main.go)

    The frame the tool sends, the Internet checksum of its header, the byte
    order of its socket call and its CPU accounting. Arithmetic is at the widths of
    the source: the sum is a uint32, the counters are uint64. *)

From S2P Require Import Prelude GoStrings GoFloat NetIP Wire.
From Stdlib Require Import SpecFloat.

Local Open Scope Z_scope.

(** [binary.BigEndian] *)
Definition be16 (v : Z) : list Z := [Z.shiftr v 8 mod 256; v mod 256].
Definition be32 (v : Z) : list Z := be16 (Z.shiftr v 16) ++ be16 v.

(** ** The Internet checksum *)

Fixpoint sum16 (h : list Z) (sum : Z) : Z :=
  match h with
  | a :: b :: h' => sum16 h' (wrap 32 (sum + (a * 256 + b)))
  | _ => sum
  end.

(** [for sum>>16 != 0 { sum = (sum & 0xFFFF) + (sum >> 16) }]; two rounds are
    enough for a uint32 ([fold_carries_done]). *)
Fixpoint fold_carries (fuel : nat) (sum : Z) : Z :=
  match fuel with
  | O => sum
  | S n => if Z.shiftr sum 16 =? 0 then sum else fold_carries n (wrap 32 (Z.land sum 65535 + Z.shiftr sum 16))
  end.

Definition ipChecksum (h : list Z) : Z := 65535 - wrap 16 (fold_carries 3 (sum16 h 0)).

(** The loop is the sum modulo 65535, with zero only for zero. *)
Definition ones_sum (z : Z) : Z := if z =? 0 then 0 else (z - 1) mod 65535 + 1.

Lemma carry_step sum : in_width 32 sum →
  wrap 32 (Z.land sum 65535 + Z.shiftr sum 16) = sum mod 65536 + sum / 65536 ∧
  ones_sum (sum mod 65536 + sum / 65536) = ones_sum sum ∧
  0 ≤ sum mod 65536 + sum / 65536 ≤ (if sum <=? 131070 then 65535 else 131070).
Proof.
  intros Hs. unfold in_width in Hs. change 65535 with (Z.ones 16) at 1.
  rewrite Z.land_ones, Z.shiftr_div_pow2 by lia. change (2 ^ 16) with 65536.
  assert (Hq : 0 ≤ sum / 65536 < 65536) by (split; [apply Z.div_pos|apply Z.div_lt_upper_bound]; lia).
  pose proof (Z.mod_pos_bound sum 65536 ltac:(lia)) as Hr. pose proof (Z.div_mod sum 65536 ltac:(lia)) as Hd.
  split; [|split].
  - apply wrap_id. unfold in_width. lia.
  - unfold ones_sum. destruct (Z.eqb_spec sum 0) as [->|Hne]; [done|].
    rewrite (proj2 (Z.eqb_neq _ _)) by lia. f_equal.
    rewrite Hd at 3. replace (65536 * (sum / 65536) + sum mod 65536 - 1)
      with (sum mod 65536 + sum / 65536 - 1 + sum / 65536 * 65535) by lia.
    symmetry. apply Z.mod_add. lia.
  - case_match eqn:E; unbool; lia.
Qed.

Lemma small_ones_sum z : 0 ≤ z < 65536 → ones_sum z = z.
Proof. intros Hz. unfold ones_sum. case_match eqn:E; unbool; [lia|]. rewrite Z.mod_small; lia. Qed.

Lemma fold_carries_done sum : in_width 32 sum → fold_carries 3 sum = ones_sum sum.
Proof.
  assert (Hstep : ∀ n z, in_width 32 z →
    (∀ y, 0 ≤ y ≤ (if z <=? 131070 then 65535 else 131070) → ones_sum y = ones_sum z → fold_carries n y = ones_sum z) →
    fold_carries (S n) z = ones_sum z).
  { intros n z Hz Hn. cbn [fold_carries]. destruct (Z.eqb_spec (Z.shiftr z 16) 0) as [E|E].
    - unfold in_width in Hz. rewrite Z.shiftr_div_pow2 in E by lia. apply Z.div_small_iff in E; [|lia].
      symmetry. apply small_ones_sum. lia.
    - destruct (carry_step z Hz) as (-> & Ho & Hb). by apply Hn. }
  intros Hs. apply Hstep; [done|]. intros y Hy <-. assert (Hy' : 0 ≤ y ≤ 131070) by (case_match; lia).
  apply Hstep; [unfold in_width; lia|]. intros y' Hy2 <-. rewrite (proj2 (Z.leb_le _ _)) in Hy2 by lia.
  rewrite small_ones_sum by lia. cbn [fold_carries]. by rewrite Z.shiftr_div_pow2, Z.div_small by lia.
Qed.

(** Induction two bytes at a time. *)
Lemma pairs_ind (P : list Z → Prop) : P [] → (∀ x, P [x]) → (∀ a b l, P l → P (a :: b :: l)) → ∀ l, P l.
Proof.
  intros H0 H1 H2 l. assert (P l ∧ ∀ x, P (x :: l)) as [Hl _]; [|done].
  induction l as [|a l [IH IHx]]; split; auto.
Qed.

(** The sum of the 16-bit words, without the wrap-around. *)
Fixpoint words (h : list Z) : Z :=
  match h with a :: b :: h' => a * 256 + b + words h' | _ => 0 end.

Lemma words_bound h : Forall is_byte h → 0 ≤ words h ∧ 2 * words h ≤ 65535 * Z.of_nat (length h).
Proof.
  induction h as [|x|a b h IH] using pairs_ind; intros Hb; [simpl; lia|simpl; lia|].
  apply Forall_cons in Hb as [Ha [Hb Hh]%Forall_cons]. specialize (IH Hh).
  unfold is_byte in *. cbn [words length]. lia.
Qed.

Lemma sum16_words h acc : Forall is_byte h → 0 ≤ acc → acc + words h < 2 ^ 32 → sum16 h acc = acc + words h.
Proof.
  revert acc. induction h as [|x|a b h IH] using pairs_ind; intros acc Hb Ha Hlt; cbn [sum16 words] in *; try lia.
  apply Forall_cons in Hb as [Hba [Hbb Hh]%Forall_cons].
  pose proof (words_bound h Hh) as [Hw _]. unfold is_byte in *.
  rewrite wrap_id by (unfold in_width; lia). rewrite IH; [lia|done|lia|lia].
Qed.

(** ** The header verifies *)

(** [binary.BigEndian.PutUint16(h[k:], v)] *)
Definition put16 (k : nat) (v : Z) (h : list Z) : list Z := take k h ++ be16 v ++ drop (k + 2) h.

Lemma words_put16 n v (h : list Z) : in_width 16 v → (2 * n + 2 ≤ length h)%nat → take 2 (drop (2 * n) h) = [0; 0] →
  words (put16 (2 * n) v h) = words h + v.
Proof.
  intros Hv. revert h. induction n as [|n IH]; intros h Hl Hz.
  - destruct h as [|a [|b h]]; [simpl in Hl; lia|simpl in Hl; lia|]. simpl in Hz. injection Hz as -> ->.
    unfold put16, be16. rewrite Z.shiftr_div_pow2 by lia. change (2 ^ 8) with 256. simpl.
    unfold in_width in Hv. rewrite (Z.mod_small (v / 256)) by (split; [apply Z.div_pos|apply Z.div_lt_upper_bound]; lia).
    pose proof (Z.div_mod v 256 ltac:(lia)). rewrite drop_0. lia.
  - destruct h as [|a [|b h]]; [simpl in Hl; lia|simpl in Hl; lia|].
    replace (2 * S n)%nat with (S (S (2 * n))) in * by lia. unfold put16 in *. cbn [take drop plus app words] in *.
    simpl in Hl. rewrite IH; [lia|lia|done].
Qed.

Lemma ones_sum_width z : 0 ≤ z → in_width 16 (ones_sum z).
Proof.
  intros Hz. unfold in_width, ones_sum. case_match; [lia|]. pose proof (Z.mod_pos_bound (z - 1) 65535). lia.
Qed.

Lemma ones_sum_complement z : 0 ≤ z → ones_sum (z + (65535 - ones_sum z)) = 65535.
Proof.
  intros Hz. unfold ones_sum at 2. destruct (Z.eqb_spec z 0) as [->|Hne]; [done|].
  pose proof (Z.div_mod (z - 1) 65535 ltac:(lia)) as Hd. pose proof (Z.mod_pos_bound (z - 1) 65535 ltac:(lia)) as Hr.
  unfold ones_sum. rewrite (proj2 (Z.eqb_neq _ _)) by lia.
  replace (z + (65535 - ((z - 1) mod 65535 + 1)) - 1) with (65534 + (z - 1) / 65535 * 65535) by lia.
  rewrite Z.mod_add by lia. done.
Qed.

Lemma put16_bytes k v (h : list Z) : Forall is_byte h → Forall is_byte (put16 k v h).
Proof.
  intros Hb. unfold put16, be16. repeat apply Forall_app_2; [by apply Forall_take| |by apply Forall_drop].
  repeat constructor; unfold is_byte; apply Z.mod_pos_bound; lia.
Qed.
Lemma put16_length k v (h : list Z) : (k + 2 ≤ length h)%nat → length (put16 k v h) = length h.
Proof. intros Hl. unfold put16, be16. rewrite !length_app, length_take, length_drop. simpl. lia. Qed.

(** A header with its checksum in place sums to all ones: the check every
    receiver makes. For any header short enough not to overflow the uint32. *)
Theorem checksum_verifies n (h : list Z) : Forall is_byte h → (2 * n + 2 ≤ length h)%nat → Z.of_nat (length h) ≤ 131072 →
  take 2 (drop (2 * n) h) = [0; 0] →
  in_width 16 (ipChecksum h) ∧ ipChecksum (put16 (2 * n) (ipChecksum h) h) = 0.
Proof.
  intros Hb Hl Hm Hz. pose proof (words_bound h Hb) as Hw.
  assert (Hsum : ∀ h', Forall is_byte h' → Z.of_nat (length h') ≤ 131072 → ipChecksum h' = 65535 - ones_sum (words h')).
  { intros h' Hb' Hl'. pose proof (words_bound h' Hb') as Hw'. unfold ipChecksum.
    rewrite sum16_words by (done || lia). rewrite fold_carries_done by (unfold in_width; lia). rewrite wrap_id; [done|].
    apply ones_sum_width. lia. }
  pose proof (ones_sum_width (words h) ltac:(lia)) as Ho. unfold in_width in Ho.
  assert (Hc : in_width 16 (ipChecksum h)) by (rewrite Hsum by (done || lia); unfold in_width; lia).
  split; [done|]. rewrite Hsum.
  - rewrite words_put16, Hsum by (done || lia). rewrite ones_sum_complement by lia. lia.
  - by apply put16_bytes.
  - rewrite put16_length; lia.
Qed.

(** ** The frame *)

Definition gtpuFrameV4 : list Z :=
  let inner := 64 in
  let gtp := [52; 255] ++ be16 (wrap 16 (4 + 4 + inner)) ++ be32 19844 ++ [0; 0; 0; 133; 1; 0; 0; 0] ++
             replicate (Z.to_nat inner) 165 in
  let udp := be16 2152 ++ be16 2152 ++ be16 (wrap 16 (8 + Z.of_nat (length gtp))) ++ [0; 0] ++ gtp in
  let ip := [69; 0] ++ be16 (wrap 16 (20 + Z.of_nat (length udp))) ++ [0; 0; 0; 0; 64; 17; 0; 0] ++
            [127; 0; 0; 1] ++ [127; 0; 0; 7] in
  let ip := put16 10 (ipChecksum ip) ip ++ udp in
  [2; 0; 0; 0; 0; 1] ++ [2; 0; 0; 0; 0; 2] ++ be16 2048 ++ ip.

(** Ethernet, a 20-byte IPv4 header that verifies, UDP to port 2152, and a
    GTP-U header whose three lengths agree with the bytes that follow. *)
Lemma frame_wellformed :
  let ip := take 20 (drop 14 gtpuFrameV4) in
  ipChecksum ip = 0 ∧ Forall is_byte gtpuFrameV4 ∧
  words (take 2 (drop 16 gtpuFrameV4)) = Z.of_nat (length gtpuFrameV4) - 14 ∧
  words (take 2 (drop 36 gtpuFrameV4)) = 2152 ∧
  words (take 2 (drop 38 gtpuFrameV4)) = Z.of_nat (length gtpuFrameV4) - 34 ∧
  words (take 2 (drop 44 gtpuFrameV4)) = Z.of_nat (length gtpuFrameV4) - 50.
Proof.
  split; [vm_compute; reflexivity|]. split; [|repeat split; vm_compute; reflexivity].
  vm_compute. repeat (constructor; [split; [discriminate|reflexivity]|]). constructor.
Qed.

(** [htons]: the two bytes swapped. *)
Definition htons (v : Z) : Z := Z.lor (Z.land (wrap 16 (Z.shiftl v 8)) 65280) (Z.shiftr v 8).

(** A byte below another, joined by or. *)
Lemma lor_bytes a b : is_byte a → is_byte b → Z.lor (b * 2 ^ 8) a = b * 256 + a.
Proof.
  unfold is_byte. intros Ha Hb. change 256 with (2 ^ 8). rewrite <- Z.lxor_lor, <- Z.add_nocarry_lxor; [done| |].
  all: apply Z.bits_inj'; intros n Hn; rewrite Z.land_spec, Z.bits_0;
    (destruct (Z.lt_ge_cases n 8); [by rewrite Z.mul_pow2_bits_low|]);
    apply andb_false_iff; right; rewrite <- (Z.mod_small a (2 ^ 8)) by lia; by rewrite Z.mod_pow2_bits_high by lia.
Qed.

Lemma htons_swaps a b : is_byte a → is_byte b → htons (a * 256 + b) = b * 256 + a.
Proof.
  intros Ha Hb. unfold htons. rewrite <- (lor_bytes a b) by done. unfold is_byte in *. f_equal.
  - rewrite Z.shiftl_mul_pow2 by lia. unfold wrap.
    replace ((a * 256 + b) * 2 ^ 8) with (b * 2 ^ 8 + a * 2 ^ 16) by lia. rewrite Z.mod_add, Z.mod_small by lia.
    change 65280 with (Z.shiftl (Z.ones 8) 8). rewrite <- Z.shiftl_mul_pow2, <- Z.shiftl_land, Z.land_ones, Z.mod_small by lia. done.
  - rewrite Z.shiftr_div_pow2 by lia. change (2 ^ 8) with 256. rewrite Z.div_add_l, Z.div_small by lia. lia.
Qed.

(** ** CPU accounting *)

Record cpuTimes := { cpu_idle : Z; cpu_total : Z }.

(** The ten fields of the first line of /proc/stat; those a kernel does not
    print stay zero, and an unreadable file gives two zeros. *)
Definition readProcStat (fields : option (list Z)) : cpuTimes :=
  match fields with
  | None => {| cpu_idle := 0; cpu_total := 0 |}
  | Some fs =>
      let fields := take 10 fs ++ replicate (10 - length fs) 0 in
      {| cpu_idle := nth 3 fields 0; cpu_total := fold_left (λ t f, wrap 64 (t + f)) fields 0 |}
  end.

Definition cpuBusyPercent (a b : cpuTimes) : f64 :=
  let dt := wrap 64 (cpu_total b - cpu_total a) in
  let di := wrap 64 (cpu_idle b - cpu_idle a) in
  if dt =? 0 then f64_zero
  else f64_mul (SFdiv 53 1024 (f64_of_Z (wrap 64 (dt - di))) (f64_of_Z dt)) (f64_of_Z 100).

(** Counters that wrap around uint64 between two readings change nothing. *)
Definition advanced (c : cpuTimes) (idle busy : Z) : cpuTimes :=
  {| cpu_idle := wrap 64 (cpu_idle c + idle); cpu_total := wrap 64 (cpu_total c + idle + busy) |}.

Lemma wrap_sub_add c d : in_width 64 d → wrap 64 (wrap 64 (c + d) - c) = d.
Proof.
  intros Hd. unfold wrap. rewrite Zminus_mod_idemp_l. replace (c + d - c) with d by lia. by apply wrap_id.
Qed.

Lemma busy_percent_wraps c idle busy : 0 ≤ idle → 0 ≤ busy → idle + busy < 2 ^ 64 →
  cpuBusyPercent c (advanced c idle busy) =
    if idle + busy =? 0 then f64_zero
    else f64_mul (SFdiv 53 1024 (f64_of_Z busy) (f64_of_Z (idle + busy))) (f64_of_Z 100).
Proof.
  intros Hi Hb Ht. unfold cpuBusyPercent, advanced. cbn [cpu_idle cpu_total]. rewrite <- Z.add_assoc.
  rewrite !wrap_sub_add by (unfold in_width; lia). replace (idle + busy - idle) with busy by lia.
  by rewrite (wrap_id 64 busy) by (unfold in_width; lia).
Qed.
