(* ===== verification/Loader.v ===== *)
(** * Loader: the enforcement maps (pkg/ebpf/loader_linux.go, inspect_linux.go, errors.go)

    [Loader] holds one BPF map per address family and purpose. The map
    library (github.com/cilium/ebpf, and the kernel below it) is a parameter,
    the class [BpfMapLib]; [BpfMapSpec] states what its documentation promises
    of a BPF_MAP_TYPE_HASH. Under it the Loader discharges [BlocklistSpec] and
    [InspectorSpec], the interfaces the controllers rely on. [HashMaps] is a
    concrete bounded hash map that satisfies the class. *)

From S2P Require Import Prelude GoStrings NetIP Blocklist Wire.

Local Open Scope Z_scope.

(** ** The map library *)

Class BpfMapLib (Mp : Type → Type → Type) := {
  bpf_Put {K V} `{Countable K} : K → V → Mp K V → error * Mp K V;
  bpf_Delete {K V} `{Countable K} : K → Mp K V → error * Mp K V;
  bpf_Lookup {K V} `{Countable K} : K → Mp K V → result V;
  (* the entries Next yielded, and it.Err() after the last *)
  bpf_Iterate {K V} `{Countable K} : Mp K V → list (K * V) * error;
  bpf_MaxEntries {K V} : Mp K V → Z;
  bpf_KeySize {K V} : Mp K V → Z
}.

Class BpfMapSpec (Mp : Type → Type → Type) `{BpfMapLib Mp} := {
  bpf_view {K V} `{Countable K} : Mp K V → gmap K V;

  bpf_put_ok {K V} `{Countable K} (k : K) (v : V) m m' :
    bpf_Put k v m = (None, m') → bpf_view m' = <[k := v]> (bpf_view m);
  bpf_put_err {K V} `{Countable K} (k : K) (v : V) m e m' :
    bpf_Put k v m = (Some e, m') → bpf_view m' = bpf_view m;
  (* a full hash map rejects a new key with E2BIG, it evicts nothing *)
  bpf_put_full {K V} `{Countable K} (k : K) (v : V) m :
    bpf_view m !! k = None → bpf_MaxEntries m ≤ Z.of_nat (size (bpf_view m)) →
    ∃ e, bpf_Put k v m = (Some e, m) ∧ errors_Is e E2BIG = true;
  bpf_put_max {K V} `{Countable K} (k : K) (v : V) m :
    bpf_MaxEntries (bpf_Put k v m).2 = bpf_MaxEntries m;

  bpf_delete_ok {K V} `{Countable K} (k : K) (m m' : Mp K V) :
    bpf_Delete k m = (None, m') → bpf_view m' = delete k (bpf_view m);
  bpf_delete_err {K V} `{Countable K} (k : K) (m : Mp K V) e m' :
    bpf_Delete k m = (Some e, m') → bpf_view m' = bpf_view m;
  bpf_delete_missing {K V} `{Countable K} (k : K) (m : Mp K V) e m' :
    bpf_Delete k m = (Some e, m') → errors_Is e ErrKeyNotExist = true → bpf_view m !! k = None;

  bpf_iterate_ok {K V} `{Countable K} (m : Mp K V) l :
    bpf_Iterate m = (l, None) → l ≡ₚ map_to_list (bpf_view m)
}.

(** ** A concrete bounded hash map *)

Module HashMaps.
Record hmap (K V : Type) := { hm_entries : list (K * V); hm_cap : Z; hm_keysize : Z }.
Arguments hm_entries {K V} _.
Arguments hm_cap {K V} _.
Arguments hm_keysize {K V} _.

Definition set_entries {K V} (m : hmap K V) l : hmap K V :=
  {| hm_entries := l; hm_cap := hm_cap m; hm_keysize := hm_keysize m |}.

Definition view {K V} `{Countable K} (m : hmap K V) : gmap K V := list_to_map (hm_entries m).

#[export] Instance hmap_lib : BpfMapLib hmap := {|
  bpf_Put K V _ _ k v m :=
    let mv := view m in
    match mv !! k with
    | Some _ => (None, set_entries m (map_to_list (<[k := v]> mv)))
    | None => if Z.of_nat (size mv) <? hm_cap m
              then (None, set_entries m (map_to_list (<[k := v]> mv)))
              else (Some (Sentinel E2BIG), m)
    end;
  bpf_Delete K V _ _ k m :=
    match view m !! k with
    | Some _ => (None, set_entries m (map_to_list (delete k (view m))))
    | None => (Some (Sentinel ErrKeyNotExist), m)
    end;
  bpf_Lookup K V _ _ k m :=
    match view m !! k with Some v => Ok v | None => Fail (Sentinel ErrKeyNotExist) end;
  bpf_Iterate K V _ _ m := (map_to_list (view m), None);
  bpf_MaxEntries K V m := hm_cap m;
  bpf_KeySize K V m := hm_keysize m |}.

Lemma view_set_entries {K V} `{Countable K} (m : hmap K V) (g : gmap K V) :
  view (set_entries m (map_to_list g)) = g.
Proof. unfold view. simpl. apply list_to_map_to_list. Qed.

#[export] Program Instance hmap_spec : BpfMapSpec hmap := {|
  bpf_view K V _ _ m := view m |}.
Next Obligation.
  intros K V ?? k v m m' Hp. simpl in Hp. branches; by rewrite view_set_entries.
Qed.
Next Obligation. intros K V ?? k v m e m' Hp. simpl in Hp. branches. Qed.
Next Obligation.
  intros K V ?? k v m Hk Hs. simpl in *. rewrite Hk.
  destruct (_ <? _) eqn:E; unbool; [lia|]. eauto.
Qed.
Next Obligation. intros K V ?? k v m. simpl. branches. Qed.
Next Obligation. intros K V ?? k m m' Hp. simpl in Hp. branches. by rewrite view_set_entries. Qed.
Next Obligation. intros K V ?? k m e m' Hp. simpl in Hp. branches. Qed.
Next Obligation. intros K V ?? k m e m' Hp He. simpl in Hp. branches. Qed.
Next Obligation. intros K V ?? m l Hp. simpl in Hp. by simplify_eq. Qed.
End HashMaps.

(** ** Keys and values *)

Record signalRateEntry := { WindowStartNs : Z; Count : Z }.
Record scanRateKey := { sk_Saddr : Z; sk_DestPort : Z }.
Record scanRateKeyV6 := { sk6_Saddr : list Z; sk6_DestPort : Z }.
Record tunnelRateKey := { tk_Saddr : Z; tk_TEID : Z }.
Record tunnelRateKeyV6 := { tk6_Saddr : list Z; tk6_TEID : Z }.

(** The blank padding fields always carry zero and are left out of the keys;
    they count in [binary.Size], the sum of the declared field sizes. *)
Definition tunnelRateKey_size : Z := 4 + 4.
Definition tunnelRateKeyV6_size : Z := 16 + 4 + 4.

#[export] Instance scanRateKey_eq_dec : EqDecision scanRateKey.
Proof. solve_decision. Defined.
#[export] Instance scanRateKeyV6_eq_dec : EqDecision scanRateKeyV6.
Proof. solve_decision. Defined.
#[export] Instance tunnelRateKey_eq_dec : EqDecision tunnelRateKey.
Proof. solve_decision. Defined.
#[export] Instance tunnelRateKeyV6_eq_dec : EqDecision tunnelRateKeyV6.
Proof. solve_decision. Defined.
#[export] Instance scanRateKey_countable : Countable scanRateKey.
Proof. by refine (inj_countable' (λ k, (sk_Saddr k, sk_DestPort k)) (λ p, {| sk_Saddr := p.1; sk_DestPort := p.2 |}) _); intros []. Defined.
#[export] Instance scanRateKeyV6_countable : Countable scanRateKeyV6.
Proof. by refine (inj_countable' (λ k, (sk6_Saddr k, sk6_DestPort k)) (λ p, {| sk6_Saddr := p.1; sk6_DestPort := p.2 |}) _); intros []. Defined.
#[export] Instance tunnelRateKey_countable : Countable tunnelRateKey.
Proof. by refine (inj_countable' (λ k, (tk_Saddr k, tk_TEID k)) (λ p, {| tk_Saddr := p.1; tk_TEID := p.2 |}) _); intros []. Defined.
#[export] Instance tunnelRateKeyV6_countable : Countable tunnelRateKeyV6.
Proof. by refine (inj_countable' (λ k, (tk6_Saddr k, tk6_TEID k)) (λ p, {| tk6_Saddr := p.1; tk6_TEID := p.2 |}) _); intros []. Defined.

Definition blockedValue : Z := 1.

(** [IsMapFull] (pkg/ebpf/loader_linux.go). *)
Definition IsMapFull (e : go_error) : bool := errors_Is e E2BIG.

(** ** The Loader *)

Record Loader (Mp : Type → Type → Type) := {
  blocklist : Mp (list Z) Z;
  signalRate : Mp (list Z) signalRateEntry;
  scanRate : Mp scanRateKey signalRateEntry;
  tunnelRate : Mp tunnelRateKey signalRateEntry;
  tunnelBlocklist : Mp tunnelRateKey Z;
  blocklistV6 : Mp (list Z) Z;
  signalRateV6 : Mp (list Z) signalRateEntry;
  scanRateV6 : Mp scanRateKeyV6 signalRateEntry;
  tunnelRateV6 : Mp tunnelRateKeyV6 signalRateEntry;
  tunnelBlocklistV6 : Mp tunnelRateKeyV6 Z;
  pinPath : string;
  pinReset : bool;
  bootTime : Time
}.
Arguments blocklist {Mp} _.
Arguments signalRate {Mp} _.
Arguments scanRate {Mp} _.
Arguments tunnelRate {Mp} _.
Arguments tunnelBlocklist {Mp} _.
Arguments blocklistV6 {Mp} _.
Arguments signalRateV6 {Mp} _.
Arguments scanRateV6 {Mp} _.
Arguments tunnelRateV6 {Mp} _.
Arguments tunnelBlocklistV6 {Mp} _.
Arguments pinPath {Mp} _.
Arguments pinReset {Mp} _.
Arguments bootTime {Mp} _.

Section Loader.
Context {Mp : Type → Type → Type} `{BpfMapLib Mp}.

Definition with_maps (l : Loader Mp) (b b6 : Mp (list Z) Z) (t : Mp tunnelRateKey Z)
    (t6 : Mp tunnelRateKeyV6 Z) : Loader Mp :=
  {| blocklist := b; signalRate := signalRate l; scanRate := scanRate l;
     tunnelRate := tunnelRate l; tunnelBlocklist := t; blocklistV6 := b6;
     signalRateV6 := signalRateV6 l; scanRateV6 := scanRateV6 l;
     tunnelRateV6 := tunnelRateV6 l; tunnelBlocklistV6 := t6; pinPath := pinPath l;
     pinReset := pinReset l; bootTime := bootTime l |}.

(** The ([*ebpf.Map], key) pair the routing helpers return: which of the
    Loader's maps, and the key in that map's type. *)
Inductive map_and_key :=
  | In_blocklist (k : list Z)
  | In_blocklistV6 (k : list Z)
  | In_tunnelBlocklist (k : tunnelRateKey)
  | In_tunnelBlocklistV6 (k : tunnelRateKeyV6).

(** [m.Put(key, blockedValue)] and [m.Delete(key)] through such a pair. *)
Definition map_Put (mk : map_and_key) (l : Loader Mp) : error * Loader Mp :=
  let '(b, b6, t, t6) :=
    (blocklist l, blocklistV6 l, tunnelBlocklist l, tunnelBlocklistV6 l) in
  match mk with
  | In_blocklist k => let '(e, m) := bpf_Put k blockedValue b in (e, with_maps l m b6 t t6)
  | In_blocklistV6 k => let '(e, m) := bpf_Put k blockedValue b6 in (e, with_maps l b m t t6)
  | In_tunnelBlocklist k => let '(e, m) := bpf_Put k blockedValue t in (e, with_maps l b b6 m t6)
  | In_tunnelBlocklistV6 k =>
      let '(e, m) := bpf_Put k blockedValue t6 in (e, with_maps l b b6 t m)
  end.

Definition map_Delete (mk : map_and_key) (l : Loader Mp) : error * Loader Mp :=
  let '(b, b6, t, t6) :=
    (blocklist l, blocklistV6 l, tunnelBlocklist l, tunnelBlocklistV6 l) in
  match mk with
  | In_blocklist k => let '(e, m) := bpf_Delete k b in (e, with_maps l m b6 t t6)
  | In_blocklistV6 k => let '(e, m) := bpf_Delete k b6 in (e, with_maps l b m t t6)
  | In_tunnelBlocklist k => let '(e, m) := bpf_Delete k t in (e, with_maps l b b6 m t6)
  | In_tunnelBlocklistV6 k => let '(e, m) := bpf_Delete k t6 in (e, with_maps l b b6 t m)
  end.

Definition blocklistMapAndKey (ip : net_IP) : result map_and_key :=
  if isIPv4 ip then
    match ipv4Key ip with Ok key => Ok (In_blocklist key) | Fail e => Fail e end
  else
    match ipv6Key ip with Ok key => Ok (In_blocklistV6 key) | Fail e => Fail e end.

Definition tunnelBlocklistMapAndKey (ip : net_IP) (teid : Z) : result map_and_key :=
  if teid =? 0 then
    Fail (Errorf ("refusing to block tunnel 0 for " +:+ IPString ip))
  else match To4 ip with
  | Some v4 => Ok (In_tunnelBlocklist {| tk_Saddr := Uint32 v4; tk_TEID := teid |})
  | None =>
      match ipv6Key ip with
      | Fail e => Fail e
      | Ok v6 => Ok (In_tunnelBlocklistV6 {| tk6_Saddr := v6; tk6_TEID := teid |})
      end
  end.

Definition Loader_Block (ip : net_IP) (l : Loader Mp) : error * Loader Mp :=
  match blocklistMapAndKey ip with
  | Fail e => (Some e, l)
  | Ok mk =>
      match map_Put mk l with
      | (Some err, l') => (Some (Wrap ("insert " +:+ IPString ip +:+ " into blocklist map") [err]), l')
      | (None, l') => (None, l')
      end
  end.

Definition Loader_Unblock (ip : net_IP) (l : Loader Mp) : error * Loader Mp :=
  match blocklistMapAndKey ip with
  | Fail e => (Some e, l)
  | Ok mk =>
      match map_Delete mk l with
      | (Some err, l') =>
          if errors_Is err ErrKeyNotExist then (None, l')
          else (Some (Wrap ("remove " +:+ IPString ip +:+ " from blocklist map") [err]), l')
      | (None, l') => (None, l')
      end
  end.

Definition Loader_BlockTunnel (ip : net_IP) (teid : Z) (l : Loader Mp) : error * Loader Mp :=
  match tunnelBlocklistMapAndKey ip teid with
  | Fail e => (Some e, l)
  | Ok mk =>
      match map_Put mk l with
      | (Some err, l') => (Some (Wrap ("insert tunnel " +:+ IPString ip +:+ "/" +:+
          format_hex_alt teid +:+ " into tunnel blocklist map") [err]), l')
      | (None, l') => (None, l')
      end
  end.

Definition Loader_UnblockTunnel (ip : net_IP) (teid : Z) (l : Loader Mp) : error * Loader Mp :=
  match tunnelBlocklistMapAndKey ip teid with
  | Fail e => (Some e, l)
  | Ok mk =>
      match map_Delete mk l with
      | (Some err, l') =>
          if errors_Is err ErrKeyNotExist then (None, l')
          else (Some (Wrap ("remove tunnel " +:+ IPString ip +:+ "/" +:+
            format_hex_alt teid +:+ " from tunnel blocklist map") [err]), l')
      | (None, l') => (None, l')
      end
  end.

(** *** Reading the enforcement state back (inspect_linux.go) *)

Definition Loader_BlockedIPs (l : Loader Mp) : result (list net_IP) :=
  match bpf_Iterate (blocklist l) with
  | (_, Some err) => Fail (Wrap "iterate blocklist map" [err])
  | (es4, None) =>
      match bpf_Iterate (blocklistV6 l) with
      | (_, Some err) => Fail (Wrap "iterate blocklist_v6 map" [err])
      | (es6, None) => Ok (es4.*1 ++ es6.*1)
      end
  end.

Definition tunnel_of_key (k : tunnelRateKey) : BlockedTunnel :=
  {| bt_IP := PutUint32 (tk_Saddr k); bt_TEID := tk_TEID k |}.
Definition tunnel_of_key_v6 (k : tunnelRateKeyV6) : BlockedTunnel :=
  {| bt_IP := tk6_Saddr k; bt_TEID := tk6_TEID k |}.

Definition Loader_BlockedTunnels (l : Loader Mp) : result (list BlockedTunnel) :=
  match bpf_Iterate (tunnelBlocklist l) with
  | (_, Some err) => Fail (Wrap "iterate tunnel_blocklist map" [err])
  | (es4, None) =>
      match bpf_Iterate (tunnelBlocklistV6 l) with
      | (_, Some err) => Fail (Wrap "iterate tunnel_blocklist_v6 map" [err])
      | (es6, None) => Ok ((tunnel_of_key <$> es4.*1) ++ (tunnel_of_key_v6 <$> es6.*1))
      end
  end.

Definition countMapEntries {K V} `{Countable K} (m : Mp K V) : result Z :=
  match bpf_Iterate m with
  | (_, Some err) => Fail (Wrap "iterate map while counting" [err])
  | (es, None) => Ok (wrap 32 (Z.of_nat (length es)))
  end.

Definition Loader_ObservationOccupancy (l : Loader Mp) : result (Z * Z) :=
  match countMapEntries (tunnelRate l) with
  | Fail e => Fail e
  | Ok n4 =>
      match countMapEntries (tunnelRateV6 l) with
      | Fail e => Fail e
      | Ok n6 => Ok (wrap 32 (wrap 32 (0 + n4) + n6), bpf_MaxEntries (tunnelRate l))
      end
  end.

Definition Loader_MapCapacity (l : Loader Mp) : Z * Z :=
  (bpf_MaxEntries (blocklist l), bpf_MaxEntries (tunnelBlocklist l)).

(** *** Rates (SignalRate, TunnelRate) *)

Definition lookup_count {K} `{Countable K} (k : K) (m : Mp K signalRateEntry) : Z * bool :=
  match bpf_Lookup k m with
  | Fail _ => (0, false)
  | Ok entry => (Count entry, true)
  end.

Definition SignalRate (l : Loader Mp) (ip : net_IP) (destPort : Z) : Z * bool :=
  let signaling := (destPort =? gtpuPort) || (destPort =? sipPort) in
  match To4 ip with
  | Some v4 =>
      if signaling then lookup_count v4 (signalRate l)
      else lookup_count {| sk_Saddr := Uint32 v4; sk_DestPort := destPort |} (scanRate l)
  | None =>
      match ipv6Key ip with
      | Fail _ => (0, false)
      | Ok v6 =>
          if signaling then lookup_count v6 (signalRateV6 l)
          else lookup_count {| sk6_Saddr := v6; sk6_DestPort := destPort |} (scanRateV6 l)
      end
  end.

Definition TunnelRate (l : Loader Mp) (ip : net_IP) (teid : Z) : Z * bool :=
  match To4 ip with
  | Some v4 => lookup_count {| tk_Saddr := Uint32 v4; tk_TEID := teid |} (tunnelRate l)
  | None =>
      match ipv6Key ip with
      | Fail _ => (0, false)
      | Ok v6 => lookup_count {| tk6_Saddr := v6; tk6_TEID := teid |} (tunnelRateV6 l)
      end
  end.
End Loader.

#[export] Instance Loader_updater {Mp} `{BpfMapLib Mp} : BlocklistUpdater (Loader Mp) := {|
  Block := Loader_Block; Unblock := Loader_Unblock;
  BlockTunnel := Loader_BlockTunnel; UnblockTunnel := Loader_UnblockTunnel |}.

#[export] Instance Loader_inspector {Mp} `{BpfMapLib Mp} : BlocklistInspector (Loader Mp) := {|
  BlockedIPs := Loader_BlockedIPs; BlockedTunnels := Loader_BlockedTunnels;
  PinPath := pinPath; PinReset := pinReset;
  MapCapacity := Loader_MapCapacity; ObservationOccupancy := Loader_ObservationOccupancy |}.

(** ** The Loader discharges the blocklist interface *)

(** Runs the put or delete of a hypothesis, keeping what the law says of it. *)
Ltac case_put E :=
  match goal with
  | H : context [bpf_Put ?k ?v ?m] |- _ =>
      destruct (bpf_Put k v m) as [[?|] ?] eqn:E;
      [apply bpf_put_err in E | apply bpf_put_ok in E]
  end.
Ltac case_delete E :=
  match goal with
  | H : context [bpf_Delete ?k ?m] |- _ =>
      destruct (bpf_Delete k m) as [[?|] ?] eqn:E;
      [apply bpf_delete_err in E | apply bpf_delete_ok in E]
  end.

Section Loader_spec.
Context {Mp : Type → Type → Type} `{BpfMapSpec Mp}.

Definition tkey_pair (k : tunnelRateKey) : list Z * Z := (PutUint32 (tk_Saddr k), tk_TEID k).
Definition tkey6_pair (k : tunnelRateKeyV6) : list Z * Z := (tk6_Saddr k, tk6_TEID k).

Definition tkey_wf (k : tunnelRateKey) : Prop := in_width 32 (tk_Saddr k) ∧ 0 < tk_TEID k < 2 ^ 32.
Definition tkey6_wf (k : tunnelRateKeyV6) : Prop :=
  Forall is_byte (tk6_Saddr k) ∧ length (tk6_Saddr k) = 16%nat ∧ To4 (tk6_Saddr k) = None ∧
  0 < tk6_TEID k < 2 ^ 32.

(** Each map holds keys of its own address family only. *)
Record loader_inv (l : Loader Mp) : Prop := {
  inv_v4 k : k ∈ dom (bpf_view (blocklist l)) → Forall is_byte k ∧ length k = 4%nat;
  inv_v6 k : k ∈ dom (bpf_view (blocklistV6 l)) →
    Forall is_byte k ∧ length k = 16%nat ∧ To4 k = None;
  inv_t4 k : k ∈ dom (bpf_view (tunnelBlocklist l)) → tkey_wf k;
  inv_t6 k : k ∈ dom (bpf_view (tunnelBlocklistV6 l)) → tkey6_wf k
}.

Definition loader_ips (l : Loader Mp) : gset (list Z) :=
  dom (bpf_view (blocklist l)) ∪ dom (bpf_view (blocklistV6 l)).
Definition loader_tunnels (l : Loader Mp) : gset (list Z * Z) :=
  set_map tkey_pair (dom (bpf_view (tunnelBlocklist l))) ∪
  set_map tkey6_pair (dom (bpf_view (tunnelBlocklistV6 l))).

(** Which address or tunnel a routed key stands for. *)
Inductive key_denotes : map_and_key → (list Z) + (list Z * Z) → Prop :=
  | den_v4 k : Forall is_byte k → length k = 4%nat → key_denotes (In_blocklist k) (inl k)
  | den_v6 k : Forall is_byte k → length k = 16%nat → To4 k = None →
      key_denotes (In_blocklistV6 k) (inl k)
  | den_t4 k : tkey_wf k → key_denotes (In_tunnelBlocklist k) (inr (tkey_pair k))
  | den_t6 k : tkey6_wf k → key_denotes (In_tunnelBlocklistV6 k) (inr (tkey6_pair k)).

Lemma blocklistMapAndKey_denotes ip mk : ip_wf ip → blocklistMapAndKey ip = Ok mk →
  ∃ a, canon ip = Some a ∧ key_denotes mk (inl a).
Proof using Type.
  intros Hip. pose proof Hip as [Hb _]. unfold blocklistMapAndKey.
  destruct (isIPv4 ip) eqn:E4; intros Hmk.
  - destruct (ipv4Key ip) as [k|] eqn:Ek; simplify_eq.
    destruct (ipv4Key_canon _ _ Ek). exists k. split; [done|]. constructor; [|done].
    unfold ipv4Key in Ek. destruct (To4 ip) eqn:E; simplify_eq. by eapply To4_bytes.
  - destruct (ipv6Key ip) as [k|] eqn:Ek; simplify_eq.
    destruct (ipv6Key_canon _ _ Ek) as (Hc & Hl & Ht). exists k. split; [done|].
    destruct (canon_wf ip Hip) as (a & Ha & Hb' & _). simplify_eq. by constructor.
Qed.

Lemma tunnelMapAndKey_denotes ip teid mk : ip_wf ip → 0 ≤ teid < 2 ^ 32 →
  tunnelBlocklistMapAndKey ip teid = Ok mk →
  teid ≠ 0 ∧ ∃ a, canon ip = Some a ∧ key_denotes mk (inr (a, teid)).
Proof using Type.
  intros Hip Ht. pose proof Hip as [Hb _]. unfold tunnelBlocklistMapAndKey.
  destruct (teid =? 0) eqn:E0; [done|]. unbool. destruct (To4 ip) as [v4|] eqn:E4; intros Hmk.
  - simplify_eq. split; [done|]. exists v4. unfold canon. rewrite E4. split; [done|].
    pose proof (To4_bytes _ _ Hb E4) as Hb4. pose proof (To4_length _ _ E4) as Hl4.
    destruct (ipv4FromU32_Uint32 v4 Hb4 Hl4) as [Heq Hw].
    set (k := {| tk_Saddr := Uint32 v4; tk_TEID := teid |}).
    replace (v4, teid) with (tkey_pair k) by (unfold tkey_pair; simpl; by rewrite <- Heq at 2).
    constructor. split; simpl; [done|lia].
  - destruct (ipv6Key ip) as [v6|] eqn:Ek; simplify_eq.
    destruct (ipv6Key_canon _ _ Ek) as (Hc & Hl & Hn). split; [done|]. exists v6. split; [done|].
    destruct (canon_wf ip Hip) as (a & Ha & Hb' & _). simplify_eq.
    set (k := {| tk6_Saddr := v6; tk6_TEID := teid |}). change (v6, teid) with (tkey6_pair k).
    constructor. repeat split; simpl; try done; lia.
Qed.

Lemma tkey_pair_inj k k' : tkey_wf k → tkey_wf k' → tkey_pair k = tkey_pair k' → k = k'.
Proof using Type.
  intros [Hs _] [Hs' _] Heq. pose proof (f_equal snd Heq) as Ht.
  pose proof (f_equal (λ p, Uint32 (fst p)) Heq) as Ha. unfold tkey_pair in Ha, Ht.
  cbn [fst snd] in Ha, Ht. change PutUint32 with ipv4FromU32 in Ha.
  rewrite !Uint32_ipv4FromU32 in Ha by done. destruct k, k'. by simplify_eq/=.
Qed.

Lemma tkey6_pair_inj k k' : tkey6_pair k = tkey6_pair k' → k = k'.
Proof using Type. destruct k, k'. unfold tkey6_pair. simpl. naive_solver. Qed.

Lemma tkey_pair_length k : length (tkey_pair k).1 = 4%nat.
Proof using Type. apply le_encode_length. Qed.

Lemma map_Put_inv mk d l e l' : loader_inv l → key_denotes mk d →
  map_Put mk l = (e, l') → loader_inv l'.
Proof using Type*.
  intros [I1 I2 I3 I4] Hd Hrun. inversion Hd; subst; unfold map_Put in Hrun;
    case_put E; simplify_eq; split; simpl; try done; rewrite E; try done;
    intros k'; rewrite dom_insert; set_solver.
Qed.

Lemma map_Delete_inv mk d l e l' : loader_inv l → key_denotes mk d →
  map_Delete mk l = (e, l') → loader_inv l'.
Proof using Type*.
  intros [I1 I2 I3 I4] Hd Hrun. inversion Hd; subst; unfold map_Delete in Hrun;
    case_delete E; simplify_eq; split; simpl; try done; rewrite E; try done;
    intros k'; rewrite dom_delete; set_solver.
Qed.

(** What a routed put or delete does to the two sets. *)
Definition set_add (d : (list Z) + (list Z * Z)) (p : gset (list Z) * gset (list Z * Z)) :=
  match d with inl a => ({[a]} ∪ p.1, p.2) | inr t => (p.1, {[t]} ∪ p.2) end.
Definition set_remove (d : (list Z) + (list Z * Z)) (p : gset (list Z) * gset (list Z * Z)) :=
  match d with inl a => (p.1 ∖ {[a]}, p.2) | inr t => (p.1, p.2 ∖ {[t]}) end.
Definition loader_sets (l : Loader Mp) := (loader_ips l, loader_tunnels l).

Lemma map_Put_err mk l e l' : map_Put mk l = (Some e, l') → loader_sets l' = loader_sets l.
Proof using Type*.
  unfold loader_sets, loader_ips, loader_tunnels. intros Hrun.
  destruct mk; unfold map_Put in Hrun; case_put E; simplify_eq; simpl; by rewrite E.
Qed.

Lemma map_Delete_err mk l e l' : map_Delete mk l = (Some e, l') → loader_sets l' = loader_sets l.
Proof using Type*.
  unfold loader_sets, loader_ips, loader_tunnels. intros Hrun.
  destruct mk; unfold map_Delete in Hrun; case_delete E; simplify_eq; simpl; by rewrite E.
Qed.

Lemma map_Put_ok mk d l l' : key_denotes mk d → map_Put mk l = (None, l') →
  loader_sets l' = set_add d (loader_sets l).
Proof using Type*.
  unfold loader_sets, loader_ips, loader_tunnels. intros Hd Hrun.
  inversion Hd; subst; unfold map_Put in Hrun; case_put E; simplify_eq; simpl;
    rewrite E, dom_insert_L; f_equal; set_solver.
Qed.

(** Removing a key removes exactly what it stands for: the other family's
    map cannot hold the same address. *)
Lemma set_remove_absent mk d l : loader_inv l → key_denotes mk d →
  match mk with
  | In_blocklist k => bpf_view (blocklist l) !! k = None
  | In_blocklistV6 k => bpf_view (blocklistV6 l) !! k = None
  | In_tunnelBlocklist k => bpf_view (tunnelBlocklist l) !! k = None
  | In_tunnelBlocklistV6 k => bpf_view (tunnelBlocklistV6 l) !! k = None
  end → set_remove d (loader_sets l) = loader_sets l.
Proof using Type*.
  intros [I1 I2 I3 I4] Hd Hk. unfold loader_sets, loader_ips, loader_tunnels.
  inversion Hd; subst; simpl; f_equal; apply not_elem_of_dom in Hk;
    apply set_eq; intros x; rewrite ?elem_of_difference, ?elem_of_singleton, ?elem_of_union, ?elem_of_map.
  - split; [set_solver|]. intros Hx. split; [done|]. intros ->.
    destruct Hx as [Hx|Hx]; [done|]. apply I2 in Hx. lia.
  - split; [set_solver|]. intros Hx. split; [done|]. intros ->.
    destruct Hx as [Hx|Hx]; [|done]. apply I1 in Hx. lia.
  - split; [set_solver|]. intros Hx. split; [done|]. intros ->.
    destruct Hx as [(k' & Heq & Hx)|(k' & Heq & Hx)].
    + by apply tkey_pair_inj in Heq as <-; auto.
    + apply I4 in Hx as (_ & Hl & _). pose proof (tkey_pair_length k) as Hl4.
      rewrite Heq in Hl4. simpl in Hl4. lia.
  - split; [set_solver|]. intros Hx. split; [done|]. intros ->.
    destruct Hx as [(k' & Heq & Hx)|(k' & Heq & Hx)].
    + pose proof (tkey_pair_length k') as Hl4. rewrite <- Heq in Hl4.
      destruct H1 as (_ & Hl & _). simpl in Hl4. lia.
    + by apply tkey6_pair_inj in Heq as <-.
Qed.

Lemma map_Delete_ok mk d l l' : loader_inv l → key_denotes mk d →
  map_Delete mk l = (None, l') → loader_sets l' = set_remove d (loader_sets l).
Proof using Type*.
  intros HI Hd Hrun.
  assert (HI' : loader_inv l') by eauto using map_Delete_inv.
  assert (Habs : set_remove d (loader_sets l') = loader_sets l').
  { apply (set_remove_absent mk); [done|done|].
    destruct mk; unfold map_Delete in Hrun; case_delete E; simplify_eq; simpl;
      rewrite E; apply lookup_delete_eq. }
  rewrite <- Habs. unfold loader_sets, loader_ips, loader_tunnels.
  inversion Hd; subst; unfold map_Delete in Hrun; case_delete E; simplify_eq; simpl;
    rewrite E, dom_delete_L; f_equal; set_unfold; naive_solver.
Qed.

Lemma map_Delete_missing mk d l e l' : loader_inv l → key_denotes mk d →
  map_Delete mk l = (Some e, l') → errors_Is e ErrKeyNotExist = true →
  loader_sets l' = set_remove d (loader_sets l).
Proof using Type*.
  intros HI Hd Hrun He. rewrite (map_Delete_err _ _ _ _ Hrun).
  symmetry. apply (set_remove_absent mk); [done|done|].
  destruct mk; unfold map_Delete in Hrun; case_match eqn:E; simplify_eq;
    by eapply bpf_delete_missing.
Qed.

Lemma loader_sets_pair l l' : loader_sets l' = loader_sets l →
  loader_ips l' = loader_ips l ∧ loader_tunnels l' = loader_tunnels l.
Proof using Type. unfold loader_sets. by intros [= -> ->]. Qed.

#[export] Program Instance Loader_BlocklistSpec : BlocklistSpec (Loader Mp) := {|
  bl_inv := loader_inv; bl_ips := loader_ips; bl_tunnels := loader_tunnels |}.
Next Obligation.
  simpl. unfold Loader_Block. intros ip l e l' HI Hip Hrun.
  destruct (blocklistMapAndKey ip) as [mk|] eqn:Hmk; [|by simplify_eq].
  destruct (blocklistMapAndKey_denotes _ _ Hip Hmk) as (a & _ & Hd).
  destruct (map_Put mk l) as [[]] eqn:Hp; simplify_eq; eauto using map_Put_inv.
Qed.
Next Obligation.
  simpl. unfold Loader_Block. intros ip a l l' HI Hip Ha Hrun.
  destruct (blocklistMapAndKey ip) as [mk|] eqn:Hmk; [|by simplify_eq].
  destruct (blocklistMapAndKey_denotes _ _ Hip Hmk) as (a' & ? & Hd). simplify_eq.
  destruct (map_Put mk l) as [[]] eqn:Hp; simplify_eq.
  pose proof (map_Put_ok _ _ _ _ Hd Hp) as Heq. by injection Heq as -> ->.
Qed.
Next Obligation.
  simpl. unfold Loader_Block. intros ip l e l' HI Hip Hrun.
  destruct (blocklistMapAndKey ip) as [mk|] eqn:Hmk; [|by simplify_eq].
  destruct (map_Put mk l) as [[]] eqn:Hp; simplify_eq.
  by eapply loader_sets_pair, map_Put_err.
Qed.
Next Obligation.
  simpl. unfold Loader_Unblock. intros ip l e l' HI Hip Hrun.
  destruct (blocklistMapAndKey ip) as [mk|] eqn:Hmk; [|by simplify_eq].
  destruct (blocklistMapAndKey_denotes _ _ Hip Hmk) as (a & _ & Hd).
  destruct (map_Delete mk l) as [[]] eqn:Hp; [case_match|]; simplify_eq; eauto using map_Delete_inv.
Qed.
Next Obligation.
  simpl. unfold Loader_Unblock. intros ip a l l' HI Hip Ha Hrun.
  destruct (blocklistMapAndKey ip) as [mk|] eqn:Hmk; [|by simplify_eq].
  destruct (blocklistMapAndKey_denotes _ _ Hip Hmk) as (a' & ? & Hd). simplify_eq.
  assert (Heq : loader_sets l' = set_remove (inl a) (loader_sets l)); [|by injection Heq as -> ->].
  destruct (map_Delete mk l) as [[]] eqn:Hp; [case_match|]; simplify_eq;
    eauto using map_Delete_ok, map_Delete_missing.
Qed.
Next Obligation.
  simpl. unfold Loader_Unblock. intros ip l e l' HI Hip Hrun.
  destruct (blocklistMapAndKey ip) as [mk|] eqn:Hmk; [|by simplify_eq].
  destruct (map_Delete mk l) as [[]] eqn:Hp; [case_match|]; simplify_eq.
  by eapply loader_sets_pair, map_Delete_err.
Qed.
Next Obligation.
  simpl. unfold Loader_BlockTunnel. intros ip teid l e l' HI Hip Ht Hrun.
  destruct (tunnelBlocklistMapAndKey ip teid) as [mk|] eqn:Hmk; [|by simplify_eq].
  destruct (tunnelMapAndKey_denotes _ _ _ Hip Ht Hmk) as (_ & a & _ & Hd).
  destruct (map_Put mk l) as [[]] eqn:Hp; simplify_eq; eauto using map_Put_inv.
Qed.
Next Obligation.
  simpl. unfold Loader_BlockTunnel. intros ip a teid l l' HI Hip Ht Ha Hrun.
  destruct (tunnelBlocklistMapAndKey ip teid) as [mk|] eqn:Hmk; [|by simplify_eq].
  destruct (tunnelMapAndKey_denotes _ _ _ Hip Ht Hmk) as (Hne & a' & ? & Hd). simplify_eq.
  destruct (map_Put mk l) as [[]] eqn:Hp; simplify_eq.
  pose proof (map_Put_ok _ _ _ _ Hd Hp) as Heq. by injection Heq as -> ->.
Qed.
Next Obligation.
  simpl. unfold Loader_BlockTunnel. intros ip teid l e l' HI Hip Ht Hrun.
  destruct (tunnelBlocklistMapAndKey ip teid) as [mk|] eqn:Hmk; [|by simplify_eq].
  destruct (map_Put mk l) as [[]] eqn:Hp; simplify_eq.
  by eapply loader_sets_pair, map_Put_err.
Qed.
Next Obligation.
  simpl. unfold Loader_UnblockTunnel. intros ip teid l e l' HI Hip Ht Hrun.
  destruct (tunnelBlocklistMapAndKey ip teid) as [mk|] eqn:Hmk; [|by simplify_eq].
  destruct (tunnelMapAndKey_denotes _ _ _ Hip Ht Hmk) as (_ & a & _ & Hd).
  destruct (map_Delete mk l) as [[]] eqn:Hp; [case_match|]; simplify_eq; eauto using map_Delete_inv.
Qed.
Next Obligation.
  simpl. unfold Loader_UnblockTunnel. intros ip a teid l l' HI Hip Ht Ha Hrun.
  destruct (tunnelBlocklistMapAndKey ip teid) as [mk|] eqn:Hmk; [|by simplify_eq].
  destruct (tunnelMapAndKey_denotes _ _ _ Hip Ht Hmk) as (Hne & a' & ? & Hd). simplify_eq.
  assert (Heq : loader_sets l' = set_remove (inr (a, teid)) (loader_sets l)); [|by injection Heq as -> ->].
  destruct (map_Delete mk l) as [[]] eqn:Hp; [case_match|]; simplify_eq;
    eauto using map_Delete_ok, map_Delete_missing.
Qed.
Next Obligation.
  simpl. unfold Loader_UnblockTunnel. intros ip teid l e l' HI Hip Ht Hrun.
  destruct (tunnelBlocklistMapAndKey ip teid) as [mk|] eqn:Hmk; [|by simplify_eq].
  destruct (map_Delete mk l) as [[]] eqn:Hp; [case_match|]; simplify_eq.
  by eapply loader_sets_pair, map_Delete_err.
Qed.

(** A complete iteration yields every key once. *)
Lemma iterate_keys {K V} `{Countable K} (m : Mp K V) es : bpf_Iterate m = (es, None) →
  NoDup es.*1 ∧ ∀ k, k ∈ es.*1 ↔ k ∈ dom (bpf_view m).
Proof using Type*.
  intros Hit. apply bpf_iterate_ok in Hit. split.
  - rewrite Hit. apply NoDup_fst_map_to_list.
  - intros k. rewrite Hit, list_elem_of_fmap, elem_of_dom. split.
    + intros ([k' v] & -> & Hin%elem_of_map_to_list). by exists v.
    + intros [v Hv]. exists (k, v). split; [done|]. by apply elem_of_map_to_list.
Qed.

Lemma v4_addr_wf k : Forall is_byte k → length k = 4%nat → addr_wf k.
Proof using Type. intros Hb Hl. split; [done|]. unfold canon. by rewrite To4_4. Qed.

Lemma v6_addr_wf k : Forall is_byte k → length k = 16%nat → To4 k = None → addr_wf k.
Proof using Type. intros Hb Hl Ht. split; [done|]. unfold canon. by rewrite Ht, Hl. Qed.

Lemma tkey_tunnel_wf k : tkey_wf k → tunnel_wf (tkey_pair k).
Proof using Type.
  intros [Hs Ht]. split; [|done]. apply v4_addr_wf; [apply le_encode_bytes|apply le_encode_length].
Qed.

Lemma tkey6_tunnel_wf k : tkey6_wf k → tunnel_wf (tkey6_pair k).
Proof using Type. intros (Hb & Hl & Hn & Ht). split; [|done]. by apply v6_addr_wf. Qed.

Lemma Loader_BlockedIPs_spec l ips : loader_inv l → Loader_BlockedIPs l = Ok ips →
  NoDup ips ∧ Forall addr_wf ips ∧ ∀ a, a ∈ ips ↔ a ∈ loader_ips l.
Proof using Type*.
  intros [I1 I2 _ _] Hrun. unfold Loader_BlockedIPs in Hrun.
  destruct (bpf_Iterate (blocklist l)) as [es4 []] eqn:E4; [done|].
  destruct (bpf_Iterate (blocklistV6 l)) as [es6 []] eqn:E6; [done|]. simplify_eq.
  destruct (iterate_keys _ _ E4) as [N4 M4], (iterate_keys _ _ E6) as [N6 M6].
  repeat split.
  - apply NoDup_app. repeat split; [done| |done]. intros k Hk4%M4%I1 Hk6%M6%I2. lia.
  - apply Forall_app. split; apply Forall_forall; intros k.
    + intros [? ?]%M4%I1. by apply v4_addr_wf.
    + intros (? & ? & ?)%M6%I2. by apply v6_addr_wf.
  - unfold loader_ips. rewrite elem_of_app, elem_of_union, M4, M6. done.
  - unfold loader_ips. rewrite elem_of_app, elem_of_union, M4, M6. done.
Qed.

Lemma Loader_BlockedTunnels_spec l ts : loader_inv l → Loader_BlockedTunnels l = Ok ts →
  NoDup ((λ t, (bt_IP t, bt_TEID t)) <$> ts) ∧
  Forall (λ t, tunnel_wf (bt_IP t, bt_TEID t)) ts ∧
  ∀ p, p ∈ ((λ t, (bt_IP t, bt_TEID t)) <$> ts) ↔ p ∈ loader_tunnels l.
Proof using Type*.
  intros [_ _ I3 I4] Hrun. unfold Loader_BlockedTunnels in Hrun.
  destruct (bpf_Iterate (tunnelBlocklist l)) as [es4 []] eqn:E4; [done|].
  destruct (bpf_Iterate (tunnelBlocklistV6 l)) as [es6 []] eqn:E6; [done|]. simplify_eq.
  destruct (iterate_keys _ _ E4) as [N4 M4], (iterate_keys _ _ E6) as [N6 M6].
  assert (Heq : (λ t, (bt_IP t, bt_TEID t)) <$>
      ((tunnel_of_key <$> es4.*1) ++ (tunnel_of_key_v6 <$> es6.*1)) =
    (tkey_pair <$> es4.*1) ++ (tkey6_pair <$> es6.*1)).
  { rewrite fmap_app, <- !list_fmap_compose. done. }
  rewrite Heq. repeat split.
  - apply NoDup_app. repeat split.
    + apply list_fmap_NoDup_inj; [|done].
      intros x y Hx%M4%I3 Hy%M4%I3. by apply tkey_pair_inj.
    + intros p (k & -> & Hk)%list_elem_of_fmap (k' & Hp & Hk'%M6%I4)%list_elem_of_fmap.
      pose proof (tkey_pair_length k) as Hl. rewrite Hp in Hl.
      destruct Hk' as (_ & Hl' & _). simpl in Hl. lia.
    + apply list_fmap_NoDup_inj; [|done]. intros x y _ _. apply tkey6_pair_inj.
  - apply Forall_app. split; apply Forall_fmap, Forall_forall; intros k.
    + intros Hk%M4%I3. by apply (tkey_tunnel_wf k).
    + intros Hk%M6%I4. by apply (tkey6_tunnel_wf k).
  - intros Hp. unfold loader_tunnels. set_solver.
  - intros Hp. unfold loader_tunnels in Hp. set_solver.
Qed.

#[export] Instance Loader_InspectorSpec : InspectorSpec (Loader Mp) := {|
  BlockedIPs_spec := Loader_BlockedIPs_spec;
  BlockedTunnels_spec := Loader_BlockedTunnels_spec |}.
End Loader_spec.

(** ** Properties of the Loader *)

Section Loader_properties.
Context {Mp : Type → Type → Type} `{BpfMapSpec Mp}.

(** The map a routed key addresses is full and does not hold the key. *)
Definition route_full (mk : map_and_key) (l : Loader Mp) : Prop :=
  match mk with
  | In_blocklist k => bpf_view (blocklist l) !! k = None ∧
      bpf_MaxEntries (blocklist l) ≤ Z.of_nat (size (bpf_view (blocklist l)))
  | In_blocklistV6 k => bpf_view (blocklistV6 l) !! k = None ∧
      bpf_MaxEntries (blocklistV6 l) ≤ Z.of_nat (size (bpf_view (blocklistV6 l)))
  | In_tunnelBlocklist k => bpf_view (tunnelBlocklist l) !! k = None ∧
      bpf_MaxEntries (tunnelBlocklist l) ≤ Z.of_nat (size (bpf_view (tunnelBlocklist l)))
  | In_tunnelBlocklistV6 k => bpf_view (tunnelBlocklistV6 l) !! k = None ∧
      bpf_MaxEntries (tunnelBlocklistV6 l) ≤ Z.of_nat (size (bpf_view (tunnelBlocklistV6 l)))
  end.

Lemma map_Put_full mk l : route_full mk l →
  ∃ e l', map_Put mk l = (Some e, l') ∧ errors_Is e E2BIG = true.
Proof using Type*.
  destruct mk; intros [Hk Hc]; unfold map_Put;
    destruct (bpf_put_full _ blockedValue _ Hk Hc) as (e & -> & He); eauto.
Qed.

(** C20: what the controllers block is what reading the kernel back shows.
    After a successful [Block] (or [Unblock]) of an address in either textual
    form or family, a successful [BlockedIPs] lists exactly the previously
    dropped addresses plus (or minus) its canonical form, each once. *)
Theorem block_readback l ip a blk l' ips :
  loader_inv l → ip_wf ip → canon ip = Some a →
  (if (blk : bool) then Loader_Block ip l else Loader_Unblock ip l) = (None, l') →
  Loader_BlockedIPs l' = Ok ips →
  loader_inv l' ∧ NoDup ips ∧ Forall addr_wf ips ∧
  ∀ b, b ∈ ips ↔ if blk then b = a ∨ b ∈ loader_ips l else b ≠ a ∧ b ∈ loader_ips l.
Proof using Type*.
  intros HI Hip Ha Hrun Hread.
  assert (HI' : loader_inv l').
  { destruct blk; [exact (Block_inv ip l None l' HI Hip Hrun)|exact (Unblock_inv ip l None l' HI Hip Hrun)]. }
  destruct (Loader_BlockedIPs_spec l' ips HI' Hread) as (Hnd & Hwf & Hmem).
  split; [done|]. split; [done|]. split; [done|]. intros b. rewrite Hmem. destruct blk.
  - destruct (Block_ok ip a l l') as [Heq _]; [done..|]. simpl in Heq. set_solver.
  - destruct (Unblock_ok ip a l l') as [Heq _]; [done..|]. simpl in Heq. set_solver.
Qed.

(** C21: a tunnel drop is precise. A successful [BlockTunnel] (or
    [UnblockTunnel]) adds (or removes) exactly that (source, TEID) pair, keeps
    every other tunnel of the same source and every address drop as they were,
    and is never accepted for TEID 0, the "no tunnel identity" sentinel. *)
Theorem tunnel_block_readback l ip a teid blk l' ts :
  loader_inv l → ip_wf ip → canon ip = Some a → 0 ≤ teid < 2 ^ 32 →
  (if (blk : bool) then Loader_BlockTunnel ip teid l else Loader_UnblockTunnel ip teid l)
    = (None, l') →
  Loader_BlockedTunnels l' = Ok ts →
  teid ≠ 0 ∧ loader_inv l' ∧ loader_ips l' = loader_ips l ∧
  NoDup ((λ t, (bt_IP t, bt_TEID t)) <$> ts) ∧
  ∀ p, p ∈ ((λ t, (bt_IP t, bt_TEID t)) <$> ts) ↔
    if blk then p = (a, teid) ∨ p ∈ loader_tunnels l else p ≠ (a, teid) ∧ p ∈ loader_tunnels l.
Proof using Type*.
  intros HI Hip Ha Ht Hrun Hread.
  assert (HI' : loader_inv l').
  { destruct blk; [exact (BlockTunnel_inv ip teid l None l' HI Hip Ht Hrun)
                  |exact (UnblockTunnel_inv ip teid l None l' HI Hip Ht Hrun)]. }
  destruct (Loader_BlockedTunnels_spec l' ts HI' Hread) as (Hnd & Hwf & Hmem).
  assert (Hok : teid ≠ 0 ∧ loader_ips l' = loader_ips l ∧ loader_tunnels l' =
    if blk then {[(a, teid)]} ∪ loader_tunnels l else loader_tunnels l ∖ {[(a, teid)]}).
  { destruct blk; [destruct (BlockTunnel_ok ip a teid l l') as (? & ? & ?)
      |destruct (UnblockTunnel_ok ip a teid l l') as (? & ? & ?)]; done. }
  destruct Hok as (Hne & Hips & Htn). split; [done|]. split; [done|]. split; [done|].
  split; [done|]. intros p. rewrite Hmem. simpl. rewrite Htn. destruct blk; set_solver.
Qed.

(** a full enforcement map fails loudly. When the map of the address
    family is full and does not hold the key, [Block] and [BlockTunnel] return
    an error that [IsMapFull] recognises through the wrapping, and no drop
    already in force, of an address or a tunnel, is lost. *)
Theorem full_map_rejects l ip teid tun mk :
  (if (tun : bool) then tunnelBlocklistMapAndKey ip teid else blocklistMapAndKey ip) = Ok mk →
  route_full mk l →
  ∃ e l', (if tun then Loader_BlockTunnel ip teid l else Loader_Block ip l) = (Some e, l') ∧
    IsMapFull e = true ∧ loader_ips l' = loader_ips l ∧ loader_tunnels l' = loader_tunnels l.
Proof using Type*.
  intros Hmk Hfull. destruct (map_Put_full _ _ Hfull) as (e & l' & Hp & He).
  pose proof (loader_sets_pair _ _ (map_Put_err _ _ _ _ Hp)) as Hsets.
  destruct tun; [unfold Loader_BlockTunnel | unfold Loader_Block]; rewrite Hmk, Hp;
    eexists _, _; (split; [reflexivity|]); (split; [|done]); unfold IsMapFull; simpl; by rewrite He.
Qed.
End Loader_properties.

(** ** A concrete Loader *)

Module LoaderSample.
Import HashMaps.
Definition hm {K V} (cap size : Z) (l : list (K * V)) : hmap K V :=
  {| hm_entries := l; hm_cap := cap; hm_keysize := size |}.
Definition empty_loader (cap : Z) : Loader hmap := {|
  blocklist := hm cap 4 []; signalRate := hm cap 4 []; scanRate := hm cap 8 [];
  tunnelRate := hm cap 8 []; tunnelBlocklist := hm cap 8 []; blocklistV6 := hm cap 16 [];
  signalRateV6 := hm cap 16 []; scanRateV6 := hm cap 24 []; tunnelRateV6 := hm cap 24 [];
  tunnelBlocklistV6 := hm cap 24 []; pinPath := DefaultPinPath; pinReset := false;
  bootTime := 0 |}.

Lemma empty_loader_inv cap : loader_inv (empty_loader cap).
Proof. split; intros k Hk; exfalso; by apply elem_of_dom in Hk as [? ?]. Qed.

Definition attacker : net_IP := [10; 0; 0; 66].
Lemma attacker_wf : ip_wf attacker.
Proof. split; [|by left]. repeat constructor; unfold is_byte; lia. Qed.

Lemma block_readback_witness :
  ∃ l' ips, Loader_Block attacker (empty_loader 8) = (None, l') ∧
    Loader_BlockedIPs l' = Ok ips ∧ ips = [attacker] ∧
    (attacker ∈ ips ↔ attacker = attacker ∨ attacker ∈ loader_ips (empty_loader 8)).
Proof.
  eexists _, _. split; [vm_compute; reflexivity|]. split; [vm_compute; reflexivity|].
  split; [reflexivity|].
  refine (proj2 (proj2 (proj2 (block_readback (empty_loader 8) attacker attacker true _ _
    (empty_loader_inv 8) attacker_wf _ _ _))) attacker); vm_compute; reflexivity.
Defined.

Lemma tunnel_block_readback_witness :
  ∃ l' ts, Loader_BlockTunnel attacker 7 (empty_loader 8) = (None, l') ∧
    Loader_BlockedTunnels l' = Ok ts ∧ loader_ips l' = loader_ips (empty_loader 8).
Proof.
  eexists _, _. split; [vm_compute; reflexivity|]. split; [vm_compute; reflexivity|].
  refine (proj1 (proj2 (proj2 (tunnel_block_readback (empty_loader 8) attacker attacker 7 true _ _
    (empty_loader_inv 8) attacker_wf _ _ _ _)))); [reflexivity|lia| |]; vm_compute; reflexivity.
Defined.

Lemma full_map_rejects_witness :
  ∃ e l', Loader_Block attacker (empty_loader 0) = (Some e, l') ∧ IsMapFull e = true ∧
    loader_ips l' = loader_ips (empty_loader 0) ∧ loader_tunnels l' = loader_tunnels (empty_loader 0).
Proof.
  refine (full_map_rejects (empty_loader 0) attacker 0 false (In_blocklist attacker) _ _).
  - reflexivity.
  - split; [reflexivity|]. vm_compute. discriminate.
Defined.
End LoaderSample.
