(* ===== verification/EventPump.v ===== *)
(** * EventPump: the goroutines behind SignalingEvents (pkg/ebpf/loader_linux.go)

    [SignalingEvents] opens the two ring buffers and starts four goroutines: a
    reader per ring, one that closes both readers when the context ends, one
    that closes the merged channel when both readers have returned. They share
    the channel, the WaitGroup and the readers. [fire] is one step of one of
    them; a schedule is any list of steps, so a theorem about all schedules
    covers every interleaving, every answer of [Read] and every speed of the
    consumer. What would panic in Go is an outcome of its own. *)

From S2P Require Import Prelude GoStrings NetIP Blocklist Wire.

Local Open Scope Z_scope.

(** ** The goroutines' state *)

(** The two ring buffers. *)
Inductive Ring := RingV4 | RingV6.
#[export] Instance Ring_eq_dec : EqDecision Ring.
Proof. solve_decision. Defined.

(** Where a reader goroutine is: in [Read], in the select with an event in
    hand, in one of its two deferred calls, or gone. *)
Inductive ReaderPc :=
  | Reading
  | Sending (evt : SignalingEvent)
  | DeferClose
  | DeferDone
  | Returned.

Record ReaderState := { rd_pc : ReaderPc; rd_closed : bool }.

(** The goroutine that waits for the context and closes both readers. *)
Inductive CloserPc := AwaitCtx | CloseSecond | CloserReturned.

Record Pump := {
  pu_v4 : ReaderState;
  pu_v6 : ReaderState;
  pu_ctx : bool;                             (* ctx.Done() is closed *)
  pu_closer : CloserPc;
  pu_wg : nat;                               (* the WaitGroup's counter *)
  pu_waiter : bool;                          (* the waiting goroutine has returned *)
  pu_out : list (Ring * SignalingEvent);     (* what the consumer received, in order *)
  pu_out_closed : bool
}.

Definition reader (r : Ring) (s : Pump) : ReaderState :=
  match r with RingV4 => pu_v4 s | RingV6 => pu_v6 s end.

Definition set_reader (r : Ring) (x : ReaderState) (s : Pump) : Pump :=
  {| pu_v4 := match r with RingV4 => x | RingV6 => pu_v4 s end;
     pu_v6 := match r with RingV4 => pu_v6 s | RingV6 => x end;
     pu_ctx := pu_ctx s; pu_closer := pu_closer s; pu_wg := pu_wg s; pu_waiter := pu_waiter s;
     pu_out := pu_out s; pu_out_closed := pu_out_closed s |}.
Definition set_pc (r : Ring) (pc : ReaderPc) (s : Pump) : Pump :=
  set_reader r {| rd_pc := pc; rd_closed := rd_closed (reader r s) |} s.
Definition close_reader (r : Ring) (s : Pump) : Pump :=
  set_reader r {| rd_pc := rd_pc (reader r s); rd_closed := true |} s.
Definition set_closer (c : CloserPc) (s : Pump) : Pump :=
  {| pu_v4 := pu_v4 s; pu_v6 := pu_v6 s; pu_ctx := pu_ctx s; pu_closer := c; pu_wg := pu_wg s;
     pu_waiter := pu_waiter s; pu_out := pu_out s; pu_out_closed := pu_out_closed s |}.
Definition set_ctx (s : Pump) : Pump :=
  {| pu_v4 := pu_v4 s; pu_v6 := pu_v6 s; pu_ctx := true; pu_closer := pu_closer s; pu_wg := pu_wg s;
     pu_waiter := pu_waiter s; pu_out := pu_out s; pu_out_closed := pu_out_closed s |}.
Definition set_wg (n : nat) (s : Pump) : Pump :=
  {| pu_v4 := pu_v4 s; pu_v6 := pu_v6 s; pu_ctx := pu_ctx s; pu_closer := pu_closer s; pu_wg := n;
     pu_waiter := pu_waiter s; pu_out := pu_out s; pu_out_closed := pu_out_closed s |}.
Definition deliver (r : Ring) (evt : SignalingEvent) (s : Pump) : Pump :=
  {| pu_v4 := pu_v4 s; pu_v6 := pu_v6 s; pu_ctx := pu_ctx s; pu_closer := pu_closer s; pu_wg := pu_wg s;
     pu_waiter := pu_waiter s; pu_out := pu_out s ++ [(r, evt)]; pu_out_closed := pu_out_closed s |}.
Definition close_out (s : Pump) : Pump :=
  {| pu_v4 := pu_v4 s; pu_v6 := pu_v6 s; pu_ctx := pu_ctx s; pu_closer := pu_closer s; pu_wg := pu_wg s;
     pu_waiter := true; pu_out := pu_out s; pu_out_closed := true |}.

(** ** The steps *)

(** What [reader.Read()] returns. *)
Inductive ReadResult :=
  | RawSample (sample : list Z)
  | ErrClosed
  | TransientErr.

Inductive Act :=
  | CtxEnds                                  (* the context is cancelled *)
  | CloserStep                               (* the next call of the closing goroutine *)
  | ReadStep (r : Ring) (res : ReadResult)   (* Read returns [res] *)
  | SendStep (r : Ring)                      (* the select sends to the consumer *)
  | AbandonStep (r : Ring)                   (* the select sees the context end *)
  | DeferStep (r : Ring)                     (* the next deferred call of a reader *)
  | WaiterStep.                              (* Wait returns and [out] is closed *)

Inductive Outcome := Step (s : Pump) | Blocked | Panic.

Section Pump.
Context (bootTime : Time).

Definition decode (r : Ring) : list Z → result SignalingEvent :=
  match r with RingV4 => decodeSignalingEvent bootTime | RingV6 => decodeSignalingEventV6 bootTime end.

(** One round of the loop of [readSignalingEvents(V6)] up to the select. A
    closed reader answers ErrClosed; an open one may answer anything, ErrClosed
    included: the loop only looks at the error, not at who closed the reader. *)
Definition read_step (r : Ring) (res : ReadResult) (s : Pump) : Outcome :=
  if rd_closed (reader r s) then
    match res with ErrClosed => Step (set_pc r DeferClose s) | _ => Blocked end
  else
    match res with
    | ErrClosed => Step (set_pc r DeferClose s)
    | TransientErr => if pu_ctx s then Step (set_pc r DeferClose s) else Step s
    | RawSample sample =>
        match decode r sample with
        | Fail _ => Step s
        | Ok evt => Step (set_pc r (Sending evt) s)
        end
    end.

Definition closer_step (s : Pump) : Outcome :=
  match pu_closer s with
  | AwaitCtx => if pu_ctx s then Step (close_reader RingV4 (set_closer CloseSecond s)) else Blocked
  | CloseSecond => Step (close_reader RingV6 (set_closer CloserReturned s))
  | CloserReturned => Blocked
  end.

(** The deferred calls run last in, first out: [reader.Close()], [wg.Done()]. *)
Definition defer_step (r : Ring) (s : Pump) : Outcome :=
  match rd_pc (reader r s) with
  | DeferClose => Step (set_pc r DeferDone (close_reader r s))
  | DeferDone =>
      match pu_wg s with
      | O => Panic                           (* negative WaitGroup counter *)
      | S n => Step (set_wg n (set_pc r Returned s))
      end
  | _ => Blocked
  end.

Definition fire (a : Act) (s : Pump) : Outcome :=
  match a with
  | CtxEnds => if pu_ctx s then Blocked else Step (set_ctx s)
  | CloserStep => closer_step s
  | ReadStep r res => match rd_pc (reader r s) with Reading => read_step r res s | _ => Blocked end
  | SendStep r =>
      match rd_pc (reader r s) with
      | Sending evt => if pu_out_closed s then Panic else Step (deliver r evt (set_pc r Reading s))
      | _ => Blocked
      end
  | AbandonStep r =>
      match rd_pc (reader r s) with
      | Sending _ => if pu_ctx s then Step (set_pc r DeferClose s) else Blocked
      | _ => Blocked
      end
  | DeferStep r => defer_step r s
  | WaiterStep =>
      if pu_waiter s then Blocked
      else match pu_wg s with
           | O => if pu_out_closed s then Panic else Step (close_out s)
           | S _ => Blocked
           end
  end.

Fixpoint schedule (tr : list Act) (s : Pump) : Outcome :=
  match tr with
  | [] => Step s
  | a :: tr' => match fire a s with Step s' => schedule tr' s' | o => o end
  end.

(** The goroutines as [SignalingEvents] starts them. *)
Definition pump_start : Pump :=
  {| pu_v4 := {| rd_pc := Reading; rd_closed := false |}; pu_v6 := {| rd_pc := Reading; rd_closed := false |};
     pu_ctx := false; pu_closer := AwaitCtx; pu_wg := 2; pu_waiter := false; pu_out := []; pu_out_closed := false |}.

(** [ringbuf.NewReader] per ring; the second component is the readers that
    are open when the call returns. *)
Definition SignalingEvents (NewReader : Ring → option go_error) : result Pump * list Ring :=
  match NewReader RingV4 with
  | Some err => (Fail (Wrap "open signaling_events ring buffer" [err]), [])
  | None =>
      match NewReader RingV6 with
      | Some err => (Fail (Wrap "open signaling_events_v6 ring buffer" [err]), filter (.≠ RingV4) [RingV4])
      | None => (Ok pump_start, [RingV4; RingV6])
      end
  end.

(** ** The invariant of every interleaving *)

Definition running (x : ReaderState) : nat := match rd_pc x with Returned => 0 | _ => 1 end.

(** A reader past its first deferred call is closed. *)
Definition reader_ok (x : ReaderState) : Prop :=
  match rd_pc x with DeferDone | Returned => rd_closed x = true | _ => True end.

Record pump_inv (s : Pump) : Prop := {
  pm_reader r : reader_ok (reader r s);
  pm_wg : pu_wg s = (running (reader RingV4 s) + running (reader RingV6 s))%nat;
  pm_waiter : pu_waiter s = pu_out_closed s;
  pm_out : pu_out_closed s = true → pu_wg s = 0%nat;
  pm_closer : match pu_closer s with
              | AwaitCtx => True
              | CloseSecond => pu_ctx s = true ∧ rd_closed (reader RingV4 s) = true
              | CloserReturned => pu_ctx s = true ∧ ∀ r, rd_closed (reader r s) = true
              end
}.

(** A step of one reader: what has to be checked. *)
Lemma reader_frame r x s s' : pump_inv s →
  reader r s' = x ∧ (∀ r', r' ≠ r → reader r' s' = reader r' s) →
  pu_ctx s' = pu_ctx s ∧ pu_closer s' = pu_closer s ∧ pu_waiter s' = pu_waiter s ∧ pu_out_closed s' = pu_out_closed s →
  reader_ok x → (rd_closed (reader r s) = true → rd_closed x = true) →
  (pu_wg s' + running (reader r s) = pu_wg s + running x)%nat → (running x ≤ running (reader r s))%nat →
  pump_inv s'.
Proof.
  intros [Hr Hw Hwt Ho Hc] [Hx Hoth] (Ectx & Ecl & Ewt & Eoc) Hok Hcl Hwg Hle.
  assert (Hall : ∀ r', reader_ok (reader r' s') ∧ (rd_closed (reader r' s) = true → rd_closed (reader r' s') = true)).
  { intros r'. destruct (decide (r' = r)) as [->|Hne]; [by rewrite Hx|]. by rewrite Hoth. }
  split; rewrite ?Ectx, ?Ecl, ?Ewt, ?Eoc.
  - intros r'. apply Hall.
  - destruct r; [rewrite (Hoth RingV6) by done|rewrite (Hoth RingV4) by done]; rewrite Hx; lia.
  - done.
  - intros Hoc. specialize (Ho Hoc). lia.
  - destruct (pu_closer s); [done|..]; (split; [apply Hc|]); [by apply Hall, Hc|]. intros r'. by apply Hall, Hc.
Qed.

Lemma set_pc_reader r pc s :
  reader r (set_pc r pc s) = {| rd_pc := pc; rd_closed := rd_closed (reader r s) |} ∧
  ∀ r', r' ≠ r → reader r' (set_pc r pc s) = reader r' s.
Proof. destruct r; (split; [done|]); by intros []. Qed.

(** A reader that changes its place without returning. *)
Lemma set_pc_inv r pc s : pump_inv s → rd_pc (reader r s) ≠ Returned → pc ≠ Returned →
  reader_ok {| rd_pc := pc; rd_closed := rd_closed (reader r s) |} → pump_inv (set_pc r pc s).
Proof.
  intros HI Hp Hpc Hok. destruct (set_pc_reader r pc s) as [Hx Hoth].
  eapply (reader_frame r _ s); [done|split; [exact Hx|done]|done|done|done|..]; unfold running; simpl;
    destruct (rd_pc (reader r s)), pc; done || lia.
Qed.

Lemma close_inv r s : pump_inv s → pump_inv (close_reader r s).
Proof.
  intros HI.
  eapply (reader_frame r {| rd_pc := rd_pc (reader r s); rd_closed := true |} s); [done|..]; try done.
  - destruct r; (split; [done|]); by intros [].
  - unfold reader_ok. simpl. by destruct (rd_pc (reader r s)).
Qed.

Lemma closer_step_inv s s' : pump_inv s → closer_step s = Step s' → pump_inv s'.
Proof.
  intros HI Hf. pose proof (pm_closer _ HI) as Hc. unfold closer_step in Hf.
  destruct (pu_closer s); [|destruct Hc as [Ectx H4]|done].
  - destruct (pu_ctx s) eqn:Ectx; [|done]. injection Hf as <-.
    destruct (close_inv RingV4 s HI) as [H1 H2 H3 H4 _]. split; try done.
  - injection Hf as <-. destruct (close_inv RingV6 s HI) as [H1 H2 H3 H5 _]. split; try done.
    simpl. split; [done|]. by intros [].
Qed.

Lemma defer_step_inv r s s' : pump_inv s → defer_step r s = Step s' → pump_inv s'.
Proof.
  intros HI Hf. pose proof (pm_reader _ HI r) as Hr. unfold defer_step, reader_ok in *.
  destruct (rd_pc (reader r s)) eqn:Ep; try done.
  - injection Hf as <-. pose proof (close_inv r s HI) as HI'. apply set_pc_inv; [done| |done|by destruct r].
    destruct r; simpl in *; by rewrite Ep.
  - destruct (pu_wg s) as [|n] eqn:Eg; [done|]. injection Hf as <-. destruct (set_pc_reader r Returned s) as [Hx Hoth].
    eapply (reader_frame r _ s); [done|split; [exact Hx|exact Hoth]|done|..]; unfold running, reader_ok; simpl; rewrite ?Ep, ?Eg; try lia; try done.
Qed.

Lemma fire_inv a s s' : pump_inv s → fire a s = Step s' → pump_inv s'.
Proof.
  intros HI Hf. pose proof HI as [Hr Hw Hwt Ho Hc]. destruct a as [| |r res|r|r|r|]; simpl in Hf.
  - destruct (pu_ctx s) eqn:E; [done|]. injection Hf as <-. split; simpl; try done.
    destruct (pu_closer s); [done|by destruct Hc..].
  - by apply (closer_step_inv s).
  - destruct (rd_pc (reader r s)) eqn:Ep; try done.
    assert (Hgo : ∀ pc, match pc with Reading | Sending _ | DeferClose => True | _ => False end → pump_inv (set_pc r pc s)).
    { intros pc Hpc. apply set_pc_inv; [done|by rewrite Ep|by intros ->|by destruct pc]. }
    unfold read_step in Hf. repeat case_match; simplify_eq; (done || by apply Hgo).
  - destruct (rd_pc (reader r s)) eqn:Ep; try done. destruct (pu_out_closed s) eqn:Eo; [done|]. injection Hf as <-.
    assert (HI' : pump_inv (set_pc r Reading s)) by (by apply set_pc_inv; [|rewrite Ep|..]).
    destruct HI'. by split.
  - destruct (rd_pc (reader r s)) eqn:Ep; try done. destruct (pu_ctx s) eqn:Ectx; [|done]. injection Hf as <-.
    by apply set_pc_inv; [|rewrite Ep|..].
  - by apply (defer_step_inv r s).
  - destruct (pu_waiter s) eqn:Ew; [done|]. destruct (pu_wg s) eqn:Eg; [|done].
    destruct (pu_out_closed s); [done|]. injection Hf as <-. split; simpl; try done; by rewrite Eg.
Qed.

Lemma fire_no_panic a s : pump_inv s → fire a s ≠ Panic.
Proof.
  intros HI Hf. pose proof HI as [Hr Hw Hwt Ho Hc].
  assert (Hrun : ∀ r, rd_pc (reader r s) ≠ Returned → pu_wg s ≠ 0%nat).
  { intros r Hp. rewrite Hw. unfold running. destruct r; simpl in *; destruct (rd_pc _), (rd_pc _); done || lia. }
  destruct a as [| |r res|r|r|r|]; simpl in Hf; unfold closer_step, read_step, defer_step in Hf.
  - by destruct (pu_ctx s).
  - repeat case_match; discriminate.
  - repeat case_match; discriminate.
  - destruct (rd_pc (reader r s)) eqn:Ep; try done. destruct (pu_out_closed s) eqn:Eo; [|done].
    apply (Hrun r); [by rewrite Ep|]. by apply Ho.
  - repeat case_match; discriminate.
  - destruct (rd_pc (reader r s)) eqn:Ep; try done. destruct (pu_wg s) eqn:Eg; [|done].
    apply (Hrun r); [by rewrite Ep|done].
  - destruct (pu_waiter s) eqn:Ew; [done|]. destruct (pu_wg s); [|done]. by rewrite <- Hwt in Hf.
Qed.

Lemma pump_start_inv : pump_inv pump_start.
Proof. by split; try done; intros []. Qed.

Lemma schedule_inv tr s : pump_inv s →
  schedule tr s ≠ Panic ∧ ∀ s', schedule tr s = Step s' → pump_inv s'.
Proof.
  revert s. induction tr as [|a tr IH]; intros s HI; simpl; [split; [done|]; by intros s' [= <-]|].
  pose proof (fire_no_panic a s HI). destruct (fire a s) as [s1| |] eqn:E; [|done|done].
  apply IH. by eapply fire_inv.
Qed.

Lemma SignalingEvents_ok NewReader s : (SignalingEvents NewReader).1 = Ok s → s = pump_start.
Proof. unfold SignalingEvents. repeat case_match; by intros [= <-]. Qed.

Lemma schedule_snoc tr a s : schedule (tr ++ [a]) s = match schedule tr s with Step s' => fire a s' | o => o end.
Proof.
  revert s. induction tr as [|b tr IH]; intros s; simpl; [by destruct (fire a s)|]. by destruct (fire b s).
Qed.

(** A reader leaves its loop only when the context is over or its Read said that
    the reader is closed. *)
Definition left_for (r : Ring) (tr : list Act) (s : Pump) : Prop :=
  match rd_pc (reader r s) with
  | Reading | Sending _ => True
  | _ => pu_ctx s = true ∨ ReadStep r ErrClosed ∈ tr
  end.

Lemma fire_ctx a s s' : fire a s = Step s' → pu_ctx s = true → pu_ctx s' = true.
Proof.
  intros Hf Hc. destruct a as [| |[] res|[]|[]|[]|]; simpl in Hf; unfold closer_step, read_step, defer_step in Hf;
    repeat case_match; simplify_eq; done.
Qed.

Lemma fire_left_for r a s s' tr : fire a s = Step s' → left_for r tr s → left_for r (tr ++ [a]) s'.
Proof.
  intros Hf Hl. pose proof (fire_ctx _ _ _ Hf) as Hctx. unfold left_for in *.
  assert (Hkeep : rd_pc (reader r s') = rd_pc (reader r s) →
    match rd_pc (reader r s') with Reading | Sending _ => True | _ => pu_ctx s' = true ∨ ReadStep r ErrClosed ∈ tr ++ [a] end).
  { intros ->. destruct (rd_pc (reader r s)); try done; (destruct Hl; [left; by apply Hctx|right; apply elem_of_app; by left]). }
  destruct a as [| |r' res|r'|r'|r'|]; simpl in Hf; unfold closer_step, read_step, defer_step in Hf.
  1,2,7: apply Hkeep; clear Hl Hkeep Hctx; repeat case_match; simplify_eq; by destruct r.
  all: destruct (decide (r' = r)) as [->|Hne]; [|apply Hkeep; clear Hl Hkeep Hctx; destruct r, r'; try done; repeat case_match; simplify_eq; done].
  - destruct (rd_pc (reader r s)) eqn:Ep; try done.
    assert (Hin : res = ErrClosed → ReadStep r ErrClosed ∈ tr ++ [ReadStep r res])
      by (intros ->; apply elem_of_app; right; by left).
    destruct (rd_closed (reader r s)), res as [sample| |]; simplify_eq.
    + destruct r; simpl; right; by apply Hin.
    + destruct (decode r sample); simplify_eq; destruct r; simpl in *; try done; by rewrite Ep.
    + destruct r; simpl; right; by apply Hin.
    + destruct (pu_ctx s) eqn:Ectx; simplify_eq; destruct r; simpl in *; try (by left); by rewrite Ep.
  - repeat case_match; simplify_eq; by destruct r.
  - destruct (rd_pc (reader r s)); try done. destruct (pu_ctx s) eqn:Ectx; [|done]. simplify_eq. destruct r; simpl; by left.
  - assert (Hw : pu_ctx s' = true ∨ ReadStep r ErrClosed ∈ tr ++ [DeferStep r]).
    { destruct (rd_pc (reader r s)); try done; (destruct Hl; [left; by apply Hctx|right; apply elem_of_app; by left]). }
    repeat case_match; done.
Qed.

Lemma schedule_left_for r tr s : schedule tr pump_start = Step s → left_for r tr s.
Proof.
  revert s. induction tr as [|a tr IH] using rev_ind; intros s Hs; [simpl in Hs; injection Hs as <-; by destruct r|].
  rewrite schedule_snoc in Hs. destruct (schedule tr pump_start) as [s1| |]; try done.
  eapply fire_left_for; [exact Hs|by apply IH].
Qed.

(** C16: the event stream is safe under every interleaving. Whatever the order
    in which the four goroutines run, what the ring buffers return and how slow
    the consumer is: no schedule sends on the closed channel, closes it twice or
    drives the WaitGroup negative; and when the stream has ended, both reader
    goroutines have returned, both ring readers are closed, and for each of them
    the context is over or its Read answered that the reader is closed: no other
    read error ends the stream. If a reader cannot be opened, none is left open. *)
Theorem event_stream_safe NewReader tr :
  match SignalingEvents NewReader with
  | (Fail _, opened) => opened = []
  | (Ok s0, _) => schedule tr s0 ≠ Panic ∧ ∀ s, schedule tr s0 = Step s → pu_out_closed s = true →
      ∀ r, rd_pc (reader r s) = Returned ∧ rd_closed (reader r s) = true ∧
        (pu_ctx s = true ∨ ReadStep r ErrClosed ∈ tr)
  end.
Proof.
  destruct (SignalingEvents NewReader) as [[s0|e] opened] eqn:E.
  2:{ unfold SignalingEvents in E. by repeat case_match; simplify_eq/=. }
  assert (s0 = pump_start) as -> by (apply (SignalingEvents_ok NewReader); by rewrite E).
  destruct (schedule_inv tr _ pump_start_inv) as [Hp Hi]. split; [done|]. intros s Hs Ho r.
  destruct (Hi s Hs) as [Hr Hw Hwt Hout Hc]. specialize (Hout Ho).
  assert (Hret : rd_pc (reader r s) = Returned).
  { rewrite Hw in Hout. unfold running in Hout. destruct r; simpl in *; repeat case_match; done || lia. }
  pose proof (schedule_left_for r tr s Hs) as Hleft. specialize (Hr r). unfold left_for, reader_ok in *.
  by rewrite Hret in *.
Qed.

(** ** What reaches the consumer *)

(** The events of the records [Read] returned on a ring, in order. *)
Definition act_event (r : Ring) (a : Act) : list SignalingEvent :=
  match a with
  | ReadStep r' (RawSample sample) =>
      if decide (r' = r) then match decode r sample with Ok evt => [evt] | Fail _ => [] end else []
  | _ => []
  end.
Definition read_events (r : Ring) (tr : list Act) : list SignalingEvent := concat (act_event r <$> tr).

Definition delivered (r : Ring) (s : Pump) : list SignalingEvent := (filter (λ x, x.1 = r) (pu_out s)).*2.
Definition in_hand (r : Ring) (s : Pump) : list SignalingEvent :=
  match rd_pc (reader r s) with Sending evt => [evt] | _ => [] end.

(** What was read is what was delivered and what is in hand; once the loop is
    left, at most one event was dropped, because the context ended. *)
Definition accounted (r : Ring) (evs : list SignalingEvent) (s : Pump) : Prop :=
  ∃ rest, evs = delivered r s ++ rest ∧
    match rd_pc (reader r s) with
    | Reading | Sending _ => rest = in_hand r s
    | _ => rest = [] ∨ ((length rest ≤ 1)%nat ∧ pu_ctx s = true)
    end.

Lemma accounted_frame r evs s s' : rd_pc (reader r s') = rd_pc (reader r s) → delivered r s' = delivered r s →
  (pu_ctx s = true → pu_ctx s' = true) → accounted r evs s → accounted r evs s'.
Proof.
  intros Hp Hd Hctx (rest & -> & Hrest). exists rest. unfold in_hand in *. rewrite Hd, Hp. split; [done|].
  destruct (rd_pc (reader r s)); naive_solver.
Qed.

(** A step of the other reader's goroutine, or of neither. *)
Definition acts_on (a : Act) : option Ring :=
  match a with ReadStep r _ | SendStep r | AbandonStep r | DeferStep r => Some r | _ => None end.

Lemma set_pc_other r r' pc s : r' ≠ r → reader r' (set_pc r pc s) = reader r' s.
Proof. intros. by apply set_pc_reader. Qed.

Lemma deliver_delivered r r' evt s : delivered r' (deliver r evt s) = delivered r' s ++ (if decide (r = r') then [evt] else []).
Proof.
  unfold delivered. simpl. rewrite filter_app, fmap_app. f_equal. rewrite filter_cons, filter_nil. simpl.
  by destruct (decide (r = r')).
Qed.

Lemma fire_other r a s s' : acts_on a ≠ Some r → fire a s = Step s' →
  rd_pc (reader r s') = rd_pc (reader r s) ∧ delivered r s' = delivered r s ∧ (pu_ctx s = true → pu_ctx s' = true).
Proof.
  intros Hne Hf. destruct a as [| |r' res|r'|r'|r'|]; simpl in Hf, Hne; unfold closer_step, read_step, defer_step in Hf.
  - destruct (pu_ctx s); [done|]. injection Hf as <-. by destruct r.
  - destruct (pu_closer s); [destruct (pu_ctx s) eqn:E; [|done]| |done]; injection Hf as <-; by destruct r.
  - destruct r, r'; try done; repeat case_match; simplify_eq; done.
  - destruct (rd_pc (reader r' s)); try done. destruct (pu_out_closed s); [done|]. injection Hf as <-.
    rewrite deliver_delivered, decide_False, app_nil_r by congruence. by destruct r, r'.
  - destruct r, r'; try done; repeat case_match; simplify_eq; done.
  - destruct r, r'; try done; repeat case_match; simplify_eq; done.
  - repeat case_match; simplify_eq. by destruct r.
Qed.

Lemma fire_accounted r a s s' evs : fire a s = Step s' → accounted r evs s →
  accounted r (evs ++ act_event r a) s'.
Proof.
  intros Hf Hacc. destruct (decide (acts_on a = Some r)) as [Ha|Ha].
  2:{ assert (act_event r a = []) as ->.
      { destruct a as [| |r' []| | | |]; try done. simpl in *. rewrite decide_False; congruence. }
      rewrite app_nil_r. destruct (fire_other r a s s' Ha Hf) as (? & ? & ?). by eapply accounted_frame. }
  destruct Hacc as (rest & -> & Hrest). unfold accounted, in_hand in *.
  destruct a as [| |r' res|r'|r'|r'|]; simplify_eq/=; rewrite ?app_nil_r.
  - destruct (rd_pc (reader r s)) eqn:Ep; try done. subst rest. unfold read_step in Hf.
    destruct (rd_closed (reader r s)) eqn:Ec.
    + destruct res; try done. injection Hf as <-. destruct (set_pc_reader r DeferClose s) as [-> _]. simpl.
      exists []. split; [by rewrite !app_nil_r|]. by left.
    + destruct res as [sample| |].
      * rewrite decide_True by done. destruct (decode r sample) as [evt|]; injection Hf as <-; [|rewrite Ep; exists []; by rewrite !app_nil_r].
        destruct (set_pc_reader r (Sending evt) s) as [-> _]. simpl. exists [evt]. by rewrite !app_nil_r.
      * injection Hf as <-. destruct (set_pc_reader r DeferClose s) as [-> _]. simpl. exists []. split; [by rewrite !app_nil_r|]. by left.
      * destruct (pu_ctx s) eqn:E; injection Hf as <-; [|rewrite Ep; exists []; by rewrite !app_nil_r].
        destruct (set_pc_reader r DeferClose s) as [-> _]. simpl. exists []. split; [by rewrite !app_nil_r|]. by left.
  - destruct (rd_pc (reader r s)) as [|evt| | |] eqn:Ep; try done. destruct (pu_out_closed s); [done|]. injection Hf as <-.
    rewrite deliver_delivered, decide_True by done. exists []. subst rest.
    split; [by rewrite app_nil_r|]. by destruct r.
  - destruct (rd_pc (reader r s)) eqn:Ep; try done. destruct (pu_ctx s) eqn:E; [|done]. injection Hf as <-.
    destruct (set_pc_reader r DeferClose s) as [-> _]. simpl. exists rest. subst rest. split; [done|]. right. split; [simpl; lia|done].
  - unfold defer_step in Hf. destruct (rd_pc (reader r s)) eqn:Ep; try done.
    + injection Hf as <-. exists rest. split; [done|]. by destruct r.
    + destruct (pu_wg s); [done|]. injection Hf as <-. exists rest. split; [done|]. by destruct r.
Qed.

Lemma schedule_accounted r tr s : schedule tr pump_start = Step s → accounted r (read_events r tr) s.
Proof.
  revert s. induction tr as [|a tr IH] using rev_ind; intros s Hs.
  { simpl in Hs. injection Hs as <-. exists []. split; [done|]. by destruct r. }
  rewrite schedule_snoc in Hs. destruct (schedule tr pump_start) as [s1| |] eqn:E; try done.
  unfold read_events. rewrite fmap_app, concat_app. simpl. rewrite app_nil_r.
  eapply fire_accounted; [exact Hs|by apply IH].
Qed.

(** The samples [Read] returned on a ring. *)
Definition act_sample (r : Ring) (a : Act) : option (list Z) :=
  match a with ReadStep r' (RawSample sample) => if decide (r' = r) then Some sample else None | _ => None end.
Definition samples (r : Ring) (tr : list Act) : list (list Z) := omap (act_sample r) tr.

Lemma read_events_samples r tr :
  read_events r tr = concat ((λ x, match decode r x with Ok evt => [evt] | Fail _ => [] end) <$> samples r tr).
Proof.
  unfold read_events, samples. induction tr as [|a tr IH]; [done|]. csimpl. rewrite IH.
  destruct a as [| |r' []| | | |]; simpl; try done. by destruct (decide (r' = r)).
Qed.

Lemma read_events_map {X} r tr (enc : X → list Z) (dec : X → SignalingEvent) xs :
  samples r tr = enc <$> xs → Forall (λ x, decode r (enc x) = Ok (dec x)) xs → read_events r tr = dec <$> xs.
Proof.
  intros Hs Hx. rewrite read_events_samples, Hs. clear Hs. induction Hx as [|x xs Hd _ IH]; [done|]. csimpl. by rewrite Hd, IH.
Qed.

Lemma accounted_rest r evs s : accounted r evs s → ∃ rest, evs = delivered r s ++ rest ∧ (length rest ≤ 1)%nat ∧
  (pu_ctx s = false → rest = in_hand r s).
Proof.
  intros (rest & -> & Hr). exists rest. split; [done|]. unfold in_hand in *.
  destruct (rd_pc (reader r s)); [subst; simpl; split; [lia|done]..| | |];
    (destruct Hr as [->|[? ->]]; [split; [simpl; lia|done]|done]).
Qed.

(** C17: the consumer receives what the kernel wrote. In every interleaving,
    when the samples read from the two rings are records in the layout the XDP
    program emits, the events received from each ring are those records' events,
    field for field and in order; at most the last one of a ring is missing,
    and while the context is alive that is the one the reader holds, waiting for
    the consumer. *)
Theorem stream_delivers NewReader s0 tr s raws raws6 :
  (SignalingEvents NewReader).1 = Ok s0 → schedule tr s0 = Step s →
  samples RingV4 tr = encode_raw <$> raws → Forall raw_wf raws →
  samples RingV6 tr = encode_raw_v6 <$> raws6 → Forall raw_v6_wf raws6 →
  ∃ rest rest6, event_of_raw bootTime <$> raws = delivered RingV4 s ++ rest ∧
    event_of_raw_v6 bootTime <$> raws6 = delivered RingV6 s ++ rest6 ∧
    (length rest ≤ 1)%nat ∧ (length rest6 ≤ 1)%nat ∧
    (pu_ctx s = false → rest = in_hand RingV4 s ∧ rest6 = in_hand RingV6 s).
Proof.
  intros ->%SignalingEvents_ok Hs H4 Hw4 H6 Hw6.
  destruct (accounted_rest _ _ _ (schedule_accounted RingV4 tr s Hs)) as (rest & E4 & L4 & C4).
  destruct (accounted_rest _ _ _ (schedule_accounted RingV6 tr s Hs)) as (rest6 & E6 & L6 & C6).
  rewrite (read_events_map RingV4 tr encode_raw (event_of_raw bootTime) raws H4) in E4
    by (eapply Forall_impl; [exact Hw4|]; intros; by apply decode_encode_raw).
  rewrite (read_events_map RingV6 tr encode_raw_v6 (event_of_raw_v6 bootTime) raws6 H6) in E6
    by (eapply Forall_impl; [exact Hw6|]; intros; by apply decode_encode_raw_v6).
  exists rest, rest6. naive_solver.
Qed.

(** ** Shutting down *)

(** How many steps a reader has left once it is closed. *)
Definition left_of (x : ReaderState) : nat :=
  match rd_pc x with Sending _ => 4 | Reading => 3 | DeferClose => 2 | DeferDone => 1 | Returned => 0 end.
Definition steps_left (s : Pump) : nat :=
  left_of (reader RingV4 s) + left_of (reader RingV6 s) + (if pu_waiter s then 0 else 1).

Lemma fire_left a s s' : pump_inv s → pu_closer s = CloserReturned → fire a s = Step s' →
  pu_closer s' = CloserReturned ∧ (steps_left s' < steps_left s)%nat.
Proof.
  intros HI Hcl Hf. pose proof (pm_closer _ HI) as Hc. rewrite Hcl in Hc. destruct Hc as [Hctx Hcd].
  destruct a as [| |r res|r|r|r|]; simpl in Hf; unfold closer_step, read_step, defer_step in Hf.
  - by rewrite Hctx in Hf.
  - by rewrite Hcl in Hf.
  - rewrite Hcd in Hf. destruct r; simpl in Hf; destruct (rd_pc _) eqn:E; try done; destruct res; try done; injection Hf as <-;
      (split; [done|]); unfold steps_left, left_of; simpl; rewrite E; lia.
  - destruct r; simpl in Hf; destruct (rd_pc _) eqn:E; try done; destruct (pu_out_closed s); try done; injection Hf as <-;
      (split; [done|]); unfold steps_left, left_of; simpl; rewrite E; lia.
  - rewrite Hctx in Hf. destruct r; simpl in Hf; destruct (rd_pc _) eqn:E; try done; injection Hf as <-;
      (split; [done|]); unfold steps_left, left_of; simpl; rewrite E; lia.
  - destruct r; simpl in Hf; destruct (rd_pc _) eqn:E; try done; [|destruct (pu_wg s); [done|]| |destruct (pu_wg s); [done|]];
      injection Hf as <-; (split; [done|]); unfold steps_left, left_of; simpl; rewrite E; lia.
  - destruct (pu_waiter s) eqn:E; [done|]. destruct (pu_wg s); [|done]. destruct (pu_out_closed s); [done|].
    injection Hf as <-. split; [done|]. unfold steps_left. simpl. rewrite E. lia.
Qed.

Lemma schedule_left tr s s' : pump_inv s → pu_closer s = CloserReturned → schedule tr s = Step s' →
  (length tr + steps_left s' ≤ steps_left s)%nat.
Proof.
  revert s. induction tr as [|a tr IH]; intros s HI Hcl Hs; simpl in Hs; [injection Hs as <-; simpl; lia|].
  destruct (fire a s) as [s1| |] eqn:E; try done. destruct (fire_left _ _ _ HI Hcl E) as [Hcl1 Hlt].
  specialize (IH s1 (fire_inv _ _ _ HI E) Hcl1 Hs). simpl. lia.
Qed.

(** With the context over, a state from which nothing can move has ended the
    stream: no goroutine waits for another forever. *)
Lemma stuck_closed s : pump_inv s → pu_ctx s = true → (∀ a s', fire a s ≠ Step s') → pu_out_closed s = true.
Proof.
  intros HI Hctx Hstuck. pose proof HI as [Hr Hw Hwt Ho Hc].
  assert (Hcl : pu_closer s = CloserReturned).
  { pose proof (Hstuck CloserStep) as Hst. simpl in Hst. unfold closer_step in Hst.
    destruct (pu_closer s); [rewrite Hctx in Hst|..]; [by edestruct Hst..|done]. }
  rewrite Hcl in Hc. destruct Hc as [_ Hcd].
  assert (Hret : ∀ r, rd_pc (reader r s) = Returned).
  { intros r. destruct (rd_pc (reader r s)) eqn:E; [..|done]; exfalso.
    - eapply (Hstuck (ReadStep r ErrClosed)). simpl. rewrite E. unfold read_step. by rewrite Hcd.
    - eapply (Hstuck (AbandonStep r)). simpl. by rewrite E, Hctx.
    - eapply (Hstuck (DeferStep r)). simpl. unfold defer_step. by rewrite E.
    - pose proof (fire_no_panic (DeferStep r) s HI) as Hp. pose proof (Hstuck (DeferStep r)) as Hst.
      simpl in Hp, Hst. unfold defer_step in Hp, Hst. rewrite E in Hp, Hst. destruct (pu_wg s); [done|]. by edestruct Hst. }
  assert (Hg : pu_wg s = 0%nat) by (rewrite Hw; unfold running; by rewrite !Hret).
  destruct (pu_waiter s) eqn:E; [done|]. exfalso. eapply (Hstuck WaiterStep). simpl. by rewrite E, Hg, <- Hwt.
Qed.

(** C18: cancelling the context always ends the stream. In every state reached
    with the context over, the goroutine that closes the readers can run (or has
    run); once it has, at most nine more steps are possible whatever the
    schedule, without any help from the ring buffers or the consumer; and a
    state in which no step is possible has the channel closed, so no goroutine
    is left waiting. *)
Theorem stream_shuts_down NewReader s0 tr s :
  (SignalingEvents NewReader).1 = Ok s0 → schedule tr s0 = Step s → pu_ctx s = true →
  (pu_closer s = CloserReturned ∨ ∃ s', fire CloserStep s = Step s') ∧
  (pu_closer s = CloserReturned → ∀ tr' s', schedule tr' s = Step s' → (length tr' ≤ 9)%nat) ∧
  ((∀ a s', fire a s ≠ Step s') → pu_out_closed s = true).
Proof.
  intros ->%SignalingEvents_ok Hs Hctx.
  assert (HI : pump_inv s) by (eapply schedule_inv; [apply pump_start_inv|exact Hs]).
  split; [|split].
  - simpl. unfold closer_step. rewrite Hctx. destruct (pu_closer s); eauto.
  - intros Hcl tr' s' Hs'. pose proof (schedule_left _ _ _ HI Hcl Hs') as Hl.
    unfold steps_left at 2, left_of in Hl. repeat case_match; lia.
  - by apply stuck_closed.
Qed.
End Pump.

(** ** The theorems at a concrete schedule *)

Module EventPumpSample.
Definition raw (teid : Z) : rawSignalingEvent :=
  {| r4_TimestampNs := 5; r4_Saddr := 1107296266; r4_Daddr := 16777226; r4_DestPort := 2152; r4_PayloadSize := 64;
     r4_Protocol := 1; r4_Malformed := 0; r4_VlanID := 0; r4_TEID := teid; r4_TunnelRate := 150 |}.
Definition raw6 : rawSignalingEventV6 :=
  {| r6_TimestampNs := 6; r6_Saddr := replicate 16 254; r6_Daddr := replicate 16 1; r6_DestPort := 2152;
     r6_PayloadSize := 64; r6_Protocol := 1; r6_Malformed := 0; r6_VlanID := 0; r6_TEID := 9; r6_TunnelRate := 3 |}.

Definition opens (r : Ring) : option go_error := None.

(** Both rings deliver out of order, a read fails, an event is in hand. *)
Definition busy : list Act :=
  [ReadStep RingV4 (RawSample (encode_raw (raw 7))); ReadStep RingV6 (RawSample (encode_raw_v6 raw6));
   SendStep RingV6; ReadStep RingV6 TransientErr; SendStep RingV4; ReadStep RingV4 (RawSample (encode_raw (raw 8)))].
(** The context ends: the event in hand is abandoned and everything closes. *)
Definition stop : list Act :=
  [CtxEnds; CloserStep; CloserStep; AbandonStep RingV4; ReadStep RingV6 ErrClosed; DeferStep RingV4; DeferStep RingV6;
   DeferStep RingV6; DeferStep RingV4; WaiterStep].

Definition after (tr : list Act) : Pump :=
  match schedule 1000 tr pump_start with Step s => s | _ => pump_start end.

Lemma busy_run : schedule 1000 busy pump_start = Step (after busy).
Proof. vm_compute. reflexivity. Qed.

Lemma event_stream_safe_witness :
  schedule 1000 (busy ++ stop) pump_start ≠ Panic ∧ pu_out_closed (after (busy ++ stop)) = true ∧
  rd_pc (reader RingV6 (after (busy ++ stop))) = Returned.
Proof.
  destruct (event_stream_safe 1000 opens (busy ++ stop)) as [Hp Hs].
  split; [exact Hp|]. split; [vm_compute; reflexivity|].
  refine (proj1 (Hs (after (busy ++ stop)) _ _ RingV6)); vm_compute; reflexivity.
Defined.

Lemma stream_delivers_witness :
  ∃ rest rest6, event_of_raw 1000 <$> [raw 7; raw 8] = delivered RingV4 (after busy) ++ rest ∧
    [event_of_raw_v6 1000 raw6] = delivered RingV6 (after busy) ++ rest6 ∧
    (length rest ≤ 1)%nat ∧ (length rest6 ≤ 1)%nat ∧
    (false = false → rest = in_hand RingV4 (after busy) ∧ rest6 = in_hand RingV6 (after busy)).
Proof.
  refine (stream_delivers 1000 opens pump_start busy (after busy) [raw 7; raw 8] [raw6] eq_refl busy_run _ _ _ _).
  - vm_compute. reflexivity.
  - repeat constructor; vm_compute; discriminate.
  - vm_compute. reflexivity.
  - repeat constructor; vm_compute; discriminate.
Defined.

Lemma stream_shuts_down_witness : pu_out_closed (after (busy ++ stop)) = true.
Proof.
  refine (proj2 (proj2 (stream_shuts_down 1000 opens pump_start (busy ++ stop) (after (busy ++ stop)) eq_refl _ _)) _).
  - vm_compute. reflexivity.
  - vm_compute. reflexivity.
  - intros [| |[] []|[]|[]|[]|] s'; vm_compute; discriminate.
Defined.
End EventPumpSample.
