(* ===== verification/Metrics.v ===== *)
(** * Metrics: the operator's Prometheus series (pkg/controller/metrics.go)

    The registry maps a metric name and its label values to a number (every
    value the code stores in a counter or gauge is an integer), plus the
    observations of the score histogram. *)

From S2P Require Import Prelude GoStrings GoFloat Api.
From Stdlib Require Import SpecFloat.

Local Open Scope Z_scope.

Record Registry := {
  series : gmap (string * list string) Z;
  score_observations : list f64
}.

Definition empty_registry : Registry := {| series := ∅; score_observations := [] |}.

Definition ThreatScoresReceived : string := "sentinel5g_threat_scores_received_total".
Definition ThresholdCrossings : string := "sentinel5g_threshold_crossings_total".
Definition Mitigations : string := "sentinel5g_mitigations_total".
Definition BlocklistDrift : string := "sentinel5g_blocklist_drift_total".
Definition BlocklistEntries : string := "sentinel5g_blocklist_entries".
Definition BlocklistCapacity : string := "sentinel5g_blocklist_capacity".
Definition BlocklistReconciles : string := "sentinel5g_blocklist_reconciles_total".
Definition ObservationMapOccupancy : string := "sentinel5g_ebpf_observation_map_occupancy".
Definition ObservationMapCapacity : string := "sentinel5g_ebpf_observation_map_capacity".
Definition MitigationMapFull : string := "sentinel5g_mitigation_map_full_total".
Definition ReactorThrottled : string := "sentinel5g_reactor_status_writes_throttled_total".
Definition KillSwitchEngaged : string := "sentinel5g_kill_switch_engaged".
Definition MitigationsSuppressed : string := "sentinel5g_mitigations_suppressed_total".
Definition EnforcementPinned : string := "sentinel5g_ebpf_enforcement_pinned".
Definition PolicyPhaseGauge : string := "sentinel5g_policy_phase".

(** [vec.WithLabelValues(labels...).Inc()] and [.Set(v)]. *)
Definition metric_Inc (name : string) (labels : list string) (r : Registry) : Registry :=
  {| series := <[(name, labels) := default 0 (series r !! (name, labels)) + 1]> (series r);
     score_observations := score_observations r |}.

Definition metric_Set (name : string) (labels : list string) (v : Z) (r : Registry) : Registry :=
  {| series := <[(name, labels) := v]> (series r);
     score_observations := score_observations r |}.

Definition score_Observe (v : f64) (r : Registry) : Registry :=
  {| series := series r; score_observations := score_observations r ++ [v] |}.

(** [vec.DeletePartialMatch({"namespace": ns, "policy": name})]: the vectors it
    is called on declare namespace and policy as their first two labels. *)
Definition metric_DeletePolicy (metric ns name : string) (r : Registry) : Registry :=
  {| series := filter (λ kv, negb (bool_decide (kv.1.1 = metric) &&
                                   bool_decide (take 2 kv.1.2 = [ns; name]))) (series r);
     score_observations := score_observations r |}.

Definition phase_string (p : PolicyPhase) : string :=
  match p with
  | PhaseUnset => ""
  | PolicyPhasePending => "Pending"
  | PolicyPhaseMonitoring => "Monitoring"
  | PolicyPhaseAlerting => "Alerting"
  | PolicyPhaseMitigating => "Mitigating"
  | PolicyPhaseDegraded => "Degraded"
  end.

Definition allPolicyPhases : list PolicyPhase :=
  [PolicyPhasePending; PolicyPhaseMonitoring; PolicyPhaseAlerting; PolicyPhaseMitigating;
   PolicyPhaseDegraded].

Definition scoreSourceLabel (model : string) : string :=
  if (model =? "")%string then "unknown"
  else if HasPrefix model "rule:" then "rule"
  else "model".

Definition SetPolicyPhase (ns name : string) (phase : PolicyPhase) (r : Registry) : Registry :=
  fold_left (λ r p, metric_Set PolicyPhaseGauge [ns; name; phase_string p]
                      (if bool_decide (p = phase) then 1 else 0) r) allPolicyPhases r.

Definition ForgetPolicyMetrics (ns name : string) (r : Registry) : Registry :=
  metric_DeletePolicy ReactorThrottled ns name
    (metric_DeletePolicy ThresholdCrossings ns name
      (metric_DeletePolicy PolicyPhaseGauge ns name r)).

(** ** Lemmas *)

Lemma SetPolicyPhase_other ns name phase r k :
  (∀ p, k ≠ (PolicyPhaseGauge, [ns; name; phase_string p])) →
  series (SetPolicyPhase ns name phase r) !! k = series r !! k.
Proof.
  intros Hk. unfold SetPolicyPhase, allPolicyPhases. simpl.
  rewrite !lookup_insert_ne; [done|..]; intros Heq; simplify_eq.
  - by apply (Hk PolicyPhasePending).
  - by apply (Hk PolicyPhaseMonitoring).
  - by apply (Hk PolicyPhaseAlerting).
  - by apply (Hk PolicyPhaseMitigating).
  - by apply (Hk PolicyPhaseDegraded).
Qed.

(** after [SetPolicyPhase], exactly the series of the policy's active phase
    reads 1 and its other phases read 0, whatever they read before (so a policy
    that changed phase is counted once), and the series of every other policy
    and metric are unchanged. *)
Theorem SetPolicyPhase_exact ns name phase r p :
  phase ≠ PhaseUnset → p ∈ allPolicyPhases →
  series (SetPolicyPhase ns name phase r) !! (PolicyPhaseGauge, [ns; name; phase_string p]) =
    Some (if bool_decide (p = phase) then 1 else 0) ∧
  ∀ metric ns' name' rest, (metric, ns', name') ≠ (PolicyPhaseGauge, ns, name) →
    series (SetPolicyPhase ns name phase r) !! (metric, ns' :: name' :: rest) =
    series r !! (metric, ns' :: name' :: rest).
Proof.
  intros Hne Hp. split.
  - unfold SetPolicyPhase, allPolicyPhases in *. simpl.
    rewrite !elem_of_cons in Hp. destruct_or! Hp; try set_solver; subst p;
      destruct phase; try done; simpl;
      repeat (rewrite lookup_insert_ne by (intros [=])); by rewrite lookup_insert_eq.
  - intros metric ns' name' rest Hk. apply SetPolicyPhase_other. intros p' [= -> -> -> _]. done.
Qed.

Lemma SetPolicyPhase_exact_witness :
  series (SetPolicyPhase "core" "upf" PolicyPhaseAlerting
           (SetPolicyPhase "core" "upf" PolicyPhaseMonitoring empty_registry))
    !! (PolicyPhaseGauge, ["core"; "upf"; "Monitoring"]) = Some 0.
Proof.
  refine (proj1 (SetPolicyPhase_exact "core" "upf" PolicyPhaseAlerting
    (SetPolicyPhase "core" "upf" PolicyPhaseMonitoring empty_registry) PolicyPhaseMonitoring _ _)).
  - discriminate.
  - unfold allPolicyPhases. set_solver.
Defined.

Lemma metric_DeletePolicy_lookup metric ns name r k :
  series (metric_DeletePolicy metric ns name r) !! k =
    if bool_decide (k.1 = metric) && bool_decide (take 2 k.2 = [ns; name]) then None
    else series r !! k.
Proof.
  unfold metric_DeletePolicy. simpl. rewrite map_lookup_filter.
  destruct (series r !! k) as [v|] eqn:E; simpl; [|by case_match].
  destruct (bool_decide (k.1 = metric) && bool_decide (take 2 k.2 = [ns; name])) eqn:Ek.
  - rewrite option_guard_False; [done|]. simpl. tauto.
  - rewrite option_guard_True; [done|]. done.
Qed.

(** [ForgetPolicyMetrics] drops every phase, crossing and throttle series of
    the deleted policy, whatever their remaining label, and no series of any
    other policy. *)
Theorem ForgetPolicyMetrics_exact ns name r metric ns' name' rest :
  series (ForgetPolicyMetrics ns name r) !! (metric, ns' :: name' :: rest) =
    if bool_decide (metric ∈ [PolicyPhaseGauge; ThresholdCrossings; ReactorThrottled]) &&
       bool_decide ((ns', name') = (ns, name))
    then None else series r !! (metric, ns' :: name' :: rest).
Proof.
  unfold ForgetPolicyMetrics. rewrite !metric_DeletePolicy_lookup. cbn [fst snd firstn].
  destruct (decide ((ns', name') = (ns, name))) as [[= -> ->]|Hk].
  - rewrite (bool_decide_true (_ = [ns; name])) by done.
    rewrite (bool_decide_true ((ns, name) = (ns, name))) by done. rewrite !andb_true_r.
    repeat case_bool_decide; set_solver.
  - rewrite (bool_decide_false (_ = [ns; name])) by congruence.
    rewrite (bool_decide_false ((ns', name') = (ns, name))) by done.
    by rewrite !andb_false_r.
Qed.
