(* ===== verification/PolicyIndex.v ===== *)
(** * PolicyIndex: the in-memory policy cache (pkg/controller/policy_index.go)

    Two nested maps, namespace then name; [pi_view] is the flat map from
    namespaced names it represents. A Go map is ranged over in an unspecified
    order: [RangeOrder] makes that order a parameter. *)

From S2P Require Import Prelude Api.

(** The order of [for k, v := range m] over a string-keyed map: any
    permutation of its entries. *)
Class RangeOrder := {
  range_map {V} : gmap string V → list (string * V);
  range_map_perm {V} (m : gmap string V) : range_map m ≡ₚ map_to_list m
}.

(** The order the samples use. *)
Definition sample_order : RangeOrder := {|
  range_map V m := map_to_list m; range_map_perm V m := reflexivity (map_to_list m) |}.

Abbreviation PolicyIndex := (gmap string (gmap string TelecomSecurityPolicy)) (only parsing).

Definition NewPolicyIndex : PolicyIndex := ∅.

(** An absent key reads as the zero value, the empty string. *)
Definition label_get (m : gmap string string) (k : string) : string := default "" (m !! k).

Definition selectorMatchesOne (sel : WorkloadSelector) (podLabels : gmap string string) : bool :=
  if (ws_App sel =? "")%string && (size (ws_MatchLabels sel) =? 0)%nat then false
  else if negb (ws_App sel =? "")%string && negb (label_get podLabels "app" =? ws_App sel)%string
  then false
  else forallb (λ kv, (label_get podLabels kv.1 =? kv.2)%string) (map_to_list (ws_MatchLabels sel)).

Definition selectorMatches (selectors : list WorkloadSelector) (podLabels : gmap string string) : bool :=
  existsb (λ sel, selectorMatchesOne sel podLabels) selectors.

Definition PolicyIndex_Put (policy : TelecomSecurityPolicy) (idx : PolicyIndex) : PolicyIndex :=
  let byName := match idx !! pol_Namespace policy with Some m => m | None => ∅ end in
  <[pol_Namespace policy := <[pol_Name policy := policy]> byName]> idx.

Definition PolicyIndex_Remove (key : NamespacedName) (idx : PolicyIndex) : PolicyIndex :=
  match idx !! nn_Namespace key with
  | None => idx
  | Some byName =>
      let byName' := delete (nn_Name key) byName in
      if (size byName' =? 0)%nat then delete (nn_Namespace key) idx
      else <[nn_Namespace key := byName']> idx
  end.

Definition MatchingPolicies `{RangeOrder} (idx : PolicyIndex) (namespace : string)
    (podLabels : gmap string string) : list TelecomSecurityPolicy :=
  filter (λ p, selectorMatches (spec_TargetWorkloads (pol_Spec p)) podLabels)
    (snd <$> range_map (default ∅ (idx !! namespace))).

(** ** What the index represents *)

Definition pi_view (idx : PolicyIndex) (k : NamespacedName) : option TelecomSecurityPolicy :=
  m ← idx !! nn_Namespace k; m !! nn_Name k.

(** Every cached policy sits under its own key, and no namespace is left empty. *)
Record pi_inv (idx : PolicyIndex) : Prop := {
  pi_keys k p : pi_view idx k = Some p → pol_key p = k;
  pi_nonempty ns m : idx !! ns = Some m → m ≠ ∅
}.

Lemma pi_view_eq idx ns name : pi_view idx {| nn_Namespace := ns; nn_Name := name |} =
  idx !! ns ≫= λ m, m !! name.
Proof. done. Qed.

Lemma PolicyIndex_Put_view policy idx k :
  pi_view (PolicyIndex_Put policy idx) k =
    if decide (k = pol_key policy) then Some policy else pi_view idx k.
Proof.
  destruct k as [ns name]. unfold PolicyIndex_Put, pi_view, pol_key. simpl.
  destruct (decide (ns = pol_Namespace policy)) as [->|Hns].
  - rewrite lookup_insert_eq. simpl. destruct (decide (name = pol_Name policy)) as [->|Hn].
    + rewrite lookup_insert_eq. by rewrite decide_True.
    + rewrite lookup_insert_ne by done. rewrite decide_False by congruence.
      by destruct (idx !! pol_Namespace policy).
  - rewrite lookup_insert_ne by done. by rewrite decide_False by congruence.
Qed.

Lemma PolicyIndex_Remove_view key idx k :
  pi_view (PolicyIndex_Remove key idx) k = if decide (k = key) then None else pi_view idx k.
Proof.
  destruct k as [ns name], key as [ns' name']. unfold PolicyIndex_Remove, pi_view. simpl.
  destruct (idx !! ns') as [m|] eqn:E; simpl.
  2:{ destruct (decide (_ = _)) as [[= -> ->]|]; [by rewrite E|done]. }
  destruct (decide (ns = ns')) as [->|Hns].
  - destruct (size (delete name' m) =? 0)%nat eqn:Es.
    + apply Nat.eqb_eq, map_size_empty_iff in Es. rewrite lookup_delete_eq, E. simpl.
      destruct (decide (_ = _)) as [|Hne]; [done|].
      rewrite <- (lookup_delete_ne m name' name) by congruence. by rewrite Es.
    + rewrite lookup_insert_eq, E. simpl. destruct (decide (_ = _)) as [[= ->]|Hne].
      * apply lookup_delete_eq.
      * apply lookup_delete_ne. congruence.
  - rewrite decide_False by congruence.
    destruct (_ =? _)%nat; [by rewrite lookup_delete_ne|by rewrite lookup_insert_ne].
Qed.

Lemma PolicyIndex_Put_inv policy idx : pi_inv idx → pi_inv (PolicyIndex_Put policy idx).
Proof.
  intros [Hk Hn]. split.
  - intros k p. rewrite PolicyIndex_Put_view. case_decide; [by intros [= <-]|apply Hk].
  - intros ns m. unfold PolicyIndex_Put. rewrite lookup_insert_Some. intros [[_ <-]|[_ ?]];
      [apply insert_non_empty|eauto].
Qed.

Lemma PolicyIndex_Remove_inv key idx : pi_inv idx → pi_inv (PolicyIndex_Remove key idx).
Proof.
  intros [Hk Hn]. split.
  - intros k p. rewrite PolicyIndex_Remove_view. case_decide; [done|apply Hk].
  - intros ns m. unfold PolicyIndex_Remove. destruct (idx !! nn_Namespace key) eqn:E; [|apply Hn].
    destruct (size _ =? 0)%nat eqn:Es.
    + rewrite lookup_delete_Some. intros [_ ?]. eauto.
    + rewrite lookup_insert_Some. intros [[_ <-]|[_ ?]]; [|eauto]. intros Hempty.
      rewrite Hempty, map_size_empty in Es. done.
Qed.

#[export] Hint Resolve PolicyIndex_Put_inv PolicyIndex_Remove_inv : sentinel.

Lemma MatchingPolicies_spec `{RangeOrder} idx ns labels p : pi_inv idx →
  p ∈ MatchingPolicies idx ns labels ↔
    pol_Namespace p = ns ∧ pi_view idx (pol_key p) = Some p ∧
    selectorMatches (spec_TargetWorkloads (pol_Spec p)) labels = true.
Proof.
  intros [Hk _]. unfold MatchingPolicies. rewrite list_elem_of_filter, list_elem_of_fmap.
  setoid_rewrite range_map_perm. split.
  - intros [Hsel ([name p'] & -> & Hin%elem_of_map_to_list)]. simpl in *.
    destruct (idx !! ns) as [m|] eqn:E; simpl in Hin; [|by rewrite lookup_empty in Hin].
    assert (Hv : pi_view idx {| nn_Namespace := ns; nn_Name := name |} = Some p').
    { unfold pi_view. simpl. by rewrite E. }
    pose proof (Hk _ _ Hv) as Hkey. rewrite Hkey. split; [|split; [done|by apply Is_true_true]].
    unfold pol_key in Hkey. by simplify_eq.
  - intros (<- & Hv & Hsel). split; [by apply Is_true_true|].
    exists (pol_Name p, p). split; [done|]. apply elem_of_map_to_list.
    unfold pi_view in Hv. simpl in Hv. destruct (idx !! pol_Namespace p); [done|done].
Qed.

(** Each matching policy is reported once. *)
Lemma MatchingPolicies_NoDup `{RangeOrder} idx ns labels : pi_inv idx →
  NoDup (pol_key <$> MatchingPolicies idx ns labels).
Proof.
  intros [Hk _]. unfold MatchingPolicies.
  assert (Hnd : NoDup (pol_Name <$> (snd <$> range_map (default ∅ (idx !! ns))))).
  { rewrite range_map_perm, <- list_fmap_compose.
    destruct (idx !! ns) as [m|] eqn:E; simpl; [|rewrite map_to_list_empty; constructor].
    rewrite (list_fmap_ext _ fst (map_to_list m)); [apply NoDup_fst_map_to_list|].
    intros i [name p] Hi. simpl. apply list_elem_of_lookup_2, elem_of_map_to_list in Hi.
    assert (Hv : pi_view idx {| nn_Namespace := ns; nn_Name := name |} = Some p).
    { unfold pi_view. simpl. by rewrite E. }
    apply Hk in Hv. unfold pol_key in Hv. by simplify_eq. }
  revert Hnd. generalize (snd <$> range_map (default ∅ (idx !! ns))). intros l.
  induction l as [|p l IH]; intros Hnd; [constructor|]. rewrite filter_cons.
  apply NoDup_cons in Hnd as [Hp Hnd]. case_decide; [|auto]. csimpl. apply NoDup_cons. split; [|auto].
  rewrite list_elem_of_fmap. intros (q & Hq & Hin). apply Hp. apply list_elem_of_fmap.
  exists q. apply list_elem_of_filter in Hin as [_ Hin]. split; [|done].
  unfold pol_key in Hq. by simplify_eq.
Qed.

(** ** Histories *)

Inductive pi_op := PI_Put (p : TelecomSecurityPolicy) | PI_Remove (k : NamespacedName).

Definition pi_step (idx : PolicyIndex) (o : pi_op) : PolicyIndex :=
  match o with PI_Put p => PolicyIndex_Put p idx | PI_Remove k => PolicyIndex_Remove k idx end.

(** The flat cache the nested maps implement. *)
Definition flat_step (m : gmap NamespacedName TelecomSecurityPolicy) (o : pi_op) :=
  match o with PI_Put p => <[pol_key p := p]> m | PI_Remove k => delete k m end.

Lemma pi_refines_step idx m o : (∀ k, pi_view idx k = m !! k) →
  ∀ k, pi_view (pi_step idx o) k = flat_step m o !! k.
Proof.
  intros Href k. destruct o as [p|k']; simpl.
  - rewrite PolicyIndex_Put_view. case_decide as E; [subst; by rewrite lookup_insert_eq|].
    by rewrite lookup_insert_ne by done.
  - rewrite PolicyIndex_Remove_view. case_decide as E; [subst; by rewrite lookup_delete_eq|].
    by rewrite lookup_delete_ne by done.
Qed.

Lemma pi_run_inv ops idx : pi_inv idx → pi_inv (fold_left pi_step ops idx).
Proof.
  revert idx. induction ops as [|o ops IH]; intros idx HI; simpl; [done|].
  apply IH. destruct o; simpl; eauto with sentinel.
Qed.

Lemma empty_pi_inv : pi_inv NewPolicyIndex.
Proof. split; [intros [] ?|intros ? ?]; unfold pi_view, NewPolicyIndex; by rewrite lookup_empty. Qed.

(** C25: refinement of the policy cache. After any history of Put and Remove, a
    lookup for a namespace and pod labels returns exactly the policies a flat
    map keyed by namespaced name would hold for that namespace and whose
    selector matches, each once, in any map iteration order; policies of other
    namespaces never match. *)
Theorem MatchingPolicies_refines_flat `{RangeOrder} ops ns labels :
  let idx := fold_left pi_step ops NewPolicyIndex in
  let flat := fold_left flat_step ops ∅ in
  NoDup (pol_key <$> MatchingPolicies idx ns labels) ∧
  ∀ p, p ∈ MatchingPolicies idx ns labels ↔
    pol_Namespace p = ns ∧ flat !! pol_key p = Some p ∧
    ∃ sel, sel ∈ spec_TargetWorkloads (pol_Spec p) ∧ selectorMatchesOne sel labels = true.
Proof.
  intros idx flat. assert (HI : pi_inv idx) by apply pi_run_inv, empty_pi_inv.
  split; [by apply MatchingPolicies_NoDup|]. intros p. rewrite MatchingPolicies_spec by done.
  assert (Href : ∀ k, pi_view idx k = flat !! k).
  { subst idx flat. assert (H0 : ∀ k, pi_view NewPolicyIndex k = (∅ : gmap NamespacedName _) !! k).
    { intros []. unfold pi_view, NewPolicyIndex. by rewrite !lookup_empty. }
    revert H0. generalize NewPolicyIndex, (∅ : gmap NamespacedName TelecomSecurityPolicy).
    clear HI. induction ops as [|o ops IH]; intros i m Hm; simpl; [done|].
    apply IH. by apply pi_refines_step. }
  rewrite Href. unfold selectorMatches. rewrite existsb_exists.
  setoid_rewrite list_elem_of_In. done.
Qed.

(** a selector that names nothing selects nothing: an entry with neither an
    app nor match labels never matches, so a policy cannot select every pod by
    accident; otherwise it matches exactly when the app label and every listed
    label agree. *)
Theorem selectorMatchesOne_spec sel labels :
  selectorMatchesOne sel labels = true ↔
    (ws_App sel ≠ "" ∨ ws_MatchLabels sel ≠ ∅) ∧
    (ws_App sel ≠ "" → label_get labels "app" = ws_App sel) ∧
    (∀ k v, ws_MatchLabels sel !! k = Some v → label_get labels k = v).
Proof.
  unfold selectorMatchesOne.
  assert (Hall : forallb (λ kv, (label_get labels kv.1 =? kv.2)%string) (map_to_list (ws_MatchLabels sel)) = true
    ↔ ∀ k v, ws_MatchLabels sel !! k = Some v → label_get labels k = v).
  { rewrite forallb_forall. split.
    - intros Hf k v Hkv%elem_of_map_to_list%list_elem_of_In. by apply Hf, String.eqb_eq in Hkv.
    - intros Hf [k v] Hin%list_elem_of_In%elem_of_map_to_list. by apply String.eqb_eq, Hf. }
  destruct (ws_App sel =? "")%string eqn:Ea, (size (ws_MatchLabels sel) =? 0)%nat eqn:Es;
    simpl; unbool; rewrite ?Nat.eqb_eq, ?Nat.eqb_neq, ?map_size_empty_iff, ?map_size_non_empty_iff in Es.
  - naive_solver.
  - rewrite Hall. naive_solver.
  - destruct (label_get labels "app" =? ws_App sel)%string eqn:El; simpl; unbool;
      [rewrite Hall|]; naive_solver.
  - destruct (label_get labels "app" =? ws_App sel)%string eqn:El; simpl; unbool;
      [rewrite Hall|]; naive_solver.
Qed.
