(* ===== verification/Attach.v ===== *)
(** * Attach: loading the XDP program (pkg/ebpf/loader_linux.go, pin_linux.go, inspect_linux.go)

    [AttachWithOptions] resolves the interface, loads the object, instantiates
    its maps (pinned or not), checks that every map the Loader needs is there
    with the key size this build expects, and attaches the program; every
    failure after the collection exists closes what was opened. The file
    system, the kernel and the cilium/ebpf library are the parameter [BpfHost];
    [BpfHostSpec] states what their documentation promises. *)

From S2P Require Import Prelude GoStrings GoPath Loader PolicyIndex.

Local Open Scope Z_scope.
Local Open Scope go_scope.

Definition blocklistMapName : string := "blocklist".
Definition signalRateMapName : string := "signal_rate".
Definition scanRateMapName : string := "scan_rate".
Definition tunnelRateMapName : string := "tunnel_rate".
Definition tunnelBlocklistMapName : string := "tunnel_blocklist".
Definition signalingEventsMapName : string := "signaling_events".
Definition blocklistV6MapName : string := "blocklist_v6".
Definition signalRateV6MapName : string := "signal_rate_v6".
Definition scanRateV6MapName : string := "scan_rate_v6".
Definition tunnelRateV6MapName : string := "tunnel_rate_v6".
Definition tunnelBlocklistV6MapName : string := "tunnel_blocklist_v6".
Definition signalingEventsV6MapName : string := "signaling_events_v6".
Definition xdpProgramName : string := "xdp_packet_filter".

(** ** The host *)

(** A kernel map, program or link is known by its handle. A collection spec
    lists the maps of the object, each with its [Pinning] flag. *)
Record CollectionSpec := { cs_Maps : gmap string bool; cs_object : nat }.

Record Collection := {
  coll_id : nat;
  coll_Programs : gmap string nat;
  coll_Maps : gmap string nat
}.

Definition BPF_FS_MAGIC : Z := 0xcafe4a11.

Class BpfHost (H : Type) := {
  InterfaceByName : string → H → result Z;
  LoadCollectionSpec : string → H → result CollectionSpec;
  Stat : string → H → bool;                        (* err == nil *)
  Statfs : string → H → result Z;                  (* the filesystem type *)
  MkdirAll : string → H → error * H;
  Remove : string → H → error * H;
  (* an empty pin path is NewCollection *)
  NewCollectionWithOptions : CollectionSpec → string → H → result Collection * H;
  Collection_Close : Collection → H → H;
  KeySize : nat → H → Z;
  AttachXDP : nat → Z → H → result nat * H;
  Link_Close : nat → H → error * H;
  ClockGettime : H → result (Z * Z);               (* CLOCK_MONOTONIC: seconds, nanoseconds *)
  HostNow : H → Time
}.

Section Attach.
Context {H : Type} `{BpfHost H} `{RangeOrder}.

Definition read {A} (f : H → result A) : M H A := λ h, (f h, h).
Definition act (f : H → error * H) : M H unit :=
  λ h, let '(e, h') := f h in (match e with None => Ok tt | Some e => Fail e end, h').

(** [fmt.Errorf("...: %w", err)] on the way out. *)
Definition wrapping {A} (msg : string) (m : M H A) : M H A :=
  λ h, match m h with
       | (Ok a, h') => (Ok a, h')
       | (Fail e, h') => (Fail (Wrap msg [e]), h')
       end.

Definition pinnedMapNames : list string :=
  [blocklistMapName; blocklistV6MapName; tunnelBlocklistMapName; tunnelBlocklistV6MapName].

(** The walk of [ensurePinDir] to the nearest existing ancestor; [None] is fuel
    running out. *)
Fixpoint nearest_existing (fuel : nat) (existing : string) (h : H) : option (option string) :=
  match fuel with
  | O => None
  | S fuel' =>
      if Stat existing h then Some (Some existing)
      else
        let parent := Dir existing in
        if (parent =? existing)%string then Some None
        else nearest_existing fuel' parent h
  end.

Definition walk_fuel (path : string) : nat := String.length path + 3.

Definition ensurePinDir (path : string) : M H unit :=
  λ h,
    match nearest_existing (walk_fuel path) (Clean path) h with
    | None | Some None => mfail (Errorf "resolve pin path: no existing ancestor directory") h
    | Some (Some existing) =>
        (let! fstype := wrapping "statfs" (read (Statfs existing)) in
         if negb (fstype =? BPF_FS_MAGIC)
         then mfail (Wrap "pin path" [Sentinel ErrPinPathNotBPFFS])
         else wrapping "create pin directory" (act (MkdirAll path))) h
    end.

(** [markPinnedMaps]: the error leaves the flags set so far in place, on a spec
    the caller then drops. *)
Fixpoint mark_maps (names : list string) (spec : CollectionSpec) : result CollectionSpec :=
  match names with
  | [] => Ok spec
  | name :: names' =>
      match cs_Maps spec !! name with
      | None => Fail (Errorf (String.append "bpf object does not export map " name))
      | Some _ => mark_maps names' {| cs_Maps := <[name := true]> (cs_Maps spec);
                                      cs_object := cs_object spec |}
      end
  end.
Definition markPinnedMaps (spec : CollectionSpec) : result CollectionSpec :=
  mark_maps pinnedMapNames spec.

(** [RemovePins]: every pin is tried; a missing one is not an error. *)
Fixpoint remove_pins (pinPath : string) (names : list string) (errs : list go_error) (h : H)
    : list go_error * H :=
  match names with
  | [] => (errs, h)
  | name :: names' =>
      let '(e, h') := Remove (Join [pinPath; name]) h in
      let errs' := match e with
                   | Some e => if errors_Is e ErrNotExist then errs
                               else errs ++ [Wrap "remove pin" [e]]
                   | None => errs
                   end in
      remove_pins pinPath names' errs' h'
  end.
Definition RemovePins (pinPath : string) : H → error * H :=
  λ h, let '(errs, h') := remove_pins pinPath pinnedMapNames [] h in
       (match errs with [] => None | _ => Some (Wrap "" errs) end, h').

Definition newPinnedCollection (spec : CollectionSpec) (pinPath : string) : M H (Collection * bool) :=
  mtry (NewCollectionWithOptions spec pinPath) (λ r,
    match r with
    | Ok coll => mret (coll, false)
    | Fail err =>
        if negb (errors_Is err ErrMapIncompatible) then mfail err
        else
          mtry (act (RemovePins pinPath)) (λ r,
            match r with
            | Fail rmErr => mfail (Wrap "removing the stale pins failed" [err; rmErr])
            | Ok _ =>
                mtry (NewCollectionWithOptions spec pinPath) (λ r,
                  match r with
                  | Fail retryErr => mfail (Wrap "reloading also failed" [err; retryErr])
                  | Ok coll => mret (coll, true)
                  end)
            end)
    end).

(** [verifyEnforcementKeySizes] ranges over a Go map: which mismatch it reports
    first is unspecified. *)
Definition enforcementKeySizes : gmap string Z :=
  <[blocklistMapName := 4]> (<[blocklistV6MapName := 16]>
    (<[tunnelBlocklistMapName := tunnelRateKey_size]>
      (<[tunnelBlocklistV6MapName := tunnelRateKeyV6_size]> ∅))).

Fixpoint verify_sizes (want : list (string * Z)) (maps : gmap string nat) (h : H) : error :=
  match want with
  | [] => None
  | (name, size) :: want' =>
      match maps !! name with
      | None => verify_sizes want' maps h
      | Some m =>
          if negb (KeySize m h =? size)
          then Some (Errorf (String.append "unexpected key size of map " name))
          else verify_sizes want' maps h
      end
  end.
Definition verifyEnforcementKeySizes (maps : gmap string nat) (h : H) : error :=
  verify_sizes (range_map enforcementKeySizes) maps h.

Definition monotonicToWallClockOffset : M H Time :=
  let! (sec, nsec) := wrapping "clock_gettime(CLOCK_MONOTONIC)" (read ClockGettime) in
  let monotonicNow := to_int64 (to_int64 (sec * Second) + nsec) in
  let! now := mget HostNow in
  mret (now + to_int64 (- monotonicNow)).

(** The Loader [AttachWithOptions] returns: the handles of Loader.v's maps, and
    of the two ring buffers. *)
Record AttachedLoader := {
  al_collection : Collection;
  al_link : nat;
  al_blocklist : nat;
  al_signalRate : nat;
  al_scanRate : nat;
  al_tunnelRate : nat;
  al_tunnelBlocklist : nat;
  al_signalingEvents : nat;
  al_blocklistV6 : nat;
  al_signalRateV6 : nat;
  al_scanRateV6 : nat;
  al_tunnelRateV6 : nat;
  al_tunnelBlocklistV6 : nat;
  al_signalingEventsV6 : nat;
  al_pinPath : string;
  al_pinReset : bool;
  al_bootTime : Time
}.

(** [m, ok := coll.Maps[name]; if !ok { coll.Close(); return ... }] *)
Definition require (what : string) (tbl : gmap string nat) (coll : Collection) (name : string) : M H nat :=
  match tbl !! name with
  | Some m => mret m
  | None =>
      mmodify (Collection_Close coll) ;;!
      mfail (Errorf (String.append "bpf object does not export " (String.append what name)))
  end.

(** The collection, pinned when a pin path is given. *)
Definition instantiate (spec : CollectionSpec) (optsPinPath : string) : M H (Collection * bool) :=
  if negb (optsPinPath =? "")%string then
    (wrapping "prepare pin path" (ensurePinDir optsPinPath)) ;;!
    (let! spec' := wrapping "prepare pin path" (read (λ _, markPinnedMaps spec)) in
     wrapping "instantiate bpf collection" (newPinnedCollection spec' optsPinPath))
  else
    let! coll := wrapping "instantiate bpf collection" (NewCollectionWithOptions spec "") in
    mret (coll, false).

Definition AttachWithOptions (objPath iface optsPinPath : string) : M H AttachedLoader :=
  let! ifi := λ h, match InterfaceByName iface h with
                   | Ok i => (Ok i, h)
                   | Fail err => (Fail (Wrap "resolve interface" [Sentinel ErrInterfaceNotFound; err]), h)
                   end in
  let! spec := wrapping "load bpf collection spec" (read (LoadCollectionSpec objPath)) in
  let! (coll, pinReset) := instantiate spec optsPinPath in
  let getmap := require "map " (coll_Maps coll) coll in
  let! prog := require "program " (coll_Programs coll) coll xdpProgramName in
  let! blocklist := getmap blocklistMapName in
  let! signalRate := getmap signalRateMapName in
  let! scanRate := getmap scanRateMapName in
  let! tunnelRate := getmap tunnelRateMapName in
  let! tunnelBlocklist := getmap tunnelBlocklistMapName in
  let! signalingEvents := getmap signalingEventsMapName in
  let! blocklistV6 := getmap blocklistV6MapName in
  let! signalRateV6 := getmap signalRateV6MapName in
  let! scanRateV6 := getmap scanRateV6MapName in
  let! tunnelRateV6 := getmap tunnelRateV6MapName in
  let! tunnelBlocklistV6 := getmap tunnelBlocklistV6MapName in
  let! signalingEventsV6 := getmap signalingEventsV6MapName in
  let! keyErr := mget (verifyEnforcementKeySizes (coll_Maps coll)) in
  match keyErr with
  | Some keyErr => mmodify (Collection_Close coll) ;;! mfail keyErr
  | None =>
      mtry (AttachXDP prog ifi) (λ r,
        match r with
        | Fail err => mmodify (Collection_Close coll) ;;! mfail (Wrap "attach xdp program" [err])
        | Ok xdpLink =>
            mtry monotonicToWallClockOffset (λ r,
              match r with
              | Fail err =>
                  mtry (act (Link_Close xdpLink)) (λ _,
                    mmodify (Collection_Close coll) ;;!
                    mfail (Wrap "compute monotonic-to-wall-clock offset" [err]))
              | Ok bootTime =>
                  mret {| al_collection := coll; al_link := xdpLink; al_blocklist := blocklist;
                          al_signalRate := signalRate; al_scanRate := scanRate;
                          al_tunnelRate := tunnelRate; al_tunnelBlocklist := tunnelBlocklist;
                          al_signalingEvents := signalingEvents; al_blocklistV6 := blocklistV6;
                          al_signalRateV6 := signalRateV6; al_scanRateV6 := scanRateV6;
                          al_tunnelRateV6 := tunnelRateV6; al_tunnelBlocklistV6 := tunnelBlocklistV6;
                          al_signalingEventsV6 := signalingEventsV6; al_pinPath := optsPinPath;
                          al_pinReset := pinReset; al_bootTime := bootTime |}
              end)
        end)
  end.

Definition Attach (objPath iface : string) : M H AttachedLoader := AttachWithOptions objPath iface "".

(** [Close]: the collection is released whether or not the detach failed. *)
Definition AttachedLoader_Close (l : AttachedLoader) : H → error * H :=
  λ h, let '(e, h1) := Link_Close (al_link l) h in
       (match e with Some e => Some (Wrap "detach xdp link" [e]) | None => None end,
        Collection_Close (al_collection l) h1).

(** [prog.Stats()]: the run count and the accumulated run time. *)
Definition ProgramRunStats (Stats : nat → result (Z * Duration)) (l : AttachedLoader) : result (Z * Duration) :=
  match coll_Programs (al_collection l) !! xdpProgramName with
  | None => Fail (Errorf "xdp program not in collection")
  | Some prog =>
      match Stats prog with
      | Fail err => Fail (Wrap "read program stats" [err])
      | Ok stats => Ok stats
      end
  end.
End Attach.

(** [ClassifyAttachError] (errors.go). *)
Definition objectNotFoundCause : string :=
  "the compiled bpf/packet_filter.o was not found at the configured --bpf-object path (the operator image bakes it in at build time -- see the Dockerfile's bpf-builder stage -- so this usually means the path was overridden); see docs/troubleshooting.md#ebpf".
Definition privilegesCause : string :=
  "insufficient privileges to attach the XDP program -- the container needs CAP_BPF+CAP_NET_ADMIN (set ebpf.enabled: true in the Helm chart's values, which wires these up automatically via ebpf.capabilities); see docs/troubleshooting.md#ebpf".
Definition interfaceCause : string :=
  "the configured --bpf-interface does not exist on this node; see docs/troubleshooting.md#ebpf".
Definition unrecognizedCause : string :=
  "eBPF attach failed for an unrecognized reason, possibly an incompatible kernel; see docs/troubleshooting.md#ebpf".

Definition ClassifyAttachError (err : error) : string :=
  match err with
  | None => ""
  | Some e =>
      if errors_Is e ErrNotExist then objectNotFoundCause
      else if errors_Is e ErrPermission then privilegesCause
      else if errors_Is e ErrInterfaceNotFound then interfaceCause
      else unrecognizedCause
  end.
