(* ===== verification/PodIPIndex.v ===== *)
(** * PodIPIndex: attributing a source address to a Pod

    pkg/controller/pod_ip_index.go and pod_ip_indexer.go: a forward map from
    addresses to Pods and the reverse map the deletions need. *)

From S2P Require Import Prelude Api.

(** [PodRef] and [types.NamespacedName] have the same two fields. *)
Abbreviation PodRef := NamespacedName (only parsing).

Record PodIPIndex := {
  byIP : gmap string PodRef;
  byPod : gmap NamespacedName string
}.

Definition NewPodIPIndex : PodIPIndex := {| byIP := ∅; byPod := ∅ |}.

Definition PodIPIndex_Put (ip : string) (ref : PodRef) (idx : PodIPIndex) : PodIPIndex :=
  if (ip =? "")%string then idx
  else
    let byIP1 :=
      match byPod idx !! ref with
      | Some oldIP =>
          if negb (oldIP =? ip)%string then
            match byIP idx !! oldIP with
            | Some owner => if bool_decide (owner = ref) then delete oldIP (byIP idx) else byIP idx
            | None => byIP idx
            end
          else byIP idx
      | None => byIP idx
      end in
    {| byIP := <[ip := ref]> byIP1; byPod := <[ref := ip]> (byPod idx) |}.

Definition PodIPIndex_Lookup (idx : PodIPIndex) (ip : string) : option PodRef := byIP idx !! ip.

Definition PodIPIndex_Remove (key : NamespacedName) (idx : PodIPIndex) : PodIPIndex :=
  match byPod idx !! key with
  | None => idx
  | Some ip =>
      let byPod' := delete key (byPod idx) in
      match byIP idx !! ip with
      | Some ref =>
          if (nn_Namespace ref =? nn_Namespace key)%string && (nn_Name ref =? nn_Name key)%string
          then {| byIP := delete ip (byIP idx); byPod := byPod' |}
          else {| byIP := byIP idx; byPod := byPod' |}
      | None => {| byIP := byIP idx; byPod := byPod' |}
      end
  end.

(** [PodIPIndexer.Reconcile], given the API server's answer to the Get: the
    Pod's identity and [Status.PodIP]. *)
Definition PodIPIndexer_Reconcile (req : NamespacedName) (pod : result (PodRef * string))
    (idx : PodIPIndex) : error * PodIPIndex :=
  match pod with
  | Fail err =>
      if errors_Is err ErrNotFound then (None, PodIPIndex_Remove req idx)
      else (Some (Wrap "get pod" [err]), idx)
  | Ok (ref, podIP) =>
      if (podIP =? "")%string then (None, idx) else (None, PodIPIndex_Put podIP ref idx)
  end.

(** ** Invariant: the reverse index reaches every forward entry *)

Definition pip_inv (idx : PodIPIndex) : Prop :=
  ∀ ip ref, byIP idx !! ip = Some ref → byPod idx !! ref = Some ip ∧ ip ≠ "".

Lemma nn_eqb (a b : NamespacedName) :
  (nn_Namespace a =? nn_Namespace b)%string && (nn_Name a =? nn_Name b)%string = bool_decide (a = b).
Proof.
  destruct a, b; simpl. case_bool_decide as E; [simplify_eq; by rewrite !String.eqb_refl|].
  apply not_true_iff_false. intros H. unbool. congruence.
Qed.

(** The abstract index: addresses to Pods only. A Put evicts whatever else the
    Pod was attributed, a Remove evicts the Pod. *)
Definition abs_put (ip : string) (ref : PodRef) (m : gmap string PodRef) : gmap string PodRef :=
  if (ip =? "")%string then m else <[ip := ref]> (filter (λ kv, kv.2 ≠ ref) m).
Definition abs_remove (ref : PodRef) (m : gmap string PodRef) : gmap string PodRef :=
  filter (λ kv, kv.2 ≠ ref) m.

(** Under the invariant, the only address of a Pod is the one [byPod] knows. *)
Lemma filter_owner idx ref : pip_inv idx →
  filter (λ kv, kv.2 ≠ ref) (byIP idx) =
    match byPod idx !! ref with
    | Some ip => if bool_decide (byIP idx !! ip = Some ref) then delete ip (byIP idx) else byIP idx
    | None => byIP idx
    end.
Proof.
  intros HI. apply map_eq. intros k. rewrite map_lookup_filter.
  destruct (byPod idx !! ref) as [ip|] eqn:Eb.
  - case_bool_decide as Ho.
    + destruct (decide (k = ip)) as [->|Hk].
      * rewrite Ho, lookup_delete_eq. simpl. by rewrite option_guard_False by (simpl; tauto).
      * rewrite lookup_delete_ne by done. destruct (byIP idx !! k) as [r|] eqn:Ek; simpl; [|done].
        rewrite option_guard_True; [done|]. simpl. intros ->. apply HI in Ek as [? _]. congruence.
    + destruct (byIP idx !! k) as [r|] eqn:Ek; simpl; [|done].
      rewrite option_guard_True; [done|]. simpl. intros ->.
      pose proof (HI _ _ Ek) as [? _]. congruence.
  - destruct (byIP idx !! k) as [r|] eqn:Ek; simpl; [|done].
    rewrite option_guard_True; [done|]. simpl. intros ->. apply HI in Ek as [? _]. congruence.
Qed.

Lemma PodIPIndex_Put_byIP ip ref idx : pip_inv idx →
  byIP (PodIPIndex_Put ip ref idx) = abs_put ip ref (byIP idx).
Proof.
  intros HI. unfold PodIPIndex_Put, abs_put. destruct (ip =? "")%string; [done|]. simpl.
  rewrite filter_owner by done. destruct (byPod idx !! ref) as [old|] eqn:Eb; [|done].
  destruct (old =? ip)%string eqn:Eo; unbool; simpl.
  - subst old. case_bool_decide; [|done]. by rewrite insert_delete_eq.
  - f_equal. destruct (byIP idx !! old) as [o|]; [|done].
    repeat case_bool_decide; naive_solver.
Qed.

Lemma PodIPIndex_Remove_byIP key idx : pip_inv idx →
  byIP (PodIPIndex_Remove key idx) = abs_remove key (byIP idx).
Proof.
  intros HI. unfold PodIPIndex_Remove, abs_remove. rewrite filter_owner by done.
  destruct (byPod idx !! key) as [ip|] eqn:Eb; [|done].
  destruct (byIP idx !! ip) as [o|]; [|by case_bool_decide].
  rewrite nn_eqb. repeat case_bool_decide; simpl; naive_solver.
Qed.

Lemma PodIPIndex_Put_byPod ip ref idx : ip ≠ "" →
  byPod (PodIPIndex_Put ip ref idx) = <[ref := ip]> (byPod idx).
Proof.
  intros Hip. unfold PodIPIndex_Put. destruct (ip =? "")%string eqn:E; unbool; [done|]. done.
Qed.

Lemma PodIPIndex_Remove_byPod key idx :
  byPod (PodIPIndex_Remove key idx) = delete key (byPod idx).
Proof.
  unfold PodIPIndex_Remove. destruct (byPod idx !! key) eqn:E; [|by rewrite delete_id].
  repeat case_match; done.
Qed.

Lemma PodIPIndex_Put_inv ip ref idx : pip_inv idx → pip_inv (PodIPIndex_Put ip ref idx).
Proof.
  intros HI k r. rewrite PodIPIndex_Put_byIP by done. unfold abs_put.
  destruct (ip =? "")%string eqn:E; unbool; [unfold PodIPIndex_Put; rewrite E; apply HI|].
  rewrite PodIPIndex_Put_byPod by done.
  rewrite lookup_insert_Some. intros [[<- <-]|[Hne Hf]]; [by rewrite lookup_insert_eq|].
  apply map_lookup_filter_Some in Hf as [Hf Hr]. simpl in Hr.
  rewrite lookup_insert_ne by done. by apply HI.
Qed.

Lemma PodIPIndex_Remove_inv key idx : pip_inv idx → pip_inv (PodIPIndex_Remove key idx).
Proof.
  intros HI k r. rewrite PodIPIndex_Remove_byIP, PodIPIndex_Remove_byPod by done.
  unfold abs_remove. intros [Hf Hr]%map_lookup_filter_Some. simpl in Hr.
  rewrite lookup_delete_ne by done. by apply HI.
Qed.

(** ** Histories of reconciles *)

Definition pip_run (evs : list (NamespacedName * result (PodRef * string))) (idx : PodIPIndex) : PodIPIndex :=
  fold_left (λ i ev, (PodIPIndexer_Reconcile ev.1 ev.2 i).2) evs idx.

(** What one reconcile means for the attribution. *)
Definition abs_event (m : gmap string PodRef) (ev : NamespacedName * result (PodRef * string)) :=
  match ev.2 with
  | Fail err => if errors_Is err ErrNotFound then abs_remove ev.1 m else m
  | Ok (ref, podIP) => abs_put podIP ref m
  end.

Lemma reconcile_refines ev idx : pip_inv idx →
  pip_inv (PodIPIndexer_Reconcile ev.1 ev.2 idx).2 ∧
  byIP (PodIPIndexer_Reconcile ev.1 ev.2 idx).2 = abs_event (byIP idx) ev.
Proof.
  intros HI. destruct ev as [req [[ref podIP]|err]]; simpl; unfold abs_event; simpl.
  - destruct (podIP =? "")%string eqn:E; simpl.
    + unfold abs_put. by rewrite E.
    + auto using PodIPIndex_Put_inv, PodIPIndex_Put_byIP.
  - destruct (errors_Is err ErrNotFound); simpl;
      auto using PodIPIndex_Remove_inv, PodIPIndex_Remove_byIP.
Qed.

Lemma pip_run_refines evs idx : pip_inv idx →
  pip_inv (pip_run evs idx) ∧ byIP (pip_run evs idx) = fold_left abs_event evs (byIP idx).
Proof.
  revert idx. induction evs as [|ev evs IH]; intros idx HI; [done|].
  unfold pip_run. simpl. destruct (reconcile_refines ev idx HI) as [HI' Heq].
  destruct (IH _ HI') as [? Hrun]. unfold pip_run in *. by rewrite Hrun, Heq.
Qed.

Lemma empty_pip_inv : pip_inv NewPodIPIndex.
Proof. intros ip ref H. unfold NewPodIPIndex in H. simpl in H. by rewrite lookup_empty in H. Qed.

(** C26: refinement of the Pod address index. After any history of reconciles,
    in any interleaving of a deleted Pod's last reconcile with its successor's
    first, a lookup answers as an index without the reverse map would: the Pod
    that last claimed the address and has neither moved to another address nor
    been deleted since. No Pod ever owns two addresses, so no entry is
    unreachable from its Pod's deletion. *)
Theorem pod_ip_index_refines evs :
  let idx := pip_run evs NewPodIPIndex in
  (∀ ip, PodIPIndex_Lookup idx ip = fold_left abs_event evs ∅ !! ip) ∧
  (∀ ip ip' ref, PodIPIndex_Lookup idx ip = Some ref → PodIPIndex_Lookup idx ip' = Some ref → ip = ip').
Proof.
  intros idx. destruct (pip_run_refines evs NewPodIPIndex empty_pip_inv) as [HI Heq].
  split.
  - intros ip. unfold PodIPIndex_Lookup, idx. by rewrite Heq.
  - intros ip ip' ref H1 H2. unfold PodIPIndex_Lookup in *.
    apply HI in H1 as [H1 _]. apply HI in H2 as [H2 _]. congruence.
Qed.

(** deleting a Pod never evicts another Pod's live mapping: when the address
    has been reused before the old Pod's deletion is processed, the new owner
    keeps it, and the deleted Pod owns nothing afterwards. *)
Theorem stale_remove_keeps_new_owner idx key ip owner : pip_inv idx →
  PodIPIndex_Lookup idx ip = Some owner → owner ≠ key →
  PodIPIndex_Lookup (PodIPIndex_Remove key idx) ip = Some owner ∧
  ∀ ip', PodIPIndex_Lookup (PodIPIndex_Remove key idx) ip' ≠ Some key.
Proof.
  intros HI Hl Hne. unfold PodIPIndex_Lookup in *. rewrite PodIPIndex_Remove_byIP by done.
  unfold abs_remove. split.
  - by apply map_lookup_filter_Some.
  - intros ip' [_ Hk]%map_lookup_filter_Some. by apply Hk.
Qed.

Definition pod_a : PodRef := {| nn_Namespace := "core"; nn_Name := "upf-a" |}.
Definition pod_b : PodRef := {| nn_Namespace := "core"; nn_Name := "upf-b" |}.

Lemma stale_remove_keeps_new_owner_witness :
  PodIPIndex_Lookup (PodIPIndex_Remove pod_a
    (PodIPIndex_Put "10.0.0.9" pod_b (PodIPIndex_Put "10.0.0.9" pod_a NewPodIPIndex))) "10.0.0.9"
  = Some pod_b.
Proof.
  refine (proj1 (stale_remove_keeps_new_owner
    (PodIPIndex_Put "10.0.0.9" pod_b (PodIPIndex_Put "10.0.0.9" pod_a NewPodIPIndex))
    pod_a "10.0.0.9" pod_b _ _ _)).
  - apply PodIPIndex_Put_inv, PodIPIndex_Put_inv, empty_pip_inv.
  - vm_compute. reflexivity.
  - discriminate.
Defined.
