(* ===== verification/KillSwitch.v ===== *)
(** * KillSwitch: the global mitigation override (pkg/controller/killswitch.go)

    A ConfigMap read through the API server and cached for a TTL. [Engaged]
    is one call: it is given the two clock readings the call may make and the
    answer the API server would give to the Get, and returns its result, the
    new state and whether it read the API. *)

From S2P Require Import Prelude Api Metrics.

Local Open Scope Z_scope.

Definition killSwitchEngagedKey : string := "engaged".
Definition defaultKillSwitchTTL : Duration := 2 * Second.

Record KillSwitch := {
  ks_Reader : bool;            (* the Reader is set *)
  ks_TTL : Duration;
  ks_lastChecked : Time;
  ks_engaged : bool;
  ks_everRead : bool
}.

Definition NewKillSwitch (ttl : Duration) : KillSwitch :=
  {| ks_Reader := true; ks_TTL := ttl; ks_lastChecked := zero_time;
     ks_engaged := false; ks_everRead := false |}.

Definition ttl (k : KillSwitch) : Duration :=
  if 0 <? ks_TTL k then ks_TTL k else defaultKillSwitchTTL.

Definition boolToFloat (b : bool) : Z := if b then 1 else 0.

(** The ConfigMap's data, or the error of the Get. *)
Definition cm_answer := result (gmap string string).

Definition cm_engaged (data : gmap string string) : bool :=
  (default "" (data !! killSwitchEngagedKey) =? "true")%string.

Definition cached (k : KillSwitch) (now : Time) : bool :=
  ks_everRead k && (Sub now (ks_lastChecked k) <? ttl k).

Definition ks_set (k : KillSwitch) (t : Time) (eng ever : bool) : KillSwitch :=
  {| ks_Reader := ks_Reader k; ks_TTL := ks_TTL k; ks_lastChecked := t;
     ks_engaged := eng; ks_everRead := ever |}.

(** Result, new state, whether the API was read (the gauge is set then). *)
Definition Engaged (now1 now2 : Time) (get : cm_answer) (sw : option KillSwitch) :
    bool * option KillSwitch * bool :=
  match sw with
  | None => (false, None, false)
  | Some k =>
      if negb (ks_Reader k) then (false, Some k, false)
      else if cached k now1 then (ks_engaged k, Some k, false)
      else
        let k' :=
          match get with
          | Ok data => ks_set k now2 (cm_engaged data) true
          | Fail err =>
              if errors_Is err ErrNotFound then ks_set k now2 false true
              else ks_set k now2 (if negb (ks_everRead k) then false else ks_engaged k) (ks_everRead k)
          end in
        (ks_engaged k', Some k', true)
  end.

(** ** Histories of calls *)

Record ks_call := { kc_now1 : Time; kc_now2 : Time; kc_get : cm_answer }.

Definition ks_step (sw : option KillSwitch) (c : ks_call) : option KillSwitch :=
  (Engaged (kc_now1 c) (kc_now2 c) (kc_get c) sw).1.2.

Definition ks_run (cs : list ks_call) (sw : option KillSwitch) : option KillSwitch :=
  fold_left ks_step cs sw.

(** What a conclusive answer says: the switch's data, or a positive NotFound. *)
Definition answer_value (a : cm_answer) : option bool :=
  match a with
  | Ok data => Some (cm_engaged data)
  | Fail err => if errors_Is err ErrNotFound then Some false else None
  end.

(** The reference: the last conclusive answer among the calls that read the API. *)
Fixpoint last_answer (cs : list ks_call) (sw : option KillSwitch) (acc : bool) : bool :=
  match cs with
  | [] => acc
  | c :: cs' =>
      let '(_, sw', read) := Engaged (kc_now1 c) (kc_now2 c) (kc_get c) sw in
      last_answer cs' sw' (if read then default acc (answer_value (kc_get c)) else acc)
  end.

(** Before the first conclusive read the stored value is [false]. *)
Definition ks_inv (k : KillSwitch) : Prop := ks_everRead k = false → ks_engaged k = false.

Lemma Engaged_inv now1 now2 get k r k' b : ks_inv k →
  Engaged now1 now2 get (Some k) = (r, Some k', b) → ks_inv k'.
Proof.
  unfold ks_inv, Engaged. intros HI Hrun. repeat case_match; simplify_eq/=; try done; auto.
  all: destruct (ks_everRead k); naive_solver.
Qed.

Lemma Engaged_some now1 now2 get k : ∃ r k' b,
  Engaged now1 now2 get (Some k) = (r, Some k', b) ∧ ks_Reader k' = ks_Reader k ∧ ks_TTL k' = ks_TTL k.
Proof. unfold Engaged. repeat case_match; simplify_eq; eauto 10. Qed.

Lemma Engaged_value now1 now2 get k r k' b : ks_inv k → ks_Reader k = true →
  Engaged now1 now2 get (Some k) = (r, Some k', b) →
  r = ks_engaged k' ∧
  ks_engaged k' = (if b then default (ks_engaged k) (answer_value get) else ks_engaged k).
Proof.
  intros HI HR Hrun. unfold Engaged in Hrun. rewrite HR in Hrun. simpl in Hrun. unfold answer_value.
  repeat case_match; simplify_eq/=; try done. rewrite HI; [done|]. by apply negb_true_iff.
Qed.

(** C36: the switch reports the last conclusive answer. After any history of
    calls, the stored value is that of the most recent read in which the API
    server answered with the ConfigMap or a positive NotFound, and disengaged
    if there was none: a run of transient errors, however long, neither drops
    an engaged switch nor engages an unarmed one. *)
Theorem kill_switch_last_answer cs t :
  ∃ k, ks_run cs (Some (NewKillSwitch t)) = Some k ∧
    ks_engaged k = last_answer cs (Some (NewKillSwitch t)) false.
Proof.
  assert (Hgen : ∀ cs k, ks_inv k → ks_Reader k = true → ∃ k', ks_run cs (Some k) = Some k' ∧
    ks_engaged k' = last_answer cs (Some k) (ks_engaged k)).
  { induction cs0 as [|c cs0 IH]; intros k HI HR; [by exists k|].
    destruct (Engaged_some (kc_now1 c) (kc_now2 c) (kc_get c) k) as (r & k1 & b & Hrun & HR1 & _).
    destruct (Engaged_value _ _ _ _ _ _ _ HI HR Hrun) as [_ Hv].
    destruct (IH k1) as (k' & Hr & He); [by eapply Engaged_inv|congruence|].
    exists k'. unfold ks_run in *. cbn [fold_left last_answer]. unfold ks_step at 2.
    rewrite Hrun. cbn [fst snd]. rewrite <- Hv. done. }
  apply (Hgen cs (NewKillSwitch t)); done.
Qed.

(** bounded latency and bounded API load once the switch has been read: a
    call whose clock is at least one TTL past the last read asks the API server
    and returns what it answers; an earlier call does not read it at all. *)
Theorem kill_switch_ttl now1 now2 get k r k' b :
  ks_Reader k = true → ks_everRead k = true →
  min_int64 < ttl k ≤ max_int64 →
  Engaged now1 now2 get (Some k) = (r, Some k', b) →
  (ttl k ≤ now1 - ks_lastChecked k → b = true ∧ ks_lastChecked k' = now2 ∧
     ∀ v, answer_value get = Some v → r = v) ∧
  (now1 - ks_lastChecked k < ttl k → b = false ∧ k' = k ∧ r = ks_engaged k).
Proof.
  intros HR HE Ht Hrun. unfold Engaged in Hrun. rewrite HR in Hrun. simpl in Hrun.
  unfold cached in Hrun. rewrite HE in Hrun. simpl in Hrun.
  pose proof (Sub_lt_iff now1 (ks_lastChecked k) (ttl k) Ht) as Hiff.
  destruct (Sub now1 (ks_lastChecked k) <? ttl k) eqn:E; unbool; simplify_eq.
  - split; [lia|]. done.
  - split; [|lia]. intros _. split; [done|].
    unfold answer_value. repeat case_match; simplify_eq/=; split; naive_solver.
Qed.

Definition armed : KillSwitch :=
  {| ks_Reader := true; ks_TTL := 0; ks_lastChecked := 0; ks_engaged := true; ks_everRead := true |}.

Lemma kill_switch_ttl_witness :
  ks_lastChecked (ks_set armed (3 * Second) false true) = 3 * Second ∧ ttl armed = 2 * Second.
Proof.
  split; [|reflexivity].
  destruct (kill_switch_ttl (3 * Second) (3 * Second) (Fail (Sentinel ErrNotFound)) armed
    false (ks_set armed (3 * Second) false true) true) as [H _];
    [reflexivity|reflexivity|vm_compute; split; [reflexivity|discriminate]|vm_compute; reflexivity|].
  apply H. vm_compute. discriminate.
Defined.

(** Until the first conclusive answer nothing is cached: every call reads the
    API server, whatever the TTL. *)
Lemma never_read_is_never_cached now1 now2 get k :
  ks_Reader k = true → ks_everRead k = false → (Engaged now1 now2 get (Some k)).2 = true.
Proof. intros HR HE. unfold Engaged, cached. rewrite HR, HE. done. Qed.
