(* ===== verification/ReactorLimiter.v ===== *)
(** * ReactorLimiter: the per-policy write limit (pkg/controller/reactor_limiter.go)

    One token bucket of golang.org/x/time/rate per policy; the bucket is a
    parameter, the class [RateLimiter]. *)

From S2P Require Import Prelude GoFloat Api.

Local Open Scope Z_scope.

(** [rate.NewLimiter(r, b)] and [lim.Allow()] at a time. *)
Class RateLimiter (L : Type) := {
  NewLimiter : f64 → Z → L;
  lim_Allow : Time → L → bool * L
}.

(** A bucket that never refills, for the samples. *)
#[export] Instance one_shot : RateLimiter Z := {|
  NewLimiter _ b := b; lim_Allow _ n := (0 <? n, if 0 <? n then n - 1 else n) |}.

Record ReactorLimiter (L : Type) := {
  rl_rate : f64;
  rl_burst : Z;
  rl_limiters : gmap NamespacedName L
}.
Arguments rl_rate {L} _.
Arguments rl_burst {L} _.
Arguments rl_limiters {L} _.

Section ReactorLimiter.
Context {L : Type} `{RateLimiter L}.

Definition NewReactorLimiter (r : f64) (b : Z) : option (ReactorLimiter L) :=
  if f64_leb r f64_zero || (b <=? 0) then None
  else Some {| rl_rate := r; rl_burst := b; rl_limiters := ∅ |}.

Definition Allow (now : Time) (key : NamespacedName) (l : option (ReactorLimiter L)) :
    bool * option (ReactorLimiter L) :=
  match l with
  | None => (true, None)
  | Some rl =>
      let lim := match rl_limiters rl !! key with
                 | Some lim => lim
                 | None => NewLimiter (rl_rate rl) (rl_burst rl)
                 end in
      let '(ok, lim') := lim_Allow now lim in
      (ok, Some {| rl_rate := rl_rate rl; rl_burst := rl_burst rl;
                   rl_limiters := <[key := lim']> (rl_limiters rl) |})
  end.

Definition Forget (key : NamespacedName) (l : option (ReactorLimiter L)) : option (ReactorLimiter L) :=
  match l with
  | None => None
  | Some rl => Some {| rl_rate := rl_rate rl; rl_burst := rl_burst rl;
                       rl_limiters := delete key (rl_limiters rl) |}
  end.

Definition allow_run (l : option (ReactorLimiter L)) (reqs : list (Time * NamespacedName)) :
    list bool * option (ReactorLimiter L) :=
  fold_left (λ acc q, let '(b, l') := Allow q.1 q.2 acc.2 in (acc.1 ++ [b], l')) reqs ([], l).

(** The bucket a policy's next request would use. *)
Definition bucket (key : NamespacedName) (rl : ReactorLimiter L) : L :=
  default (NewLimiter (rl_rate rl) (rl_burst rl)) (rl_limiters rl !! key).

Lemma Allow_some now key rl : Allow now key (Some rl) =
  ((lim_Allow now (bucket key rl)).1,
   Some {| rl_rate := rl_rate rl; rl_burst := rl_burst rl;
           rl_limiters := <[key := (lim_Allow now (bucket key rl)).2]> (rl_limiters rl) |}).
Proof. unfold Allow, bucket. by destruct (rl_limiters rl !! key), (lim_Allow now _). Qed.

(** one noisy policy cannot starve another: whatever requests other
    policies made before, the answer to a policy's request depends only on the
    limit and on that policy's own earlier requests. *)
Theorem limiter_isolation now key reqs rl :
  Forall (λ q, q.2 ≠ key) reqs →
  (Allow now key (allow_run (Some rl) reqs).2).1 = (Allow now key (Some rl)).1.
Proof.
  intros Hall. unfold allow_run.
  set (f := λ (acc : list bool * option (ReactorLimiter L)) (q : Time * NamespacedName), _).
  enough (Hgen : ∀ rl acc, (Allow now key (fold_left f reqs (acc, Some rl)).2).1 =
    (Allow now key (Some rl)).1) by apply Hgen.
  clear rl. induction reqs as [|[t k] reqs IH]; intros rl acc; [done|].
  apply Forall_cons in Hall as [Hk Hall]. cbn [fold_left]. unfold f at 2. cbn [fst snd].
  rewrite (Allow_some t k rl). rewrite IH by done. rewrite !Allow_some. cbn [fst].
  unfold bucket. simpl. by rewrite (lookup_insert_ne _ k key) by done.
Qed.
End ReactorLimiter.

Definition sample_key (n : string) : NamespacedName := {| nn_Namespace := "core"; nn_Name := n |}.
Definition sample_limiter : ReactorLimiter Z :=
  {| rl_rate := f64_one; rl_burst := 1; rl_limiters := ∅ |}.

Lemma limiter_isolation_witness :
  (Allow 9 (sample_key "b")
     (allow_run (Some sample_limiter) [(0, sample_key "a"); (1, sample_key "a")]).2).1 = true.
Proof.
  rewrite (limiter_isolation 9 (sample_key "b") [(0, sample_key "a"); (1, sample_key "a")] sample_limiter).
  - reflexivity.
  - repeat constructor; discriminate.
Defined.
