(* ===== verification/ScoringPipeline.v ===== *)
(** * ScoringPipeline: has a score ever arrived? (pkg/controller/scoring_pipeline.go) *)

From S2P Require Import Prelude.

Local Open Scope Z_scope.

Definition ConditionScoringPipelineReady : string := "ScoringPipelineReady".
Definition ReasonScoresReceived : string := "ScoresReceived".
Definition ReasonAwaitingFirstScore : string := "AwaitingFirstScore".
Definition ReasonNoThreatScoresReceived : string := "NoThreatScoresReceived".

Definition DefaultScoringPipelineGrace : Duration := 10 * Minute.
Definition notReadyRecheck : Duration := Minute.

(** [t.UnixNano()], the two int64 atomics hold its result. *)
Definition UnixNano (t : Time) : Z := to_int64 t.

Record ScoringPipelineTracker := {
  firstScoreUnixNano : Z;
  startedAt : Z;
  Grace : Duration
}.

Definition MarkStarted (now : Time) (t : ScoringPipelineTracker) : ScoringPipelineTracker :=
  {| firstScoreUnixNano := firstScoreUnixNano t; startedAt := UnixNano now; Grace := Grace t |}.

Definition NewScoringPipelineTracker (grace : Duration) (now : Time) : ScoringPipelineTracker :=
  MarkStarted now {| firstScoreUnixNano := 0; startedAt := 0; Grace := grace |}.

Definition grace (t : ScoringPipelineTracker) : Duration :=
  if 0 <? Grace t then Grace t else DefaultScoringPipelineGrace.

Definition Observe (now : Time) (t : ScoringPipelineTracker) : ScoringPipelineTracker :=
  if negb (firstScoreUnixNano t =? 0) then t
  else {| firstScoreUnixNano := UnixNano now; startedAt := startedAt t; Grace := Grace t |}.

Definition EverScored (t : ScoringPipelineTracker) : bool := negb (firstScoreUnixNano t =? 0).

Definition Status (now : Time) (t : ScoringPipelineTracker) : string * Duration :=
  if EverScored t then (ReasonScoresReceived, 0)
  else
    let remaining := grace t - Sub now (startedAt t) in
    if 0 <? remaining then (ReasonAwaitingFirstScore, remaining)
    else (ReasonNoThreatScoresReceived, notReadyRecheck).

(** The steps the watcher takes on the tracker. *)
Inductive sp_op := SP_MarkStarted (now : Time) | SP_Observe (now : Time).
Definition sp_step (t : ScoringPipelineTracker) (o : sp_op) : ScoringPipelineTracker :=
  match o with SP_MarkStarted now => MarkStarted now t | SP_Observe now => Observe now t end.

Lemma scored_stays ops t : EverScored t = true → EverScored (fold_left sp_step ops t) = true.
Proof.
  revert t. induction ops as [|[now|now] ops IH]; intros t Ht; simpl; [done| |]; apply IH; [done|].
  unfold Observe, EverScored in *. by rewrite Ht.
Qed.

(** the first score is remembered for good: once a score was observed (at a
    time other than the epoch itself), every later status reads ScoresReceived
    with no timer, through re-anchoring and any further scores. *)
Theorem first_score_is_remembered t now ops later :
  UnixNano now ≠ 0 →
  Status later (fold_left sp_step ops (Observe now t)) = (ReasonScoresReceived, 0).
Proof.
  intros Hn. assert (Hs : EverScored (Observe now t) = true).
  { unfold Observe, EverScored. destruct (firstScoreUnixNano t =? 0) eqn:E; simpl; [|by rewrite E].
    by apply negb_true_iff, Z.eqb_neq. }
  unfold Status. by rewrite scored_stays.
Qed.

Lemma first_score_is_remembered_witness :
  Status (5 * Minute) (fold_left sp_step [SP_MarkStarted 7] (Observe 5 (NewScoringPipelineTracker 0 1)))
  = (ReasonScoresReceived, 0).
Proof. apply (first_score_is_remembered (NewScoringPipelineTracker 0 1) 5 [SP_MarkStarted 7] (5 * Minute)). discriminate. Defined.

(** the condition flips on its own. While waiting for the first score the
    status asks to be re-evaluated after a positive delay; re-evaluated then
    with still no score it reports NoThreatScoresReceived, and it reports so
    from then on every minute until a score arrives. *)
Theorem grace_expires t now d later :
  Status now t = (ReasonAwaitingFirstScore, d) →
  - max_int64 ≤ now - startedAt t → later - startedAt t ≤ max_int64 → now + d ≤ later →
  0 < d ∧ Status later t = (ReasonNoThreatScoresReceived, notReadyRecheck).
Proof.
  unfold Status. destruct (EverScored t); [done|].
  destruct (0 <? grace t - Sub now (startedAt t)) eqn:E; intros Hs H1 H2 H3; [|done].
  injection Hs as Hd. subst d. unbool. split; [lia|].
  assert (Hg : 0 < grace t) by (unfold grace; case_match; unbool; [lia|done]).
  destruct (0 <? grace t - Sub later (startedAt t)) eqn:E'; [|done]. unbool.
  unfold Sub, min_int64, max_int64 in *. lia.
Qed.

Lemma grace_expires_witness :
  0 < 9 * Minute ∧
  Status (10 * Minute) (NewScoringPipelineTracker 0 0) = (ReasonNoThreatScoresReceived, notReadyRecheck).
Proof.
  apply (grace_expires (NewScoringPipelineTracker 0 0) Minute (9 * Minute) (10 * Minute));
    vm_compute; first [reflexivity | discriminate].
Defined.
