(* ===== verification/Ingestion.v ===== *)
(** * Ingestion: from kernel records to the bus (pkg/ingestion)

    [FromSignalingEvent] turns a ring-buffer record into a [NormalizedEvent];
    the [Publisher] runs the two flood rules on every event and publishes the
    telemetry, one message per event or in batches. A publish error is only
    logged, so the Publisher's behaviour is the sequence of publish calls it
    makes: one step of [Start]'s select loop returns those calls. The events of
    the stream, the ticks of the flush timer, the moment the bus connects and the
    end of the context are the inputs. *)

From S2P Require Import Prelude GoStrings GoFloat NetIP Events Api BoundedFifo TunnelFlood SourceFlood Blocklist PodIPIndex.
From Stdlib Require Import SpecFloat.

Local Open Scope Z_scope.

Definition protocolFromSignal (p : Z) : Protocol :=
  if p =? SignalProtoGTPU then ProtocolGTPU
  else if p =? SignalProtoSIP then ProtocolSIP
  else if p =? SignalProtoPortScan then ProtocolPortScan
  else ProtocolUnknown.

(** [SignalRateLookup]: the count, when there is one. *)
Definition SignalRateLookup : Type := net_IP → Z → option Z.

(** [uuid.NewString()] is the argument [id]. An address without an entry reads
    as the zero [PodRef]. *)
Definition FromSignalingEvent (evt : SignalingEvent) (podIndex : PodIPIndex)
    (rateLookup : SignalRateLookup) (nodeName id : string) : NormalizedEvent :=
  let ref := default {| nn_Namespace := ""; nn_Name := "" |}
               (PodIPIndex_Lookup podIndex (IPString (se_SourceIP evt))) in
  let ratePerSecond :=
    match rateLookup (se_SourceIP evt) (se_DestPort evt) with
    | Some count => f64_of_Z count
    | None => f64_zero
    end in
  {| ne_EventID := id; ne_ObservedAt := se_ObservedAt evt;
     ne_Namespace := nn_Namespace ref; ne_PodName := nn_Name ref; ne_NodeName := nodeName;
     ne_SourceIP := IPString (se_SourceIP evt); ne_DestIP := IPString (se_DestIP evt);
     ne_DestPort := se_DestPort evt; ne_Protocol := protocolFromSignal (se_Protocol evt);
     ne_PayloadSize := se_PayloadSize evt; ne_RatePerSecond := ratePerSecond;
     ne_Malformed := se_Malformed evt; ne_VLANID := se_VLANID evt; ne_TEID := se_TEID evt;
     ne_TunnelRatePerSecond := f64_of_Z (se_TunnelRate evt) |}.

(** ** The Publisher *)

Record PublisherConfig := {
  pc_Subject : string;
  pc_ThreatsSubject : string;
  pc_NodeName : string;
  pc_BatchSize : Z                (* int *)
}.

Record Publisher := {
  pub_TunnelFlood : option GTPUFloodDetector;
  pub_SourceFlood : option GTPUSourceFloodDetector;
  pub_connected : bool;           (* p.Bus.Bus() *)
  pub_batch : list NormalizedEvent
}.

(** The calls a step makes on the bus. *)
Inductive BusCall :=
  | PublishThreatScore (subject : string) (score : ThreatScoreEvent)
  | PublishNormalizedEvent (subject : string) (evt : NormalizedEvent)
  | PublishNormalizedEventBatch (subject : string) (batch : list NormalizedEvent).

Definition batchCap (cfg : PublisherConfig) : Z :=
  if pc_BatchSize cfg <? 1 then 1 else pc_BatchSize cfg.

Definition set_batch (b : list NormalizedEvent) (p : Publisher) : Publisher :=
  {| pub_TunnelFlood := pub_TunnelFlood p; pub_SourceFlood := pub_SourceFlood p;
     pub_connected := pub_connected p; pub_batch := b |}.

(** [flush]: the buffer is emptied whether or not the bus is there. *)
Definition flush (cfg : PublisherConfig) (p : Publisher) : list BusCall * Publisher :=
  match pub_batch p with
  | [] => ([], p)
  | batch =>
      (if pub_connected p then [PublishNormalizedEventBatch (pc_Subject cfg) batch] else [],
       set_batch [] p)
  end.

Definition evaluateTunnelFlood (cfg : PublisherConfig) (normalized : NormalizedEvent) (now : Time)
    (p : Publisher) : list BusCall * Publisher :=
  match pub_TunnelFlood p with
  | None => ([], p)
  | Some d =>
      let '(score, fired, d') := Evaluate d normalized now in
      (if fired then [PublishThreatScore (pc_ThreatsSubject cfg) score] else [],
       {| pub_TunnelFlood := Some d'; pub_SourceFlood := pub_SourceFlood p;
          pub_connected := pub_connected p; pub_batch := pub_batch p |})
  end.

Definition evaluateSourceFlood (cfg : PublisherConfig) (normalized : NormalizedEvent) (now : Time)
    (p : Publisher) : list BusCall * Publisher :=
  match pub_SourceFlood p with
  | None => ([], p)
  | Some d =>
      let '(score, observed, fired, d') := EvaluateSource d normalized now in
      (if fired then [PublishThreatScore (pc_ThreatsSubject cfg) score] else [],
       {| pub_TunnelFlood := pub_TunnelFlood p; pub_SourceFlood := Some d';
          pub_connected := pub_connected p; pub_batch := pub_batch p |})
  end.

(** What the select of [Start] can receive. An event comes with the Pod index
    and rate map of that moment, its uuid and the clock. [BusConnected] is the
    Connector's ready channel closing, which happens at most once. *)
Inductive PublisherInput :=
  | StreamEvent (evt : SignalingEvent) (podIndex : PodIPIndex) (rate : SignalRateLookup)
      (id : string) (now : Time)
  | StreamClosed
  | Tick
  | CtxDone
  | BusConnected.

(** The telemetry part of an event's case: published at once, or buffered. *)
Definition publish_telemetry (cfg : PublisherConfig) (normalized : NormalizedEvent) (p : Publisher)
    : list BusCall * Publisher :=
  if batchCap cfg <=? 1 then ([PublishNormalizedEvent (pc_Subject cfg) normalized], p)
  else
    let p := set_batch (pub_batch p ++ [normalized]) p in
    if batchCap cfg <=? Z.of_nat (length (pub_batch p)) then flush cfg p else ([], p).

(** One round of the loop: the calls made, the new state, and whether the loop
    goes on. *)
Definition Publisher_step (cfg : PublisherConfig) (i : PublisherInput) (p : Publisher)
    : list BusCall * Publisher * bool :=
  match i with
  | StreamEvent evt podIndex rate id now =>
      if negb (pub_connected p) then ([], p, true)
      else
        let normalized := FromSignalingEvent evt podIndex rate (pc_NodeName cfg) id in
        let '(c1, p1) := evaluateTunnelFlood cfg normalized now p in
        let '(c2, p2) := evaluateSourceFlood cfg normalized now p1 in
        let '(c3, p3) := publish_telemetry cfg normalized p2 in
        (c1 ++ c2 ++ c3, p3, true)
  | StreamClosed | CtxDone => let '(c, p') := flush cfg p in (c, p', false)
  | Tick => let '(c, p') := flush cfg p in (c, p', true)
  | BusConnected =>
      ([], {| pub_TunnelFlood := pub_TunnelFlood p; pub_SourceFlood := pub_SourceFlood p;
              pub_connected := true; pub_batch := pub_batch p |}, true)
  end.

Fixpoint Publisher_run (cfg : PublisherConfig) (l : list PublisherInput) (p : Publisher)
    : list BusCall * Publisher :=
  match l with
  | [] => ([], p)
  | i :: l' =>
      let '(c, p', continue) := Publisher_step cfg i p in
      if continue then let '(c', p'') := Publisher_run cfg l' p' in (c ++ c', p'') else (c, p')
  end.

(** [Start]: [stream] is what [Source.SignalingEvents] returned. *)
Definition Publisher_Start (cfg : PublisherConfig) (stream : error) (l : list PublisherInput) (p : Publisher)
    : error * list BusCall * Publisher :=
  match stream with
  | Some err => (Some (Wrap "start signaling event stream" [err]), [], p)
  | None => let '(c, p') := Publisher_run cfg l p in (None, c, p')
  end.

(** The period of the flush timer. *)
Definition flushEvery (FlushInterval : Duration) : Duration := if FlushInterval <=? 0 then Second else FlushInterval.

(** ** The buffer *)

(** Between rounds the buffer holds less than a batch, and nothing at all when
    batching is off. *)
Definition batch_ok (cfg : PublisherConfig) (p : Publisher) : Prop :=
  Z.of_nat (length (pub_batch p)) < batchCap cfg.

Lemma batchCap_pos cfg : 1 ≤ batchCap cfg.
Proof. unfold batchCap. case_match; unbool; lia. Qed.

Lemma flush_batch cfg p : pub_batch (flush cfg p).2 = [].
Proof. unfold flush. by destruct (pub_batch p) eqn:E. Qed.

Lemma evaluate_batch cfg n now p :
  pub_batch (evaluateTunnelFlood cfg n now p).2 = pub_batch p ∧
  pub_batch (evaluateSourceFlood cfg n now p).2 = pub_batch p ∧
  pub_connected (evaluateTunnelFlood cfg n now p).2 = pub_connected p ∧
  pub_connected (evaluateSourceFlood cfg n now p).2 = pub_connected p.
Proof. unfold evaluateTunnelFlood, evaluateSourceFlood. by repeat case_match. Qed.

Lemma flush_batch_ok cfg p : batch_ok cfg (flush cfg p).2.
Proof. unfold batch_ok. rewrite flush_batch. pose proof (batchCap_pos cfg). simpl. lia. Qed.

Lemma telemetry_batch_ok cfg n p : batch_ok cfg p → batch_ok cfg (publish_telemetry cfg n p).2.
Proof.
  intros Hp. unfold publish_telemetry. case_match; [done|].
  case_match eqn:E; [apply flush_batch_ok|]. unbool. done.
Qed.

Lemma step_batch_ok cfg i p : batch_ok cfg p → batch_ok cfg (Publisher_step cfg i p).1.2.
Proof.
  intros Hp. destruct i as [evt idx rate id now| | | |]; simpl; [|..|done].
  2-4: pose proof (flush_batch_ok cfg p) as Hf; by destruct (flush cfg p).
  destruct (pub_connected p); simpl; [|done]. set (n := FromSignalingEvent _ _ _ _ _).
  pose proof (evaluate_batch cfg n now p) as (H1 & _).
  destruct (evaluateTunnelFlood cfg n now p) as [c1 p1].
  pose proof (evaluate_batch cfg n now p1) as (_ & H2 & _).
  destruct (evaluateSourceFlood cfg n now p1) as [c2 p2].
  pose proof (telemetry_batch_ok cfg n p2) as H3. unfold batch_ok in *. simpl in *.
  rewrite H2, H1 in H3. specialize (H3 Hp). by destruct (publish_telemetry cfg n p2).
Qed.

(** ** Detection does not depend on batching *)

Definition is_score (c : BusCall) : bool := match c with PublishThreatScore _ _ => true | _ => false end.

(** Two Publishers that agree on everything but the buffer. *)
Definition same_detection (p q : Publisher) : Prop :=
  pub_TunnelFlood p = pub_TunnelFlood q ∧ pub_SourceFlood p = pub_SourceFlood q ∧
  pub_connected p = pub_connected q.

Lemma set_batch_detection b p : same_detection (set_batch b p) p.
Proof. done. Qed.

Lemma flush_detection cfg p : same_detection (flush cfg p).2 p ∧ filter (λ c, is_score c = true) (flush cfg p).1 = [].
Proof. unfold flush. destruct (pub_batch p); [done|]. simpl. by destruct (pub_connected p). Qed.

Lemma telemetry_detection cfg n p :
  same_detection (publish_telemetry cfg n p).2 p ∧
  filter (λ c, is_score c = true) (publish_telemetry cfg n p).1 = [].
Proof.
  unfold publish_telemetry. case_match; [done|]. case_match; [|done].
  destruct (flush_detection cfg (set_batch (pub_batch p ++ [n]) p)) as [(? & ? & ?) ?]. done.
Qed.

(** The two configurations differ at most in the batch size. *)
Definition with_batch (n : Z) (cfg : PublisherConfig) : PublisherConfig :=
  {| pc_Subject := pc_Subject cfg; pc_ThreatsSubject := pc_ThreatsSubject cfg;
     pc_NodeName := pc_NodeName cfg; pc_BatchSize := n |}.

Lemma evaluate_detection cfg k n now p q : same_detection p q →
  (let r := evaluateTunnelFlood cfg n now p in
   let r' := evaluateTunnelFlood (with_batch k cfg) n now q in same_detection r.2 r'.2 ∧ r.1 = r'.1) ∧
  (let r := evaluateSourceFlood cfg n now p in
   let r' := evaluateSourceFlood (with_batch k cfg) n now q in same_detection r.2 r'.2 ∧ r.1 = r'.1).
Proof.
  intros (Ht & Hs & Hc). unfold evaluateTunnelFlood, evaluateSourceFlood, same_detection.
  rewrite <- Ht, <- Hs. split; cbv zeta.
  - destruct (pub_TunnelFlood p) as [d|] eqn:E; [|simpl; by rewrite <- Ht, <- Hs, <- Hc, E].
    by destruct (Evaluate d n now) as [[s f] d'].
  - destruct (pub_SourceFlood p) as [d|] eqn:E; [|simpl; by rewrite <- Ht, <- Hs, <- Hc, E].
    by destruct (EvaluateSource d n now) as [[[s o] f] d'].
Qed.

Lemma step_detection cfg k i p q : same_detection p q →
  let r := Publisher_step cfg i p in let r' := Publisher_step (with_batch k cfg) i q in
  same_detection r.1.2 r'.1.2 ∧ r.2 = r'.2 ∧
  filter (λ c, is_score c = true) r.1.1 = filter (λ c, is_score c = true) r'.1.1.
Proof.
  intros Hd. assert (Hflush : same_detection (flush cfg p).2 (flush (with_batch k cfg) q).2 ∧
    filter (λ c, is_score c = true) (flush cfg p).1 = filter (λ c, is_score c = true) (flush (with_batch k cfg) q).1).
  { destruct (flush_detection cfg p) as [(A1 & A2 & A3) ->].
    destruct (flush_detection (with_batch k cfg) q) as [(B1 & B2 & B3) ->].
    destruct Hd as (? & ? & ?). unfold same_detection. repeat split; congruence. }
  destruct i as [evt idx rate id now| | | |]; simpl;
    [|destruct (flush cfg p), (flush _ q); by simpl in *; split; [apply Hflush|split; [done|apply Hflush]]..|].
  2:{ destruct Hd as (? & ? & ?). done. }
  pose proof Hd as (_ & _ & Hc). rewrite <- Hc. destruct (pub_connected p); simpl; [|done].
  set (n := FromSignalingEvent _ _ _ _ _). clear Hflush.
  destruct (evaluate_detection cfg k n now p q Hd) as [[Hd1 Hc1] _].
  destruct (evaluateTunnelFlood cfg n now p) as [c1 p1], (evaluateTunnelFlood _ n now q) as [c1' q1].
  destruct (evaluate_detection cfg k n now p1 q1 Hd1) as [_ [Hd2 Hc2]]. simpl in *.
  destruct (evaluateSourceFlood cfg n now p1) as [c2 p2], (evaluateSourceFlood _ n now q1) as [c2' q2].
  destruct (telemetry_detection cfg n p2) as [(A1 & A2 & A3) A4].
  destruct (telemetry_detection (with_batch k cfg) n q2) as [(B1 & B2 & B3) B4].
  destruct (publish_telemetry cfg n p2) as [c3 p3], (publish_telemetry _ n q2) as [c3' q3]. simpl in *.
  destruct Hd2 as (? & ? & ?). subst. rewrite !filter_app, A4, B4. unfold same_detection.
  repeat split; congruence.
Qed.

(** C33: Batching the telemetry never delays or changes detection: for any two
    batch sizes and the same inputs, the Publisher publishes the same threat
    scores in the same order. *)
Theorem detection_independent_of_batching cfg k l p :
  filter (λ c, is_score c = true) (Publisher_run cfg l p).1 =
  filter (λ c, is_score c = true) (Publisher_run (with_batch k cfg) l p).1.
Proof.
  assert (Hgen : ∀ q, same_detection p q →
    filter (λ c, is_score c = true) (Publisher_run cfg l p).1 =
    filter (λ c, is_score c = true) (Publisher_run (with_batch k cfg) l q).1); [|by apply Hgen].
  revert p. induction l as [|i l IH]; intros p q Hd; [done|]. simpl.
  pose proof (step_detection cfg k i p q Hd) as (Hd' & Hb & Hc).
  destruct (Publisher_step cfg i p) as [[c p'] b], (Publisher_step _ i q) as [[c' q'] b']. simpl in *.
  subst b'. destruct b; [|done]. specialize (IH p' q' Hd').
  destruct (Publisher_run cfg l p'), (Publisher_run _ l q'). simpl in *. rewrite !filter_app. congruence.
Qed.

(** ** Telemetry is complete *)

Definition telemetry_of (c : BusCall) : list NormalizedEvent :=
  match c with
  | PublishThreatScore _ _ => []
  | PublishNormalizedEvent _ e => [e]
  | PublishNormalizedEventBatch _ b => b
  end.
Definition telemetry (l : list BusCall) : list NormalizedEvent := concat (telemetry_of <$> l).

Lemma telemetry_app l k : telemetry (l ++ k) = telemetry l ++ telemetry k.
Proof. unfold telemetry. by rewrite fmap_app, concat_app. Qed.

(** The events an input stands for. *)
Definition input_events (cfg : PublisherConfig) (i : PublisherInput) : list NormalizedEvent :=
  match i with
  | StreamEvent evt idx rate id _ => [FromSignalingEvent evt idx rate (pc_NodeName cfg) id]
  | _ => []
  end.

Definition ends (i : PublisherInput) : bool :=
  match i with StreamClosed | CtxDone => true | _ => false end.

(** A batch message is never empty and never longer than a batch. *)
Definition batch_sized (cfg : PublisherConfig) (c : BusCall) : Prop :=
  match c with
  | PublishNormalizedEventBatch _ b => 0 < Z.of_nat (length b) ≤ batchCap cfg
  | _ => True
  end.

Lemma flush_telemetry cfg p : pub_connected p = true → telemetry (flush cfg p).1 = pub_batch p.
Proof.
  intros Hc. unfold flush. destruct (pub_batch p); [done|]. rewrite Hc. unfold telemetry. simpl. by rewrite app_nil_r.
Qed.

Lemma flush_sized cfg p : Z.of_nat (length (pub_batch p)) ≤ batchCap cfg → Forall (batch_sized cfg) (flush cfg p).1.
Proof.
  intros Hb. unfold flush. destruct (pub_batch p) as [|e b] eqn:E; [constructor|]. simpl.
  destruct (pub_connected p); [|constructor]. repeat constructor; simpl in *; lia.
Qed.

Lemma evaluate_telemetry cfg n now p :
  telemetry (evaluateTunnelFlood cfg n now p).1 = [] ∧ telemetry (evaluateSourceFlood cfg n now p).1 = [] ∧
  Forall (batch_sized cfg) (evaluateTunnelFlood cfg n now p).1 ∧
  Forall (batch_sized cfg) (evaluateSourceFlood cfg n now p).1.
Proof. unfold evaluateTunnelFlood, evaluateSourceFlood. repeat case_match; simpl; repeat constructor. Qed.

Lemma publish_telemetry_spec cfg n p : pub_connected p = true → batch_ok cfg p →
  let r := publish_telemetry cfg n p in
  telemetry r.1 ++ pub_batch r.2 = pub_batch p ++ [n] ∧ pub_connected r.2 = true ∧
  Forall (batch_sized cfg) r.1.
Proof.
  intros Hc Hb. unfold publish_telemetry. cbv zeta. destruct (batchCap cfg <=? 1) eqn:E1.
  - simpl. unbool. unfold batch_ok in Hb. destruct (pub_batch p) as [|e b]; simpl in *; [|lia].
    split; [done|]. split; [done|]. by repeat constructor.
  - set (p1 := set_batch (pub_batch p ++ [n]) p).
    assert (Hc1 : pub_connected p1 = true) by done.
    destruct (batchCap cfg <=? Z.of_nat (length (pub_batch p1))) eqn:E2; simpl.
    + rewrite flush_telemetry, flush_batch, app_nil_r by done. split; [done|]. split.
      * unfold flush. by destruct (pub_batch p1).
      * apply flush_sized. unfold p1, batch_ok in *. simpl. rewrite length_app. simpl. lia.
    + split; [done|]. split; [done|constructor].
Qed.

Lemma step_telemetry cfg i p : pub_connected p = true → batch_ok cfg p → ends i = false →
  let r := Publisher_step cfg i p in
  telemetry r.1.1 ++ pub_batch r.1.2 = pub_batch p ++ input_events cfg i ∧ r.2 = true ∧
  pub_connected r.1.2 = true ∧ Forall (batch_sized cfg) r.1.1.
Proof.
  intros Hc Hb He. destruct i as [evt idx rate id now| | | |]; try done; simpl.
  - rewrite Hc. simpl. set (n := FromSignalingEvent _ _ _ _ _).
    destruct (evaluate_telemetry cfg n now p) as (T1 & _ & S1 & _).
    destruct (evaluate_batch cfg n now p) as (B1 & _ & C1 & _).
    destruct (evaluateTunnelFlood cfg n now p) as [c1 p1]. simpl in *.
    destruct (evaluate_telemetry cfg n now p1) as (_ & T2 & _ & S2).
    destruct (evaluate_batch cfg n now p1) as (_ & B2 & _ & C2).
    destruct (evaluateSourceFlood cfg n now p1) as [c2 p2]. simpl in *.
    destruct (publish_telemetry_spec cfg n p2) as (T3 & C3 & S3);
      [congruence|unfold batch_ok in *; congruence|].
    destruct (publish_telemetry cfg n p2) as [c3 p3]. simpl in *.
    rewrite !telemetry_app, T1, T2. simpl. rewrite T3, B2, B1. split; [done|]. split; [done|].
    split; [done|]. by repeat apply Forall_app_2.
  - pose proof (flush_telemetry cfg p Hc) as Ht. pose proof (flush_batch cfg p) as Hfb.
    assert (Hfc : pub_connected (flush cfg p).2 = true) by (unfold flush; by destruct (pub_batch p)).
    pose proof (flush_sized cfg p) as Hs. destruct (flush cfg p) as [c p']. simpl in *.
    rewrite Hfb, Ht, !app_nil_r. split; [done|]. split; [done|]. split; [done|]. apply Hs.
    unfold batch_ok in Hb. lia.
  - rewrite app_nil_r. split; [done|]. split; [done|]. split; [done|constructor].
Qed.

(** Once connected, the Publisher loses and reorders nothing: a run that
    ends with the stream closing or the context ending has published exactly
    the events it received, in order, in batches of one to the configured size,
    and leaves nothing in its buffer. *)
Theorem telemetry_complete cfg l stop p :
  pub_connected p = true → pub_batch p = [] → Forall (λ i, ends i = false) l → ends stop = true →
  let r := Publisher_run cfg (l ++ [stop]) p in
  telemetry r.1 = concat (input_events cfg <$> l) ∧ pub_batch r.2 = [] ∧ Forall (batch_sized cfg) r.1.
Proof.
  intros Hc Hb Hl Hstop. assert (Hgen : batch_ok cfg p → let r := Publisher_run cfg (l ++ [stop]) p in
    telemetry r.1 = pub_batch p ++ concat (input_events cfg <$> l) ∧ pub_batch r.2 = [] ∧
    Forall (batch_sized cfg) r.1).
  2:{ rewrite Hb in Hgen. apply Hgen. unfold batch_ok. rewrite Hb. pose proof (batchCap_pos cfg). simpl. lia. }
  clear Hb. revert p Hc. induction l as [|i l IH]; intros p Hc Hb.
  - simpl. rewrite app_nil_r. assert (Hs : Publisher_step cfg stop p = (flush cfg p, false)).
    { destruct stop; try done; simpl; by destruct (flush cfg p). }
    rewrite Hs. pose proof (flush_telemetry cfg p Hc). pose proof (flush_batch cfg p).
    pose proof (flush_sized cfg p) as Hz. unfold batch_ok in Hb. destruct (flush cfg p). simpl in *.
    split; [done|]. split; [done|]. apply Hz. lia.
  - apply Forall_cons in Hl as [Hi Hl]. simpl. 
    destruct (step_telemetry cfg i p Hc Hb Hi) as (Ht & Hr & Hc' & Hs).
    pose proof (step_batch_ok cfg i p Hb) as Hb'.
    destruct (Publisher_step cfg i p) as [[c p'] b]. simpl in *. subst b.
    destruct (IH Hl p' Hc' Hb') as (Ht' & Hb'' & Hs').
    destruct (Publisher_run cfg (l ++ [stop]) p') as [c' p'']. simpl in *.
    rewrite telemetry_app, Ht'. rewrite (assoc_L (++)), Ht, <- (assoc_L (++)).
    split; [done|]. split; [done|]. by apply Forall_app_2.
Qed.

(** ** The properties at work *)

Module IngestionSample.

Definition cfg : PublisherConfig :=
  {| pc_Subject := "events"; pc_ThreatsSubject := "threats"; pc_NodeName := "n1"; pc_BatchSize := 2 |}.

Definition record (port : Z) : SignalingEvent :=
  {| se_ObservedAt := 5; se_SourceIP := [10; 0; 0; 9]; se_DestIP := [10; 0; 0; 1]; se_DestPort := port;
     se_PayloadSize := 64; se_Protocol := SignalProtoGTPU; se_Malformed := false; se_VLANID := 0;
     se_TEID := 7; se_TunnelRate := 150 |}.

Definition input (port : Z) (id : string) : PublisherInput :=
  StreamEvent (record port) NewPodIPIndex (λ _ _, None) id 10.

Definition start : Publisher :=
  {| pub_TunnelFlood := Some TunnelFloodSample.sample_detector;
     pub_SourceFlood := None; pub_connected := true; pub_batch := [] |}.

Definition inputs : list PublisherInput := [input 1 "a"; Tick; input 2 "b"; input 3 "c"; input 4 "d"].

Lemma telemetry_complete_witness :
  ne_EventID <$> telemetry (Publisher_run cfg (inputs ++ [CtxDone]) start).1 = ["a"; "b"; "c"; "d"] ∧
  length (Publisher_run cfg (inputs ++ [CtxDone]) start).1 = 4%nat.
Proof.
  split; [|vm_compute; reflexivity].
  destruct (telemetry_complete cfg inputs CtxDone start) as [-> _];
    [reflexivity|reflexivity|repeat constructor|reflexivity|reflexivity].
Defined.

(** One score, published before the telemetry of the packet that triggered it. *)
Example one_score :
  filter (λ c, is_score c = true) (Publisher_run cfg (inputs ++ [CtxDone]) start).1 =
  [PublishThreatScore "threats" (Evaluate TunnelFloodSample.sample_detector
     (FromSignalingEvent (record 1) NewPodIPIndex (λ _ _, None) "n1" "a") 10).1.1].
Proof. vm_compute. reflexivity. Qed.

End IngestionSample.
