(* ===== verification/World.v ===== *)
(** * World: the state the controllers share

    ThreatScoreWatcher and Reconciler run against the API server, the eBPF
    blocklist, the service mesh and the operator's own in-memory components.
    [World] is that state; the API server and the mesh are outside the source
    and are the classes [ApiServer] and [MeshAdapter], with what the code relies on
    in [ApiSpec]. Policies are read through the manager's cache: what they show
    is in [StatusHistory] (something etcd has held) and, for a synced cache, in
    [SyncedList]. [clock n] is the n-th reading of [time.Now]. *)

From S2P Require Import Prelude Api Blocklist PolicyIndex KillSwitch ReactorLimiter ScoringPipeline Metrics.

Local Open Scope Z_scope.
Local Open Scope go_scope.

(** ** The API server *)

(** A [metav1.Time] travels as RFC 3339, in whole seconds: what a status looks
    like once it has been written to the API server and read back. *)
Definition wire_status (s : TelecomSecurityPolicyStatus) : TelecomSecurityPolicyStatus :=
  with_mitigation_time ((λ t, t / Second * Second) <$> st_LastMitigationTime s) s.

(** Every request may fail, and a read may advance whatever decides the next
    failure; the policies in etcd are [api_policies]. *)
Class ApiServer (A : Type) := {
  api_GetPod : NamespacedName → A → result (gmap string string) * A;   (* the Pod's labels *)
  api_GetPolicy : NamespacedName → A → result TelecomSecurityPolicy * A;
  api_ListPolicies : A → result (list TelecomSecurityPolicy) * A;
  api_UpdateStatus : TelecomSecurityPolicy → A → result TelecomSecurityPolicy * A;
  api_Update : TelecomSecurityPolicy → A → result TelecomSecurityPolicy * A;
  api_GetKillSwitch : A → result (gmap string string) * A
}.

Class ApiSpec (A : Type) `{ApiServer A} := {
  api_policies : A → gmap NamespacedName TelecomSecurityPolicy;

  (* reads change no policy *)
  GetPod_frame k a : api_policies (api_GetPod k a).2 = api_policies a;
  GetPolicy_frame k a : api_policies (api_GetPolicy k a).2 = api_policies a;
  ListPolicies_frame a : api_policies (api_ListPolicies a).2 = api_policies a;
  GetKillSwitch_frame a : api_policies (api_GetKillSwitch a).2 = api_policies a;

  (* an object is known by its own name *)
  GetPolicy_key k a p : (api_GetPolicy k a).1 = Ok p → pol_key p = k;
  policies_keyed a k p : api_policies a !! k = Some p → pol_key p = k;

  (* the status subresource: only the status of the stored object changes, and
     the response is the stored object *)
  UpdateStatus_ok p a q a' : api_UpdateStatus p a = (Ok q, a') →
    ∃ old, api_policies a !! pol_key p = Some old ∧ q = set_status old (wire_status (pol_Status p)) ∧
      api_policies a' = <[pol_key p := q]> (api_policies a);
  (* a failed request may or may not have been committed *)
  UpdateStatus_err p a e a' : api_UpdateStatus p a = (Fail e, a') →
    api_policies a' = api_policies a ∨
    ∃ old, api_policies a !! pol_key p = Some old ∧
      api_policies a' = <[pol_key p := set_status old (wire_status (pol_Status p))]> (api_policies a);
  (* a conflict is a rejection *)
  UpdateStatus_conflict p a e a' : api_UpdateStatus p a = (Fail e, a') →
    errors_Is e ErrConflict = true → api_policies a' = api_policies a;
  (* a plain update changes everything but the status; removing the last
     finalizer of a deleted object removes it *)
  Update_ok p a q a' : api_Update p a = (Ok q, a') →
    ∃ old, api_policies a !! pol_key p = Some old ∧ q = set_status p (pol_Status old) ∧
      (api_policies a' = <[pol_key p := q]> (api_policies a) ∨
       (deletion_is_zero q = false ∧ om_Finalizers (pol_Meta q) = [] ∧
        api_policies a' = delete (pol_key p) (api_policies a)));
  Update_other p a r a' k : api_Update p a = (r, a') → k ≠ pol_key p →
    api_policies a' !! k = api_policies a !! k
}.

(** [ApiSpec] says nothing of what a read of a policy returns: the controllers
    read through the manager's informer cache, which lags the API server. All
    that is known of such a read is that it shows a state the server has been
    in. [api_recorded a s] says that some policy has had the status [s] in etcd,
    now or at an earlier time; no request makes that untrue. *)
Class StatusHistory (A : Type) `{ApiSpec A} := {
  api_recorded : A → TelecomSecurityPolicyStatus → Prop;
  recorded_now a k p : api_policies a !! k = Some p → api_recorded a (pol_Status p);

  recorded_GetPod k a s : api_recorded a s → api_recorded (api_GetPod k a).2 s;
  recorded_GetPolicy k a s : api_recorded a s → api_recorded (api_GetPolicy k a).2 s;
  recorded_ListPolicies a s : api_recorded a s → api_recorded (api_ListPolicies a).2 s;
  recorded_UpdateStatus p a s : api_recorded a s → api_recorded (api_UpdateStatus p a).2 s;
  recorded_Update p a s : api_recorded a s → api_recorded (api_Update p a).2 s;
  recorded_GetKillSwitch a s : api_recorded a s → api_recorded (api_GetKillSwitch a).2 s;

  GetPolicy_recorded k a p : (api_GetPolicy k a).1 = Ok p → api_recorded a (pol_Status p);
  ListPolicies_recorded a l p : (api_ListPolicies a).1 = Ok l → p ∈ l → api_recorded a (pol_Status p)
}.

(** A cache that has synced: a List then returns every policy in etcd. The
    manager waits for this before it starts the watcher (the comment in
    [ThreatScoreWatcher.Start]); only the theorem about that start assumes it. *)
Class SyncedList (A : Type) `{ApiSpec A} := {
  ListPolicies_ok a l : (api_ListPolicies a).1 = Ok l → l ≡ₚ (map_to_list (api_policies a)).*2
}.

(** ** The service mesh (pkg/mesh.Adapter) *)

Class MeshAdapter (Ms : Type) := {
  Quarantine : string → gmap string string → Ms → error * Ms;
  Release : string → gmap string string → Ms → error * Ms
}.

(** ** The shared state *)

Record World (A B Ms L : Type) := {
  w_api : A;
  w_block : B;
  w_mesh : Ms;
  w_index : PolicyIndex;
  w_scoring : option ScoringPipelineTracker;
  w_killswitch : option KillSwitch;
  w_limiter : option (ReactorLimiter L);
  w_metrics : Registry;
  w_events : list string;       (* reasons of the Events recorded *)
  w_tick : nat
}.
Arguments w_api {A B Ms L} _.
Arguments w_block {A B Ms L} _.
Arguments w_mesh {A B Ms L} _.
Arguments w_index {A B Ms L} _.
Arguments w_scoring {A B Ms L} _.
Arguments w_killswitch {A B Ms L} _.
Arguments w_limiter {A B Ms L} _.
Arguments w_metrics {A B Ms L} _.
Arguments w_events {A B Ms L} _.
Arguments w_tick {A B Ms L} _.

Section World.
Context {A B Ms L : Type}.
Context `{ApiServer A} `{BlocklistUpdater B} `{MeshAdapter Ms} `{RateLimiter L}.
Context (clock : nat → Time).

Abbreviation W := (World A B Ms L).

Definition set_api (a : A) (w : W) : W :=
  {| w_api := a; w_block := w_block w; w_mesh := w_mesh w; w_index := w_index w;
     w_scoring := w_scoring w; w_killswitch := w_killswitch w; w_limiter := w_limiter w;
     w_metrics := w_metrics w; w_events := w_events w; w_tick := w_tick w |}.
Definition set_block (b : B) (w : W) : W :=
  {| w_api := w_api w; w_block := b; w_mesh := w_mesh w; w_index := w_index w;
     w_scoring := w_scoring w; w_killswitch := w_killswitch w; w_limiter := w_limiter w;
     w_metrics := w_metrics w; w_events := w_events w; w_tick := w_tick w |}.
Definition set_mesh (m : Ms) (w : W) : W :=
  {| w_api := w_api w; w_block := w_block w; w_mesh := m; w_index := w_index w;
     w_scoring := w_scoring w; w_killswitch := w_killswitch w; w_limiter := w_limiter w;
     w_metrics := w_metrics w; w_events := w_events w; w_tick := w_tick w |}.
Definition set_index (i : PolicyIndex) (w : W) : W :=
  {| w_api := w_api w; w_block := w_block w; w_mesh := w_mesh w; w_index := i;
     w_scoring := w_scoring w; w_killswitch := w_killswitch w; w_limiter := w_limiter w;
     w_metrics := w_metrics w; w_events := w_events w; w_tick := w_tick w |}.
Definition set_scoring (s : option ScoringPipelineTracker) (w : W) : W :=
  {| w_api := w_api w; w_block := w_block w; w_mesh := w_mesh w; w_index := w_index w;
     w_scoring := s; w_killswitch := w_killswitch w; w_limiter := w_limiter w;
     w_metrics := w_metrics w; w_events := w_events w; w_tick := w_tick w |}.
Definition set_killswitch (k : option KillSwitch) (w : W) : W :=
  {| w_api := w_api w; w_block := w_block w; w_mesh := w_mesh w; w_index := w_index w;
     w_scoring := w_scoring w; w_killswitch := k; w_limiter := w_limiter w;
     w_metrics := w_metrics w; w_events := w_events w; w_tick := w_tick w |}.
Definition set_limiter (l : option (ReactorLimiter L)) (w : W) : W :=
  {| w_api := w_api w; w_block := w_block w; w_mesh := w_mesh w; w_index := w_index w;
     w_scoring := w_scoring w; w_killswitch := w_killswitch w; w_limiter := l;
     w_metrics := w_metrics w; w_events := w_events w; w_tick := w_tick w |}.
Definition set_metrics (r : Registry) (w : W) : W :=
  {| w_api := w_api w; w_block := w_block w; w_mesh := w_mesh w; w_index := w_index w;
     w_scoring := w_scoring w; w_killswitch := w_killswitch w; w_limiter := w_limiter w;
     w_metrics := r; w_events := w_events w; w_tick := w_tick w |}.
Definition set_events (l : list string) (w : W) : W :=
  {| w_api := w_api w; w_block := w_block w; w_mesh := w_mesh w; w_index := w_index w;
     w_scoring := w_scoring w; w_killswitch := w_killswitch w; w_limiter := w_limiter w;
     w_metrics := w_metrics w; w_events := l; w_tick := w_tick w |}.
Definition set_tick (n : nat) (w : W) : W :=
  {| w_api := w_api w; w_block := w_block w; w_mesh := w_mesh w; w_index := w_index w;
     w_scoring := w_scoring w; w_killswitch := w_killswitch w; w_limiter := w_limiter w;
     w_metrics := w_metrics w; w_events := w_events w; w_tick := n |}.

(** ** The effects the controllers use *)

Definition now : M W Time := λ w, (Ok (clock (w_tick w)), set_tick (S (w_tick w)) w).

Definition api {X} (f : A → result X * A) : M W X :=
  λ w, let '(r, a) := f (w_api w) in (r, set_api a w).

(** A blocklist or mesh call: its error, as a value. *)
Definition block (f : B → error * B) : M W error :=
  λ w, let '(e, b) := f (w_block w) in (Ok e, set_block b w).
Definition mesh (f : Ms → error * Ms) : M W error :=
  λ w, let '(e, m) := f (w_mesh w) in (Ok e, set_mesh m w).

Definition metric (f : Registry → Registry) : M W unit :=
  λ w, (Ok tt, set_metrics (f (w_metrics w)) w).

Definition index_Put (p : TelecomSecurityPolicy) : M W unit :=
  λ w, (Ok tt, set_index (PolicyIndex_Put p (w_index w)) w).
Definition index_Remove (k : NamespacedName) : M W unit :=
  λ w, (Ok tt, set_index (PolicyIndex_Remove k (w_index w)) w).

Definition record_event (reason : string) : M W unit :=
  λ w, (Ok tt, set_events (w_events w ++ [reason]) w).

(** [w.ActionLimiter.Allow(key)]; a nil limiter reads no clock. *)
Definition limiter_Allow (key : NamespacedName) : M W bool :=
  λ w, let '(ok, l) := Allow (clock (w_tick w)) key (w_limiter w) in
       (Ok ok, set_limiter l (set_tick (match w_limiter w with Some _ => S (w_tick w) | None => w_tick w end) w)).

(** [w.KillSwitch.Engaged(ctx)]: the clock is read before the Get only when a
    value is cached, and after it; the gauge is set when the API was read. *)
Definition killswitch_Engaged : M W bool :=
  λ w,
    match w_killswitch w with
    | None => (Ok false, w)
    | Some k =>
        if negb (ks_Reader k) then (Ok false, w)
        else
          let now1 := clock (w_tick w) in
          let w1 := if ks_everRead k then set_tick (S (w_tick w)) w else w in
          if cached k now1 then (Ok (ks_engaged k), w1)
          else
            let '(get, a) := api_GetKillSwitch (w_api w1) in
            let now2 := clock (w_tick w1) in
            let '(eng, k', _) := Engaged now1 now2 get (Some k) in
            (Ok eng,
             set_metrics (metric_Set KillSwitchEngaged [] (boolToFloat eng) (w_metrics w1))
               (set_killswitch k' (set_api a (set_tick (S (w_tick w1)) w1))))
    end.

(** ** Frames: what an effect leaves alone *)

Definition same_enforcement (w w' : W) : Prop := w_block w' = w_block w ∧ w_mesh w' = w_mesh w.

#[export] Instance same_enforcement_preorder : PreOrder same_enforcement.
Proof. split; [by split|]. intros x y z [] []. split; congruence. Qed.

Lemma now_frame w : same_enforcement w (now w).2 ∧ w_api (now w).2 = w_api w ∧ w_index (now w).2 = w_index w.
Proof. done. Qed.

Lemma api_frame {X} (f : A → result X * A) w : same_enforcement w (api f w).2.
Proof. unfold api. by destruct (f (w_api w)). Qed.

Lemma limiter_Allow_frame k w : ∃ b w', limiter_Allow k w = (Ok b, w') ∧
  same_enforcement w w' ∧ w_api w' = w_api w ∧ w_index w' = w_index w ∧
  w_metrics w' = w_metrics w ∧ w_scoring w' = w_scoring w.
Proof.
  unfold limiter_Allow. destruct (Allow _ _ _) as [b l]. by eexists _, _.
Qed.

Lemma killswitch_Engaged_frame w : ∃ b w', killswitch_Engaged w = (Ok b, w') ∧
  same_enforcement w w' ∧ w_index w' = w_index w.
Proof.
  unfold killswitch_Engaged. repeat case_match; by eexists _, _.
Qed.
End World.

Arguments same_enforcement {A B Ms L} _ _.

(** The status etcd holds for a policy. *)
Definition stored {A B Ms L} `{ApiSpec A} (w : World A B Ms L) (k : NamespacedName) :
    option TelecomSecurityPolicyStatus :=
  pol_Status <$> api_policies (w_api w) !! k.

(** ** Inversion of computations *)

Lemma mbind_inv {W X Y} (m : M W X) (k : X → M W Y) w r w' :
  mbind m k w = (r, w') →
  (∃ x w1, m w = (Ok x, w1) ∧ k x w1 = (r, w')) ∨ (∃ e, m w = (Fail e, w') ∧ r = Fail e).
Proof. unfold mbind. destruct (m w) as [[x|e] w1]; [left|right]; naive_solver. Qed.

(** Splits a hypothesis [mbind m k w = (r, w')] into its two outcomes. *)
Ltac minv H :=
  let E := fresh "E" in
  apply mbind_inv in H as [(? & ? & E & H)|(? & E & ?)].
