(* ===== verification/Bus.v ===== *)
(** * Bus: the NATS connection (pkg/events/nats.go, connector.go)

    [Connect] dials, opens JetStream and ensures the stream exists, closing the
    connection on every failure; [Connector.Run] retries it with exponential
    backoff; [on_message] is the callback of [SubscribeThreatScores], which
    decides between Ack, Nak and Term. The NATS client is the parameter
    [NatsLib], with the promises of [NatsSpec]. *)

From S2P Require Import Prelude GoStrings Events World.

Local Open Scope Z_scope.
Local Open Scope go_scope.

Record BusConfig := {
  bc_URL : string;
  bc_StreamName : string;
  bc_EventsSubject : string;
  bc_ThreatsSubject : string;
  bc_ConnectTimeout : Duration;
  bc_CredentialsFile : string;
  bc_Username : string;
  bc_Password : string;
  bc_TLSCAFile : string;
  bc_TLSCertFile : string;
  bc_TLSKeyFile : string
}.

(** The [nats.Option]s the code passes. *)
Inductive NatsOption :=
  | Timeout (d : Duration)
  | RetryOnFailedConnect (b : bool)
  | MaxReconnects (n : Z)
  | UserCredentials (file : string)
  | UserInfo (user password : string)
  | ClientCert (cert key : string)
  | RootCAs (file : string).

Record StreamConfig := { sc_Name : string; sc_Subjects : list string; sc_MaxAge : Duration }.

(** A connection, and the JetStream context on it, is known by its handle. *)
Class NatsLib (N : Type) := {
  nats_Connect : string → list NatsOption → N → result nat * N;
  nats_JetStream : nat → N → error * N;
  nats_StreamInfo : nat → string → N → error * N;
  nats_AddStream : nat → StreamConfig → N → error * N;
  nats_Close : nat → N → N
}.

Section Connect.
Context {N : Type} `{NatsLib N}.

Definition connect_options (cfg : BusConfig) : list NatsOption :=
  [Timeout (bc_ConnectTimeout cfg); RetryOnFailedConnect true; MaxReconnects (-1)] ++
  (if negb (bc_CredentialsFile cfg =? "")%string then [UserCredentials (bc_CredentialsFile cfg)]
   else if negb (bc_Username cfg =? "")%string then [UserInfo (bc_Username cfg) (bc_Password cfg)]
   else []) ++
  (if negb (bc_TLSCertFile cfg =? "")%string then [ClientCert (bc_TLSCertFile cfg) (bc_TLSKeyFile cfg)] else []) ++
  (if negb (bc_TLSCAFile cfg =? "")%string then [RootCAs (bc_TLSCAFile cfg)] else []).

Definition ensureStream (js : nat) (cfg : BusConfig) : M N unit :=
  mtry (mact (nats_StreamInfo js (bc_StreamName cfg))) (λ r,
    match r with
    | Ok _ => mret tt
    | Fail _ =>
        mtry (mact (nats_AddStream js
          {| sc_Name := bc_StreamName cfg; sc_Subjects := [bc_EventsSubject cfg; bc_ThreatsSubject cfg];
             sc_MaxAge := 24 * 60 * Minute |})) (λ r,
          match r with
          | Ok _ => mret tt
          | Fail err => mfail (Wrap "create jetstream stream" [err])
          end)
    end).

(** [Connect]: the Bus is the connection's handle. *)
Definition Connect (cfg : BusConfig) : M N nat :=
  mtry (nats_Connect (bc_URL cfg) (connect_options cfg)) (λ r,
    match r with
    | Fail err => mfail (Wrap "connect to nats" [err])
    | Ok conn =>
        mtry (mact (nats_JetStream conn)) (λ r,
          match r with
          | Fail err => mmodify (nats_Close conn) ;;! mfail (Wrap "open jetstream context" [err])
          | Ok _ =>
              mtry (ensureStream conn cfg) (λ r,
                match r with
                | Fail err => mmodify (nats_Close conn) ;;! mfail err
                | Ok _ => mret conn
                end)
          end)
    end).
End Connect.

(** What the client library promises: which connections are open, and which
    streams exist on the server. *)
Class NatsSpec (N : Type) `{NatsLib N} := {
  conns : N → gset nat;
  streams : N → gset string;

  nats_Connect_ok url o n c n' : nats_Connect url o n = (Ok c, n') →
    c ∉ conns n ∧ conns n' = {[c]} ∪ conns n;
  nats_Connect_err url o n e n' : nats_Connect url o n = (Fail e, n') → conns n' = conns n;
  nats_JetStream_frame c n e n' : nats_JetStream c n = (e, n') → conns n' = conns n;
  nats_StreamInfo_frame c s n e n' : nats_StreamInfo c s n = (e, n') → conns n' = conns n;
  nats_StreamInfo_ok c s n n' : nats_StreamInfo c s n = (None, n') → s ∈ streams n';
  nats_AddStream_frame c s n e n' : nats_AddStream c s n = (e, n') → conns n' = conns n;
  nats_AddStream_ok c s n n' : nats_AddStream c s n = (None, n') → sc_Name s ∈ streams n';
  nats_Close_conns c n : conns (nats_Close c n) = conns n ∖ {[c]}
}.

Section ConnectSpec.
Context {N : Type} `{HN : NatsLib N} `{HS : !NatsSpec N}.

Lemma ensureStream_spec js cfg (n : N) r n' : ensureStream js cfg n = (r, n') →
  conns n' = conns n ∧ (is_Ok r = true → bc_StreamName cfg ∈ streams n').
Proof using Type.
  unfold ensureStream, mtry, mact. destruct (nats_StreamInfo js _ n) as [e1 n1] eqn:E1.
  pose proof (nats_StreamInfo_frame _ _ _ _ _ E1) as F1. destruct e1 as [e1|].
  - destruct (nats_AddStream js _ n1) as [e2 n2] eqn:E2. pose proof (nats_AddStream_frame _ _ _ _ _ E2) as F2.
    destruct e2 as [e2|]; unfold mret, mfail; intros [= <- <-]; (split; [congruence|]); [done|].
    intros _. by apply nats_AddStream_ok in E2.
  - unfold mret. intros [= <- <-]. split; [done|]. intros _. by eapply nats_StreamInfo_ok.
Qed.

(** [Connect] leaks no connection: on failure, at whatever step, the open
    connections are those from before; on success there is exactly one more and
    the stream both subjects live on exists. *)
Theorem connect_no_leak cfg (n : N) r n' : Connect cfg n = (r, n') →
  match r with
  | Ok c => c ∉ conns n ∧ conns n' = {[c]} ∪ conns n ∧ bc_StreamName cfg ∈ streams n'
  | Fail _ => conns n' = conns n
  end.
Proof using Type.
  unfold Connect, mtry at 1. destruct (nats_Connect _ _ n) as [[c|e] n1] eqn:E1.
  2:{ unfold mfail. intros [= <- <-]. by eapply nats_Connect_err. }
  apply nats_Connect_ok in E1 as [Hnew Hc1].
  assert (Hclose : ∀ m, conns m = conns n1 → conns (nats_Close c m) = conns n).
  { intros m Hm. rewrite nats_Close_conns, Hm, Hc1. set_solver. }
  unfold mtry at 1, mact at 1. destruct (nats_JetStream c n1) as [e2 n2] eqn:E2.
  apply nats_JetStream_frame in E2. destruct e2 as [e2|].
  { unfold mbind, mmodify, mfail. intros [= <- <-]. by apply Hclose. }
  unfold mtry. destruct (ensureStream c cfg n2) as [r3 n3] eqn:E3.
  apply ensureStream_spec in E3 as [Hc3 Hs3]. destruct r3 as [[]|e3].
  - unfold mret. intros [= <- <-]. split; [done|]. split; [congruence|by apply Hs3].
  - unfold mbind, mmodify, mfail. intros [= <- <-]. apply Hclose. congruence.
Qed.
End ConnectSpec.

(** ** The connector *)

Definition maxBackoff : Duration := 30 * Second.

Definition next_backoff (backoff : Duration) : Duration :=
  if backoff <? maxBackoff then
    let backoff := backoff * 2 in
    if maxBackoff <? backoff then maxBackoff else backoff
  else backoff.

Record Connector := { cn_bus : option nat }.     (* ready is closed once bus is set *)

Definition NewConnector : Connector := {| cn_bus := None |}.
Definition NewConnectedConnector (bus : nat) : Connector := {| cn_bus := Some bus |}.

(** One attempt of [Run]: what [Connect] returned, and whether the context ended
    during the wait that follows a failure. *)
Record Attempt := { at_result : result nat; at_done : bool }.

(** [Run] over the attempts it gets to make: the final state and the waits it
    started. *)
Fixpoint Run (attempts : list Attempt) (backoff : Duration) (c : Connector) : Connector * list Duration :=
  match attempts with
  | [] => (c, [])
  | a :: attempts' =>
      match at_result a with
      | Ok bus => ({| cn_bus := Some bus |}, [])
      | Fail _ =>
          if at_done a then (c, [backoff])
          else let '(c', waits) := Run attempts' (next_backoff backoff) c in (c', backoff :: waits)
      end
  end.

Definition Connected (c : Connector) : bool := match cn_bus c with Some _ => true | None => false end.
Definition Connector_Bus (c : Connector) : option nat := cn_bus c.

(** [Wait]: blocks until one of the two; [None] while neither has happened. *)
Definition Wait (ctx_err : option go_error) (c : Connector) : option (result nat) :=
  match cn_bus c with
  | Some bus => Some (Ok bus)
  | None => Fail <$> ctx_err
  end.

(** The n-th wait doubles from one second up to thirty. *)
Definition backoff_at (n : nat) : Duration := Z.min (2 ^ Z.of_nat n * Second) maxBackoff.

Lemma next_backoff_at n : next_backoff (backoff_at n) = backoff_at (S n).
Proof.
  unfold next_backoff, backoff_at. rewrite Nat2Z.inj_succ, Z.pow_succ_r by lia.
  assert (0 < 2 ^ Z.of_nat n) by (apply Z.pow_pos_nonneg; lia).
  assert (Hm : maxBackoff = 30 * Second) by done. assert (Hs : Second = 1000000000) by done.
  destruct (_ <? maxBackoff) eqn:E; unbool; [destruct (maxBackoff <? _) eqn:E2; unbool|]; lia.
Qed.

Definition failed (a : Attempt) : Prop := (∃ e, at_result a = Fail e) ∧ at_done a = false.

Lemma Run_from k l a bus c : Forall failed l → at_result a = Ok bus →
  Run (l ++ [a]) (backoff_at k) c = ({| cn_bus := Some bus |}, backoff_at <$> seq k (length l)).
Proof.
  intros Hl Ha. revert k. induction l as [|x l IH]; intros k; simpl; [by rewrite Ha|].
  apply Forall_cons in Hl as [[[e He] Hd] Hl]. rewrite He, Hd, next_backoff_at, IH by done. done.
Qed.

(** However often NATS refuses, the connector keeps trying and connects on
    the first attempt that succeeds; the waits before it are 1, 2, 4, 8 and 16
    seconds and then 30 seconds each. *)
Theorem connector_retries l a bus : Forall failed l → at_result a = Ok bus →
  let r := Run (l ++ [a]) Second NewConnector in
  Connected r.1 = true ∧ Connector_Bus r.1 = Some bus ∧
  r.2 = backoff_at <$> seq 0 (length l) ∧ Forall (λ d, Second ≤ d ≤ 30 * Second) r.2.
Proof.
  intros Hl Ha. change Second with (backoff_at 0) at 1. rewrite (Run_from 0 l a bus) by done. simpl.
  split; [done|]. split; [done|]. split; [done|]. apply Forall_fmap, Forall_true. intros n.
  unfold compose, backoff_at. assert (0 < 2 ^ Z.of_nat n) by (apply Z.pow_pos_nonneg; lia).
  assert (Hm : maxBackoff = 30 * Second) by done. assert (Hs : Second = 1000000000) by done. lia.
Qed.

(** ** Deliveries *)

Definition maxThreatScoreDeliveries : Z := 5.

Inductive Disposition := Term | Nak | Ack.

(** The callback: the decoded payload, and the handler it is given to. *)
Definition on_message {W} (decoded : result ThreatScoreEvent) (handler : ThreatScoreEvent → M W unit)
    : W → Disposition * W :=
  λ w, match decoded with
       | Fail _ => (Term, w)
       | Ok event =>
           match handler event w with
           | (Fail _, w') => (Nak, w')
           | (Ok _, w') => (Ack, w')
           end
       end.

(** ** A concrete server, and the properties at work *)

Module SimNatsServers.
Record SimNats := { sn_conns : gset nat; sn_streams : gset string; sn_refuse_streams : bool }.

#[export] Instance sim_nats : NatsLib SimNats := {|
  nats_Connect url o n :=
    let c := fresh (sn_conns n) in
    (Ok c, {| sn_conns := {[c]} ∪ sn_conns n; sn_streams := sn_streams n; sn_refuse_streams := sn_refuse_streams n |});
  nats_JetStream c n := (None, n);
  nats_StreamInfo c s n :=
    (if bool_decide (s ∈ sn_streams n) then None else Some (Errorf "stream not found"), n);
  nats_AddStream c s n :=
    if sn_refuse_streams n then (Some (Errorf "insufficient resources"), n)
    else (None, {| sn_conns := sn_conns n; sn_streams := {[sc_Name s]} ∪ sn_streams n;
                   sn_refuse_streams := false |});
  nats_Close c n :=
    {| sn_conns := sn_conns n ∖ {[c]}; sn_streams := sn_streams n; sn_refuse_streams := sn_refuse_streams n |} |}.

#[export] Program Instance sim_nats_spec : NatsSpec SimNats := {| conns := sn_conns; streams := sn_streams |}.
Next Obligation. intros url o n c n' [= <- <-]. split; [apply is_fresh|done]. Qed.
Next Obligation. done. Qed.
Next Obligation. intros c n e n' [= <- <-]. done. Qed.
Next Obligation. intros c s n e n' [= <- <-]. done. Qed.
Next Obligation. intros c s n n'. simpl. case_bool_decide; [by intros [= <-]|done]. Qed.
Next Obligation. intros c s n e n'. simpl. by case_match; intros [= <- <-]. Qed.
Next Obligation. intros c s n n'. simpl. case_match; [done|]. intros [= <-]. simpl. set_solver. Qed.
Next Obligation. done. Qed.
End SimNatsServers.

Module BusSample.
Import SimNatsServers.
Definition cfg : BusConfig :=
  {| bc_URL := "nats://localhost:4222"; bc_StreamName := "SENTINEL5G"; bc_EventsSubject := "e";
     bc_ThreatsSubject := "t"; bc_ConnectTimeout := 5 * Second; bc_CredentialsFile := "";
     bc_Username := "op"; bc_Password := "pw"; bc_TLSCAFile := ""; bc_TLSCertFile := ""; bc_TLSKeyFile := "" |}.

(** The stream cannot be created: the connection is closed again. *)
Definition full : SimNats := {| sn_conns := {[7%nat]}; sn_streams := ∅; sn_refuse_streams := true |}.

Lemma connect_no_leak_witness : conns (Connect cfg full).2 = {[7%nat]}.
Proof.
  assert (Hr : Connect cfg full =
    (Fail (Wrap "create jetstream stream" [Errorf "insufficient resources"]), (Connect cfg full).2))
    by (vm_compute; reflexivity).
  exact (connect_no_leak cfg full _ _ Hr).
Defined.

Definition refused : Attempt := {| at_result := Fail (Errorf "no servers available"); at_done := false |}.

Lemma connector_retries_witness :
  Run (replicate 6 refused ++ [{| at_result := Ok 3%nat; at_done := false |}]) Second NewConnector =
  (NewConnectedConnector 3, [1; 2; 4; 8; 16; 30] ≫= λ s, [s * Second]).
Proof.
  destruct (connector_retries (replicate 6 refused) {| at_result := Ok 3%nat; at_done := false |} 3)
    as (_ & Hb & _ & _); [repeat constructor; by eexists|reflexivity|].
  vm_compute. reflexivity.
Defined.
End BusSample.
