(* ===== verification/Capture.v ===== *)
(** * Capture: the other event sources (pkg/hubble, pkg/falco)

    Cilium's Hubble flows and Falco's alerts become [NormalizedEvent]s on the
    same subject as the eBPF path. Neither can see a GTP-U tunnel header, and
    both conversions leave the tunnel fields zero. A protobuf message is the
    record of the fields the code reads; a getter on a nil message returns the
    zero value, so an absent submessage reads as zeros. [uuid.NewString()] and
    [time.Now()] are arguments. *)

From S2P Require Import Prelude GoStrings GoFloat Events BoundedFifo TunnelFlood SourceFlood Ingestion Bus.
From Stdlib Require Import SpecFloat.

Local Open Scope Z_scope.

(** ** Hubble flows *)

Record Flow := {
  fl_UDPDestinationPort : option Z;     (* L4.UDP, nil for any other protocol; uint32 *)
  fl_Time : option Time;
  fl_SourceNamespace : string;
  fl_SourcePodName : string;
  fl_NodeName : string;
  fl_IPSource : string;
  fl_IPDestination : string
}.

Definition hubble_gtpuPort : Z := 2152.
Definition hubble_sipPort : Z := 5060.

Definition classifyPort (rawPort : Z) : option (Z * Protocol) :=
  if rawPort =? hubble_gtpuPort then Some (hubble_gtpuPort, ProtocolGTPU)
  else if rawPort =? hubble_sipPort then Some (hubble_sipPort, ProtocolSIP)
  else None.

(** The event of the fields these sources do know; the others are zero. *)
Definition summary_event (id : string) (at_ : Time) (ns pod node src dst : string) (port : Z)
    (proto : Protocol) : NormalizedEvent :=
  {| ne_EventID := id; ne_ObservedAt := at_; ne_Namespace := ns; ne_PodName := pod;
     ne_NodeName := node; ne_SourceIP := src; ne_DestIP := dst; ne_DestPort := port;
     ne_Protocol := proto; ne_PayloadSize := 0; ne_RatePerSecond := f64_zero; ne_Malformed := false;
     ne_VLANID := 0; ne_TEID := 0; ne_TunnelRatePerSecond := f64_zero |}.

Definition FromFlow (f : Flow) (id : string) (now : Time) : option NormalizedEvent :=
  match fl_UDPDestinationPort f with
  | None => None
  | Some rawPort =>
      match classifyPort rawPort with
      | None => None
      | Some (destPort, protocol) =>
          Some (summary_event id (default now (fl_Time f)) (fl_SourceNamespace f) (fl_SourcePodName f)
                  (fl_NodeName f) (fl_IPSource f) (fl_IPDestination f) destPort protocol)
      end
  end.

(** What [stream.Recv] yields, one after the other, each with the state of the
    bus connection at that moment. *)
Inductive Received :=
  | RecvEOF
  | RecvErr (e : go_error)
  | RecvFlow (f : option Flow) (id : string) (now : Time) (connected : bool).

(** The loop of [streamFlows]: the events published, and how the stream ended;
    [None] while it is open. *)
Fixpoint recvFlows (l : list Received) : list NormalizedEvent * option error :=
  match l with
  | [] => ([], None)
  | RecvEOF :: _ => ([], Some None)
  | RecvErr e :: _ => ([], Some (Some (Wrap "receive from hubble flow stream" [e])))
  | RecvFlow None _ _ _ :: l' => recvFlows l'
  | RecvFlow (Some f) id now connected :: l' =>
      match FromFlow f id now with
      | Some event =>
          if connected then let '(out, r) := recvFlows l' in (event :: out, r) else recvFlows l'
      | None => recvFlows l'
      end
  end.

(** [streamFlows]: [start] is the error of [GetFlows]. *)
Definition streamFlows (start : error) (l : list Received) : list NormalizedEvent * option error :=
  match start with
  | Some err => ([], Some (Some (Wrap "start hubble flow stream" [err])))
  | None => recvFlows l
  end.

(** One round of [Observer.Start]: the stream it gets, whether the context has
    ended when the stream has, and whether it ends during the wait. *)
Record StreamAttempt := {
  sa_start : error;
  sa_received : list Received;
  sa_ctxDone : bool;
  sa_waitDone : bool
}.

(** The events published and the waits started; the backoff doubles as in
    [Connector.Run]. *)
Fixpoint Observer_run (attempts : list StreamAttempt) (backoff : Duration)
    : list NormalizedEvent * list Duration :=
  match attempts with
  | [] => ([], [])
  | a :: attempts' =>
      let out := (streamFlows (sa_start a) (sa_received a)).1 in
      if sa_ctxDone a then (out, [])
      else if sa_waitDone a then (out, [backoff])
      else let '(out', waits) := Observer_run attempts' (next_backoff backoff) in
           (out ++ out', backoff :: waits)
  end.

(** [Observer.Start]; [dial] is the error of [grpc.NewClient]. *)
Definition Observer_Start (dial : error) (attempts : list StreamAttempt)
    : result (list NormalizedEvent * list Duration) :=
  match dial with
  | Some err => Fail (Wrap "dial hubble observer" [err])
  | None => Ok (Observer_run attempts Second)
  end.

(** ** Falco alerts *)

(** A decoded JSON value, as far as the accessors tell them apart. *)
Inductive JsonValue := JString (s : string) | JNumber (n : f64) | JOther.

Record Alert := {
  al_Time : Time;
  al_Hostname : string;
  al_OutputFields : gmap string JsonValue
}.

Fixpoint fieldString (fields : gmap string JsonValue) (keys : list string) : string :=
  match keys with
  | [] => ""
  | k :: keys' =>
      match fields !! k with
      | Some (JString s) => if negb (s =? "")%string then s else fieldString fields keys'
      | _ => fieldString fields keys'
      end
  end.

(** [uint16(n)] of a float64 within range truncates towards zero. *)
Definition f64_trunc (x : f64) : Z :=
  match x with
  | S754_finite s m e =>
      let v := if 0 <=? e then Z.pos m * 2 ^ e else Z.pos m / 2 ^ (- e) in
      if s then - v else v
  | _ => 0
  end.

Fixpoint fieldPort (fields : gmap string JsonValue) (keys : list string) : Z :=
  match keys with
  | [] => 0
  | k :: keys' =>
      match fields !! k with
      | None => fieldPort fields keys'
      | Some (JNumber n) =>
          if f64_leb f64_zero n && f64_leb n (f64_of_Z 65535) then f64_trunc n
          else fieldPort fields keys'
      | Some (JString s) =>
          match ParseUint s 10 16 with
          | Some p => p
          | None => fieldPort fields keys'
          end
      | Some JOther => fieldPort fields keys'
      end
  end.

Definition protocolForPort (port : Z) : Protocol :=
  if port =? 2152 then ProtocolGTPU else if port =? 5060 then ProtocolSIP else ProtocolUnknown.

Definition FromAlert (bridgeNode : string) (alert : Alert) (id : string) (now : Time) : NormalizedEvent :=
  let fields := al_OutputFields alert in
  let nodeName := if (al_Hostname alert =? "")%string then bridgeNode else al_Hostname alert in
  let observedAt := if IsZero (al_Time alert) then now else al_Time alert in
  let destPort := fieldPort fields ["fd.dport"; "fd.lport"] in
  summary_event id observedAt (fieldString fields ["k8s.ns.name"]) (fieldString fields ["k8s.pod.name"])
    nodeName (fieldString fields ["fd.sip"; "fd.rip"]) (fieldString fields ["fd.dip"; "fd.lip"])
    destPort (protocolForPort destPort).

(** [Bridge.handle]: the status code, and the event handed to the bus. The
    decoded body and the outcome of the publish are arguments. *)
Definition Bridge_handle (secret bridgeNode header : string) (body : result Alert) (id : string)
    (now : Time) (publish : NormalizedEvent → error) : Z * option NormalizedEvent :=
  if negb (secret =? "")%string && negb (header =? secret)%string then (401, None)
  else
    match body with
    | Fail _ => (400, None)
    | Ok alert =>
        let event := FromAlert bridgeNode alert id now in
        match publish event with
        | Some _ => (500, Some event)
        | None => (200, Some event)
        end
    end.

(** ** What these sources can do *)

Lemma FromFlow_spec f id now e : FromFlow f id now = Some e →
  (∃ p, fl_UDPDestinationPort f = Some p ∧ (p = 2152 ∨ p = 5060) ∧ ne_DestPort e = p) ∧
  ne_TEID e = 0 ∧ ne_SourceIP e = fl_IPSource f ∧
  (ne_Protocol e = ProtocolGTPU ↔ ne_DestPort e = 2152).
Proof.
  unfold FromFlow, classifyPort, hubble_gtpuPort, hubble_sipPort.
  destruct (fl_UDPDestinationPort f) as [p|]; [|done].
  destruct (p =? 2152) eqn:E1; [|destruct (p =? 5060) eqn:E2; [|done]]; unbool; intros [= <-]; simpl;
    (split; [exists p; split; [done|split; [lia|done]]|]); split; [done| |done|]; split; [done| |done|]; split; done.
Qed.

Lemma no_teid_source d evt now : ne_TEID evt = 0 →
  EvaluateSource d evt now = (zero_ThreatScoreEvent, zero_observation, false, d).
Proof.
  intros Ht. unfold EvaluateSource. case_match; [done|].
  rewrite Ht, Z.eqb_refl, orb_true_r. done.
Qed.

(** A source that cannot see tunnels cannot trip a tunnel rule: whatever a
    Hubble flow or a Falco alert contains, its event fires neither flood
    detector and leaves both detectors' memory as it was. *)
Theorem capture_never_trips_tunnel_rules d ds e now :
  (∃ f id t, FromFlow f id t = Some e) ∨ (∃ node a id t, e = FromAlert node a id t) →
  Evaluate d e now = (zero_ThreatScoreEvent, false, d) ∧
  EvaluateSource ds e now = (zero_ThreatScoreEvent, zero_observation, false, ds).
Proof.
  intros He. assert (Ht : ne_TEID e = 0).
  { destruct He as [(f & id & t & Hf)|(node & a & id & t & ->)]; [|done].
    by apply FromFlow_spec in Hf as (_ & -> & _). }
  split; [by apply no_teid_never_fires|by apply no_teid_source].
Qed.

(** With a shared secret configured, a request without it publishes nothing,
    whatever its body; a request with it is answered 400 exactly when the body
    does not decode, and otherwise publishes the alert's event. *)
Lemma bridge_authenticates secret node header body id now publish :
  let r := Bridge_handle secret node header body id now publish in
  (secret ≠ "" → header ≠ secret → r = (401, None)) ∧
  (secret = "" ∨ header = secret →
   match body with
   | Fail _ => r = (400, None)
   | Ok a => r.2 = Some (FromAlert node a id now) ∧ (r.1 = 200 ↔ publish (FromAlert node a id now) = None)
   end).
Proof.
  unfold Bridge_handle. split.
  - intros Hs Hh. apply String.eqb_neq in Hs, Hh. by rewrite Hs, Hh.
  - intros Hor. replace (negb (secret =? "")%string && negb (header =? secret)%string) with false.
    2:{ destruct Hor as [-> | ->]; [done|]. rewrite String.eqb_refl. by rewrite andb_false_r. }
    destruct body as [a|e]; [|done]. destruct (publish _); simpl; split; done.
Qed.

(** [recvFlows] publishes the signaling flows it receives while the bus is
    connected, in order, up to the end of the stream. *)
Definition received_event (r : Received) : option NormalizedEvent :=
  match r with
  | RecvFlow (Some f) id now true => FromFlow f id now
  | _ => None
  end.
Definition stream_over (r : Received) : bool := match r with RecvFlow _ _ _ _ => false | _ => true end.

Lemma recvFlows_spec l rest last : Forall (λ r, stream_over r = false) l → stream_over last = true →
  (recvFlows (l ++ last :: rest)).1 = omap received_event l.
Proof.
  intros Hl Hlast. induction l as [|r l IH]; [by destruct last|].
  apply Forall_cons in Hl as [Hr Hl]. specialize (IH Hl).
  destruct r as [| |f id now c]; try done. simpl.
  destruct f as [f|]; [|done]. simpl. destruct (FromFlow f id now) as [e|] eqn:Ef.
  - destruct c; simpl; [|done]. destruct (recvFlows _) as [out r]. simpl in *. by rewrite IH.
  - by destruct c.
Qed.

(** What a round publishes: nothing when the stream did not start, else its
    signaling flows up to the end of the stream. *)
Definition round_over (a : StreamAttempt) : Prop :=
  sa_ctxDone a = false ∧ sa_waitDone a = false ∧
  ∃ l last, sa_received a = l ++ [last] ∧ Forall (λ r, stream_over r = false) l ∧ stream_over last = true.
Definition round_events (a : StreamAttempt) : list NormalizedEvent :=
  match sa_start a with Some _ => [] | None => omap received_event (sa_received a) end.

Lemma round_over_events a : round_over a → (streamFlows (sa_start a) (sa_received a)).1 = round_events a.
Proof.
  intros (_ & _ & l & last & Hr & Hl & Hlast). unfold streamFlows, round_events.
  destruct (sa_start a); [done|]. rewrite Hr, (recvFlows_spec l [] last Hl Hlast), omap_app. simpl.
  destruct last as [| |? ? ? ?]; try done; by rewrite app_nil_r.
Qed.

Lemma Observer_run_from k l : Forall round_over l →
  Observer_run l (backoff_at k) = (concat (round_events <$> l), backoff_at <$> seq k (length l)).
Proof.
  intros Hl. revert k. induction Hl as [|a l Ha Hl IH]; intros k; simpl; [done|].
  rewrite (round_over_events a Ha). destruct Ha as (Hc & Hw & _). rewrite Hc, Hw, next_backoff_at, IH. done.
Qed.

(** The observer outlives its streams: whatever ends them, it opens the next
    one after a wait, and publishes in order every signaling flow received while
    the bus was connected, from all of them. The wait grows with every stream
    that ended, also one that delivered flows: nothing resets it, so after five
    streams every reconnect takes thirty seconds. *)
Theorem observer_reconnects l : Forall round_over l →
  Observer_Start None l = Ok (concat (round_events <$> l), backoff_at <$> seq 0 (length l)).
Proof. intros Hl. simpl. change Second with (backoff_at 0). by rewrite (Observer_run_from 0 l Hl). Qed.

(** ** The property at work *)

Module CaptureSample.
Definition gtpu_flow : Flow :=
  {| fl_UDPDestinationPort := Some 2152; fl_Time := None; fl_SourceNamespace := "core";
     fl_SourcePodName := "gnb-0"; fl_NodeName := "n1"; fl_IPSource := "10.0.0.9"; fl_IPDestination := "10.0.0.1" |}.
Definition flow_event : NormalizedEvent :=
  summary_event "e" 3 "core" "gnb-0" "n1" "10.0.0.9" "10.0.0.1" 2152 ProtocolGTPU.

Lemma capture_never_trips_tunnel_rules_witness :
  Evaluate TunnelFloodSample.sample_detector flow_event 5 =
    (zero_ThreatScoreEvent, false, TunnelFloodSample.sample_detector).
Proof.
  apply (capture_never_trips_tunnel_rules TunnelFloodSample.sample_detector
    SourceFloodSample.sample_detector flow_event 5).
  left. exists gtpu_flow, "e", 3. reflexivity.
Defined.

(** A stream that delivers a flow and ends cleanly, six times over: the last wait
    is thirty seconds all the same. *)
Definition good_round : StreamAttempt :=
  {| sa_start := None; sa_received := [RecvFlow (Some gtpu_flow) "e" 3 true; RecvEOF];
     sa_ctxDone := false; sa_waitDone := false |}.

Lemma observer_reconnects_witness :
  Observer_Start None (replicate 6 good_round) =
  Ok (replicate 6 flow_event, [1; 2; 4; 8; 16; 30] ≫= λ s, [s * Second]).
Proof.
  rewrite (observer_reconnects (replicate 6 good_round)); [vm_compute; reflexivity|].
  apply Forall_replicate. split; [reflexivity|]. split; [reflexivity|].
  exists [RecvFlow (Some gtpu_flow) "e" 3 true], RecvEOF. repeat constructor.
Defined.
End CaptureSample.
