(* ===== verification/Typing.v ===== *)
(** * Typing: captured events fit their Go types

    In Go an event's port is a uint16 and its TEID a uint32 because the fields
    are declared so; here they are integers, and every conversion the capture paths
    make has to keep them in range. This file shows that they do, for any bytes
    read from a ring, any Hubble flow and any Falco alert. *)

From S2P Require Import Prelude GoStrings GoFloat NetIP Events Api Blocklist Wire PodIPIndex Ingestion Capture.
From Stdlib Require Import SpecFloat.

Local Open Scope Z_scope.

(** The widths of [events.NormalizedEvent] and of [ebpf.SignalingEvent]. *)
Record event_typed (e : NormalizedEvent) : Prop := {
  ty_port : in_width 16 (ne_DestPort e);
  ty_size : in_width 32 (ne_PayloadSize e);
  ty_vlan : in_width 16 (ne_VLANID e);
  ty_teid : in_width 32 (ne_TEID e)
}.
Record signal_typed (e : SignalingEvent) : Prop := {
  ts_port : in_width 16 (se_DestPort e);
  ts_size : in_width 16 (se_PayloadSize e);
  ts_vlan : in_width 16 (se_VLANID e);
  ts_teid : in_width 32 (se_TEID e);
  ts_rate : in_width 32 (se_TunnelRate e)
}.

(** ** From the rings *)

Lemma Uint_width n s : Forall is_byte s → 0 ≤ le_decode (take n s) < 256 ^ Z.of_nat n.
Proof.
  intros Hs. pose proof (le_decode_range (take n s) ltac:(by apply Forall_take)) as Hr.
  rewrite length_take in Hr. split; [lia|]. eapply Z.lt_le_trans; [apply Hr|]. apply Z.pow_le_mono_r; lia.
Qed.
Lemma Uint16_width s k : Forall is_byte s → in_width 16 (Uint16 (drop k s)).
Proof. intros Hs. pose proof (Uint_width 2 (drop k s) ltac:(by apply Forall_drop)). unfold in_width, Uint16. lia. Qed.
Lemma Uint32_width s k : Forall is_byte s → in_width 32 (Uint32 (drop k s)).
Proof. intros Hs. pose proof (Uint_width 4 (drop k s) ltac:(by apply Forall_drop)). unfold in_width, Uint32. lia. Qed.

Lemma decode_typed bt sample evt : Forall is_byte sample →
  decodeSignalingEvent bt sample = Ok evt ∨ decodeSignalingEventV6 bt sample = Ok evt → signal_typed evt.
Proof.
  intros Hs. unfold decodeSignalingEvent, decodeSignalingEventV6.
  intros [Hd|Hd]; case_match; try done; injection Hd as <-; split; cbn [se_DestPort se_PayloadSize se_VLANID se_TEID se_TunnelRate];
    auto using Uint16_width, Uint32_width.
Qed.

Lemma FromSignalingEvent_typed evt idx rate node id : signal_typed evt → event_typed (FromSignalingEvent evt idx rate node id).
Proof. intros [Hp Hs Hv Ht _]. unfold in_width in *. split; unfold in_width; simpl; lia. Qed.

(** ** From Falco *)

(** A float64 the JSON decoder can produce. *)
Definition json_valid (v : JsonValue) : Prop :=
  match v with JNumber n => valid_binary 53 1024 n = true | _ => True end.

Lemma f64_of_65535 : f64_of_Z 65535 = S754_finite false (65535 * 2 ^ 37) (-37).
Proof. vm_compute. reflexivity. Qed.

(** The range check of [fieldPort] makes the conversion exact. *)
Lemma trunc_port n : valid_binary 53 1024 n = true → f64_leb f64_zero n = true → f64_leb n (f64_of_Z 65535) = true →
  0 ≤ f64_trunc n ≤ 65535.
Proof.
  intros Hv Hlo Hhi. destruct n as [s|s| |s m e]; simpl; try lia.
  rewrite f64_of_65535 in Hhi. destruct s; [by vm_compute in Hlo|].
  simpl in Hv. unfold bounded in Hv. apply andb_true_iff in Hv as [Hc _].
  unfold canonical_mantissa in Hc. apply Z.eqb_eq in Hc. unfold fexp, emin in Hc. rewrite digits2_pos_size in Hc.
  pose proof (pos_size_bounds m) as Hm.
  unfold f64_leb, SFleb, SFcompare in Hhi. unfold f64_trunc.
  destruct (Z.compare_spec e (-37)) as [->|He|He]; [| |done].
  - change (0 <=? -37) with false. cbv iota. change (- -37) with 37.
    assert (Hle : Z.pos m ≤ 65535 * 2 ^ 37) by (change (Pos.compare_cont Eq m) with (Pos.compare m) in Hhi; destruct (Pos.compare_spec m (65535 * 2 ^ 37)); [lia|lia|done]).
    split; [apply Z.div_pos; lia|]. apply Z.div_le_upper_bound; lia.
  - rewrite (proj2 (Z.leb_gt 0 e)) by lia.
    assert (Hp : 2 ^ 38 ≤ 2 ^ (- e)) by (apply Z.pow_le_mono_r; lia).
    assert (Hm53 : Z.pos m < 2 ^ 53).
    { eapply Z.lt_le_trans; [apply Hm|]. apply Z.pow_le_mono_r; lia. }
    split; [apply Z.div_pos; lia|]. apply Z.div_le_upper_bound; [lia|]. nia.
Qed.

Lemma fieldPort_width fields keys : map_Forall (λ _, json_valid) fields → in_width 16 (fieldPort fields keys).
Proof.
  intros Hf. unfold in_width. induction keys as [|k keys IH]; cbn [fieldPort]; [lia|].
  destruct (fields !! k) as [[s|n|]|] eqn:E; try apply IH.
  - destruct (ParseUint s 10 16) as [p|] eqn:Ep; [|apply IH]. apply ParseUint_range in Ep; lia.
  - destruct (f64_leb f64_zero n && f64_leb n (f64_of_Z 65535)) eqn:Eb; [|apply IH].
    apply andb_true_iff in Eb as [E1 E2]. pose proof (trunc_port n (Hf k _ E) E1 E2). lia.
Qed.

(** Every captured event fits its Go type. Whatever bytes a ring sample
    consists of, whatever flow Hubble sends and whatever alert Falco posts, the
    port and the VLAN of the event are 16-bit values and its size and TEID 32-bit
    ones, so none of the conversions on the three paths truncates. *)
Theorem captured_events_typed :
  (∀ bt sample evt idx rate node id, Forall is_byte sample →
    decodeSignalingEvent bt sample = Ok evt ∨ decodeSignalingEventV6 bt sample = Ok evt →
    event_typed (FromSignalingEvent evt idx rate node id)) ∧
  (∀ f id now e, FromFlow f id now = Some e → event_typed e) ∧
  (∀ node alert id now, map_Forall (λ _, json_valid) (al_OutputFields alert) → event_typed (FromAlert node alert id now)).
Proof.
  split; [|split].
  - intros bt sample evt idx rate node id Hs Hd. eapply FromSignalingEvent_typed, decode_typed; eauto.
  - intros f id now e Hf. unfold FromFlow, classifyPort, hubble_gtpuPort, hubble_sipPort in Hf. repeat case_match; simplify_eq; split; unfold in_width; simpl; lia.
  - intros node alert id now Hj. split; [by apply fieldPort_width|unfold in_width; simpl; lia..].
Qed.

Module TypingSample.
(** An alert whose port is the largest a float may be taken for. *)
Definition alert : Alert :=
  {| al_Time := 0; al_Hostname := "worker-1"; al_OutputFields := {["fd.dport" := JNumber (f64_of_Z 65535)]} |}.

Lemma captured_events_typed_witness :
  ne_DestPort (FromAlert "n1" alert "id" 1) = 65535 ∧ event_typed (FromAlert "n1" alert "id" 1) ∧
  event_typed (FromSignalingEvent (event_of_raw 0 {| r4_TimestampNs := 5; r4_Saddr := 7; r4_Daddr := 8; r4_DestPort := 2152;
    r4_PayloadSize := 65535; r4_Protocol := 1; r4_Malformed := 0; r4_VlanID := 4095; r4_TEID := 4294967295; r4_TunnelRate := 3 |})
    NewPodIPIndex (λ _ _, None) "n1" "id").
Proof.
  split; [vm_compute; reflexivity|]. destruct captured_events_typed as (Hring & _ & Halert). split.
  - apply Halert. apply map_Forall_singleton. vm_compute. reflexivity.
  - eapply (Hring 0 (encode_raw _)); [unfold encode_raw; repeat apply Forall_app_2; apply le_encode_bytes|]. left. apply decode_encode_raw.
    repeat split; vm_compute; discriminate.
Defined.
End TypingSample.
