(* ===== verification/Mesh.v ===== *)
(** * Mesh: the service-mesh adapters (pkg/mesh)

    Three adapters isolate a workload by creating deny objects for its label
    selector: one AuthorizationPolicy (Istio), one CiliumNetworkPolicy (Cilium)
    or one Server per declared port (Linkerd); the fourth does nothing. The
    Kubernetes client is the parameter [KubeClient] with the promises of
    [KubeSpec]; [Adapter_mesh] is the instance of the class the controllers are
    verified against. *)

From S2P Require Import Prelude GoStrings Api World.

Local Open Scope Z_scope.
Local Open Scope go_scope.

(** ** Objects *)

Record GroupVersionKind := { gvk_Group : string; gvk_Version : string; gvk_Kind : string }.

#[export] Instance gvk_eq_dec : EqDecision GroupVersionKind.
Proof. solve_decision. Defined.
#[export] Program Instance gvk_countable : Countable GroupVersionKind :=
  inj_countable' (λ g, (gvk_Group g, gvk_Version g, gvk_Kind g))
    (λ p, {| gvk_Group := p.1.1; gvk_Version := p.1.2; gvk_Kind := p.2 |}) _.
Next Obligation. by intros []. Qed.

(** The values the adapters put into an object. *)
Inductive json :=
  | JStr (s : string)
  | JInt (z : Z)
  | JMap (m : gmap string json)
  | JList (l : list json).

(** An unstructured object: its metadata and, for every path given to a
    [SetNested] call, the value set there. *)
Record Unstructured := {
  u_GVK : GroupVersionKind;
  u_Namespace : string;
  u_Name : string;
  u_ResourceVersion : string;
  u_Labels : gmap string string;
  u_Fields : gmap (list string) json
}.

Definition obj_id : Type := GroupVersionKind * NamespacedName.

Definition u_nn (u : Unstructured) : NamespacedName :=
  {| nn_Namespace := u_Namespace u; nn_Name := u_Name u |}.
Definition u_key (u : Unstructured) : obj_id := (u_GVK u, u_nn u).

Definition SetResourceVersion (rv : string) (u : Unstructured) : Unstructured :=
  {| u_GVK := u_GVK u; u_Namespace := u_Namespace u; u_Name := u_Name u;
     u_ResourceVersion := rv; u_Labels := u_Labels u; u_Fields := u_Fields u |}.

(** A Pod: its labels and the containerPorts of each container. *)
Record Pod := { pod_Labels : gmap string string; pod_Containers : list (list Z) }.

(** ** The client *)

Class KubeClient (C : Type) := {
  kube_Get : GroupVersionKind → NamespacedName → C → result Unstructured * C;
  kube_Create : Unstructured → C → error * C;
  kube_Update : Unstructured → C → error * C;
  kube_Delete : Unstructured → C → error * C;
  kube_List : GroupVersionKind → string → gmap string string → C → result (list Unstructured) * C;
  kube_ListPods : string → gmap string string → C → result (list Pod) * C
}.

(** ** quarantineName *)

(** FNV-1a, 32 bits. *)
Definition fnv32a_step (h : Z) (c : ascii) : Z := wrap 32 (Z.lxor h (Z_of_ascii c) * 16777619).
Definition fnv32a (s : string) : Z := string_fold fnv32a_step s 2166136261.

Definition quarantineNamePrefix : string := "sentinel5g-quarantine-".

(** The text that is hashed, over the keys in the order they are visited. *)
Fixpoint selector_text (keys : list string) (selector : gmap string string) : string :=
  match keys with
  | [] => ""
  | k :: keys' => k +:+ "=" +:+ default "" (selector !! k) +:+ ";" +:+ selector_text keys' selector
  end.

(** [keys]: the keys in the order the range over the map yields them. *)
Definition quarantineName_from (keys : list string) (selector : gmap string string) : string :=
  quarantineNamePrefix +:+ format_hex08 (fnv32a (selector_text (sort_strings keys) selector)).
Definition quarantineName (selector : gmap string string) : string :=
  quarantineName_from (map_to_list selector).*1 selector.

(** ** The deny objects *)

Definition managed_by : string := "app.kubernetes.io/managed-by".
Definition matchLabels (selector : gmap string string) : json := JMap (JStr <$> selector).

Definition authorizationPolicyGVK : GroupVersionKind :=
  {| gvk_Group := "security.istio.io"; gvk_Version := "v1"; gvk_Kind := "AuthorizationPolicy" |}.
Definition ciliumNetworkPolicyGVK : GroupVersionKind :=
  {| gvk_Group := "cilium.io"; gvk_Version := "v2"; gvk_Kind := "CiliumNetworkPolicy" |}.
Definition serverGVK : GroupVersionKind :=
  {| gvk_Group := "policy.linkerd.io"; gvk_Version := "v1beta3"; gvk_Kind := "Server" |}.
Definition quarantineForLabel : string := "sentinel5g.io/quarantine-for".

Definition newAuthorizationPolicy (namespace : string) (selector : gmap string string) : Unstructured := {|
  u_GVK := authorizationPolicyGVK; u_Namespace := namespace; u_Name := quarantineName selector;
  u_ResourceVersion := ""; u_Labels := {[managed_by := "sentinel5g"]};
  u_Fields := <[["spec"; "action"] := JStr "DENY"]>
    (<[["spec"; "rules"] := JList [JMap ∅]]>
    (<[["spec"; "selector"; "matchLabels"] := matchLabels selector]> ∅)) |}.

Definition newCiliumNetworkPolicy (namespace : string) (selector : gmap string string) : Unstructured :=
  let allEntity := JList [JStr "all"] in {|
  u_GVK := ciliumNetworkPolicyGVK; u_Namespace := namespace; u_Name := quarantineName selector;
  u_ResourceVersion := ""; u_Labels := {[managed_by := "sentinel5g"]};
  u_Fields := <[["spec"; "egressDeny"] := JList [JMap {["toEntities" := allEntity]}]]>
    (<[["spec"; "ingressDeny"] := JList [JMap {["fromEntities" := allEntity]}]]>
    (<[["spec"; "endpointSelector"; "matchLabels"] := matchLabels selector]> ∅)) |}.

(** [strconv.Itoa] of an int32. *)
Definition Itoa (z : Z) : string := if z <? 0 then "-" +:+ format_dec (- z) else format_dec z.

Definition newLinkerdServer (namespace quarantineHash : string) (selector : gmap string string)
    (port : Z) : Unstructured := {|
  u_GVK := serverGVK; u_Namespace := namespace; u_Name := quarantineHash +:+ "-" +:+ Itoa port;
  u_ResourceVersion := "";
  u_Labels := <[quarantineForLabel := quarantineHash]> {[managed_by := "sentinel5g"]};
  u_Fields := <[["spec"; "accessPolicy"] := JStr "deny"]>
    (<[["spec"; "port"] := JInt port]>
    (<[["spec"; "podSelector"; "matchLabels"] := matchLabels selector]> ∅)) |}.

(** ** The operations *)

Section Adapters.
Context {C : Type} `{KubeClient C}.

Definition describe (obj : Unstructured) : string :=
  gvk_Kind (u_GVK obj) +:+ " " +:+ u_Namespace obj +:+ "/" +:+ u_Name obj.

(** Runs [m]; its error is wrapped with [msg]. *)
Definition wrapped {X} (msg : string) (m : M C X) : M C X :=
  mtry m (λ r, match r with Ok x => mret x | Fail err => mfail (Wrap msg [err]) end).

Definition createOrUpdateUnstructured (obj : Unstructured) : M C unit :=
  mtry (kube_Get (u_GVK obj) (u_nn obj)) (λ r,
    match r with
    | Fail err =>
        if errors_Is err ErrNotFound
        then wrapped ("create " +:+ describe obj) (mact (kube_Create obj))
        else mfail (Wrap ("get existing " +:+ describe obj) [err])
    | Ok existing =>
        wrapped ("update " +:+ describe obj)
          (mact (kube_Update (SetResourceVersion (u_ResourceVersion existing) obj)))
    end).

Definition deleteUnstructuredIfExists (obj : Unstructured) : M C unit :=
  mtry (mact (kube_Delete obj)) (λ r,
    match r with
    | Ok _ => mret tt
    | Fail err =>
        if errors_Is err ErrNotFound then mret tt
        else mfail (Wrap ("delete " +:+ describe obj) [err])
    end).

Definition Istio_Quarantine (namespace : string) (selector : gmap string string) : M C unit :=
  createOrUpdateUnstructured (newAuthorizationPolicy namespace selector).
Definition Istio_Release (namespace : string) (selector : gmap string string) : M C unit :=
  deleteUnstructuredIfExists (newAuthorizationPolicy namespace selector).

Definition Cilium_Quarantine (namespace : string) (selector : gmap string string) : M C unit :=
  createOrUpdateUnstructured (newCiliumNetworkPolicy namespace selector).
Definition Cilium_Release (namespace : string) (selector : gmap string string) : M C unit :=
  deleteUnstructuredIfExists (newCiliumNetworkPolicy namespace selector).

(** The ports of the Pods, deduplicated and sorted. *)
Definition discoverPorts (namespace : string) (selector : gmap string string) : M C (list Z) :=
  let! pods := wrapped ("list pods in " +:+ namespace) (kube_ListPods namespace selector) in
  let seen : gset Z := list_to_set (pods ≫= λ pod, pod_Containers pod ≫= λ c, c) in
  mret (merge_sort Z.le (elements seen)).

Definition Linkerd_Quarantine (namespace : string) (selector : gmap string string) : M C unit :=
  let! ports := discoverPorts namespace selector in
  if (length ports =? 0)%nat
  then mfail (Errorf "linkerd: no declared container ports found")
  else
    let hash := quarantineName selector in
    mfor ports (λ port,
      wrapped ("quarantine port " +:+ Itoa port)
        (createOrUpdateUnstructured (newLinkerdServer namespace hash selector port))).

Definition Linkerd_Release (namespace : string) (selector : gmap string string) : M C unit :=
  let hash := quarantineName selector in
  let! items := wrapped ("list quarantine Servers for " +:+ namespace)
    (kube_List {| gvk_Group := gvk_Group serverGVK; gvk_Version := gvk_Version serverGVK;
                  gvk_Kind := gvk_Kind serverGVK +:+ "List" |}
       namespace {[quarantineForLabel := hash]}) in
  mfor items deleteUnstructuredIfExists.

(** ** Choosing an adapter *)

Inductive Adapter := IstioAdapter | CiliumAdapter | LinkerdAdapter | NoopAdapter.

Definition NewAdapter (kind : string) : result Adapter :=
  if (kind =? "istio")%string then Ok IstioAdapter
  else if (kind =? "cilium")%string then Ok CiliumAdapter
  else if (kind =? "linkerd")%string then Ok LinkerdAdapter
  else if (kind =? "noop")%string || (kind =? "")%string then Ok NoopAdapter
  else Fail (Errorf ("mesh: unsupported adapter kind " +:+ kind)).

Definition Adapter_Quarantine (a : Adapter) (namespace : string) (selector : gmap string string) : M C unit :=
  match a with
  | IstioAdapter => Istio_Quarantine namespace selector
  | CiliumAdapter => Cilium_Quarantine namespace selector
  | LinkerdAdapter => Linkerd_Quarantine namespace selector
  | NoopAdapter => mret tt
  end.
Definition Adapter_Release (a : Adapter) (namespace : string) (selector : gmap string string) : M C unit :=
  match a with
  | IstioAdapter => Istio_Release namespace selector
  | CiliumAdapter => Cilium_Release namespace selector
  | LinkerdAdapter => Linkerd_Release namespace selector
  | NoopAdapter => mret tt
  end.

Definition run_error (m : M C unit) : C → error * C :=
  λ c, let '(r, c') := m c in (match r with Ok _ => None | Fail e => Some e end, c').

(** The adapter as the controllers see it. *)
Definition Adapter_mesh (a : Adapter) : MeshAdapter C := {|
  Quarantine ns sel := run_error (Adapter_Quarantine a ns sel);
  Release ns sel := run_error (Adapter_Release a ns sel) |}.
End Adapters.
