(* ===== verification/MeshProofs.v ===== *)
(** * MeshProofs: what quarantine and release do to the cluster

    Quarantine leaves exactly the deny objects of the selector, repeating it
    changes nothing, and release takes the cluster back to where it was. The
    name of the object depends on the selector only and is a valid DNS label. *)

From S2P Require Import Prelude GoStrings Api World Mesh.

Local Open Scope Z_scope.
Local Open Scope go_scope.

(** ** The name *)

(** The characters of a DNS-1123 label. *)
Definition dns_char (c : ascii) : bool :=
  let z := Z_of_ascii c in
  ((97 <=? z) && (z <=? 122)) || ((48 <=? z) && (z <=? 57)) || (z =? 45).

Lemma digit_char_dns d : 0 ≤ d < 16 → dns_char (digit_char d) = true.
Proof.
  intros Hd. unfold dns_char, digit_char. destruct (d <? 10) eqn:E; unbool; rewrite Z_of_ascii_of_Z by lia.
  - apply orb_true_iff; left; apply orb_true_iff; right. apply andb_true_iff; split; apply Z.leb_le; lia.
  - do 2 (apply orb_true_iff; left). apply andb_true_iff; split; apply Z.leb_le; lia.
Qed.

Lemma digits_dns l : Forall (λ d, 0 ≤ d < 16) l → string_all dns_char (string_of_digits l) = true.
Proof. induction 1 as [|d l Hd Hl IH]; simpl; [done|]. by rewrite digit_char_dns. Qed.

Lemma string_of_digits_length l : String.length (string_of_digits l) = length l.
Proof. induction l; simpl; congruence. Qed.

Lemma string_app_length s t : String.length (s +:+ t) = (String.length s + String.length t)%nat.
Proof. induction s as [|a s IH]; [done|]. rewrite append_cons. simpl. by rewrite IH. Qed.

Lemma format_hex08_wf n : 0 ≤ n → string_all dns_char (format_hex08 n) = true ∧ String.length (format_hex08 n) = 8%nat.
Proof.
  intros Hn. unfold format_hex08. split.
  - apply digits_dns, Forall_app. split; [apply Forall_replicate; lia|].
    apply to_digits_range; lia.
  - rewrite string_of_digits_length, length_app, length_replicate.
    pose proof (to_digits_length 16 8 n). lia.
Qed.

Lemma string_fold_ind {A} (P : A → Prop) (f : A → ascii → A) s a :
  (∀ a c, P a → P (f a c)) → P a → P (string_fold f s a).
Proof. intros Hf. revert a. induction s; simpl; eauto. Qed.

Lemma fnv32a_range s : in_width 32 (fnv32a s).
Proof.
  apply (string_fold_ind (in_width 32)); [|done]. intros h c _. by apply wrap_in_width.
Qed.

(** The name of a quarantine object depends only on the selector, not on
    the order in which Go's map iteration yields its keys, and is a DNS-1123
    label of 30 characters, whatever the labels hold. *)
Theorem quarantine_name_wf selector :
  (∀ keys, keys ≡ₚ (map_to_list selector).*1 → quarantineName_from keys selector = quarantineName selector) ∧
  string_all dns_char (quarantineName selector) = true ∧ String.length (quarantineName selector) = 30%nat.
Proof.
  split; [intros keys Hp; unfold quarantineName, quarantineName_from; by rewrite (sort_strings_canonical _ _ Hp)|].
  unfold quarantineName, quarantineName_from.
  destruct (format_hex08_wf (fnv32a (selector_text (sort_strings (map_to_list selector).*1) selector)))
    as [Hc Hl]; [apply fnv32a_range|].
  split; [by rewrite string_all_app, Hc|]. rewrite string_app_length, Hl. done.
Qed.

(** Two different ports of an int32's nonnegative half get different names. *)
Lemma Itoa_inj p q : 0 ≤ p < 2 ^ 31 → 0 ≤ q < 2 ^ 31 → Itoa p = Itoa q → p = q.
Proof.
  intros Hp Hq. unfold Itoa. destruct (p <? 0) eqn:E1; unbool; [lia|]. destruct (q <? 0) eqn:E2; unbool; [lia|].
  intros Heq. assert (Hr : ∀ n, 0 ≤ n < 2 ^ 31 → ParseUint (format_dec n) 10 64 = Some n).
  { intros n Hn. apply ParseUint_digits; lia. }
  pose proof (Hr p Hp) as H1. rewrite Heq, Hr in H1 by done. congruence.
Qed.

(** ** What the client promises *)

(** The kind of the list object of a kind. *)
Definition list_gvk (g : GroupVersionKind) : GroupVersionKind :=
  {| gvk_Group := gvk_Group g; gvk_Version := gvk_Version g; gvk_Kind := gvk_Kind g +:+ "List" |}.

Class KubeSpec (C : Type) `{KubeClient C} := {
  kube_objs : C → gmap obj_id Unstructured;
  kube_pods : C → gmap NamespacedName Pod;
  objs_keyed c k o : kube_objs c !! k = Some o → u_key o = k;
  (* the API server validates containerPort *)
  pods_ports c k p l port : kube_pods c !! k = Some p → l ∈ pod_Containers p → port ∈ l → 0 < port < 65536;

  Get_state g n c r c' : kube_Get g n c = (r, c') → kube_objs c' = kube_objs c ∧ kube_pods c' = kube_pods c;
  Get_notfound g n c e c' : kube_Get g n c = (Fail e, c') → errors_Is e ErrNotFound = true →
    kube_objs c !! (g, n) = None;
  (* the server assigns the resource version *)
  Create_ok o c c' : kube_Create o c = (None, c') →
    (∃ rv, kube_objs c' = <[u_key o := SetResourceVersion rv o]> (kube_objs c)) ∧ kube_pods c' = kube_pods c;
  Update_ok o c c' : kube_Update o c = (None, c') →
    (∃ rv, kube_objs c' = <[u_key o := SetResourceVersion rv o]> (kube_objs c)) ∧ kube_pods c' = kube_pods c;
  Delete_ok o c c' : kube_Delete o c = (None, c') → kube_objs c' = delete (u_key o) (kube_objs c);
  Delete_notfound o c e c' : kube_Delete o c = (Some e, c') → errors_Is e ErrNotFound = true →
    kube_objs c !! u_key o = None ∧ kube_objs c' = kube_objs c;
  List_ok g ns sel c l c' : kube_List (list_gvk g) ns sel c = (Ok l, c') → kube_objs c' = kube_objs c ∧
    ∀ o, o ∈ l ↔ kube_objs c !! u_key o = Some o ∧ u_GVK o = g ∧ u_Namespace o = ns ∧ sel ⊆ u_Labels o;
  ListPods_ok ns sel c l c' : kube_ListPods ns sel c = (Ok l, c') →
    kube_objs c' = kube_objs c ∧ kube_pods c' = kube_pods c ∧
    ∀ p, p ∈ l ↔ ∃ k, kube_pods c !! k = Some p ∧ nn_Namespace k = ns ∧ sel ⊆ pod_Labels p
}.

Section MeshProofs.
Context {C : Type} `{HK : KubeClient C} `{HS : !KubeSpec C}.
Implicit Types c : C.

Lemma wrapped_Ok {X} msg (m : M C X) c x c' : wrapped msg m c = (Ok x, c') → m c = (Ok x, c').
Proof using Type.
  unfold wrapped, mtry. destruct (m c) as [[y|e] c1]; unfold mret, mfail; intros; by simplify_eq.
Qed.

Lemma mact_Ok (f : C → error * C) c c' : mact f c = (Ok tt, c') → f c = (None, c').
Proof using Type. unfold mact. destruct (f c) as [[e|] c1]; intros; by simplify_eq. Qed.

Lemma createOrUpdate_ok obj c c' : createOrUpdateUnstructured obj c = (Ok tt, c') →
  (∃ rv, kube_objs c' = <[u_key obj := SetResourceVersion rv obj]> (kube_objs c)) ∧ kube_pods c' = kube_pods c.
Proof using Type.
  unfold createOrUpdateUnstructured, mtry at 1. destruct (kube_Get _ _ c) as [[old|e] c1] eqn:Eg;
    apply Get_state in Eg as [Ho Hp]; rewrite <- Ho, <- Hp.
  - by intros Hu%wrapped_Ok%mact_Ok%Update_ok.
  - destruct (errors_Is e ErrNotFound); [|done]. by intros Hu%wrapped_Ok%mact_Ok%Create_ok.
Qed.

Lemma deleteIfExists_ok obj c c' : deleteUnstructuredIfExists obj c = (Ok tt, c') →
  kube_objs c' = delete (u_key obj) (kube_objs c).
Proof using Type.
  unfold deleteUnstructuredIfExists, mtry, mact. destruct (kube_Delete obj c) as [[e|] c1] eqn:Ed.
  - destruct (errors_Is e ErrNotFound) eqn:En; unfold mret, mfail; intros; simplify_eq.
    apply Delete_notfound in Ed as [Hn ->]; [|done]. by rewrite delete_id.
  - unfold mret. intros; simplify_eq. by apply Delete_ok.
Qed.

(** Release reports an error only when the server refused the delete for another
    reason than the object's absence. *)
Lemma deleteIfExists_fails obj c e c' : deleteUnstructuredIfExists obj c = (Fail e, c') →
  ∃ e0, kube_Delete obj c = (Some e0, c') ∧ errors_Is e0 ErrNotFound = false.
Proof using Type.
  unfold deleteUnstructuredIfExists, mtry, mact. destruct (kube_Delete obj c) as [[e0|] c1];
    [destruct (errors_Is e0 ErrNotFound) eqn:En|]; unfold mret, mfail; intros; simplify_eq; eauto.
Qed.

(** *** The ports of a workload *)

(** The ports the Pods of the workload declare. *)
Definition declared (ns : string) (sel : gmap string string) c (port : Z) : Prop :=
  ∃ k p l, kube_pods c !! k = Some p ∧ nn_Namespace k = ns ∧ sel ⊆ pod_Labels p ∧
    l ∈ pod_Containers p ∧ port ∈ l.

Lemma declared_range ns sel c port : declared ns sel c port → 0 ≤ port < 2 ^ 31.
Proof using Type. intros (k & p & l & Hp & _ & _ & Hl & Hin). pose proof (pods_ports _ _ _ _ _ Hp Hl Hin). lia. Qed.

Lemma discoverPorts_ok ns sel c ports c' : discoverPorts ns sel c = (Ok ports, c') →
  kube_objs c' = kube_objs c ∧ kube_pods c' = kube_pods c ∧
  NoDup ports ∧ ∀ port, port ∈ ports ↔ declared ns sel c port.
Proof using Type.
  unfold discoverPorts. intros H. minv H; [|done]. apply wrapped_Ok, ListPods_ok in E as (Ho & Hp & Hl).
  unfold mret in H. simplify_eq. split; [done|]. split; [done|]. split.
  { rewrite merge_sort_Permutation. apply NoDup_elements. }
  intros port. rewrite merge_sort_Permutation, elem_of_elements, elem_of_list_to_set, list_elem_of_bind.
  setoid_rewrite list_elem_of_bind. setoid_rewrite Hl. unfold declared. naive_solver.
Qed.

Lemma server_key_inj ns hash sel p q : 0 ≤ p < 2 ^ 31 → 0 ≤ q < 2 ^ 31 →
  u_key (newLinkerdServer ns hash sel p) = u_key (newLinkerdServer ns hash sel q) → p = q.
Proof using Type.
  intros Hp Hq [= Heq]. apply (inj (String.append _)), (inj (String.append "-")) in Heq. by apply Itoa_inj.
Qed.

(** The loop over the ports. *)
Lemma quarantine_ports_ok ns hash sel ports c c' :
  NoDup ports → (∀ p, p ∈ ports → 0 ≤ p < 2 ^ 31) →
  mfor ports (λ port, wrapped ("quarantine port " +:+ Itoa port)
    (createOrUpdateUnstructured (newLinkerdServer ns hash sel port))) c = (Ok tt, c') →
  kube_pods c' = kube_pods c ∧
  (∀ p, p ∈ ports → ∃ rv, kube_objs c' !! u_key (newLinkerdServer ns hash sel p) =
    Some (SetResourceVersion rv (newLinkerdServer ns hash sel p))) ∧
  ∀ k, (∀ p, p ∈ ports → k ≠ u_key (newLinkerdServer ns hash sel p)) → kube_objs c' !! k = kube_objs c !! k.
Proof using Type.
  revert c. induction ports as [|p ports IH]; intros c Hnd Hr; simpl.
  { unfold mret. intros; simplify_eq. split; [done|]. split; [set_solver|done]. }
  intros H. minv H; [|done]. destruct x. apply wrapped_Ok, createOrUpdate_ok in E as [[rv Ho] Hp].
  apply NoDup_cons in Hnd as [Hnin Hnd]. apply IH in H as (Hp' & Hin & Hout); [|done|set_solver].
  split; [congruence|]. split.
  - intros q [-> | Hq]%elem_of_cons; [|by apply Hin]. exists rv. rewrite Hout, Ho; [apply lookup_insert_eq|].
    intros q Hq Heq. apply Hnin. rewrite (server_key_inj ns hash sel p q); [done|set_solver..|done].
  - intros k Hk. rewrite Hout by set_solver. rewrite Ho. apply lookup_insert_ne. intros <-.
    by apply (Hk p); [set_solver|].
Qed.

(** The Server of a port, and those of a list of ports. *)
Definition port_server (ns : string) (sel : gmap string string) (port : Z) : Unstructured :=
  newLinkerdServer ns (quarantineName sel) sel port.
Definition server_keys (ns : string) (sel : gmap string string) (ports : list Z) : list obj_id :=
  (λ p, u_key (port_server ns sel p)) <$> ports.

Lemma Linkerd_Quarantine_ok ns sel c c' : Linkerd_Quarantine ns sel c = (Ok tt, c') →
  kube_pods c' = kube_pods c ∧ ∃ ports, ports ≠ [] ∧ (∀ port, port ∈ ports ↔ declared ns sel c port) ∧
  (∀ port, port ∈ ports → ∃ rv, kube_objs c' !! u_key (port_server ns sel port) =
     Some (SetResourceVersion rv (port_server ns sel port))) ∧
  ∀ k, k ∉ server_keys ns sel ports → kube_objs c' !! k = kube_objs c !! k.
Proof using Type.
  unfold Linkerd_Quarantine. intros H. minv H; [|done].
  apply discoverPorts_ok in E as (Ho & Hp & Hnd & Hd). destruct (length x =? 0)%nat eqn:El; [done|].
  apply quarantine_ports_ok in H as (Hp' & Hin & Hout);
    [|done|intros q Hq; by eapply declared_range, Hd].
  split; [congruence|]. exists x. split; [intros ->; done|]. split; [done|]. split; [done|].
  intros k Hk. rewrite Hout, Ho; [done|]. intros q Hq ->. apply Hk, list_elem_of_fmap. by exists q.
Qed.

(** *** Release *)

Lemma delete_items_ok items c c' : mfor items deleteUnstructuredIfExists c = (Ok tt, c') →
  ∀ k, kube_objs c' !! k = if bool_decide (k ∈ u_key <$> items) then None else kube_objs c !! k.
Proof using Type.
  revert c. induction items as [|o items IH]; intros c; simpl.
  { unfold mret. by intros [= <-] k. }
  intros H k. minv H; [|done]. destruct x. apply deleteIfExists_ok in E. rewrite (IH _ H k), E.
  destruct (decide (k = u_key o)) as [-> |Hne].
  - rewrite (bool_decide_true (u_key o ∈ u_key o :: _)) by set_solver. case_bool_decide; [done|].
    apply lookup_delete_eq.
  - rewrite lookup_delete_ne by done. repeat case_bool_decide; set_solver.
Qed.

(** The Servers of a selector: found by label. *)
Definition labelled (ns : string) (sel : gmap string string) (o : Unstructured) : Prop :=
  u_GVK o = serverGVK ∧ u_Namespace o = ns ∧ u_Labels o !! quarantineForLabel = Some (quarantineName sel).

Lemma Linkerd_Release_ok ns sel c c' : Linkerd_Release ns sel c = (Ok tt, c') →
  ∀ k o, kube_objs c' !! k = Some o ↔ kube_objs c !! k = Some o ∧ ¬ labelled ns sel o.
Proof using Type.
  unfold Linkerd_Release. intros H k o. minv H; [|done]. apply wrapped_Ok in E.
  change (kube_List (list_gvk serverGVK) ns {[quarantineForLabel := quarantineName sel]} c = (Ok x, x0)) in E.
  apply List_ok in E as [Ho Hl].
  rewrite (delete_items_ok _ _ _ H k), Ho.
  assert (Hlab : ∀ o, o ∈ x ↔ kube_objs c !! u_key o = Some o ∧ labelled ns sel o).
  { intros o'. rewrite Hl. unfold labelled. rewrite map_singleton_subseteq_l. done. }
  case_bool_decide as Hin.
  - apply list_elem_of_fmap in Hin as (o' & -> & Ho'). apply Hlab in Ho' as [Hk' Hlb].
    split; [done|]. intros [Hk Hn]. rewrite Hk' in Hk. by simplify_eq.
  - split; [|by intros []]. intros Hk. split; [done|]. intros Hlb. apply Hin, list_elem_of_fmap.
    pose proof (objs_keyed _ _ _ Hk) as <-. exists o. split; [done|]. by apply Hlab.
Qed.

(** ** The contract of the Adapter interface *)

(** The one object of the Istio and the Cilium adapter. *)
Definition single_object (a : Adapter) (ns : string) (sel : gmap string string) : option Unstructured :=
  match a with
  | IstioAdapter => Some (newAuthorizationPolicy ns sel)
  | CiliumAdapter => Some (newCiliumNetworkPolicy ns sel)
  | LinkerdAdapter | NoopAdapter => None
  end.

Lemma single_Quarantine a ns sel o c c' : single_object a ns sel = Some o →
  Adapter_Quarantine a ns sel c = (Ok tt, c') →
  (∃ rv, kube_objs c' = <[u_key o := SetResourceVersion rv o]> (kube_objs c)).
Proof using Type. destruct a; intros [= <-] Hq; by apply createOrUpdate_ok in Hq as [? _]. Qed.

Lemma single_Release a ns sel o c c' : single_object a ns sel = Some o →
  Adapter_Release a ns sel c = (Ok tt, c') → kube_objs c' = delete (u_key o) (kube_objs c).
Proof using Type. destruct a; intros [= <-] Hq; by apply deleteIfExists_ok in Hq. Qed.

(** What isolates a workload on each mesh, in the meshes' own terms: where the
    object is and all that its spec says. *)
Definition object_id (group version kind ns name : string) : obj_id :=
  ({| gvk_Group := group; gvk_Version := version; gvk_Kind := kind |},
   {| nn_Namespace := ns; nn_Name := name |}).

Inductive deny_object (ns : string) (sel : gmap string string) (c : C)
    : Adapter → obj_id → gmap (list string) json → Prop :=
  | deny_istio : (* action DENY with one rule that matches every request *)
      deny_object ns sel c IstioAdapter
        (object_id "security.istio.io" "v1" "AuthorizationPolicy" ns (quarantineName sel))
        {[ ["spec"; "action"] := JStr "DENY"; ["spec"; "rules"] := JList [JMap ∅];
           ["spec"; "selector"; "matchLabels"] := JMap (JStr <$> sel) ]}
  | deny_cilium : (* both directions, from and to every entity *)
      deny_object ns sel c CiliumAdapter
        (object_id "cilium.io" "v2" "CiliumNetworkPolicy" ns (quarantineName sel))
        {[ ["spec"; "egressDeny"] := JList [JMap {["toEntities" := JList [JStr "all"]]}];
           ["spec"; "ingressDeny"] := JList [JMap {["fromEntities" := JList [JStr "all"]]}];
           ["spec"; "endpointSelector"; "matchLabels"] := JMap (JStr <$> sel) ]}
  | deny_linkerd port : declared ns sel c port → (* one Server per declared port *)
      deny_object ns sel c LinkerdAdapter
        (object_id "policy.linkerd.io" "v1beta3" "Server" ns (quarantineName sel +:+ "-" +:+ Itoa port))
        {[ ["spec"; "accessPolicy"] := JStr "deny"; ["spec"; "port"] := JInt port;
           ["spec"; "podSelector"; "matchLabels"] := JMap (JStr <$> sel) ]}.

Lemma single_deny_object a ns sel o c : single_object a ns sel = Some o →
  ∀ id f, deny_object ns sel c a id f ↔ id = u_key o ∧ f = u_Fields o.
Proof using Type.
  intros Es id f. destruct a; simplify_eq/=; split; try (intros Hd; inversion Hd; subst; done);
    intros [-> ->]; [apply deny_istio|apply deny_cilium].
Qed.

(** C28: A successful quarantine leaves exactly the objects that isolate the
    workload, with exactly this content: an AuthorizationPolicy with action DENY
    and one all-matching rule (Istio), a CiliumNetworkPolicy that denies every
    entity in both directions (Cilium), both selecting the workload's labels, or
    a Server with access policy "deny" for each port the workload's Pods declare,
    at least one (Linkerd). Every other object of the cluster is untouched, and
    without a mesh nothing happens at all. *)
Theorem quarantine_exact a ns sel c c' : Adapter_Quarantine a ns sel c = (Ok tt, c') →
  (∀ id f, deny_object ns sel c a id f → ∃ o, kube_objs c' !! id = Some o ∧ u_Fields o = f) ∧
  (∀ id, (∀ f, ¬ deny_object ns sel c a id f) → kube_objs c' !! id = kube_objs c !! id) ∧
  match a with
  | IstioAdapter | CiliumAdapter => True
  | LinkerdAdapter => ∃ port, declared ns sel c port
  | NoopAdapter => c' = c
  end.
Proof using Type.
  intros Hq. destruct (single_object a ns sel) as [o|] eqn:Es.
  - pose proof (single_deny_object _ _ _ _ c Es) as Hd. destruct (single_Quarantine _ _ _ _ _ _ Es Hq) as [rv ->].
    split; [|split; [|by destruct a]].
    + intros id f [-> ->]%Hd. eexists. by rewrite lookup_insert_eq.
    + intros id Hn. rewrite lookup_insert_ne; [done|]. intros <-. by apply (Hn (u_Fields o)), Hd.
  - destruct a; simplify_eq/=.
    + apply Linkerd_Quarantine_ok in Hq as (_ & ports & Hne & Hd & Hin & Hout). split_and!.
      * intros id f Hid. inversion Hid; subst. destruct (Hin port) as [rv Hrv]; [by apply Hd|].
        eexists. split; [exact Hrv|done].
      * intros k Hk. apply Hout. intros (p & -> & Hp)%list_elem_of_fmap. eapply Hk, deny_linkerd, Hd, Hp.
      * destruct ports as [|p ports]; [done|]. exists p. apply Hd. set_solver.
    + unfold mret in Hq. simplify_eq. split_and!; [|done|done]. intros id f Hid. inversion Hid.
Qed.

(** No object of the namespace carries the name or the label of the selector's
    quarantine. *)
Definition unquarantined (ns : string) (sel : gmap string string) c : Prop :=
  ∀ k o, kube_objs c !! k = Some o → nn_Namespace k.2 = ns →
    HasPrefix (nn_Name k.2) (quarantineName sel) = false ∧ ¬ labelled ns sel o.

Lemma HasPrefix_app p s : HasPrefix (p +:+ s) p = true.
Proof using Type.
  unfold HasPrefix. enough (strip_prefix p (p +:+ s) = Some s) as -> by done.
  induction p as [|a p IH]; [done|]. rewrite append_cons. simpl. by rewrite Ascii.eqb_refl.
Qed.

Lemma unquarantined_free ns sel c g s : unquarantined ns sel c →
  kube_objs c !! (g, {| nn_Namespace := ns; nn_Name := quarantineName sel +:+ s |}) = None.
Proof using Type.
  intros Hu. destruct (kube_objs c !! _) as [o|] eqn:E; [|done].
  destruct (Hu _ _ E eq_refl) as [Hp _]. simpl in Hp. by rewrite HasPrefix_app in Hp.
Qed.

Lemma Linkerd_roundtrip ns sel c c1 c2 : unquarantined ns sel c →
  Linkerd_Quarantine ns sel c = (Ok tt, c1) → Linkerd_Release ns sel c1 = (Ok tt, c2) →
  kube_objs c2 = kube_objs c.
Proof using Type.
  intros Hu (_ & ports & _ & _ & Hin & Hout)%Linkerd_Quarantine_ok Hr. apply map_eq. intros k.
  pose proof (Linkerd_Release_ok _ _ _ _ Hr k) as Hk.
  destruct (decide (k ∈ server_keys ns sel ports)) as [(p & -> & Hp)%list_elem_of_fmap|Hn].
  - trans (None (A := Unstructured)); [|symmetry; by apply (unquarantined_free ns sel c serverGVK ("-" +:+ Itoa p))].
    destruct (kube_objs c2 !! _) as [o|]; [|done]. destruct (Hk o) as [[Ho Hl] _]; [done|].
    destruct (Hin p Hp) as [rv Hrv]. rewrite Hrv in Ho. simplify_eq. destruct Hl.
    split; [done|]. split; [done|]. apply lookup_insert_eq.
  - specialize (Hout k Hn). apply option_eq. intros o. rewrite Hk, Hout. split; [by intros []|].
    intros Ho. split; [done|]. intros Hl. pose proof (objs_keyed _ _ _ Ho) as <-.
    destruct Hl as (? & Hns & ?). by destruct (Hu _ _ Ho Hns) as [_ []].
Qed.

(** C27: Release undoes quarantine: when nothing of the namespace bears the
    selector's quarantine name or label, a quarantine followed by a release
    leaves every object of the cluster as it was, for every adapter, even if the
    workload's Pods changed their ports in between. *)
Theorem quarantine_release_roundtrip a ns sel c c1 c2 : unquarantined ns sel c →
  Adapter_Quarantine a ns sel c = (Ok tt, c1) → Adapter_Release a ns sel c1 = (Ok tt, c2) →
  kube_objs c2 = kube_objs c.
Proof using Type.
  intros Hu Hq Hr. destruct (single_object a ns sel) as [o|] eqn:Es.
  - pose proof (single_Quarantine _ _ _ _ _ _ Es Hq) as [rv H1].
    pose proof (single_Release _ _ _ _ _ _ Es Hr) as H2. rewrite H2, H1, delete_insert_eq, delete_id; [done|].
    pose proof (unquarantined_free ns sel c (u_GVK o) "" Hu) as Hf. rewrite append_nil_r in Hf.
    by destruct a; simplify_eq/=.
  - destruct a; simplify_eq/=; [by eapply Linkerd_roundtrip|]. unfold mret in *. by simplify_eq.
Qed.

(** The objects, up to the version the server gives them. *)
Definition versionless c : gmap obj_id Unstructured := SetResourceVersion "" <$> kube_objs c.

(** Quarantine is idempotent, as the interface demands: repeated, it leaves
    the same objects, up to the resource version the server assigns. *)
Theorem quarantine_idempotent a ns sel c c1 c2 :
  Adapter_Quarantine a ns sel c = (Ok tt, c1) → Adapter_Quarantine a ns sel c1 = (Ok tt, c2) →
  versionless c2 = versionless c1.
Proof using Type.
  intros H1 H2. unfold versionless. destruct (single_object a ns sel) as [o|] eqn:Es.
  - destruct (single_Quarantine _ _ _ _ _ _ Es H1) as [rv1 E1].
    destruct (single_Quarantine _ _ _ _ _ _ Es H2) as [rv2 E2].
    by rewrite E2, E1, !fmap_insert, insert_insert_eq.
  - destruct a; simplify_eq/=; [|unfold mret in *; by simplify_eq].
    apply Linkerd_Quarantine_ok in H1 as (Hp & ports & _ & Hd & Hin & _).
    apply Linkerd_Quarantine_ok in H2 as (_ & ports2 & _ & Hd2 & Hin2 & Hout2).
    assert (Hsame : ∀ p, p ∈ ports2 ↔ p ∈ ports).
    { intros p. rewrite Hd, Hd2. unfold declared. by rewrite Hp. }
    apply map_eq. intros k. rewrite !lookup_fmap.
    destruct (decide (k ∈ server_keys ns sel ports2)) as [(p & -> & Hk)%list_elem_of_fmap|Hn].
    + destruct (Hin2 p Hk) as [rv2 ->]. destruct (Hin p) as [rv1 ->]; [by apply Hsame|]. done.
    + by rewrite (Hout2 k Hn).
Qed.

(** The quarantine object is named after the selector alone: two policies of a
    namespace that isolate the same workload share it, and the release for one
    ends the isolation of the other. *)
Lemma release_ends_shared_quarantine a ns sel o c c' : single_object a ns sel = Some o →
  Adapter_Release a ns sel c = (Ok tt, c') → kube_objs c' !! u_key o = None.
Proof using Type. intros Es Hr. rewrite (single_Release _ _ _ _ _ _ Es Hr). apply lookup_delete_eq. Qed.
End MeshProofs.

(** ** A concrete cluster, and the properties at work *)

Module SimClusters.
Record SimCluster := { sm_objs : gmap obj_id Unstructured; sm_pods : gmap NamespacedName Pod; sm_rv : Z }.

Definition keyed (m : gmap obj_id Unstructured) : gmap obj_id Unstructured :=
  filter (λ p, u_key p.2 = p.1) m.
Definition ports_valid (p : Pod) : bool :=
  forallb (forallb (λ port, (0 <? port) && (port <? 65536))) (pod_Containers p).
Definition valid_pods (m : gmap NamespacedName Pod) : gmap NamespacedName Pod :=
  filter (λ p, ports_valid p.2 = true) m.

Definition store (o : Unstructured) (c : SimCluster) : SimCluster :=
  {| sm_objs := <[u_key o := SetResourceVersion (Itoa (sm_rv c)) o]> (sm_objs c); sm_pods := sm_pods c;
     sm_rv := sm_rv c + 1 |}.

(** A list kind names the kind it lists. *)
Definition elem_kind (g : GroupVersionKind) (o : Unstructured) : bool := bool_decide (list_gvk (u_GVK o) = g).

#[export] Instance sim_cluster : KubeClient SimCluster := {|
  kube_Get g n c := (match keyed (sm_objs c) !! (g, n) with
                     | Some o => Ok o | None => Fail (Sentinel ErrNotFound) end, c);
  kube_Create o c := (None, store o c);
  kube_Update o c := (None, store o c);
  kube_Delete o c :=
    match keyed (sm_objs c) !! u_key o with
    | Some _ => (None, {| sm_objs := delete (u_key o) (sm_objs c); sm_pods := sm_pods c; sm_rv := sm_rv c |})
    | None => (Some (Sentinel ErrNotFound), c)
    end;
  kube_List g ns sel c :=
    (Ok (filter (λ o, elem_kind g o = true ∧ u_Namespace o = ns ∧ sel ⊆ u_Labels o)
           (map_to_list (keyed (sm_objs c))).*2), c);
  kube_ListPods ns sel c :=
    (Ok (filter (λ p, nn_Namespace p.1 = ns ∧ sel ⊆ pod_Labels p.2) (map_to_list (valid_pods (sm_pods c)))).*2, c) |}.

Lemma keyed_lookup m k o : keyed m !! k = Some o ↔ m !! k = Some o ∧ u_key o = k.
Proof. apply map_lookup_filter_Some. Qed.

Lemma keyed_store o c : keyed (sm_objs (store o c)) = <[u_key o := SetResourceVersion (Itoa (sm_rv c)) o]> (keyed (sm_objs c)).
Proof. unfold store, keyed. simpl. by rewrite map_filter_insert_True. Qed.

Lemma list_gvk_inj g g' : list_gvk g = list_gvk g' → g = g'.
Proof.
  assert (Happ : ∀ s t : string, s +:+ "List" = t +:+ "List" → s = t).
  { intros s t Heq. assert (Hl : String.length s = String.length t).
    { apply (f_equal String.length) in Heq. rewrite !string_app_length in Heq. lia. }
    revert t Hl Heq. induction s as [|a s IH]; intros [|b t] Hl Heq; try done.
    rewrite !append_cons in Heq. simplify_eq/=. f_equal. by apply IH; [lia|]. }
  destruct g, g'. intros [= -> -> Hk]. f_equal. by apply Happ.
Qed.

#[export] Program Instance sim_cluster_spec : KubeSpec SimCluster :=
  {| kube_objs c := keyed (sm_objs c); kube_pods c := valid_pods (sm_pods c) |}.
Next Obligation. by intros c k o [_ H]%keyed_lookup. Qed.
Next Obligation.
  intros c k p l port [_ H]%map_lookup_filter_Some Hl Hp. simpl in H. unfold ports_valid in H.
  rewrite forallb_forall in H. setoid_rewrite <- list_elem_of_In in H. specialize (H l Hl).
  rewrite forallb_forall in H. setoid_rewrite <- list_elem_of_In in H. specialize (H port Hp). unbool. lia.
Qed.
Next Obligation. intros g n c r c' [= <- <-]. done. Qed.
Next Obligation. intros g n c e c'. simpl. case_match; [done|]. by intros [= <- <-]. Qed.
Next Obligation. intros o c c' [= <-]. rewrite keyed_store. eauto. Qed.
Next Obligation. intros o c c' [= <-]. rewrite keyed_store. eauto. Qed.
Next Obligation. intros o c c'. simpl. case_match; [|done]. intros [= <-]. apply map_filter_delete. Qed.
Next Obligation. intros o c e c'. simpl. case_match; [done|]. by intros [= <- <-]. Qed.
Next Obligation.
  intros g ns sel c l c' [= <- <-]. split; [done|]. intros o.
  rewrite list_elem_of_filter, list_elem_of_fmap. unfold elem_kind. rewrite bool_decide_eq_true. split.
  - intros [(Hg & Hn & Hs) ([k o'] & -> & Hk%elem_of_map_to_list)]. simpl in *.
    pose proof Hk as [_ Hkey]%keyed_lookup. rewrite Hkey. apply list_gvk_inj in Hg. done.
  - intros (Hk & Hg & Hn & Hs). split; [by rewrite Hg|]. exists (u_key o, o).
    split; [done|]. by apply elem_of_map_to_list.
Qed.
Next Obligation.
  intros ns sel c l c' [= <- <-]. split; [done|]. split; [done|]. intros p. rewrite list_elem_of_fmap. split.
  - intros ([k p'] & -> & [[Hn Hs] Hk%elem_of_map_to_list]%list_elem_of_filter). by exists k.
  - intros (k & Hk & Hn & Hs). exists (k, p). split; [done|]. apply list_elem_of_filter.
    split; [done|]. by apply elem_of_map_to_list.
Qed.
End SimClusters.

Module MeshSample.
Import SimClusters.

Definition sel : gmap string string := {["app" := "amf"]}.
Definition amf : Pod := {| pod_Labels := <["tier" := "core"]> sel; pod_Containers := [[38412; 80]; [80]] |}.
Definition other : Unstructured := newCiliumNetworkPolicy "core" {["app" := "smf"]}.
Definition cluster : SimCluster := {|
  sm_objs := {[u_key other := other]};
  sm_pods := {[{| nn_Namespace := "core"; nn_Name := "amf-0" |} := amf]}; sm_rv := 1 |}.

Example sample_name : quarantineName sel = "sentinel5g-quarantine-9603e20a".
Proof. vm_compute. reflexivity. Qed.

Definition quarantined (a : Adapter) (c : SimCluster) : SimCluster := (Adapter_Quarantine a "core" sel c).2.
Definition released (a : Adapter) (c : SimCluster) : SimCluster := (Adapter_Release a "core" sel c).2.

Lemma cluster_unquarantined : unquarantined "core" sel cluster.
Proof.
  intros k o [Hk _]%keyed_lookup _. unfold cluster in Hk. simpl in Hk.
  apply lookup_singleton_Some in Hk as [<- <-].
  split; [vm_compute; reflexivity|]. intros [Hg _]. discriminate Hg.
Qed.

Lemma is_Ok_tt (r : result unit) : is_Ok r = true → r = Ok tt.
Proof. by destruct r as [[]|]. Qed.

Lemma quarantined_ok a c : is_Ok (Adapter_Quarantine a "core" sel c).1 = true →
  Adapter_Quarantine a "core" sel c = (Ok tt, quarantined a c).
Proof. intros H. apply (run_ok (Adapter_Quarantine a "core" sel) c), is_Ok_tt, H. Qed.
Lemma released_ok a c : is_Ok (Adapter_Release a "core" sel c).1 = true →
  Adapter_Release a "core" sel c = (Ok tt, released a c).
Proof. intros H. apply (run_ok (Adapter_Release a "core" sel) c), is_Ok_tt, H. Qed.

Lemma quarantine_exact_witness :
  ∃ o, kube_objs (quarantined LinkerdAdapter cluster) !!
         object_id "policy.linkerd.io" "v1beta3" "Server" "core" "sentinel5g-quarantine-9603e20a-38412" = Some o ∧
       u_Fields o !! ["spec"; "accessPolicy"] = Some (JStr "deny").
Proof.
  assert (Hok : is_Ok (Adapter_Quarantine LinkerdAdapter "core" sel cluster).1 = true)
    by (vm_compute; reflexivity).
  destruct (quarantine_exact LinkerdAdapter "core" sel cluster _ (quarantined_ok LinkerdAdapter cluster Hok))
    as (Hin & _ & _).
  assert (Hd : declared "core" sel cluster 38412).
  { exists {| nn_Namespace := "core"; nn_Name := "amf-0" |}, amf, [38412; 80].
    split; [vm_compute; reflexivity|]. split; [reflexivity|].
    split; [apply insert_subseteq; reflexivity|]. split; apply list_elem_of_here. }
  destruct (Hin _ _ (deny_linkerd "core" sel cluster 38412 Hd)) as (o & Ho & Hf).
  exists o. split; [exact Ho|]. rewrite Hf. reflexivity.
Defined.

Lemma quarantine_release_roundtrip_witness :
  kube_objs (released LinkerdAdapter (quarantined LinkerdAdapter cluster)) = kube_objs cluster.
Proof.
  assert (Hq : is_Ok (Adapter_Quarantine LinkerdAdapter "core" sel cluster).1 = true)
    by (vm_compute; reflexivity).
  assert (Hr : is_Ok (Adapter_Release LinkerdAdapter "core" sel (quarantined LinkerdAdapter cluster)).1 = true)
    by (vm_compute; reflexivity).
  exact (quarantine_release_roundtrip LinkerdAdapter "core" sel cluster _ _ cluster_unquarantined
    (quarantined_ok LinkerdAdapter cluster Hq) (released_ok LinkerdAdapter _ Hr)).
Defined.

Lemma quarantine_idempotent_witness :
  versionless (quarantined IstioAdapter (quarantined IstioAdapter cluster)) =
  versionless (quarantined IstioAdapter cluster).
Proof.
  assert (H1 : is_Ok (Adapter_Quarantine IstioAdapter "core" sel cluster).1 = true)
    by (vm_compute; reflexivity).
  assert (H2 : is_Ok (Adapter_Quarantine IstioAdapter "core" sel (quarantined IstioAdapter cluster)).1 = true)
    by (vm_compute; reflexivity).
  exact (quarantine_idempotent IstioAdapter "core" sel cluster _ _
    (quarantined_ok IstioAdapter cluster H1) (quarantined_ok IstioAdapter _ H2)).
Defined.
End MeshSample.
