(* ===== verification/AttachProofs.v ===== *)
(** * AttachProofs: what attaching promises

    [BpfHostSpec] is what the kernel and the cilium/ebpf library document of
    handles, pins and map contents. Over it: a failed attach leaves no handle
    behind, a successful one holds exactly a collection and a link, pinned
    drops survive a restart, and a discarded set of pins is reported and
    starts empty. [SimHost] is a concrete host that satisfies the class. *)

From S2P Require Import Prelude GoStrings GoPath Loader PolicyIndex World Attach.

Local Open Scope go_scope.

(** ** What the host promises *)

Class BpfHostSpec (H : Type) `{BpfHost H} := {
  held : H → gset (nat + nat);            (* open collections (inl), links (inr) *)
  pins : H → gmap string nat;             (* the pins in bpffs, by path *)
  contents : nat → H → list Z;            (* of a map *)

  MkdirAll_frame p h e h' : MkdirAll p h = (e, h') →
    held h' = held h ∧ pins h' = pins h ∧ ∀ m, contents m h' = contents m h;
  Remove_frame p h e h' : Remove p h = (e, h') → held h' = held h ∧ ∀ m, contents m h' = contents m h;
  Remove_ok p h h' : Remove p h = (None, h') → pins h' = delete p (pins h);
  Remove_err p h e h' : Remove p h = (Some e, h') → pins h' = pins h ∧
    (errors_Is e ErrNotExist = true → pins h !! p = None);

  NewCollection_err spec p h e h' : NewCollectionWithOptions spec p h = (Fail e, h') → held h' = held h;
  NewCollection_held spec p h c h' : NewCollectionWithOptions spec p h = (Ok c, h') →
    inl (coll_id c) ∉ held h ∧ held h' = {[inl (coll_id c)]} ∪ held h;
  (* PinByName: an existing pin is reused, otherwise a new empty map is pinned *)
  NewCollection_pinned spec p h c h' name : NewCollectionWithOptions spec p h = (Ok c, h') →
    p ≠ "" → cs_Maps spec !! name = Some true →
    ∃ m, coll_Maps c !! name = Some m ∧ pins h' !! Join [p; name] = Some m ∧
      match pins h !! Join [p; name] with
      | Some m0 => m = m0 ∧ contents m h' = contents m h
      | None => contents m h' = []
      end;

  (* closing releases the handles, never the pins or what they keep alive *)
  Close_held c h : held (Collection_Close c h) = held h ∖ {[inl (coll_id c)]};
  Close_pins c h : pins (Collection_Close c h) = pins h;
  Close_contents c h p m : pins h !! p = Some m → contents m (Collection_Close c h) = contents m h;

  AttachXDP_ok prog i h l h' : AttachXDP prog i h = (Ok l, h') →
    inr l ∉ held h ∧ held h' = {[inr l]} ∪ held h;
  AttachXDP_err prog i h e h' : AttachXDP prog i h = (Fail e, h') → held h' = held h;
  AttachXDP_frame prog i h r h' : AttachXDP prog i h = (r, h') → pins h' = pins h ∧
    ∀ p m, pins h !! p = Some m → contents m h' = contents m h;
  (* close(2) releases the descriptor even when it reports an error *)
  Link_Close_held l h e h' : Link_Close l h = (e, h') → held h' = held h ∖ {[inr l]};
  Link_Close_frame l h e h' : Link_Close l h = (e, h') → pins h' = pins h ∧ ∀ m, contents m h' = contents m h
}.

Section AttachProofs.
Context {H : Type} `{HB : BpfHost H} `{HS : !BpfHostSpec H} `{HR : RangeOrder}.

(** ** The walk to the nearest existing ancestor *)

Lemma nearest_existing_clean rooted cs fuel (h : H) : comps_ok rooted cs → (length cs < fuel)%nat →
  ∃ r, nearest_existing fuel (render rooted cs) h = Some r ∧
    match r with
    | Some p => Stat p h = true ∧ ∃ k, p = render rooted (take k cs)
    | None => ∀ k, Stat (render rooted (take k cs)) h = false
    end.
Proof using Type.
  revert cs. induction fuel as [|fuel IH]; intros cs Hok Hlen; [lia|]. simpl.
  destruct (Stat (render rooted cs) h) eqn:Es.
  { eexists; split; [done|]. split; [done|]. exists (length cs). by rewrite take_ge by lia. }
  rewrite Dir_strip by done. destruct cs as [|x cs _] using rev_ind.
  { rewrite String.eqb_refl. eexists; split; [done|]. intros k. by rewrite take_nil. }
  rewrite removelast_last.
  pose proof (render_strip_ne _ _ _ Hok) as Hne%String.eqb_neq. rewrite Hne.
  rewrite length_app in Hlen. simpl in Hlen.
  destruct (IH cs) as (r & Hr & Hspec);
    [by pose proof (comps_ok_removelast _ _ Hok) as Hrl; rewrite removelast_last in Hrl|lia|].
  exists r. split; [done|]. destruct r as [p|].
  - destruct Hspec as (Hst & k & ->). split; [done|].
    destruct (decide (k ≤ length cs)%nat) as [Hk|Hk]; [exists k; by rewrite take_app_le|].
    exists (length cs). by rewrite take_app_le, !take_ge by lia.
  - intros k. destruct (decide (k ≤ length cs)%nat) as [Hk|Hk].
    + by rewrite take_app_le.
    + by rewrite take_ge by (rewrite length_app; simpl; lia).
Qed.

(** The walk of [ensurePinDir] always ends within its fuel: at the nearest
    existing ancestor of the cleaned path, or after finding that none exists. *)
Theorem pin_walk_terminates path (h : H) :
  ∃ r, nearest_existing (walk_fuel path) (Clean path) h = Some r ∧
    match r with
    | Some p => Stat p h = true
    | None => Stat (Clean path) h = false
    end.
Proof using Type.
  destruct (Clean_comps path) as (rooted & cs & -> & Hok & Hlen).
  destruct (nearest_existing_clean rooted cs (walk_fuel path) h) as (r & Hr & Hspec);
    [done|unfold walk_fuel; lia|].
  exists r. split; [done|]. destruct r as [p|]; [by destruct Hspec|].
  specialize (Hspec (length cs)). by rewrite take_ge in Hspec by lia.
Qed.

(** ** Frames *)

Lemma act_frame (P : H → H → Prop) (f : H → error * H) h r h' :
  (∀ e h1, f h = (e, h1) → P h h1) → act f h = (r, h') → P h h'.
Proof using Type. unfold act. destruct (f h) as [e h1] eqn:E. intros HP [= <- <-]. by eapply HP. Qed.

Lemma wrapping_inv {A} msg (m : M H A) h r h' : wrapping msg m h = (r, h') →
  ∃ r0, m h = (r0, h') ∧ match r0 with Ok a => r = Ok a | Fail e => r = Fail (Wrap msg [e]) end.
Proof using Type. unfold wrapping. destruct (m h) as [[a|e] h1]; intros [= <- <-]; by eexists. Qed.

Lemma ensurePinDir_frame path h r h' : ensurePinDir path h = (r, h') →
  held h' = held h ∧ pins h' = pins h ∧ ∀ m, contents m h' = contents m h.
Proof using Type.
  unfold ensurePinDir. intros Hr.
  destruct (nearest_existing _ _ _) as [[p|]|]; [|unfold mfail in Hr; by simplify_eq..].
  minv Hr; apply wrapping_inv in E as (r0 & E & Hr0); unfold read in E; simplify_eq; [|done].
  case_match; [unfold mfail in Hr; by simplify_eq|].
  apply wrapping_inv in Hr as (r1 & Hr & _).
  eapply (act_frame (λ h h', held h' = held h ∧ pins h' = pins h ∧ ∀ m, contents m h' = contents m h));
    [|exact Hr]. intros e h1. apply MkdirAll_frame.
Qed.

Lemma remove_pins_frame path names errs h errs' h' : remove_pins path names errs h = (errs', h') →
  held h' = held h ∧ (∀ m, contents m h' = contents m h) ∧
  (∀ p, pins h !! p = None → pins h' !! p = None) ∧ (errs = [] ∨ errs' ≠ []) ∧
  (errs' = [] → ∀ name, name ∈ names → pins h' !! Join [path; name] = None).
Proof using Type.
  revert errs h. induction names as [|name names IH]; intros errs h Hr; simpl in Hr.
  { simplify_eq. split_and!; try done; [by destruct errs'; auto|set_solver]. }
  destruct (Remove _ h) as [e h1] eqn:E. apply IH in Hr as (Hh & Hc & Hp & He & Hn).
  destruct (Remove_frame _ _ _ _ E) as [Hh1 Hc1].
  assert (Hmono : ∀ p, pins h !! p = None → pins h1 !! p = None).
  { intros p Hnone. destruct e as [e|]; [by destruct (Remove_err _ _ _ _ E) as [-> _]|].
    rewrite (Remove_ok _ _ _ E). by apply lookup_delete_None; auto. }
  split; [congruence|]. split; [intros m; by rewrite Hc, Hc1|]. split; [by auto|].
  split; [destruct errs; [by left|right]; destruct e as [e|]; [|by destruct He];
    destruct (errors_Is e ErrNotExist); by destruct He|].
  intros Hnil. pose proof (Hn Hnil) as Htail. intros n [->|Hin]%elem_of_cons; [|by auto].
  apply Hp. destruct e as [e|]; [|rewrite (Remove_ok _ _ _ E); by rewrite lookup_delete_eq].
  destruct (Remove_err _ _ _ _ E) as [-> Hmiss]. apply Hmiss.
  destruct (errors_Is e ErrNotExist); [done|]. destruct He as [He|He]; [by destruct errs|done].
Qed.

Lemma RemovePins_frame path h e h' : RemovePins path h = (e, h') →
  held h' = held h ∧
  (e = None → ∀ name, name ∈ pinnedMapNames → pins h' !! Join [path; name] = None).
Proof using Type.
  unfold RemovePins. destruct (remove_pins _ _ _ _) as [errs h1] eqn:E. intros [= <- <-].
  apply remove_pins_frame in E as (Hh & _ & _ & _ & Hn). split; [done|]. intros Hnone. apply Hn.
  by destruct errs.
Qed.

Lemma mark_maps_ok names spec spec' : mark_maps names spec = Ok spec' →
  (∀ name, cs_Maps spec !! name = Some true → cs_Maps spec' !! name = Some true) ∧
  ∀ name, name ∈ names → cs_Maps spec' !! name = Some true.
Proof using Type.
  revert spec. induction names as [|n names IH]; intros spec Hm; simpl in Hm.
  { simplify_eq. split; [done|set_solver]. }
  destruct (cs_Maps spec !! n) eqn:E; [|done]. apply IH in Hm as [Hmono Hn]. simpl in Hmono.
  split.
  - intros name Hs. apply Hmono. destruct (decide (n = name)) as [->|?].
    + by rewrite lookup_insert_eq.
    + by rewrite lookup_insert_ne.
  - intros name [->|Hin]%elem_of_cons; [|by auto]. apply Hmono. by rewrite lookup_insert_eq.
Qed.

(** The outcome of instantiating the collection: the state [h0] in which the
    call that succeeded ran. *)
Definition instantiated (path : string) (h h' : H) (c : Collection) (reset : bool) : Prop :=
  ∃ spec h0, NewCollectionWithOptions spec path h0 = (Ok c, h') ∧ held h0 = held h ∧
    (path ≠ "" → ∀ name, name ∈ pinnedMapNames → cs_Maps spec !! name = Some true) ∧
    if reset then ∀ name, name ∈ pinnedMapNames → pins h0 !! Join [path; name] = None
    else pins h0 = pins h ∧ ∀ m, contents m h0 = contents m h.

Lemma newPinnedCollection_spec spec path h r h' : newPinnedCollection spec path h = (r, h') →
  match r with
  | Fail _ => held h' = held h
  | Ok (c, reset) => ∃ h0, NewCollectionWithOptions spec path h0 = (Ok c, h') ∧ held h0 = held h ∧
      if reset then ∀ name, name ∈ pinnedMapNames → pins h0 !! Join [path; name] = None
      else h0 = h
  end.
Proof using Type.
  unfold newPinnedCollection, mtry, mret, mfail.
  destruct (NewCollectionWithOptions spec path h) as [[c|e] h1] eqn:E1; [intros [= <- <-]; by exists h|].
  apply NewCollection_err in E1. case_match; [by intros [= <- <-]|].
  unfold act. destruct (RemovePins path h1) as [e2 h2] eqn:E2.
  apply RemovePins_frame in E2 as [Hh2 Hp2]. destruct e2 as [e2|]; [intros [= <- <-]; congruence|].
  destruct (NewCollectionWithOptions spec path h2) as [[c|e3] h3] eqn:E3; intros [= <- <-].
  - exists h2. split; [done|]. split; [congruence|by auto].
  - apply NewCollection_err in E3. congruence.
Qed.

Lemma instantiate_spec spec path h r h' : instantiate spec path h = (r, h') →
  match r with
  | Fail _ => held h' = held h
  | Ok (c, reset) => instantiated path h h' c reset
  end.
Proof using Type.
  unfold instantiate. destruct (path =? "")%string eqn:Ep; cbn [negb]; unbool; intros Hr.
  - subst. minv Hr; apply wrapping_inv in E as (r0 & E & Hr0).
    + destruct r0; [|done]. simplify_eq. unfold mret in Hr. simplify_eq.
      exists spec, h. by split_and!.
    + destruct r0; [done|]. subst. by eapply NewCollection_err.
  - minv Hr; apply wrapping_inv in E as (r0 & E & Hr0);
      apply ensurePinDir_frame in E as (Hh & Hp & Hc); [|by subst].
    minv Hr; apply wrapping_inv in E as (r1 & E & Hr1); unfold read in E; simplify_eq; [|by subst].
    destruct (markPinnedMaps spec) as [spec'|] eqn:Em; [|done]. simplify_eq.
    apply mark_maps_ok in Em as [_ Hm].
    apply wrapping_inv in Hr as (r2 & Hr & Hr2). apply newPinnedCollection_spec in Hr.
    destruct r2 as [[c reset]|e]; subst; [|congruence].
    destruct Hr as (h0 & Hn & Hh0 & Hreset). exists spec', h0.
    split; [done|]. split; [congruence|]. split; [by auto|].
    destruct reset; [done|]. by subst.
Qed.

(** ** After the collection *)

Lemma require_inv {A} what tbl coll name (k : nat → M H A) h r h' :
  mbind (require what tbl coll name) k h = (r, h') →
  (∃ m, tbl !! name = Some m ∧ k m h = (r, h')) ∨
  (∃ e, r = Fail e ∧ h' = Collection_Close coll h).
Proof using Type.
  unfold require. destruct (tbl !! name) as [m|]; intros Hr; [left; by exists m|right].
  unfold mbind, mmodify, mfail in Hr. simplify_eq. by eexists.
Qed.

Lemma monotonic_frame h r h' : monotonicToWallClockOffset h = (r, h') → h' = h.
Proof using Type.
  unfold monotonicToWallClockOffset, mbind, wrapping, read, mget, mret.
  by destruct (ClockGettime h) as [[]|]; intros [= <- <-].
Qed.

(** A successful attach, phase by phase. *)
Record attached (path : string) (h : H) (l : AttachedLoader) (h' : H) : Prop := {
  at_state : H;
  at_instantiated : instantiated path h at_state (al_collection l) (al_pinReset l);
  at_keys : verifyEnforcementKeySizes (coll_Maps (al_collection l)) at_state = None;
  at_link : ∃ prog ifi, coll_Programs (al_collection l) !! xdpProgramName = Some prog ∧
    AttachXDP prog ifi at_state = (Ok (al_link l), h');
  at_blocklist : coll_Maps (al_collection l) !! blocklistMapName = Some (al_blocklist l);
  at_blocklistV6 : coll_Maps (al_collection l) !! blocklistV6MapName = Some (al_blocklistV6 l);
  at_tunnels : coll_Maps (al_collection l) !! tunnelBlocklistMapName = Some (al_tunnelBlocklist l);
  at_tunnelsV6 : coll_Maps (al_collection l) !! tunnelBlocklistV6MapName = Some (al_tunnelBlocklistV6 l);
  at_pinPath : al_pinPath l = path
}.

Lemma AttachWithOptions_spec obj iface path h r h' : AttachWithOptions obj iface path h = (r, h') →
  match r with
  | Fail _ => held h' = held h
  | Ok l => attached path h l h'
  end.
Proof using Type.
  unfold AttachWithOptions. intros Hr. minv Hr; [|subst; destruct (InterfaceByName _ _); by simplify_eq].
  destruct (InterfaceByName iface h) as [ifi|]; [|done]. simplify_eq.
  minv Hr; apply wrapping_inv in E as (r0 & E & _); unfold read in E; simplify_eq; [|done].
  minv Hr; apply instantiate_spec in E; [|by subst]. destruct x0 as [coll reset].
  rename x2 into h, x3 into hc.
  assert (Hclose : held (Collection_Close coll hc) = held h).
  { destruct E as (spec & h0 & Hn & Hh & _). apply NewCollection_held in Hn as [Hnin Hheld].
    rewrite Close_held, Hheld, <- Hh. set_solver. }
  do 13 (apply require_inv in Hr as [(? & ? & Hr)|(? & -> & ->)]; [|done]).
  unfold mbind at 1, mget in Hr. destruct (verifyEnforcementKeySizes _ _) as [ke|] eqn:Ek.
  { unfold mbind, mmodify, mfail in Hr. by simplify_eq. }
  unfold mtry at 1 in Hr. destruct (AttachXDP _ _ _) as [[link|e] h3] eqn:Ea.
  2:{ unfold mbind, mmodify, mfail in Hr. simplify_eq. apply AttachXDP_err in Ea.
      by rewrite Close_held, Ea, <- Close_held. }
  unfold mtry at 1 in Hr. destruct (monotonicToWallClockOffset h3) as [[bt|e] h4] eqn:Em;
    apply monotonic_frame in Em; subst.
  - unfold mret in Hr. simplify_eq. by econstructor; eauto.
  - unfold mtry, act in Hr. destruct (Link_Close link h3) as [e2 h5] eqn:El.
    unfold mbind, mmodify, mfail in Hr. simplify_eq.
    apply AttachXDP_ok in Ea as [Hnin Hheld]. apply Link_Close_held in El.
    rewrite Close_held, El, Hheld. rewrite Close_held in Hclose. rewrite <- Hclose. set_solver.
Qed.

(** ** The properties *)

(** An attached loader's statistics are its program's: only reading them fails. *)
Lemma attached_stats Stats path h l h' : attached path h l h' →
  ∃ prog, ProgramRunStats Stats l = match Stats prog with Ok s => Ok s | Fail err => Fail (Wrap "read program stats" [err]) end.
Proof using Type. intros [? _ _ (prog & ifi & Hp & _)]. exists prog. unfold ProgramRunStats. by rewrite Hp. Qed.

Lemma verify_sizes_ok want maps h : verify_sizes want maps h = None →
  ∀ name size m, (name, size) ∈ want → maps !! name = Some m → KeySize m h = size.
Proof using Type.
  induction want as [|[n s] want IH]; intros Hv name size m; [set_solver|]. simpl in Hv.
  intros [[= -> ->]|Hin]%elem_of_cons Hm.
  - rewrite Hm in Hv. case_match eqn:E; [done|]. by unbool.
  - eapply IH; [|done|done]. repeat case_match; done.
Qed.

(** The handles an attach opened, and the enforcement maps it returned. *)
Definition enforcement_maps (l : AttachedLoader) : list (string * nat) :=
  [(blocklistMapName, al_blocklist l); (blocklistV6MapName, al_blocklistV6 l);
   (tunnelBlocklistMapName, al_tunnelBlocklist l); (tunnelBlocklistV6MapName, al_tunnelBlocklistV6 l)].

Lemma enforcement_maps_lookup path h l h' name m : attached path h l h' →
  (name, m) ∈ enforcement_maps l ↔
    name ∈ pinnedMapNames ∧ coll_Maps (al_collection l) !! name = Some m.
Proof using Type.
  intros [? _ _ _ Hb Hb6 Ht Ht6 _]. unfold enforcement_maps, pinnedMapNames. split.
  - rewrite !elem_of_cons, elem_of_nil. naive_solver.
  - rewrite !elem_of_cons, elem_of_nil. naive_solver.
Qed.

Lemma enforcement_in l name : name ∈ pinnedMapNames → ∃ m, (name, m) ∈ enforcement_maps l.
Proof using Type.
  unfold enforcement_maps, pinnedMapNames. rewrite !elem_of_cons, elem_of_nil.
  intros [->|[->|[->|[->|[]]]]]; eexists; repeat (apply list_elem_of_here || apply list_elem_of_further).
Qed.

Lemma attach_releases obj iface path h r h' : AttachWithOptions obj iface path h = (r, h') →
  match r with
  | Fail _ => held h' = held h
  | Ok l =>
      held h' = {[inr (al_link l); inl (coll_id (al_collection l))]} ∪ held h ∧
      ∀ e h'', AttachedLoader_Close l h' = (e, h'') → held h'' = held h
  end.
Proof using Type.
  intros Ha. apply AttachWithOptions_spec in Ha. destruct r as [l|]; [|done].
  destruct Ha as [hc (spec & h0 & Hn & Hh & _) _ (prog & ifi & _ & Hx) _ _ _ _ _].
  apply NewCollection_held in Hn as [Hnc Hheld]. apply AttachXDP_ok in Hx as [Hnl Hheld'].
  rewrite Hh in *. split; [rewrite Hheld', Hheld; set_solver|].
  intros e h''. unfold AttachedLoader_Close. destruct (Link_Close _ _) as [e1 h1] eqn:El. intros [= <- <-].
  rewrite Close_held, (Link_Close_held _ _ _ _ El), Hheld', Hheld.
  rewrite Hheld in Hnl. clear -Hnc Hnl. set_solver.
Qed.

(** C15: An attach that fails, at whatever step, has closed everything it had
    opened. One that succeeds holds exactly one collection and one link more
    than before, and the Loader's [Close] releases them, even when the detach
    reports an error. *)
Theorem attach_no_leak obj iface path h r h' : AttachWithOptions obj iface path h = (r, h') →
  match r with
  | Fail _ => held h' = held h
  | Ok l =>
      held h' = {[inr (al_link l); inl (coll_id (al_collection l))]} ∪ held h ∧
      ∀ e h'', AttachedLoader_Close l h' = (e, h'') → held h'' = held h
  end.
Proof using Type. apply attach_releases. Qed.

(** The program is only attached when each enforcement map has, at that
    moment, the key size this build writes. *)
Theorem attach_checks_keys obj iface path h l h' :
  AttachWithOptions obj iface path h = (Ok l, h') →
  ∃ prog ifi hc, AttachXDP prog ifi hc = (Ok (al_link l), h') ∧
    KeySize (al_blocklist l) hc = 4%Z ∧ KeySize (al_blocklistV6 l) hc = 16%Z ∧
    KeySize (al_tunnelBlocklist l) hc = tunnelRateKey_size ∧
    KeySize (al_tunnelBlocklistV6 l) hc = tunnelRateKeyV6_size.
Proof using HS.
  intros Ha. apply AttachWithOptions_spec in Ha as [hc _ Hk (prog & ifi & _ & Hx) Hb Hb6 Ht Ht6 _].
  exists prog, ifi, hc. split; [done|].
  pose proof (verify_sizes_ok _ _ _ Hk) as Hv.
  assert (Hw : ∀ name size m, enforcementKeySizes !! name = Some size →
    coll_Maps (al_collection l) !! name = Some m → KeySize m hc = size).
  { intros name size m He. apply Hv. rewrite range_map_perm. by apply elem_of_map_to_list. }
  by split_and!; (eapply Hw; [|exact Hb || exact Hb6 || exact Ht || exact Ht6]).
Qed.

Lemma attached_pinned path h l h' name m : attached path h l h' → path ≠ "" →
  (name, m) ∈ enforcement_maps l →
  pins h' !! Join [path; name] = Some m ∧
  if al_pinReset l then contents m h' = []
  else match pins h !! Join [path; name] with
       | Some m0 => m = m0 ∧ contents m h' = contents m h
       | None => contents m h' = []
       end.
Proof using Type.
  intros Ha Hpath Hin. apply (enforcement_maps_lookup _ _ _ _ _ _ Ha) in Hin as [Hname Hm].
  destruct Ha as [hc (spec & h0 & Hn & Hh & Hspec & Hreset) _ (prog & ifi & _ & Hx) _ _ _ _ _].
  destruct (NewCollection_pinned _ _ _ _ _ name Hn Hpath (Hspec Hpath name Hname)) as (m' & Hm' & Hp & Hc).
  assert (m' = m) as -> by congruence.
  destruct (AttachXDP_frame _ _ _ _ _ Hx) as [Hpx Hcx]. rewrite Hpx, (Hcx _ _ Hp).
  split; [done|]. destruct (al_pinReset l); [by rewrite (Hreset name Hname) in Hc|].
  destruct Hreset as [Hpins Hcont]. rewrite Hpins in Hc.
  destruct (pins h !! _) as [m0|]; [|done]. destruct Hc as [-> Hc]. split; [done|]. by rewrite Hc, Hcont.
Qed.

(** C11: Drops outlive the process. Attach with a pin path, run (anything that
    leaves the pins in place), close, and attach again, with another object or
    interface if need be: unless the new Loader reports a pin reset, its
    enforcement maps are the very same kernel maps, with the contents they had
    when the first process ended. *)
Theorem restart_keeps_drops obj iface obj' iface' path h l h1 h1' e h2 l' h3 name m :
  path ≠ "" → AttachWithOptions obj iface path h = (Ok l, h1) →
  pins h1' = pins h1 → AttachedLoader_Close l h1' = (e, h2) →
  AttachWithOptions obj' iface' path h2 = (Ok l', h3) → al_pinReset l' = false →
  (name, m) ∈ enforcement_maps l →
  (name, m) ∈ enforcement_maps l' ∧ contents m h3 = contents m h1'.
Proof using Type.
  intros Hpath Ha Hrun Hclose Ha' Hreset Hin.
  apply AttachWithOptions_spec in Ha. apply AttachWithOptions_spec in Ha'.
  pose proof (attached_pinned _ _ _ _ _ _ Ha Hpath Hin) as [Hp _].
  unfold AttachedLoader_Close in Hclose. destruct (Link_Close _ _) as [e1 hl] eqn:El. simplify_eq.
  destruct (Link_Close_frame _ _ _ _ El) as [Hpl Hcl].
  assert (Hp2 : pins (Collection_Close (al_collection l) hl) !! Join [path; name] = Some m)
    by (by rewrite Close_pins, Hpl, Hrun).
  assert (Hc2 : contents m (Collection_Close (al_collection l) hl) = contents m h1').
  { rewrite (Close_contents _ _ (Join [path; name]) m); [by rewrite Hcl|by rewrite Hpl, Hrun]. }
  apply (enforcement_maps_lookup _ _ _ _ _ _ Ha) in Hin as [Hname _].
  destruct (enforcement_in l' name Hname) as [m' Hin'].
  destruct (attached_pinned _ _ _ _ _ _ Ha' Hpath Hin') as [_ Hsame].
  rewrite Hreset, Hp2 in Hsame. destruct Hsame as [-> Hc]. split; [done|]. by rewrite Hc.
Qed.

(** After an attach with a pin path, every enforcement map is pinned under
    its own name, where the next attach will look for it; and when the Loader
    reports a pin reset, every one of them starts empty. *)
Theorem pin_reset_starts_empty obj iface path h l h' name m :
  AttachWithOptions obj iface path h = (Ok l, h') → path ≠ "" → (name, m) ∈ enforcement_maps l →
  pins h' !! Join [path; name] = Some m ∧ (al_pinReset l = true → contents m h' = []).
Proof using Type.
  intros Ha Hpath Hin. apply AttachWithOptions_spec in Ha.
  destruct (attached_pinned _ _ _ _ _ _ Ha Hpath Hin) as [Hp Hc]. split; [done|].
  intros Hreset. by rewrite Hreset in Hc.
Qed.
End AttachProofs.

(** ** A concrete host *)

Module SimHosts.
Record SimHost := {
  sh_held : gset (nat + nat);
  sh_pins : gmap string nat;
  sh_maps : gmap nat (list Z);
  sh_keys : gmap nat Z;
  sh_incompatible : bool       (* the pins were made by an older object *)
}.

Definition number (x : nat + nat) : nat := match x with inl n | inr n => n end.
Definition fresh_handle (h : SimHost) : nat := fresh (set_map number (sh_held h) : gset nat).
Definition fresh_map (h : SimHost) : nat := fresh (dom (sh_maps h) ∪ map_img (sh_pins h) : gset nat).

Definition set_held s h := {| sh_held := s; sh_pins := sh_pins h; sh_maps := sh_maps h;
                              sh_keys := sh_keys h; sh_incompatible := sh_incompatible h |}.
Definition set_pins p h := {| sh_held := sh_held h; sh_pins := p; sh_maps := sh_maps h;
                              sh_keys := sh_keys h; sh_incompatible := sh_incompatible h |}.
Definition add_map (m : nat) (k : Z) h :=
  {| sh_held := sh_held h; sh_pins := sh_pins h; sh_maps := <[m := []]> (sh_maps h);
     sh_keys := <[m := k]> (sh_keys h); sh_incompatible := sh_incompatible h |}.

Definition size_of (name : string) : Z := default 8%Z (enforcementKeySizes !! name).

(** One map of the object: the pinned one when there is a pin, else a new one. *)
Definition create_map (path name : string) (pinned : bool) (h : SimHost) : nat * SimHost :=
  let m := fresh_map h in
  if pinned && negb (path =? "")%string then
    match sh_pins h !! Join [path; name] with
    | Some m0 => (m0, h)
    | None => (m, set_pins (<[Join [path; name] := m]> (sh_pins h)) (add_map m (size_of name) h))
    end
  else (m, add_map m (size_of name) h).

Fixpoint create_maps (path : string) (l : list (string * bool)) (h : SimHost) : gmap string nat * SimHost :=
  match l with
  | [] => (∅, h)
  | (name, pinned) :: l' =>
      let '(m, h1) := create_map path name pinned h in
      let '(ms, h2) := create_maps path l' h1 in
      (<[name := m]> ms, h2)
  end.

Definition object_maps : gmap string bool :=
  list_to_map ((λ n, (n, false)) <$>
    (pinnedMapNames ++ [signalRateMapName; scanRateMapName; tunnelRateMapName; signalingEventsMapName;
      signalRateV6MapName; scanRateV6MapName; tunnelRateV6MapName; signalingEventsV6MapName])).

Definition sim_NewCollection (spec : CollectionSpec) (path : string) (h : SimHost)
    : result Collection * SimHost :=
  if sh_incompatible h && negb (path =? "")%string && negb (bool_decide (sh_pins h = ∅))
  then (Fail (Sentinel ErrMapIncompatible), h)
  else
    let '(ms, h1) := create_maps path (map_to_list (cs_Maps spec)) h in
    let id := fresh_handle h in
    (Ok {| coll_id := id; coll_Programs := {[xdpProgramName := 0%nat]}; coll_Maps := ms |},
     set_held ({[inl id]} ∪ sh_held h1) h1).

#[export] Instance sim_host : BpfHost SimHost := {|
  InterfaceByName i h := if (i =? "eth0")%string then Ok 2%Z else Fail (Errorf "no such network interface");
  LoadCollectionSpec o h := if (o =? "")%string then Fail (Sentinel ErrNotExist)
                            else Ok {| cs_Maps := object_maps; cs_object := 0 |};
  Stat p h := (p =? "/sys/fs/bpf")%string || (p =? "/")%string;
  Statfs p h := Ok (if (p =? "/sys/fs/bpf")%string then BPF_FS_MAGIC else 0%Z);
  MkdirAll p h := (None, h);
  Remove p h := match sh_pins h !! p with
                | Some _ => (None, set_pins (delete p (sh_pins h)) h)
                | None => (Some (Sentinel ErrNotExist), h)
                end;
  NewCollectionWithOptions := sim_NewCollection;
  Collection_Close c h := set_held (sh_held h ∖ {[inl (coll_id c)]}) h;
  KeySize m h := default 0%Z (sh_keys h !! m);
  AttachXDP p i h := (Ok (fresh_handle h), set_held ({[inr (fresh_handle h)]} ∪ sh_held h) h);
  Link_Close l h := (None, set_held (sh_held h ∖ {[inr l]}) h);
  ClockGettime h := Ok (100, 5)%Z;
  HostNow h := (1000 * Second)%Z |}.

Definition sim_contents (m : nat) (h : SimHost) : list Z := default [] (sh_maps h !! m).

Lemma fresh_handle_spec h x : number x = fresh_handle h → x ∉ sh_held h.
Proof.
  intros Hx Hin. apply (is_fresh (set_map number (sh_held h) : gset nat)).
  apply elem_of_map. exists x. split; [by rewrite Hx|done].
Qed.

Lemma fresh_map_spec h : sh_maps h !! fresh_map h = None ∧ ∀ p, sh_pins h !! p ≠ Some (fresh_map h).
Proof.
  pose proof (is_fresh (dom (sh_maps h) ∪ map_img (sh_pins h) : gset nat)) as Hf.
  fold (fresh_map h) in Hf. apply not_elem_of_union in Hf as [Hd Hi].
  split; [by apply not_elem_of_dom|]. intros p Hp. by apply Hi, (elem_of_map_img_2 (SA:=gset nat) _ p).
Qed.

(** What creating maps keeps: handles, pins, the contents of pinned maps. *)
Definition grows (h h' : SimHost) : Prop :=
  sh_held h' = sh_held h ∧ (∀ p m, sh_pins h !! p = Some m → sh_pins h' !! p = Some m) ∧
  ∀ p m, sh_pins h !! p = Some m → sim_contents m h' = sim_contents m h.

Lemma grows_trans h1 h2 h3 : grows h1 h2 → grows h2 h3 → grows h1 h3.
Proof.
  intros (Hh1 & Hp1 & Hc1) (Hh2 & Hp2 & Hc2). split_and!; [congruence|by auto|].
  intros p m Hp. rewrite (Hc2 p m) by auto. by apply (Hc1 p).
Qed.

(** What [create_map] leaves for a pinned name. *)
Definition pinned_at (path name : string) (h h' : SimHost) (m : nat) : Prop :=
  sh_pins h' !! Join [path; name] = Some m ∧
  match sh_pins h !! Join [path; name] with
  | Some m0 => m = m0 ∧ sim_contents m h' = sim_contents m h
  | None => sim_contents m h' = []
  end.

Lemma add_map_contents h k p m : sh_pins h !! p = Some m →
  sim_contents m (add_map (fresh_map h) k h) = sim_contents m h.
Proof.
  intros Hp. destruct (fresh_map_spec h) as [_ Hn]. unfold sim_contents. simpl.
  rewrite lookup_insert_ne; [done|]. intros <-. by apply (Hn p).
Qed.

Lemma create_map_spec path name pinned h m h' : create_map path name pinned h = (m, h') →
  grows h h' ∧ (pinned = true → path ≠ "" → pinned_at path name h h' m).
Proof.
  unfold create_map, pinned_at. destruct (fresh_map_spec h) as [Hnone _].
  assert (Hempty : ∀ h1, sh_maps h1 = <[fresh_map h := []]> (sh_maps h) → sim_contents (fresh_map h) h1 = []).
  { intros h1 E. unfold sim_contents. by rewrite E, lookup_insert_eq. }
  destruct (pinned && negb (path =? "")%string) eqn:E.
  - destruct (sh_pins h !! Join [path; name]) as [m0|] eqn:Ep; intros [= <- <-]; [done|].
    split; [split_and!; [done| |]|].
    + intros p m' Hp. simpl. by rewrite lookup_insert_ne by congruence.
    + intros p m' Hp. by apply (add_map_contents h (size_of name) p).
    + intros _ _. split; [by apply lookup_insert_eq|by apply Hempty].
  - intros [= <- <-]. split; [split_and!; [done|done|]|].
    + intros p m' Hp. by apply (add_map_contents h (size_of name) p).
    + intros -> Hp. apply String.eqb_neq in Hp. by rewrite Hp in E.
Qed.

(** A pin that creating one map added leads to an empty map. *)
Lemma new_pin_empty path name pinned h m h' p m1 : create_map path name pinned h = (m, h') →
  sh_pins h !! p = None → sh_pins h' !! p = Some m1 → sim_contents m1 h' = [].
Proof.
  unfold create_map. case_match; [|intros [= <- <-]; simpl; congruence].
  case_match; intros [= <- <-]; [congruence|]. simpl. intros Hn Hs.
  apply lookup_insert_Some in Hs as [[_ <-]|[_ Hs]]; [|congruence].
  unfold sim_contents. simpl. by rewrite lookup_insert_eq.
Qed.

Lemma pinned_at_grows path name h h1 h2 m : pinned_at path name h h1 m → grows h1 h2 →
  pinned_at path name h h2 m.
Proof.
  intros [Hp Hc] (_ & Hg & Hcg). split; [by apply Hg|]. rewrite (Hcg (Join [path; name]) m) by done.
  done.
Qed.

Lemma create_maps_spec path l h ms h' : NoDup l.*1 → create_maps path l h = (ms, h') →
  grows h h' ∧ ∀ name, (name, true) ∈ l → path ≠ "" →
    ∃ m, ms !! name = Some m ∧ pinned_at path name h h' m.
Proof.
  revert h ms. induction l as [|[n b] l IH]; intros h ms Hnd; simpl.
  { intros [= <- <-]. split; [done|set_solver]. }
  apply NoDup_cons in Hnd as [Hn Hnd]. simpl in Hn.
  destruct (create_map path n b h) as [m h1] eqn:E1. destruct (create_maps path l h1) as [ms' h2] eqn:E2.
  intros [= <- <-]. pose proof E1 as E1'. apply create_map_spec in E1 as [Hg1 Hp1].
  destruct (IH _ _ Hnd E2) as [Hg2 Hp2]. split; [by eapply grows_trans|].
  intros name [[= -> <-]|Hin]%elem_of_cons Hpath.
  - exists m. rewrite lookup_insert_eq. split; [done|]. eapply pinned_at_grows; eauto.
  - destruct (Hp2 name Hin Hpath) as (m' & Hm' & Hat & Hc). exists m'.
    rewrite lookup_insert_ne by (intros ->; apply Hn, list_elem_of_fmap; by exists (name, true)).
    split; [done|]. split; [done|].
    destruct (sh_pins h !! Join [path; name]) as [m0|] eqn:Ep.
    + destruct Hg1 as (_ & Hgp & Hgc). rewrite (Hgp _ _ Ep) in Hc. destruct Hc as [-> Hc].
      split; [done|]. by rewrite Hc, (Hgc _ _ Ep).
    + destruct (sh_pins h1 !! Join [path; name]) as [m1|] eqn:Ep1; [|done].
      destruct Hc as [-> ->]. by eapply new_pin_empty.
Qed.

Lemma sim_NewCollection_ok spec path h c h' : sim_NewCollection spec path h = (Ok c, h') →
  ∃ h1, create_maps path (map_to_list (cs_Maps spec)) h = (coll_Maps c, h1) ∧
    coll_id c = fresh_handle h ∧ h' = set_held ({[inl (coll_id c)]} ∪ sh_held h1) h1.
Proof.
  unfold sim_NewCollection. case_match; [done|].
  destruct (create_maps _ _ h) as [ms h1] eqn:E. intros [= <- <-]. by exists h1.
Qed.

#[export] Program Instance sim_host_spec : BpfHostSpec SimHost :=
  {| held := sh_held; pins := sh_pins; contents := sim_contents |}.
Next Obligation. intros p h e h' [= <- <-]. done. Qed.
Next Obligation. intros p h e h'. simpl. by case_match; intros [= <- <-]. Qed.
Next Obligation. intros p h h'. simpl. by case_match; intros [= <-]. Qed.
Next Obligation. intros p h e h'. simpl. by case_match; intros [= <- <-]. Qed.
Next Obligation.
  intros spec p h e h'. simpl. unfold sim_NewCollection. case_match; [by intros [= <- <-]|].
  by destruct (create_maps _ _ _).
Qed.
Next Obligation.
  intros spec p h c h' (h1 & Hc & Hid & ->)%sim_NewCollection_ok.
  apply create_maps_spec in Hc as [(Hh & _ & _) _]; [|apply NoDup_fst_map_to_list].
  split; [by apply fresh_handle_spec|]. simpl. by rewrite Hh.
Qed.
Next Obligation.
  intros spec p h c h' name (h1 & Hc & Hid & ->)%sim_NewCollection_ok Hp Hs.
  apply create_maps_spec in Hc as [_ Hc]; [|apply NoDup_fst_map_to_list].
  destruct (Hc name) as (m & Hm & Hat); [by apply elem_of_map_to_list|done|]. by exists m.
Qed.
Next Obligation. done. Qed.
Next Obligation. done. Qed.
Next Obligation. done. Qed.
Next Obligation.
  intros prog i h l h' [= <- <-]. split; [by apply fresh_handle_spec|done].
Qed.
Next Obligation. done. Qed.
Next Obligation. intros prog i h r h' [= <- <-]. done. Qed.
Next Obligation. intros l h e h' [= <- <-]. done. Qed.
Next Obligation. intros l h e h' [= <- <-]. done. Qed.
End SimHosts.

(** ** The properties at work *)

Module AttachSample.
Import SimHosts.

#[local] Instance order : RangeOrder := sample_order.

Definition blank : SimHost :=
  {| sh_held := ∅; sh_pins := ∅; sh_maps := ∅; sh_keys := ∅; sh_incompatible := false |}.
Definition pin_dir : string := "/sys/fs/bpf/sentinel5g".

Definition attach (h : SimHost) : result AttachedLoader * SimHost :=
  AttachWithOptions "/bpf/packet_filter.o" "eth0" pin_dir h.

Definition dummy : AttachedLoader :=
  {| al_collection := {| coll_id := 0; coll_Programs := ∅; coll_Maps := ∅ |}; al_link := 0;
     al_blocklist := 0; al_signalRate := 0; al_scanRate := 0; al_tunnelRate := 0;
     al_tunnelBlocklist := 0; al_signalingEvents := 0; al_blocklistV6 := 0; al_signalRateV6 := 0;
     al_scanRateV6 := 0; al_tunnelRateV6 := 0; al_tunnelBlocklistV6 := 0;
     al_signalingEventsV6 := 0; al_pinPath := ""; al_pinReset := false; al_bootTime := 0 |}.
Definition loader (r : result AttachedLoader * SimHost) : AttachedLoader :=
  match r.1 with Ok l => l | Fail _ => dummy end.

(** The first process attaches and blocks one address. *)
Definition first := attach blank.
Definition running : SimHost :=
  {| sh_held := sh_held first.2; sh_pins := sh_pins first.2;
     sh_maps := <[al_blocklist (loader first) := [10; 0; 0; 9]%Z]> (sh_maps first.2);
     sh_keys := sh_keys first.2; sh_incompatible := false |}.
Definition closed : SimHost := (AttachedLoader_Close (loader first) running).2.
Definition second := attach closed.

Lemma restart_keeps_drops_witness :
  contents (al_blocklist (loader first)) second.2 = [10; 0; 0; 9]%Z.
Proof.
  destruct (restart_keeps_drops "/bpf/packet_filter.o" "eth0" "/bpf/packet_filter.o" "eth0" pin_dir
    blank (loader first) first.2 running (AttachedLoader_Close (loader first) running).1 closed
    (loader second) second.2 blocklistMapName (al_blocklist (loader first))) as [_ ->];
    [discriminate|vm_compute; reflexivity..|apply list_elem_of_here|].
  vm_compute. reflexivity.
Defined.

Lemma attach_no_leak_witness :
  held (AttachedLoader_Close (loader first) first.2).2 = held blank.
Proof.
  destruct (attach_no_leak "/bpf/packet_filter.o" "eth0" pin_dir blank (Ok (loader first)) first.2)
    as [_ Hclose]; [vm_compute; reflexivity|].
  apply (Hclose (AttachedLoader_Close (loader first) first.2).1). reflexivity.
Defined.

Lemma attach_checks_keys_witness : ∃ hc, KeySize (al_blocklist (loader first)) hc = 4%Z.
Proof.
  destruct (attach_checks_keys "/bpf/packet_filter.o" "eth0" pin_dir blank (loader first) first.2)
    as (prog & ifi & hc & _ & Hk & _); [vm_compute; reflexivity|]. by exists hc.
Defined.

(** An upgrade finds pins of another shape. *)
Definition outdated : SimHost :=
  {| sh_held := ∅; sh_pins := sh_pins closed; sh_maps := sh_maps closed; sh_keys := sh_keys closed;
     sh_incompatible := true |}.

Lemma pin_reset_starts_empty_witness :
  al_pinReset (loader (attach outdated)) = true ∧
  contents (al_blocklist (loader (attach outdated))) (attach outdated).2 = [].
Proof.
  assert (Hr : al_pinReset (loader (attach outdated)) = true) by (vm_compute; reflexivity).
  split; [exact Hr|].
  apply (pin_reset_starts_empty "/bpf/packet_filter.o" "eth0" pin_dir outdated
    (loader (attach outdated)) (attach outdated).2 blocklistMapName);
    [vm_compute; reflexivity|discriminate|apply list_elem_of_here|exact Hr].
Defined.
End AttachSample.
