(* ===== verification/Decision.v ===== *)
(** * Decision: the pure helpers of the reactor

    The stateless functions of pkg/controller/threat_score_watcher.go: the
    effective threshold, the status lists kept as sets, the comparison that
    tells a decision from a refresh, and the textual form of a blocked tunnel. *)

From S2P Require Import Prelude GoStrings GoFloat NetIP Api Events Metrics.
From Stdlib Require Import SpecFloat.

Local Open Scope Z_scope.

(** ** The effective threshold *)

Definition sensitivityMultiplier (s : Sensitivity) : option f64 :=
  if (s =? SensitivityHigh)%string then Some (f64_lit 8 10)
  else if (s =? SensitivityMedium)%string then Some f64_one
  else if (s =? SensitivityLow)%string then Some (f64_lit 12 10)
  else None.

Definition sensitivityMultiplierOrDefault (s : Sensitivity) : f64 :=
  match sensitivityMultiplier s with
  | Some m => m
  | None => default f64_zero (sensitivityMultiplier SensitivityMedium)
  end.

(** The first lines of [applyPolicy]: scale, then clamp at 1. *)
Definition effective_threshold (base : f64) (s : Sensitivity) : f64 :=
  let threshold := f64_mul base (sensitivityMultiplierOrDefault s) in
  if f64_ltb f64_one threshold then f64_one else threshold.

Lemma full_score_crosses base s :
  f64_ltb f64_one (effective_threshold base s) = false.
Proof.
  unfold effective_threshold. destruct (f64_ltb f64_one (f64_mul _ _)) eqn:E; [|done].
  apply f64_ltb_irrefl.
Qed.

(** a rule detector's score of 1.0 crosses the threshold of every policy,
    whatever the operator-wide threshold and the policy's sensitivity: scaling
    for low sensitivity can exceed 1, and the clamp brings it back. *)
Theorem full_score_always_crosses base s :
  f64_ltb f64_one (effective_threshold base s) = false.
Proof. apply full_score_crosses. Qed.

(** The threshold of the highest sensitivity never exceeds the base for the
    default base; the low one is larger, clamped. *)
Example effective_threshold_tiers :
  let base := f64_lit 85 100 in
  f64_ltb (effective_threshold base SensitivityHigh) (effective_threshold base SensitivityMedium) = true ∧
  f64_ltb (effective_threshold base SensitivityMedium) (effective_threshold base SensitivityLow) = true ∧
  effective_threshold base SensitivityLow = f64_one ∧
  effective_threshold base "unheard-of" = effective_threshold base SensitivityMedium.
Proof. vm_compute. repeat split. Qed.

(** ** Status lists kept as sets *)

Fixpoint appendUnique_from (existing ips : list string) (ip : string) : list string :=
  match existing with
  | [] => ips ++ [ip]
  | x :: rest => if (x =? ip)%string then ips else appendUnique_from rest ips ip
  end.
Definition appendUnique (ips : list string) (ip : string) : list string :=
  appendUnique_from ips ips ip.

Lemma appendUnique_eq ips ip : appendUnique ips ip = if bool_decide (ip ∈ ips) then ips else ips ++ [ip].
Proof.
  unfold appendUnique. enough (H : ∀ ex, appendUnique_from ex ips ip =
    if bool_decide (ip ∈ ex) then ips else ips ++ [ip]) by apply H.
  induction ex as [|x ex IH]; cbn [appendUnique_from].
  - by rewrite bool_decide_false by set_solver.
  - destruct (x =? ip)%string eqn:E; unbool.
    + subst. by rewrite bool_decide_true by set_solver.
    + rewrite IH. repeat case_bool_decide; set_solver.
Qed.

Lemma appendUnique_elem ips ip x : x ∈ appendUnique ips ip ↔ x ∈ ips ∨ x = ip.
Proof. rewrite appendUnique_eq. case_bool_decide; set_solver. Qed.

Lemma appendUnique_NoDup ips ip : NoDup ips → NoDup (appendUnique ips ip).
Proof.
  rewrite appendUnique_eq. case_bool_decide; [done|]. intros Hn. apply NoDup_app. split; [done|].
  split; [set_solver|]. apply NoDup_singleton.
Qed.

Lemma appendUnique_idem ips ip : appendUnique (appendUnique ips ip) ip = appendUnique ips ip.
Proof.
  rewrite (appendUnique_eq (appendUnique ips ip)). rewrite bool_decide_true; [done|].
  apply appendUnique_elem. by right.
Qed.

Lemma appendUnique_id ips ip : ip ∈ ips → appendUnique ips ip = ips.
Proof. intros. rewrite appendUnique_eq. by rewrite bool_decide_true. Qed.

Definition equalStringSet (a b : list string) : bool :=
  if negb (length a =? length b)%nat then false
  else let seen := list_to_set (C := gset string) a in
       forallb (λ x, bool_decide (x ∈ seen)) b.

(** On duplicate-free lists it is equality of the sets of elements. *)
Lemma equalStringSet_spec a b : NoDup a → NoDup b →
  equalStringSet a b = true ↔ ∀ x, x ∈ a ↔ x ∈ b.
Proof.
  intros Ha Hb. unfold equalStringSet.
  assert (Hin : forallb (λ x, bool_decide (x ∈ list_to_set (C := gset string) a)) b = true ↔ ∀ x, x ∈ b → x ∈ a).
  { rewrite forallb_forall. setoid_rewrite <- list_elem_of_In. setoid_rewrite bool_decide_eq_true.
    by setoid_rewrite elem_of_list_to_set. }
  destruct (length a =? length b)%nat eqn:E; simpl.
  - apply Nat.eqb_eq in E. rewrite Hin. split; [|naive_solver]. intros Hba x. split; [|apply Hba].
    assert (Hp : b ≡ₚ a).
    { apply submseteq_length_Permutation; [by apply NoDup_submseteq|lia]. }
    by rewrite Hp.
  - split; [done|]. intros Heq. apply Nat.eqb_neq in E. destruct E.
    apply Permutation_length. by apply NoDup_Permutation.
Qed.

(** A set that only grew by [appendUnique] compares equal iff nothing was added. *)
Lemma equalStringSet_appendUnique ips ip :
  equalStringSet ips (appendUnique ips ip) = bool_decide (ip ∈ ips).
Proof.
  rewrite appendUnique_eq. case_bool_decide as Hin.
  - unfold equalStringSet. rewrite Nat.eqb_refl. simpl. apply forallb_forall. intros x Hx.
    apply bool_decide_eq_true, elem_of_list_to_set. by apply list_elem_of_In.
  - unfold equalStringSet. rewrite length_app. simpl.
    destruct (length ips =? length ips + 1)%nat eqn:E; [apply Nat.eqb_eq in E; lia|done].
Qed.

Lemma equalStringSet_refl ips : equalStringSet ips ips = true.
Proof.
  unfold equalStringSet. rewrite Nat.eqb_refl. simpl. apply forallb_forall. intros x Hx.
  apply bool_decide_eq_true, elem_of_list_to_set. by apply list_elem_of_In.
Qed.

Definition statusDecisionChanged (prev next : TelecomSecurityPolicy) : bool :=
  if negb (bool_decide (st_Phase (pol_Status prev) = st_Phase (pol_Status next))) then true
  else if negb (equalStringSet (st_BlockedSourceIPs (pol_Status prev)) (st_BlockedSourceIPs (pol_Status next)))
  then true
  else negb (equalStringSet (st_BlockedTunnels (pol_Status prev)) (st_BlockedTunnels (pol_Status next))).

(** ** The textual form of a blocked tunnel *)

Definition formatTunnel (sourceIP : string) (teid : Z) : string :=
  sourceIP +:+ "/" +:+ format_hex_alt teid.

Definition parseTunnel (entry : string) : result (net_IP * Z) :=
  match Cut entry "/" with
  | None => Fail (Errorf "malformed tunnel entry: want <ip>/<teid>")
  | Some (sourceIP, rawTEID) =>
      match ParseIP sourceIP with
      | None => Fail (Errorf "malformed tunnel entry: not an IP")
      | Some ip =>
          match ParseUint (TrimPrefix rawTEID "0x") 16 32 with
          | None => Fail (Wrap "malformed tunnel entry" [Errorf "strconv.ParseUint"])
          | Some teid => Ok (ip, teid)
          end
      end
  end.

Lemma parseTunnel_formatTunnel_aux src ip teid :
  ParseIP src = Some ip → in_width 32 teid →
  parseTunnel (formatTunnel src teid) = Ok (ip, teid).
Proof.
  intros Hp Ht. unfold parseTunnel, formatTunnel.
  change ("/" +:+ format_hex_alt teid) with (String "/" (format_hex_alt teid)).
  rewrite (Cut_app src "/") by (by eapply ParseIP_no_slash). rewrite Hp.
  by rewrite ParseUint_hex_roundtrip.
Qed.

(** C30: the status form of a tunnel round-trips for every source string the
    reactor accepts: whatever text [net.ParseIP] read the address from, and for
    every 32-bit TEID, what the finalizer and de-escalation parse back is the
    address and TEID that were blocked. *)
Theorem parseTunnel_formatTunnel src ip teid :
  ParseIP src = Some ip → in_width 32 teid →
  parseTunnel (formatTunnel src teid) = Ok (ip, teid).
Proof. apply parseTunnel_formatTunnel_aux. Qed.

Lemma parseTunnel_formatTunnel_witness :
  parseTunnel (formatTunnel "2001:db8::1" 4294967295) =
    Ok ([32; 1; 13; 184] ++ replicate 11 0 ++ [1], 4294967295).
Proof. apply parseTunnel_formatTunnel; [vm_compute; reflexivity|unfold in_width; lia]. Defined.

Lemma parseTunnel_wf entry ip teid : parseTunnel entry = Ok (ip, teid) → ip_wf ip ∧ 0 ≤ teid < 2 ^ 32.
Proof.
  unfold parseTunnel. intros H. repeat (case_match; simplify_eq).
  split; [by eapply ParseIP_wf|]. eapply ParseUint_range; [| |eassumption]; lia.
Qed.

(** ** What a policy asks for *)

Definition suppressedActions (policy : TelecomSecurityPolicy) : list string :=
  let a := spec_Actions (pol_Spec policy) in
  (if act_EbpfBlockTunnel a then ["ebpf_block_tunnel"] else []) ++
  (if act_EbpfBlock a then ["ebpf_block"] else []) ++
  (if act_IsolatePod a then ["mesh_quarantine"] else []).

(** A nil map is [None]. *)
Fixpoint firstMatchLabels (selectors : list WorkloadSelector) : option (gmap string string) :=
  match selectors with
  | [] => None
  | sel :: rest =>
      if negb (ws_App sel =? "")%string then Some {[ "app" := ws_App sel ]}
      else if (0 <? size (ws_MatchLabels sel))%nat then Some (ws_MatchLabels sel)
      else firstMatchLabels rest
  end.

(** ** What a status claims is enforced *)

(** The canonical addresses and tunnels a status names: what
    [desiredEnforcement], [tryDeEscalate] and [finalize] read out of it. *)
Definition claims_ip (s : TelecomSecurityPolicyStatus) (a : list Z) : Prop :=
  ∃ raw ip, raw ∈ st_BlockedSourceIPs s ∧ ParseIP raw = Some ip ∧ canon ip = Some a.
Definition claims_tunnel (s : TelecomSecurityPolicyStatus) (t : list Z * Z) : Prop :=
  ∃ entry ip, entry ∈ st_BlockedTunnels s ∧ parseTunnel entry = Ok (ip, t.2) ∧ canon ip = Some t.1.

(** The same as finite sets. *)
Definition raw_addr (raw : string) : option (list Z) := ParseIP raw ≫= canon.
Definition entry_tunnel (entry : string) : option (list Z * Z) :=
  match parseTunnel entry with
  | Ok (ip, teid) => a ← canon ip; Some (a, teid)
  | Fail _ => None
  end.
Definition claimed_ips (l : list string) : gset (list Z) := list_to_set (omap raw_addr l).
Definition claimed_tunnels (l : list string) : gset (list Z * Z) := list_to_set (omap entry_tunnel l).

Lemma claimed_ips_spec s a : a ∈ claimed_ips (st_BlockedSourceIPs s) ↔ claims_ip s a.
Proof.
  unfold claimed_ips, claims_ip, raw_addr. rewrite elem_of_list_to_set, list_elem_of_omap. split.
  - intros (raw & Hin & Ha). destruct (ParseIP raw) eqn:E; simpl in Ha; [|done]. eauto.
  - intros (raw & ip & Hin & Hp & Hc). exists raw. by rewrite Hp.
Qed.

Lemma claimed_tunnels_spec s t : t ∈ claimed_tunnels (st_BlockedTunnels s) ↔ claims_tunnel s t.
Proof.
  unfold claimed_tunnels, claims_tunnel, entry_tunnel. rewrite elem_of_list_to_set, list_elem_of_omap. split.
  - intros (e & Hin & Ha). destruct (parseTunnel e) as [[ip teid]|] eqn:E; [|done].
    destruct (canon ip) eqn:Ec; simpl in Ha; simplify_eq. eauto.
  - intros (e & ip & Hin & Hp & Hc). exists e. rewrite Hp, Hc. simpl. by destruct t.
Qed.

Lemma claimed_ips_cons raw l : claimed_ips (raw :: l) = claimed_ips [raw] ∪ claimed_ips l.
Proof. unfold claimed_ips. simpl. destruct (raw_addr raw); set_solver. Qed.
Lemma claimed_tunnels_cons e l : claimed_tunnels (e :: l) = claimed_tunnels [e] ∪ claimed_tunnels l.
Proof. unfold claimed_tunnels. simpl. destruct (entry_tunnel e); set_solver. Qed.
