(* ===== verification/Config.v ===== *)
(** * Config: the operator's configuration (pkg/config/config.go)

    [Load] reads the environment, a map from names to values, parses every
    variable in the source's order and validates the result. The two number
    formats of the Standard Library with a float in them, [strconv.ParseFloat]
    and [time.ParseDuration], are parameters: what is proved holds however they
    read a string. [falco_loadConfig] is cmd/falco-bridge's loader, which falls
    back to its defaults instead of refusing. *)

From S2P Require Import Prelude GoStrings GoFloat NetIP Events Api BoundedFifo TunnelFlood SourceFlood Blocklist Bus Decision.
From Stdlib Require Import SpecFloat.

Local Open Scope Z_scope.

Record OperatorConfig := {
  oc_MetricsBindAddress : string;
  oc_HealthProbeBindAddress : string;
  oc_LeaderElect : bool;
  oc_NATSURL : string;
  oc_NATSEventsSubject : string;
  oc_NATSThreatsSubject : string;
  oc_NATSStreamName : string;
  oc_NATSCredentialsFile : string;
  oc_NATSUsername : string;
  oc_NATSPassword : string;
  oc_NATSTLSCAFile : string;
  oc_NATSTLSCertFile : string;
  oc_NATSTLSKeyFile : string;
  oc_NATSAllowUnauthenticated : bool;
  oc_ThreatScoreThreshold : f64;
  oc_MeshAdapter : string;
  oc_LogLevel : string;
  oc_HubbleAddr : string;
  oc_HubbleTLSCAFile : string;
  oc_HubbleTLSCertFile : string;
  oc_HubbleTLSKeyFile : string;
  oc_DeEscalationDwell : Duration;
  oc_ScoringPipelineGrace : Duration;
  oc_BPFPinPath : string;
  oc_BlocklistReconcileInterval : Duration;
  oc_NATSEventBatchSize : Z;
  oc_NATSEventFlushInterval : Duration;
  oc_ReactorStatusWritesPerSecond : f64;
  oc_ReactorStatusWriteBurst : Z;
  oc_KillSwitchConfigMapName : string;
  oc_KillSwitchNamespace : string;
  oc_KillSwitchPollInterval : Duration;
  oc_GTPUTunnelFloodEnabled : bool;
  oc_GTPUTunnelFloodPPS : Z;
  oc_GTPUTunnelFloodCooldown : Duration;
  oc_GTPUSourceFloodEnabled : bool;
  oc_GTPUSourceFloodPPS : Z;
  oc_GTPUSourceFloodDistinctTunnels : Z;
  oc_GTPUSourceFloodWindow : Duration;
  oc_GTPUSourceFloodCooldown : Duration
}.

Abbreviation Env := (gmap string string) (only parsing).

Definition getEnv (env : Env) (key fallback : string) : string :=
  match env !! key with
  | Some v => if negb (v =? "")%string then v else fallback
  | None => fallback
  end.

Definition getEnvAllowEmpty (env : Env) (key fallback : string) : string :=
  match env !! key with Some v => v | None => fallback end.

(** [os.Getenv]: unset reads as empty. *)
Definition Getenv (env : Env) (key : string) : string := default "" (env !! key).

(** [strconv.ParseBool]. *)
Definition ParseBool (s : string) : option bool :=
  if bool_decide (s ∈ ["1"; "t"; "T"; "TRUE"; "true"; "True"]) then Some true
  else if bool_decide (s ∈ ["0"; "f"; "F"; "FALSE"; "false"; "False"]) then Some false
  else None.

(** [strconv.Atoi]: an optional sign and decimal digits, within an int64. *)
Definition Atoi (s : string) : option Z :=
  let '(neg, digits) :=
    match s with
    | String "-" s' => (true, s')
    | String "+" s' => (false, s')
    | _ => (false, s)
    end in
  match ParseUint digits 10 64 with
  | Some n =>
      let v := if (neg : bool) then - n else n in
      if (min_int64 <=? v) && (v <=? max_int64) then Some v else None
  | None => None
  end.

(** The shape every [parseXEnv] shares: unset or empty is the fallback, anything
    else must parse. *)
Definition parse_env {A} (env : Env) (key : string) (fallback : A) (parse : string → result A) : result A :=
  match env !! key with
  | None => Ok fallback
  | Some v =>
      if (v =? "")%string then Ok fallback
      else match parse v with
           | Ok a => Ok a
           | Fail err => Fail (Wrap (String.append "invalid " key) [err])
           end
  end.

Definition of_option {A} (o : option A) : result A :=
  match o with Some a => Ok a | None => Fail (Errorf "invalid syntax") end.

Definition parseBoolEnv (env : Env) (key : string) (fallback : bool) : result bool :=
  parse_env env key fallback (λ v, of_option (ParseBool v)).
Definition parseUint32Env (env : Env) (key : string) (fallback : Z) : result Z :=
  parse_env env key fallback (λ v, of_option (ParseUint v 10 32)).
Definition parseIntEnv (env : Env) (key : string) (fallback : Z) : result Z :=
  parse_env env key fallback (λ v,
    match Atoi v with
    | None => Fail (Errorf "invalid syntax")
    | Some parsed => if parsed <? 0 then Fail (Errorf "must not be negative") else Ok parsed
    end).

Notation "'let?' x := m 'in' k" := (match m with Ok x => k | Fail err => Fail err end)
  (at level 10, x name, m at level 100, k at level 200, only parsing).

Definition natsHasCredentials (cfg : OperatorConfig) : bool :=
  negb (oc_NATSCredentialsFile cfg =? "")%string || negb (oc_NATSUsername cfg =? "")%string ||
  negb (oc_NATSTLSCertFile cfg =? "")%string || negb (oc_NATSTLSCAFile cfg =? "")%string.

(** The validations at the end of [Load]. *)
Definition validate (cfg : OperatorConfig) : result OperatorConfig :=
  if f64_ltb (oc_ThreatScoreThreshold cfg) f64_zero || f64_ltb f64_one (oc_ThreatScoreThreshold cfg)
  then Fail (Errorf "THREAT_SCORE_THRESHOLD must be within [0,1]")
  else if oc_GTPUTunnelFloodEnabled cfg && (oc_GTPUTunnelFloodPPS cfg =? 0)
  then Fail (Errorf "GTPU_TUNNEL_FLOOD_PPS must be greater than 0")
  else if oc_GTPUSourceFloodEnabled cfg && (oc_GTPUSourceFloodPPS cfg =? 0) &&
          (oc_GTPUSourceFloodDistinctTunnels cfg =? 0)
  then Fail (Errorf "GTPU_SOURCE_FLOOD_PPS and GTPU_SOURCE_FLOOD_DISTINCT_TUNNELS cannot both be 0")
  else if oc_GTPUSourceFloodWindow cfg <=? 0
  then Fail (Errorf "GTPU_SOURCE_FLOOD_WINDOW must be greater than 0")
  else if negb (oc_NATSAllowUnauthenticated cfg) && negb (natsHasCredentials cfg)
  then Fail (Errorf "refusing to start with an unauthenticated NATS connection")
  else Ok cfg.

Section Load.
Context (ParseFloat : string → result f64) (ParseDuration : string → result Duration).

Definition parseFloatEnv (env : Env) (key : string) (fallback : f64) : result f64 :=
  parse_env env key fallback ParseFloat.
Definition parseDurationEnv (env : Env) (key : string) (fallback : Duration) : result Duration :=
  parse_env env key fallback ParseDuration.

Definition Load (env : Env) : result OperatorConfig :=
  let? threshold := parseFloatEnv env "THREAT_SCORE_THRESHOLD" (f64_lit 85 100) in
  let? leaderElect := parseBoolEnv env "LEADER_ELECT" false in
  let? deEscalationDwell := parseDurationEnv env "DE_ESCALATION_DWELL" (5 * Minute) in
  let? scoringPipelineGrace := parseDurationEnv env "SCORING_PIPELINE_GRACE" (10 * Minute) in
  let? tunnelFloodEnabled := parseBoolEnv env "GTPU_TUNNEL_FLOOD_ENABLED" true in
  let? tunnelFloodPPS := parseUint32Env env "GTPU_TUNNEL_FLOOD_PPS" 100000 in
  let? tunnelFloodCooldown := parseDurationEnv env "GTPU_TUNNEL_FLOOD_COOLDOWN" (30 * Second) in
  let? sourceFloodEnabled := parseBoolEnv env "GTPU_SOURCE_FLOOD_ENABLED" true in
  let? sourceFloodPPS := parseUint32Env env "GTPU_SOURCE_FLOOD_PPS" 500000 in
  let? sourceFloodDistinct := parseIntEnv env "GTPU_SOURCE_FLOOD_DISTINCT_TUNNELS" 2048 in
  let? sourceFloodWindow := parseDurationEnv env "GTPU_SOURCE_FLOOD_WINDOW" Second in
  let? sourceFloodCooldown := parseDurationEnv env "GTPU_SOURCE_FLOOD_COOLDOWN" (30 * Second) in
  let? allowUnauthenticated := parseBoolEnv env "NATS_ALLOW_UNAUTHENTICATED" false in
  let? blocklistReconcileInterval := parseDurationEnv env "BLOCKLIST_RECONCILE_INTERVAL" Minute in
  let? killSwitchPoll := parseDurationEnv env "KILL_SWITCH_POLL_INTERVAL" (2 * Second) in
  let? eventBatchSize := parseIntEnv env "NATS_EVENT_BATCH_SIZE" 1 in
  let? eventFlushInterval := parseDurationEnv env "NATS_EVENT_FLUSH_INTERVAL" (250 * Millisecond) in
  let? reactorRate := parseFloatEnv env "REACTOR_STATUS_WRITES_PER_SECOND" (f64_of_Z 10) in
  let? reactorBurst := parseIntEnv env "REACTOR_STATUS_WRITE_BURST" 20 in
  validate {|
    oc_MetricsBindAddress := getEnv env "METRICS_BIND_ADDRESS" ":8080";
    oc_HealthProbeBindAddress := getEnv env "HEALTH_PROBE_BIND_ADDRESS" ":8081";
    oc_LeaderElect := leaderElect;
    oc_NATSURL := getEnv env "NATS_URL" "nats://localhost:4222";
    oc_NATSEventsSubject := getEnv env "NATS_EVENTS_SUBJECT" "sentinel5g.events.normalized";
    oc_NATSThreatsSubject := getEnv env "NATS_THREATS_SUBJECT" "sentinel5g.threats.scored";
    oc_NATSStreamName := getEnv env "NATS_STREAM_NAME" "SENTINEL5G";
    oc_NATSCredentialsFile := getEnv env "NATS_CREDENTIALS_FILE" "";
    oc_NATSUsername := getEnv env "NATS_USERNAME" "";
    oc_NATSPassword := getEnv env "NATS_PASSWORD" "";
    oc_NATSTLSCAFile := getEnv env "NATS_TLS_CA_FILE" "";
    oc_NATSTLSCertFile := getEnv env "NATS_TLS_CERT_FILE" "";
    oc_NATSTLSKeyFile := getEnv env "NATS_TLS_KEY_FILE" "";
    oc_NATSAllowUnauthenticated := allowUnauthenticated;
    oc_ThreatScoreThreshold := threshold;
    oc_MeshAdapter := getEnv env "MESH_ADAPTER" "istio";
    oc_LogLevel := getEnv env "LOG_LEVEL" "info";
    oc_HubbleAddr := getEnv env "HUBBLE_ADDR" "";
    oc_HubbleTLSCAFile := getEnv env "HUBBLE_TLS_CA_FILE" "";
    oc_HubbleTLSCertFile := getEnv env "HUBBLE_TLS_CERT_FILE" "";
    oc_HubbleTLSKeyFile := getEnv env "HUBBLE_TLS_KEY_FILE" "";
    oc_DeEscalationDwell := deEscalationDwell;
    oc_ScoringPipelineGrace := scoringPipelineGrace;
    oc_BPFPinPath := getEnvAllowEmpty env "BPF_PIN_PATH" DefaultPinPath;
    oc_BlocklistReconcileInterval := blocklistReconcileInterval;
    oc_NATSEventBatchSize := eventBatchSize;
    oc_NATSEventFlushInterval := eventFlushInterval;
    oc_ReactorStatusWritesPerSecond := reactorRate;
    oc_ReactorStatusWriteBurst := reactorBurst;
    oc_KillSwitchConfigMapName := getEnvAllowEmpty env "KILL_SWITCH_CONFIGMAP_NAME" "sentinel5g-killswitch";
    oc_KillSwitchNamespace := getEnv env "KILL_SWITCH_NAMESPACE" (Getenv env "POD_NAMESPACE");
    oc_KillSwitchPollInterval := killSwitchPoll;
    oc_GTPUTunnelFloodEnabled := tunnelFloodEnabled;
    oc_GTPUTunnelFloodPPS := tunnelFloodPPS;
    oc_GTPUTunnelFloodCooldown := tunnelFloodCooldown;
    oc_GTPUSourceFloodEnabled := sourceFloodEnabled;
    oc_GTPUSourceFloodPPS := sourceFloodPPS;
    oc_GTPUSourceFloodDistinctTunnels := sourceFloodDistinct;
    oc_GTPUSourceFloodWindow := sourceFloodWindow;
    oc_GTPUSourceFloodCooldown := sourceFloodCooldown |}.
End Load.

(** ** The Falco bridge's configuration (cmd/falco-bridge/config.go) *)

Record falco_config := {
  fb_listenAddr : string;
  fb_sharedSecret : string;
  fb_logLevel : string;
  fb_natsURL : string;
  fb_natsStreamName : string;
  fb_natsEventsSubject : string;
  fb_natsThreatsSubject : string;
  fb_natsConnectTimeout : Duration;
  fb_natsCredentialsFile : string;
  fb_natsUsername : string;
  fb_natsPassword : string;
  fb_natsTLSCAFile : string;
  fb_natsTLSCertFile : string;
  fb_natsTLSKeyFile : string
}.

(** The message on standard error of a value that does not parse is left out. *)
Definition getDurationEnv (ParseDuration : string → result Duration) (env : Env) (key : string)
    (fallback : Duration) : Duration :=
  match env !! key with
  | None => fallback
  | Some v =>
      if (v =? "")%string then fallback
      else match ParseDuration v with Ok d => d | Fail _ => fallback end
  end.

Definition falco_loadConfig (ParseDuration : string → result Duration) (env : Env) : falco_config := {|
  fb_listenAddr := getEnv env "FALCO_BRIDGE_LISTEN_ADDR" ":8091";
  fb_sharedSecret := getEnv env "FALCO_BRIDGE_SHARED_SECRET" "";
  fb_logLevel := getEnv env "LOG_LEVEL" "info";
  fb_natsURL := getEnv env "NATS_URL" "nats://localhost:4222";
  fb_natsStreamName := getEnv env "NATS_STREAM_NAME" "SENTINEL5G";
  fb_natsEventsSubject := getEnv env "NATS_EVENTS_SUBJECT" "sentinel5g.events.normalized";
  fb_natsThreatsSubject := getEnv env "NATS_THREATS_SUBJECT" "sentinel5g.threats.scored";
  fb_natsConnectTimeout := getDurationEnv ParseDuration env "NATS_CONNECT_TIMEOUT" (5 * Second);
  fb_natsCredentialsFile := getEnv env "NATS_CREDENTIALS_FILE" "";
  fb_natsUsername := getEnv env "NATS_USERNAME" "";
  fb_natsPassword := getEnv env "NATS_PASSWORD" "";
  fb_natsTLSCAFile := getEnv env "NATS_TLS_CA_FILE" "";
  fb_natsTLSCertFile := getEnv env "NATS_TLS_CERT_FILE" "";
  fb_natsTLSKeyFile := getEnv env "NATS_TLS_KEY_FILE" "" |}.

(** ** What parses *)

Lemma parse_env_ok {A} env key fallback (parse : string → result A) a :
  parse_env env key fallback parse = Ok a →
  a = fallback ∨ ∃ v, env !! key = Some v ∧ parse v = Ok a.
Proof. unfold parse_env. intros. repeat case_match; naive_solver. Qed.

Lemma parseUint32Env_range env key fallback n :
  in_width 32 fallback → parseUint32Env env key fallback = Ok n → in_width 32 n.
Proof.
  intros Hf Hp; apply parse_env_ok in Hp as [-> | (v & _ & Hv)]; [done|]. unfold of_option in Hv. case_match; [|done].
  simplify_eq. by eapply (ParseUint_range v 10 32).
Qed.

Lemma parseIntEnv_nonneg env key fallback n :
  0 ≤ fallback → parseIntEnv env key fallback = Ok n → 0 ≤ n.
Proof.
  intros Hf Hp; apply parse_env_ok in Hp as [-> | (v & _ & Hv)]; [done|]. repeat case_match; simplify_eq; unbool; lia.
Qed.

(** ** What [Load] accepts *)

(** The configurations the operator starts with. *)
Record valid_config (cfg : OperatorConfig) : Prop := {
  vc_threshold : f64_ltb (oc_ThreatScoreThreshold cfg) f64_zero = false ∧
    f64_ltb f64_one (oc_ThreatScoreThreshold cfg) = false;
  vc_tunnel_pps : in_width 32 (oc_GTPUTunnelFloodPPS cfg);
  vc_tunnel_armed : oc_GTPUTunnelFloodEnabled cfg = true → 0 < oc_GTPUTunnelFloodPPS cfg;
  vc_source_pps : in_width 32 (oc_GTPUSourceFloodPPS cfg);
  vc_source_distinct : 0 ≤ oc_GTPUSourceFloodDistinctTunnels cfg;
  vc_source_armed : oc_GTPUSourceFloodEnabled cfg = true →
    0 < oc_GTPUSourceFloodPPS cfg ∨ 0 < oc_GTPUSourceFloodDistinctTunnels cfg;
  vc_window : 0 < oc_GTPUSourceFloodWindow cfg;
  vc_batch : 0 ≤ oc_NATSEventBatchSize cfg;
  vc_burst : 0 ≤ oc_ReactorStatusWriteBurst cfg;
  vc_auth : oc_NATSAllowUnauthenticated cfg = true ∨ natsHasCredentials cfg = true
}.

Lemma validate_ok cfg cfg' : validate cfg = Ok cfg' → cfg' = cfg ∧
  f64_ltb (oc_ThreatScoreThreshold cfg) f64_zero = false ∧
  f64_ltb f64_one (oc_ThreatScoreThreshold cfg) = false ∧
  oc_GTPUTunnelFloodEnabled cfg && (oc_GTPUTunnelFloodPPS cfg =? 0) = false ∧
  oc_GTPUSourceFloodEnabled cfg && (oc_GTPUSourceFloodPPS cfg =? 0) &&
    (oc_GTPUSourceFloodDistinctTunnels cfg =? 0) = false ∧
  0 < oc_GTPUSourceFloodWindow cfg ∧
  (oc_NATSAllowUnauthenticated cfg = true ∨ natsHasCredentials cfg = true).
Proof.
  unfold validate. intros H.
  destruct (f64_ltb _ _ || _) eqn:E1; [done|]. destruct (_ && (_ =? 0)) eqn:E2 in H; [done|].
  destruct (_ && _ && _) eqn:E3 in H; [done|]. destruct (_ <=? _) eqn:E4 in H; [done|].
  destruct (_ && _) eqn:E5 in H; [done|]. simplify_eq. unbool. repeat split; try done.
  apply andb_false_iff in E5 as [E5|E5]; unbool; auto.
Qed.

(** Takes a successful [Load] apart into its successful parses. *)
Ltac unload H :=
  repeat match type of H with
    | match ?m with Ok _ => _ | Fail _ => _ end = _ => let E := fresh "E" in destruct m eqn:E; [|done]
    end.

(** The parsed fields that reach [validate], with the ranges their parsers give. *)
Lemma Load_inv pf pd env cfg : Load pf pd env = Ok cfg → validate cfg = Ok cfg ∧
  parseUint32Env env "GTPU_TUNNEL_FLOOD_PPS" 100000 = Ok (oc_GTPUTunnelFloodPPS cfg) ∧
  parseUint32Env env "GTPU_SOURCE_FLOOD_PPS" 500000 = Ok (oc_GTPUSourceFloodPPS cfg) ∧
  parseIntEnv env "GTPU_SOURCE_FLOOD_DISTINCT_TUNNELS" 2048 = Ok (oc_GTPUSourceFloodDistinctTunnels cfg) ∧
  parseIntEnv env "NATS_EVENT_BATCH_SIZE" 1 = Ok (oc_NATSEventBatchSize cfg) ∧
  parseIntEnv env "REACTOR_STATUS_WRITE_BURST" 20 = Ok (oc_ReactorStatusWriteBurst cfg) ∧
  parseFloatEnv pf env "THREAT_SCORE_THRESHOLD" (f64_lit 85 100) = Ok (oc_ThreatScoreThreshold cfg) ∧
  oc_BPFPinPath cfg = getEnvAllowEmpty env "BPF_PIN_PATH" DefaultPinPath ∧
  oc_KillSwitchConfigMapName cfg = getEnvAllowEmpty env "KILL_SWITCH_CONFIGMAP_NAME" "sentinel5g-killswitch" ∧
  oc_KillSwitchNamespace cfg = getEnv env "KILL_SWITCH_NAMESPACE" (Getenv env "POD_NAMESPACE").
Proof.
  unfold Load. intros H. unload H.
  pose proof H as Hv. apply validate_ok in H as [-> _]. simpl. repeat split; done.
Qed.

(** The two detector switches. *)
Lemma Load_flags pf pd env cfg : Load pf pd env = Ok cfg →
  parseBoolEnv env "GTPU_TUNNEL_FLOOD_ENABLED" true = Ok (oc_GTPUTunnelFloodEnabled cfg) ∧
  parseBoolEnv env "GTPU_SOURCE_FLOOD_ENABLED" true = Ok (oc_GTPUSourceFloodEnabled cfg).
Proof.
  unfold Load. intros H. unload H. apply validate_ok in H as [-> _]. done.
Qed.

Lemma load_ok pf pd env cfg : Load pf pd env = Ok cfg → valid_config cfg.
Proof.
  intros (Hv & Ht & Hs & Hd & Hb & Hr & _)%Load_inv.
  apply validate_ok in Hv as (_ & Hlo & Hhi & Htz & Hsz & Hw & Ha).
  apply parseUint32Env_range in Ht, Hs; try (split; done).
  apply parseIntEnv_nonneg in Hd, Hb, Hr; try done.
  split; try done; unfold in_width in *; intros He; rewrite He in *; simpl in *; unbool; [lia|].
  apply andb_false_iff in Hsz as [Hz|Hz]; unbool; lia.
Qed.

(** [strconv.ParseFloat] accepts the text NaN. It passes the range check, both
    of whose comparisons are false, and then every score counts as a crossing. *)
Theorem nan_threshold_accepted pf pd env cfg score s :
  pf "NaN" = Ok S754_nan → env !! "THREAT_SCORE_THRESHOLD" = Some "NaN" →
  Load pf pd env = Ok cfg →
  oc_ThreatScoreThreshold cfg = S754_nan ∧
  f64_ltb score (effective_threshold (oc_ThreatScoreThreshold cfg) s) = false.
Proof.
  intros Hp Hk (_ & _ & _ & _ & _ & _ & Ht & _)%Load_inv.
  unfold parseFloatEnv, parse_env in Ht. rewrite Hk in Ht. simpl in Ht. rewrite Hp in Ht.
  injection Ht as <-. split; [done|]. unfold effective_threshold, f64_mul.
  change (SFmul 53 1024 S754_nan _) with S754_nan. apply f64_ltb_nan_r.
Qed.

(** ** The loader at work *)

Module ConfigSample.
(** Floats and durations the deployment uses. *)
Definition floats (s : string) : result f64 :=
  if (s =? "NaN")%string then Ok S754_nan else if (s =? "0.9")%string then Ok (f64_lit 9 10)
  else Fail (Errorf "invalid syntax").
Definition durations (s : string) : result Duration :=
  if (s =? "45s")%string then Ok (45 * Second) else Fail (Errorf "invalid duration").

Definition env : gmap string string :=
  <["NATS_USERNAME" := "operator"]> (<["NATS_PASSWORD" := "secret"]>
  (<["GTPU_TUNNEL_FLOOD_PPS" := "50000"]> (<["GTPU_SOURCE_FLOOD_COOLDOWN" := "45s"]>
  (<["THREAT_SCORE_THRESHOLD" := "0.9"]> (<["BPF_PIN_PATH" := ""]> ∅))))).

Definition loaded (e : gmap string string) : option OperatorConfig :=
  match Load floats durations e with Ok c => Some c | Fail _ => None end.

Lemma nan_threshold_accepted_witness :
  match loaded (<["THREAT_SCORE_THRESHOLD" := "NaN"]> env) with
  | Some c => f64_ltb f64_zero (effective_threshold (oc_ThreatScoreThreshold c) SensitivityLow) = false
  | None => False
  end.
Proof.
  destruct (loaded _) as [c|] eqn:E; [|vm_compute in E; discriminate].
  unfold loaded in E. destruct (Load floats durations _) as [c'|] eqn:El; [|discriminate].
  injection E as ->.
  apply (nan_threshold_accepted floats durations (<["THREAT_SCORE_THRESHOLD" := "NaN"]> env) c
    f64_zero SensitivityLow); [reflexivity|reflexivity|exact El].
Defined.
End ConfigSample.
