(* ===== verification/Operator.v ===== *)
(** * Operator: how cmd/operator/main.go puts the parts together

    The helpers of main.go and its wiring: which detectors, bus, kill switch and
    mesh adapter a loaded configuration yields, and what happens when the eBPF
    program or a mesh CRD is missing. [os.Exit(1)] is [Fail]. The cmd/falco-bridge
    main is here too. Logging is left out; the Events recorded on the
    operator's Pod are lists of their reasons. *)

From S2P Require Import Prelude GoStrings GoPath GoFloat NetIP Events Api BoundedFifo TunnelFlood SourceFlood Blocklist PolicyIndex Attach AttachProofs World KillSwitch Ingestion Bus Decision Config Mesh.
From Stdlib Require Import SpecFloat.

Local Open Scope Z_scope.
Local Open Scope go_scope.

(** ** From the configuration to the parts *)

Definition DefaultConnectTimeout : Duration := 5 * Second.

Definition bus_config (cfg : OperatorConfig) : BusConfig := {|
  bc_URL := oc_NATSURL cfg; bc_StreamName := oc_NATSStreamName cfg;
  bc_EventsSubject := oc_NATSEventsSubject cfg; bc_ThreatsSubject := oc_NATSThreatsSubject cfg;
  bc_ConnectTimeout := DefaultConnectTimeout;
  bc_CredentialsFile := oc_NATSCredentialsFile cfg; bc_Username := oc_NATSUsername cfg;
  bc_Password := oc_NATSPassword cfg; bc_TLSCAFile := oc_NATSTLSCAFile cfg;
  bc_TLSCertFile := oc_NATSTLSCertFile cfg; bc_TLSKeyFile := oc_NATSTLSKeyFile cfg |}.

(** The fields main.go does not set are the zero values. *)
Definition tunnel_flood (cfg : OperatorConfig) : GTPUFloodDetector :=
  NewGTPUFloodDetector {|
    fc_Enabled := oc_GTPUTunnelFloodEnabled cfg; fc_PacketsPerSecond := oc_GTPUTunnelFloodPPS cfg;
    fc_Cooldown := oc_GTPUTunnelFloodCooldown cfg; fc_MaxTrackedTunnels := 0 |}.
Definition source_flood (cfg : OperatorConfig) : GTPUSourceFloodDetector :=
  NewGTPUSourceFloodDetector {|
    sc_Enabled := oc_GTPUSourceFloodEnabled cfg; sc_PacketsPerSecond := oc_GTPUSourceFloodPPS cfg;
    sc_DistinctTunnels := oc_GTPUSourceFloodDistinctTunnels cfg; sc_Window := oc_GTPUSourceFloodWindow cfg;
    sc_Cooldown := oc_GTPUSourceFloodCooldown cfg; sc_MaxTrackedSources := 0; sc_MaxTunnelsPerSource := 0 |}.

Definition new_publisher (cfg : OperatorConfig) (nodeName : string) : PublisherConfig * Publisher :=
  ({| pc_Subject := oc_NATSEventsSubject cfg; pc_ThreatsSubject := oc_NATSThreatsSubject cfg;
      pc_NodeName := nodeName; pc_BatchSize := oc_NATSEventBatchSize cfg |},
   {| pub_TunnelFlood := Some (tunnel_flood cfg); pub_SourceFlood := Some (source_flood cfg);
      pub_connected := false; pub_batch := [] |}).

Definition new_killswitch (cfg : OperatorConfig) : option KillSwitch :=
  if negb (oc_KillSwitchConfigMapName cfg =? "")%string && negb (oc_KillSwitchNamespace cfg =? "")%string
  then Some (NewKillSwitch (oc_KillSwitchPollInterval cfg))
  else None.

Definition operatorPodRef (env : gmap string string) : option NamespacedName :=
  let name := Getenv env "POD_NAME" in
  let namespace := Getenv env "POD_NAMESPACE" in
  if (name =? "")%string || (namespace =? "")%string then None
  else Some {| nn_Namespace := namespace; nn_Name := name |}.

Definition natsReadyzCheck (c : Connector) : error :=
  if negb (Connected c) then Some (Errorf "not yet connected to NATS JetStream") else None.

(** ** Attaching the blocklist, or doing without *)

(** The [BlocklistUpdater] the operator runs with. *)
Inductive OperatorBlocklist := Attached (l : AttachedLoader) | NoBlocklist.

(** With the [AttachWithOptions] of the platform the operator is built for. *)
Definition attachBlocklist_on {H : Type} (AttachWithOptions : string → string → string → M H AttachedLoader) (ref : option NamespacedName) (objectPath iface pinPath : string) (h : H)
    : OperatorBlocklist * list string * H :=
  let report (reason : string) : list string := match ref with Some _ => [reason] | None => [] end in
  let give_in (events : list string) (h : H) := (NoBlocklist, events ++ report "EBPFAttachFailed", h) in
  match AttachWithOptions objectPath iface pinPath h with
  | (Ok loader, h1) => (Attached loader, [], h1)
  | (Fail err, h1) =>
      if negb (pinPath =? "")%string && errors_Is err ErrPinPathNotBPFFS then
        match AttachWithOptions objectPath iface "" h1 with
        | (Ok unpinned, h2) => (Attached unpinned, report "EBPFPinUnavailable", h2)
        | (Fail _, h2) => give_in (report "EBPFPinUnavailable") h2
        end
      else give_in [] h1
  end.

(** The Linux build. *)
Definition attachBlocklist {H : Type} `{BpfHost H} `{RangeOrder} := attachBlocklist_on (H := H) AttachWithOptions.

(** ** What main registers with the manager *)

(** The Loader implements EventSource, the no-op does not; without a hostname the
    process exits, but the hostname is needed only for the publisher. *)
Definition register_publisher (cfg : OperatorConfig) (hostname : result string)
    (blocklist : OperatorBlocklist) : result (option (PublisherConfig * Publisher)) :=
  match blocklist with
  | NoBlocklist => Ok None
  | Attached _ =>
      match hostname with
      | Fail err => Fail err
      | Ok nodeName => Ok (Some (new_publisher cfg nodeName))
      end
  end.

(** The Hubble observer's address. *)
Definition register_observer (cfg : OperatorConfig) : option string :=
  if negb (oc_HubbleAddr cfg =? "")%string then Some (oc_HubbleAddr cfg) else None.

(** The drift reconciler's interval: only a Loader can be inspected. *)
Definition register_drift (cfg : OperatorConfig) (blocklist : OperatorBlocklist) : option Duration :=
  match blocklist with Attached _ => Some (oc_BlocklistReconcileInterval cfg) | NoBlocklist => None end.

(** ** The mesh adapter *)

(** [restMapping]: what the cluster's REST mapper answers for a kind. *)
Definition buildMeshAdapter (restMapping : GroupVersionKind → error) (kind : string) : result Adapter :=
  let checked gvk := match restMapping gvk with Some _ => Ok NoopAdapter | None => NewAdapter kind end in
  if (kind =? "istio")%string then checked authorizationPolicyGVK
  else if (kind =? "cilium")%string then checked ciliumNetworkPolicyGVK
  else if (kind =? "linkerd")%string then checked serverGVK
  else NewAdapter kind.

(** ** TLS for the Hubble Relay *)

Record TLSConfig := { tls_RootCAs : option string; tls_Certificate : option (string * string) }.

Section HubbleTLS.
(** [os.ReadFile], [CertPool.AppendCertsFromPEM], [tls.LoadX509KeyPair]. *)
Context (ReadFile : string → result string) (AppendCertsFromPEM : string → bool)
        (LoadX509KeyPair : string → string → error).

Definition hubbleTLSConfig (cfg : OperatorConfig) : result (option TLSConfig) :=
  if (oc_HubbleTLSCAFile cfg =? "")%string && (oc_HubbleTLSCertFile cfg =? "")%string &&
     (oc_HubbleTLSKeyFile cfg =? "")%string
  then Ok None
  else
    let? roots :=
      (if negb (oc_HubbleTLSCAFile cfg =? "")%string then
         let? caCert := ReadFile (oc_HubbleTLSCAFile cfg) in
         if negb (AppendCertsFromPEM caCert) then Fail (Errorf "no certificates found")
         else Ok (Some caCert)
       else Ok None) in
    let? cert :=
      (if negb (oc_HubbleTLSCertFile cfg =? "")%string then
         match LoadX509KeyPair (oc_HubbleTLSCertFile cfg) (oc_HubbleTLSKeyFile cfg) with
         | Some err => Fail err
         | None => Ok (Some (oc_HubbleTLSCertFile cfg, oc_HubbleTLSKeyFile cfg))
         end
       else Ok None) in
    Ok (Some {| tls_RootCAs := roots; tls_Certificate := cert |}).
End HubbleTLS.

(** ** Health checks *)

(** [get]: the HTTP GET, by URL: the status code or an error. *)
Definition probe (get : string → result Z) (addr : string) : Z :=
  match get ("http://127.0.0.1" +:+ addr +:+ "/healthz") with
  | Fail _ => 1
  | Ok code => if negb (code =? 200) then 1 else 0
  end.
Definition operator_runHealthcheck (get : string → result Z) (cfg : result OperatorConfig) : Z :=
  match cfg with Fail _ => 1 | Ok cfg => probe get (oc_HealthProbeBindAddress cfg) end.
Definition falco_runHealthcheck (get : string → result Z) (cfg : falco_config) : Z :=
  probe get (fb_listenAddr cfg).

(** ** cmd/falco-bridge *)

Definition falco_nodeName (env : gmap string string) (hostname : result string) : string :=
  let nodeName := Getenv env "NODE_NAME" in
  if (nodeName =? "")%string then match hostname with Ok h => h | Fail _ => nodeName end else nodeName.

Definition falco_bus_config (cfg : falco_config) : BusConfig := {|
  bc_URL := fb_natsURL cfg; bc_StreamName := fb_natsStreamName cfg;
  bc_EventsSubject := fb_natsEventsSubject cfg; bc_ThreatsSubject := fb_natsThreatsSubject cfg;
  bc_ConnectTimeout := fb_natsConnectTimeout cfg;
  bc_CredentialsFile := fb_natsCredentialsFile cfg; bc_Username := fb_natsUsername cfg;
  bc_Password := fb_natsPassword cfg; bc_TLSCAFile := fb_natsTLSCAFile cfg;
  bc_TLSCertFile := fb_natsTLSCertFile cfg; bc_TLSKeyFile := fb_natsTLSKeyFile cfg |}.
