(* ===== verification/OperatorProofs.v ===== *)
(** * OperatorProofs: the operator starts safely, or says what is missing *)

From S2P Require Import Prelude GoStrings GoPath GoFloat NetIP Events Api BoundedFifo TunnelFlood SourceFlood Blocklist PolicyIndex Attach AttachProofs World KillSwitch Ingestion Bus Decision Config Mesh MeshProofs Capture Operator.
From Stdlib Require Import SpecFloat.

Local Open Scope Z_scope.

(** ** The detectors of a loaded configuration *)

(** The value of a flag reported by a rate of zero packets. *)
Lemma zero_rate_below pps : 0 < pps < 2 ^ 32 → f64_ltb f64_zero (f64_of_Z pps) = true.
Proof.
  intros Hp. change f64_zero with (f64_of_Z 0). rewrite f64_ltb_of_Z by lia. apply Z.ltb_lt. lia.
Qed.

(** From a configuration [Load] accepts, main builds detectors that can do
    what they were enabled for: the enabled source detector is [Configured], so
    one of its thresholds is set, and the enabled tunnel detector reports
    no tunnel whose rate is zero; a disabled one never reports. *)
Theorem started_detectors_armed pf pd env cfg evt now : Load pf pd env = Ok cfg →
  Configured (source_flood cfg) = oc_GTPUSourceFloodEnabled cfg ∧
  0 < sc_Window (sd_cfg (source_flood cfg)) ∧ 0 < sc_Cooldown (sd_cfg (source_flood cfg)) ∧
  0 < fc_Cooldown (fd_cfg (tunnel_flood cfg)) ∧
  (ne_TunnelRatePerSecond evt = f64_zero ∨ oc_GTPUTunnelFloodEnabled cfg = false →
   (Evaluate (tunnel_flood cfg) evt now).1.2 = false).
Proof.
  intros [_ Htw Hta Hsw Hd Hsa Hw _ _ _]%load_ok.
  split; [|split; [|split; [|split]]].
  - unfold Configured, source_flood. simpl. destruct (oc_GTPUSourceFloodEnabled cfg); [|done]. simpl.
    apply orb_true_iff. rewrite !Z.ltb_lt. by apply Hsa.
  - simpl. unfold or_default. case_match; unbool; lia.
  - simpl. unfold or_default. case_match eqn:E; unbool; [done|lia].
  - apply (New_wf _).
  - intros Hz. unfold Evaluate, tunnel_flood. simpl. destruct (oc_GTPUTunnelFloodEnabled cfg); simpl; [|done].
    destruct Hz as [Hz|]; [|done]. unfold in_width in Htw. specialize (Hta eq_refl).
    destruct (_ =? 0) eqn:E; unbool; [done|]. case_match; [done|].
    by rewrite Hz, zero_rate_below by lia.
Qed.

(** C34: A source rule can be accepted, report itself configured and be unable
    to fire. With the rate half off ([GTPU_SOURCE_FLOOD_PPS] = 0) and more
    distinct tunnels asked for than the detector remembers for one source (4096,
    which no setting of the operator changes), the detector main builds counts as
    [Configured], and no traffic whatever makes it report. *)
Theorem capped_source_rule_never_fires cfg l evt now :
  oc_GTPUSourceFloodEnabled cfg = true → oc_GTPUSourceFloodPPS cfg = 0 →
  4096 < oc_GTPUSourceFloodDistinctTunnels cfg →
  Configured (source_flood cfg) = true ∧
  (EvaluateSource (run_source (source_flood cfg) l) evt now).1.2 = false.
Proof.
  intros Hen Hp Hd. split.
  { unfold Configured, source_flood. cbn. rewrite Hen, Hp. apply Z.ltb_lt. lia. }
  destruct (run_source_wf (source_flood cfg) l (NewSource_wf _)) as [Hwf Hcfg].
  destruct (EvaluateSource _ evt now) as [[[s o] b] d'] eqn:E. cbn. destruct b; [|done]. exfalso.
  apply EvaluateSource_cases in E as [[_ ?]|(_ & _ & w & Hs & _)]; [done|].
  destruct Hwf as (_ & Hm & _ & Hall). pose proof Hs as Hsize.
  apply step_window_size in Hsize; [|done|intros w0 Hw0; by eapply Hall].
  apply step_window_fires in Hs as [Hr _]. apply report_true in Hr.
  rewrite Hcfg in Hr, Hsize. cbn in Hr, Hsize. rewrite Hp in Hr.
  change (Z.of_nat (size (sw_teids w)) ≤ 4096) in Hsize. lia.
Qed.

(** The protections are on unless switched off explicitly. Drops are pinned
    unless [BPF_PIN_PATH] is set to the empty string; the kill switch is built
    unless [KILL_SWITCH_CONFIGMAP_NAME] is set to it or no namespace is known; and
    with the default environment both flood rules are on. *)
Theorem opt_outs_are_explicit pf pd env cfg : Load pf pd env = Ok cfg →
  (oc_BPFPinPath cfg = "" ↔ env !! "BPF_PIN_PATH" = Some "") ∧
  (new_killswitch cfg = None ↔ env !! "KILL_SWITCH_CONFIGMAP_NAME" = Some "" ∨
     (Getenv env "KILL_SWITCH_NAMESPACE" = "" ∧ Getenv env "POD_NAMESPACE" = "")) ∧
  (env !! "GTPU_TUNNEL_FLOOD_ENABLED" = None → fc_Enabled (fd_cfg (tunnel_flood cfg)) = true) ∧
  (env !! "GTPU_SOURCE_FLOOD_ENABLED" = None → Configured (source_flood cfg) = true).
Proof.
  intros Hl. pose proof (load_ok _ _ _ _ Hl) as [_ _ _ _ _ Hsa _ _ _ _].
  pose proof (Load_flags _ _ _ _ Hl) as [Ht Hs].
  apply Load_inv in Hl as (_ & _ & _ & _ & _ & _ & _ & Hpin & Hname & Hns).
  split; [|split; [|split]].
  - rewrite Hpin. unfold getEnvAllowEmpty. case_match; naive_solver.
  - unfold new_killswitch. rewrite Hname, Hns. unfold getEnvAllowEmpty, getEnv, Getenv.
    destruct (env !! "KILL_SWITCH_CONFIGMAP_NAME") as [name|]; simpl;
      [destruct (name =? "")%string eqn:E1; unbool; subst; simpl; [naive_solver|]|];
      destruct (env !! "KILL_SWITCH_NAMESPACE") as [ns|]; simpl;
      [destruct (ns =? "")%string eqn:E2; unbool; subst; simpl| |destruct (ns =? "")%string eqn:E2; unbool; subst; simpl|];
      case_match eqn:E3; unbool; naive_solver.
  - intros He. unfold parseBoolEnv, parse_env in Ht. rewrite He in Ht. injection Ht as Ht. by simpl.
  - intros He. unfold parseBoolEnv, parse_env in Hs. rewrite He in Hs. injection Hs as Hs.
    unfold Configured, source_flood. simpl. rewrite <- Hs. simpl.
    apply orb_true_iff. rewrite !Z.ltb_lt. by apply Hsa.
Qed.

(** ** Attaching *)

Section AttachBlocklistProofs.
Context {H : Type} `{HB : BpfHost H} `{HS : !BpfHostSpec H} `{HR : RangeOrder}.

Lemma AttachWithOptions_held obj iface path h r h' : AttachWithOptions obj iface path h = (r, h') →
  match r with
  | Fail _ => held h' = held h
  | Ok l => al_pinPath l = path ∧ ∀ e h'', AttachedLoader_Close l h' = (e, h'') → held h'' = held h
  end.
Proof using Type.
  intros Ha. pose proof (attach_releases _ _ _ _ _ _ Ha) as Hl. apply AttachWithOptions_spec in Ha.
  destruct r as [l|]; [|done]. split; [apply (at_pinPath _ _ _ _ Ha)|apply Hl].
Qed.

(** Losing eBPF never stops the operator and is never silent. Whatever the
    host answers, main ends up with a blocklist: an attached Loader pinned under
    the configured path, an unpinned one when that path is not on a bpffs, or the
    no-op; in the no-op case nothing is left open and closing an attached one
    leaves nothing open; and unless everything worked as configured, an Event on
    the operator's Pod says so. *)
Theorem attach_degrades ref obj iface path (h : H) bl events h' :
  attachBlocklist ref obj iface path h = (bl, events, h') →
  match bl with
  | Attached l =>
      (al_pinPath l = path ∨ path ≠ "" ∧ al_pinPath l = "" ∧
         (ref ≠ None → events = ["EBPFPinUnavailable"])) ∧
      ∀ e h'', AttachedLoader_Close l h' = (e, h'') → held h'' = held h
  | NoBlocklist => held h' = held h ∧ (ref ≠ None → last events = Some "EBPFAttachFailed")
  end.
Proof using Type.
  unfold attachBlocklist, attachBlocklist_on. destruct (AttachWithOptions obj iface path h) as [[l|err] h1] eqn:E1;
    apply AttachWithOptions_held in E1 as Hh1.
  { intros [= <- <- <-]. destruct Hh1. split; [by left|done]. }
  destruct (negb (path =? "")%string && errors_Is err ErrPinPathNotBPFFS) eqn:Ep.
  - destruct (AttachWithOptions obj iface "" h1) as [[l|err2] h2] eqn:E2;
      apply AttachWithOptions_held in E2 as Hh2; rewrite Hh1 in Hh2; intros [= <- <- <-]; unbool.
    + destruct Hh2 as [Hp Hc]. split; [|done]. right. destruct ref; naive_solver.
    + split; [done|]. destruct ref; done.
  - intros [= <- <- <-]. split; [done|]. destruct ref; done.
Qed.
End AttachBlocklistProofs.

(** ** The mesh adapter *)

(** main picks an adapter whose custom resource the cluster serves, or the
    no-op: an isolation the cluster has no kind for is never attempted. For the
    names the documentation gives it never exits. *)
Theorem mesh_adapter_servable restMapping kind a : buildMeshAdapter restMapping kind = Ok a →
  ∀ ns sel o, single_object a ns sel = Some o ∨ (a = LinkerdAdapter ∧ o = port_server ns sel 80) →
  restMapping (u_GVK o) = None.
Proof.
  unfold buildMeshAdapter, NewAdapter. intros Hb ns sel o Ho.
  repeat (case_match; simplify_eq/=); unbool; simplify_eq/=; naive_solver.
Qed.

(** ** Authentication *)

Definition authenticates (o : NatsOption) : bool :=
  match o with UserCredentials _ | UserInfo _ _ | ClientCert _ _ => true | _ => false end.

(** What a loaded configuration connects with: some credential, unless it allows
    otherwise or names a certificate authority only, which [natsHasCredentials]
    counts as a credential though it identifies the server, not the operator. *)
Theorem bus_authenticated pf pd env cfg : Load pf pd env = Ok cfg →
  existsb authenticates (connect_options (bus_config cfg)) = true ∨
  oc_NATSAllowUnauthenticated cfg = true ∨
  (oc_NATSTLSCAFile cfg ≠ "" ∧ existsb authenticates (connect_options (bus_config cfg)) = false).
Proof.
  intros [_ _ _ _ _ _ _ _ _ Ha]%load_ok. destruct Ha as [|Hc]; [by right; left|].
  unfold natsHasCredentials in Hc. unfold connect_options, bus_config; simpl.
  destruct (oc_NATSCredentialsFile cfg =? "")%string; [|by left].
  destruct (oc_NATSUsername cfg =? "")%string; [|by left].
  destruct (oc_NATSTLSCertFile cfg =? "")%string; [|by left].
  destruct (oc_NATSTLSCAFile cfg =? "")%string eqn:E; unbool; [done|]. right; right. by split.
Qed.

(** ** The operator at work *)

Module OperatorSample.
Import ConfigSample SimHosts.

#[local] Instance order : RangeOrder := sample_order.

(** [Load]'s answer, on an environment it accepts. *)
Definition accepted (e : gmap string string) : bool := is_Ok (Load floats durations e).

Lemma accepted_loaded e : accepted e = true → ∃ cfg, Load floats durations e = Ok cfg.
Proof. unfold accepted. destruct (Load _ _ e) as [cfg|]; [by eexists|done]. Qed.

Lemma started_detectors_armed_witness :
  accepted env = true ∧ ∃ cfg, Load floats durations env = Ok cfg ∧
    Configured (source_flood cfg) = oc_GTPUSourceFloodEnabled cfg.
Proof.
  assert (Ha : accepted env = true) by (vm_compute; reflexivity). split; [exact Ha|].
  destruct (accepted_loaded env Ha) as [cfg Hc]. exists cfg. split; [exact Hc|].
  apply (started_detectors_armed floats durations env cfg CaptureSample.flow_event 0 Hc).
Defined.

Lemma opt_outs_are_explicit_witness :
  accepted env = true ∧ ∃ cfg, Load floats durations env = Ok cfg ∧ oc_BPFPinPath cfg = "" ∧
    Configured (source_flood cfg) = true.
Proof.
  assert (Ha : accepted env = true) by (vm_compute; reflexivity). split; [exact Ha|].
  destruct (accepted_loaded env Ha) as [cfg Hc]. exists cfg. split; [exact Hc|].
  destruct (opt_outs_are_explicit floats durations env cfg Hc) as (Hp & _ & _ & Hs).
  split; [apply Hp; reflexivity|apply Hs; reflexivity].
Defined.

(** Rotating TEIDs is to be reported from 5000 tunnels on, at any rate. *)
Definition capped : gmap string string :=
  <["GTPU_SOURCE_FLOOD_PPS" := "0"]> (<["GTPU_SOURCE_FLOOD_DISTINCT_TUNNELS" := "5000"]> env).

Lemma capped_source_rule_never_fires_witness :
  accepted capped = true ∧ ∃ cfg, Load floats durations capped = Ok cfg ∧ Configured (source_flood cfg) = true ∧
    (EvaluateSource (run_source (source_flood cfg) [(CaptureSample.flow_event, 0)]) CaptureSample.flow_event 1).1.2 = false.
Proof.
  assert (Ha : accepted capped = true) by (vm_compute; reflexivity). split; [exact Ha|].
  destruct (accepted_loaded capped Ha) as [cfg Hc]. exists cfg. split; [exact Hc|].
  assert (Hf : oc_GTPUSourceFloodEnabled cfg = true ∧ oc_GTPUSourceFloodPPS cfg = 0 ∧
    4096 < oc_GTPUSourceFloodDistinctTunnels cfg)
    by (vm_compute in Hc; injection Hc as <-; repeat split).
  apply (capped_source_rule_never_fires cfg [(CaptureSample.flow_event, 0)] CaptureSample.flow_event 1); apply Hf.
Defined.

(** A host whose pin path is on an ordinary file system. *)
Definition misplaced : string := "/var/lib/sentinel5g".
Definition pod : NamespacedName := {| nn_Namespace := "sentinel5g"; nn_Name := "operator-0" |}.
Definition start : OperatorBlocklist * list string * SimHost :=
  attachBlocklist (Some pod) "/bpf/packet_filter.o" "eth0" misplaced AttachSample.blank.
Definition unpinned : AttachedLoader :=
  match start.1.1 with Attached l => l | NoBlocklist => AttachSample.dummy end.

Lemma attach_degrades_witness :
  al_pinPath unpinned = "" ∧ start.1.2 = ["EBPFPinUnavailable"] ∧
  held (AttachedLoader_Close unpinned start.2).2 = ∅.
Proof.
  assert (Hs : attachBlocklist (Some pod) "/bpf/packet_filter.o" "eth0" misplaced AttachSample.blank =
    (Attached unpinned, start.1.2, start.2)) by (vm_compute; reflexivity).
  destruct (attach_degrades _ _ _ _ _ _ _ _ Hs) as [_ Hc].
  split; [vm_compute; reflexivity|]. split; [vm_compute; reflexivity|].
  rewrite (Hc (AttachedLoader_Close unpinned start.2).1); [reflexivity|]. apply surjective_pairing.
Defined.

(** A cluster with Cilium and no Istio. *)
Definition cilium_only (g : GroupVersionKind) : error :=
  if bool_decide (g = ciliumNetworkPolicyGVK) then None else Some (Errorf "no matches for kind").

Lemma mesh_adapter_servable_witness :
  buildMeshAdapter cilium_only "istio" = Ok NoopAdapter ∧ cilium_only ciliumNetworkPolicyGVK = None.
Proof.
  split; [reflexivity|].
  apply (mesh_adapter_servable cilium_only "cilium" CiliumAdapter eq_refl "core" ∅
    (newCiliumNetworkPolicy "core" ∅)). left. reflexivity.
Defined.

(** A certificate authority alone passes as a credential. *)
Definition ca_only : gmap string string := {["NATS_TLS_CA_FILE" := "/etc/nats/ca.crt"]}.

Lemma bus_authenticated_witness :
  accepted ca_only = true ∧ ∃ cfg, Load floats durations ca_only = Ok cfg ∧
    existsb authenticates (connect_options (bus_config cfg)) = false ∧
    (existsb authenticates (connect_options (bus_config cfg)) = true ∨
     oc_NATSAllowUnauthenticated cfg = true ∨
     (oc_NATSTLSCAFile cfg ≠ "" ∧ existsb authenticates (connect_options (bus_config cfg)) = false)).
Proof.
  assert (Ha : accepted ca_only = true) by (vm_compute; reflexivity). split; [exact Ha|].
  destruct (accepted_loaded ca_only Ha) as [cfg Hc]. exists cfg. split; [exact Hc|].
  split; [|exact (bus_authenticated floats durations ca_only cfg Hc)].
  vm_compute in Hc. injection Hc as <-. reflexivity.
Defined.
End OperatorSample.
