(* ===== verification/OtherPlatform.v ===== *)
(** * OtherPlatform: the operator built for another system (pkg/ebpf/loader_other.go)

    Outside Linux the Loader is an empty struct that can never be obtained: its
    [Attach] always fails. The operator built with it degrades as it does on a
    node that refuses XDP. *)

From S2P Require Import Prelude GoStrings GoFloat NetIP Events Api Blocklist PolicyIndex Attach Ingestion Bus Config Mesh Operator.

Local Open Scope Z_scope.

(** [type Loader struct{}] *)
Definition other_Loader : Type := unit.

Definition other_AttachWithOptions {H} (objPath iface pinPath : string) : M H AttachedLoader :=
  mfail (Errorf ("ebpf: XDP attach is only supported on linux (requested object " +:+ objPath +:+ " on interface " +:+ iface +:+ ")")).
Definition other_Attach {H} (objPath iface : string) : M H AttachedLoader := other_AttachWithOptions objPath iface "".
Definition other_IsMapFull (err : error) : bool := false.
Definition other_RemovePins {H} (pinPath : string) (h : H) : error * H := (None, h).
Definition other_Close {H} (l : other_Loader) (h : H) : error * H := (None, h).

Definition other_Block (ip : net_IP) (l : other_Loader) : error * other_Loader := (None, l).
Definition other_Unblock (ip : net_IP) (l : other_Loader) : error * other_Loader := (None, l).
Definition other_BlockTunnel (ip : net_IP) (teid : Z) (l : other_Loader) : error * other_Loader := (None, l).
Definition other_UnblockTunnel (ip : net_IP) (teid : Z) (l : other_Loader) : error * other_Loader := (None, l).

(** [var _ BlocklistUpdater = ( *Loader)(nil)]; it is no BlocklistInspector and
    no EventSource. *)
#[export] Instance other_updater : BlocklistUpdater other_Loader := {|
  Block := other_Block; Unblock := other_Unblock; BlockTunnel := other_BlockTunnel; UnblockTunnel := other_UnblockTunnel |}.

(** The operator on such a system runs without eBPF: nothing on the host is
    touched, the cause is an Event on its Pod, and neither the publisher nor the
    drift reconciler is registered, with or without a hostname. The pin path is
    never reported as the culprit. *)
Theorem other_platform_degrades {H} ref obj iface path (h : H) cfg hostname :
  let '(bl, events, h') := attachBlocklist_on other_AttachWithOptions ref obj iface path h in
  h' = h ∧ events = (match ref with Some _ => ["EBPFAttachFailed"] | None => [] end) ∧
  register_publisher cfg hostname bl = Ok None ∧ register_drift cfg bl = None.
Proof.
  unfold attachBlocklist_on, other_AttachWithOptions, mfail. rewrite andb_false_r. by destruct ref.
Qed.
