(* ===== verification/Watcher.v ===== *)
(** * Watcher: the reactor (pkg/controller/threat_score_watcher.go)

    [handle] consumes one ThreatScoreEvent: it resolves the Pod, matches the
    cached policies and runs [applyPolicy] on each; [applyPolicy] decides,
    writes the intent to the policy's status and only then touches the kernel
    and the mesh. *)

From S2P Require Import Prelude GoStrings GoFloat NetIP Events Api Blocklist Loader PolicyIndex KillSwitch ReactorLimiter ScoringPipeline Metrics World Decision.

Local Open Scope Z_scope.
Local Open Scope go_scope.

Section Watcher.
Context {A B Ms L : Type}.
Context `{ApiServer A} `{BlocklistUpdater B} `{MeshAdapter Ms} `{RateLimiter L} `{RangeOrder}.
Context (clock : nat → Time).
Context (BaseThreshold : f64).

Abbreviation W := (World A B Ms L).

Definition updateStatus (policy : TelecomSecurityPolicy) : M W unit :=
  mtry (api (api_UpdateStatus policy)) (λ r,
    match r with
    | Fail err =>
        mfail (Wrap ("update status for " +:+ pol_Namespace policy +:+ "/" +:+ pol_Name policy) [err])
    | Ok stored =>
        index_Put stored ;;!
        metric (SetPolicyPhase (pol_Namespace stored) (pol_Name stored) (st_Phase (pol_Status stored)))
    end).

Definition writeStatus (prev next : TelecomSecurityPolicy) : M W unit :=
  if statusDecisionChanged prev next then updateStatus next
  else
    let! ok := limiter_Allow clock (pol_key next) in
    if (ok : bool) then updateStatus next
    else metric (metric_Inc ReactorThrottled [pol_Namespace next; pol_Name next]).

(** The intent recorded for a crossing that mitigates. *)
Definition intent_status (policy : TelecomSecurityPolicy) (event : ThreatScoreEvent)
    (blockTunnel blockSource : bool) (t : Time) : TelecomSecurityPolicyStatus :=
  let s0 := with_score (format_fixed4 (ts_Score event)) (pol_Status policy) in
  let s1 := if blockTunnel
            then with_tunnels (appendUnique (st_BlockedTunnels s0)
                                 (formatTunnel (ts_SourceIP event) (ts_TEID event))) s0
            else s0 in
  let s2 := if blockSource
            then with_ips (appendUnique (st_BlockedSourceIPs s1) (ts_SourceIP event)) s1
            else s1 in
  with_mitigation_time (Some t) (with_phase PolicyPhaseMitigating s2).

(** The execution that follows a successful write: each action stops the
    rest on failure. *)
Definition exec_block_tunnel (ip : net_IP) (event : ThreatScoreEvent) : M W unit :=
  let! e := block (BlockTunnel ip (ts_TEID event)) in
  match e with
  | Some err =>
      metric (metric_Inc Mitigations ["ebpf_block_tunnel"; "error"]) ;;!
      (if IsMapFull err then metric (metric_Inc MitigationMapFull ["tunnel_blocklist"]) else mret tt) ;;!
      mfail (Wrap ("ebpf block tunnel " +:+ formatTunnel (ts_SourceIP event) (ts_TEID event)) [err])
  | None => metric (metric_Inc Mitigations ["ebpf_block_tunnel"; "success"])
  end.

Definition exec_block_source (ip : net_IP) (event : ThreatScoreEvent) : M W unit :=
  let! e := block (Block ip) in
  match e with
  | Some err =>
      metric (metric_Inc Mitigations ["ebpf_block"; "error"]) ;;!
      (if IsMapFull err then metric (metric_Inc MitigationMapFull ["blocklist"]) else mret tt) ;;!
      mfail (Wrap ("ebpf block " +:+ ts_SourceIP event) [err])
  | None => metric (metric_Inc Mitigations ["ebpf_block"; "success"])
  end.

Definition exec_quarantine (policy : TelecomSecurityPolicy) (sel : gmap string string) : M W unit :=
  let! e := mesh (Quarantine (pol_Namespace policy) sel) in
  match e with
  | Some err =>
      metric (metric_Inc Mitigations ["mesh_quarantine"; "error"]) ;;!
      mfail (Wrap ("mesh quarantine for " +:+ pol_Namespace policy +:+ "/" +:+ pol_Name policy) [err])
  | None => metric (metric_Inc Mitigations ["mesh_quarantine"; "success"])
  end.

(** The armed branch of [applyPolicy]: decide, record, execute. *)
Definition mitigate (policy : TelecomSecurityPolicy) (event : ThreatScoreEvent) : M W unit :=
  let a := spec_Actions (pol_Spec policy) in
  metric (metric_Inc ThresholdCrossings [pol_Namespace policy; pol_Name policy; "mitigating"]) ;;!
  let ip := ParseIP (ts_SourceIP event) in
  let has_ip := match ip with Some _ => true | None => false end in
  let blockTunnel := act_EbpfBlockTunnel a && has_ip && negb (ts_TEID event =? 0) in
  let blockSource := act_EbpfBlock a && has_ip in
  let quarantineSelector :=
    if act_IsolatePod a then firstMatchLabels (spec_TargetWorkloads (pol_Spec policy)) else None in
  (if act_EbpfBlockTunnel a && negb blockTunnel && has_ip && (ts_TEID event =? 0)
   then metric (metric_Inc Mitigations ["ebpf_block_tunnel"; "no_teid"]) else mret tt) ;;!
  let! t := now clock in
  writeStatus policy (set_status policy (intent_status policy event blockTunnel blockSource t)) ;;!
  (if blockTunnel then exec_block_tunnel (default [] ip) event else mret tt) ;;!
  (if blockSource then exec_block_source (default [] ip) event else mret tt) ;;!
  match quarantineSelector with
  | Some sel => exec_quarantine policy sel
  | None => mret tt
  end.

Definition applyPolicy (policy : TelecomSecurityPolicy) (event : ThreatScoreEvent) : M W unit :=
  let threshold :=
    effective_threshold BaseThreshold (td_Sensitivity (spec_ThreatDetection (pol_Spec policy))) in
  let latest := with_score (format_fixed4 (ts_Score event)) (pol_Status policy) in
  if f64_ltb (ts_Score event) threshold then
    writeStatus policy (set_status policy
      (if negb (bool_decide (st_Phase latest = PolicyPhaseMitigating))
       then with_phase PolicyPhaseMonitoring latest else latest))
  else if negb (td_AutoMitigate (spec_ThreatDetection (pol_Spec policy))) then
    metric (metric_Inc ThresholdCrossings [pol_Namespace policy; pol_Name policy; "alerting"]) ;;!
    writeStatus policy (set_status policy (with_phase PolicyPhaseAlerting latest))
  else
    let! engaged := killswitch_Engaged clock in
    if (engaged : bool) then
      mfor (suppressedActions policy) (λ action, metric (metric_Inc MitigationsSuppressed [action])) ;;!
      metric (metric_Inc ThresholdCrossings [pol_Namespace policy; pol_Name policy; "alerting"]) ;;!
      writeStatus policy (set_status policy (with_phase PolicyPhaseAlerting latest))
    else mitigate policy event.

(** Errors of [applyPolicy] are logged, never returned. *)
Definition handle (event : ThreatScoreEvent) : M W unit :=
  metric (metric_Inc ThreatScoresReceived [scoreSourceLabel (ts_Model event)]) ;;!
  metric (score_Observe (ts_Score event)) ;;!
  let! sc := mget w_scoring in
  match sc with
  | Some tr =>
      if negb (firstScoreUnixNano tr =? 0) then mret tt
      else let! t := now clock in mmodify (set_scoring (Some (Observe t tr)))
  | None => mret tt
  end ;;!
  mtry (api (api_GetPod {| nn_Namespace := ts_Namespace event; nn_Name := ts_PodName event |})) (λ r,
    match r with
    | Fail err =>
        if errors_Is err ErrNotFound then mret tt
        else mfail (Wrap ("get pod " +:+ ts_Namespace event +:+ "/" +:+ ts_PodName event) [err])
    | Ok labels =>
        let! idx := mget w_index in
        mfor (MatchingPolicies idx (ts_Namespace event) labels)
          (λ policy, mtry (applyPolicy policy event) (λ _, mret tt))
    end).

(** [warmIndex], before the subscription. *)
Definition warmIndex : M W unit :=
  let! items := api api_ListPolicies in
  mfor items (λ p, if negb (deletion_is_zero p) then mret tt else index_Put p).

(** The part of [Start] that runs before the bus is waited for. *)
Definition Start_prepare : M W unit :=
  mtry warmIndex (λ r,
    match r with
    | Fail err => mfail (Wrap "populate policy index before subscribing" [err])
    | Ok _ =>
        let! sc := mget w_scoring in
        match sc with
        | Some tr => let! t := now clock in mmodify (set_scoring (Some (MarkStarted t tr)))
        | None => mret tt
        end
    end).
End Watcher.
