(* ===== verification/SampleWorld.v ===== *)
(** * SampleWorld: a concrete API server and mesh

    A list-backed etcd that satisfies [ApiSpec], a mesh that records its
    calls, and a world built from them and the concrete Loader: the
    instances at which the controllers' theorems are evaluated. *)

From S2P Require Import Prelude GoFloat Events Api Blocklist Loader PolicyIndex KillSwitch ReactorLimiter ScoringPipeline Metrics World.

Local Open Scope Z_scope.

Record EtcdApi := {
  ea_policies : list TelecomSecurityPolicy;
  ea_pods : gmap NamespacedName (gmap string string);
  ea_killswitch : option (gmap string string);
  ea_down : bool                      (* writes fail with a transient error *)
}.

Definition ea_view (a : EtcdApi) : gmap NamespacedName TelecomSecurityPolicy :=
  list_to_map ((λ p, (pol_key p, p)) <$> ea_policies a).

Definition ea_set (a : EtcdApi) (l : list TelecomSecurityPolicy) : EtcdApi :=
  {| ea_policies := l; ea_pods := ea_pods a; ea_killswitch := ea_killswitch a; ea_down := ea_down a |}.

Definition ea_drop (k : NamespacedName) (l : list TelecomSecurityPolicy) : list TelecomSecurityPolicy :=
  filter (λ p, pol_key p ≠ k) l.

Definition ea_lookup {V} (k : NamespacedName) (m : gmap NamespacedName V) : result V :=
  match m !! k with Some v => Ok v | None => Fail (Sentinel ErrNotFound) end.

#[export] Instance EtcdApi_server : ApiServer EtcdApi := {|
  api_GetPod k a := (ea_lookup k (ea_pods a), a);
  api_GetPolicy k a := (ea_lookup k (ea_view a), a);
  api_ListPolicies a := (Ok (map_to_list (ea_view a)).*2, a);
  api_UpdateStatus p a :=
    if ea_down a then (Fail (Errorf "the API server is unreachable"), a)
    else match ea_view a !! pol_key p with
         | None => (Fail (Sentinel ErrNotFound), a)
         | Some old => let q := set_status old (wire_status (pol_Status p)) in
                       (Ok q, ea_set a (q :: ea_drop (pol_key p) (ea_policies a)))
         end;
  api_Update p a :=
    if ea_down a then (Fail (Errorf "the API server is unreachable"), a)
    else match ea_view a !! pol_key p with
         | None => (Fail (Sentinel ErrNotFound), a)
         | Some old => let q := set_status p (pol_Status old) in
             if negb (deletion_is_zero q) && bool_decide (om_Finalizers (pol_Meta q) = [])
             then (Ok q, ea_set a (ea_drop (pol_key p) (ea_policies a)))
             else (Ok q, ea_set a (q :: ea_drop (pol_key p) (ea_policies a)))
         end;
  api_GetKillSwitch a :=
    (match ea_killswitch a with Some d => Ok d | None => Fail (Sentinel ErrNotFound) end, a) |}.

Lemma ea_view_keyed a k p : ea_view a !! k = Some p → pol_key p = k.
Proof.
  unfold ea_view. intros Hin%elem_of_list_to_map_2. apply list_elem_of_fmap in Hin as (q & [= -> ->] & _). done.
Qed.

Lemma ea_view_drop a k : ea_view (ea_set a (ea_drop k (ea_policies a))) = delete k (ea_view a).
Proof.
  unfold ea_view, ea_set, ea_drop. simpl. induction (ea_policies a) as [|p l IH]; [symmetry; apply delete_empty|].
  rewrite filter_cons. case_decide as Hk; csimpl.
  - rewrite IH. by rewrite delete_insert_ne.
  - subst. rewrite IH. symmetry. apply delete_insert_eq.
Qed.

Lemma ea_view_put a q : ea_view (ea_set a (q :: ea_drop (pol_key q) (ea_policies a))) =
  <[pol_key q := q]> (ea_view a).
Proof.
  change (ea_view (ea_set a (q :: ea_drop (pol_key q) (ea_policies a)))) with
    (<[pol_key q := q]> (ea_view (ea_set a (ea_drop (pol_key q) (ea_policies a))))).
  rewrite ea_view_drop. apply insert_delete_eq.
Qed.

#[export] Program Instance EtcdApi_spec : ApiSpec EtcdApi := {| api_policies := ea_view |}.
Next Obligation. done. Qed.
Next Obligation. done. Qed.
Next Obligation. done. Qed.
Next Obligation. done. Qed.
Next Obligation.
  intros k a p. simpl. unfold ea_lookup. case_match eqn:E; [|done]. intros [= <-]. by eapply ea_view_keyed.
Qed.
Next Obligation. intros a k p. apply ea_view_keyed. Qed.
Next Obligation.
  intros p a q a'. simpl. destruct (ea_down a); [done|].
  destruct (ea_view a !! pol_key p) as [old|] eqn:E; [|done]. intros [= <- <-].
  exists old. split; [done|]. split; [done|]. apply ea_view_keyed in E as Hk.
  rewrite <- Hk. exact (ea_view_put a (set_status old (wire_status (pol_Status p)))).
Qed.
Next Obligation.
  intros p a e a'. simpl. destruct (ea_down a); [intros [= <- <-]; by left|].
  destruct (ea_view a !! pol_key p) as [old|] eqn:E; [done|]. intros [= <- <-]. by left.
Qed.
Next Obligation.
  intros p a e a'. simpl. destruct (ea_down a); [by intros [= <- <-]|].
  destruct (ea_view a !! pol_key p) as [old|] eqn:E; [done|]. by intros [= <- <-].
Qed.
Next Obligation.
  intros p a q a'. simpl. destruct (ea_down a); [done|].
  destruct (ea_view a !! pol_key p) as [old|] eqn:E; [|done].
  destruct (_ && _) eqn:Ed; intros [= <- <-]; exists old; (split; [done|]); (split; [done|]).
  - right. unbool. split; [done|]. split; [done|]. apply ea_view_drop.
  - left. exact (ea_view_put a (set_status p (pol_Status old))).
Qed.
Next Obligation.
  intros p a r a' k. simpl. intros Hrun Hk. destruct (ea_down a); [by simplify_eq|].
  destruct (ea_view a !! pol_key p) as [old|] eqn:E; [|by simplify_eq].
  destruct (_ && _); simplify_eq.
  - rewrite ea_view_drop. by rewrite lookup_delete_ne.
  - pose proof (ea_view_put a (set_status p (pol_Status old))) as Hput.
    change (pol_key (set_status p (pol_Status old))) with (pol_key p) in Hput.
    rewrite Hput. by rewrite lookup_insert_ne.
Qed.

#[export] Program Instance EtcdApi_synced : SyncedList EtcdApi.
Next Obligation. intros a l. simpl. by intros [= <-]. Qed.

(** A mesh that records what it was asked. *)
Inductive mesh_call := Quarantined (ns : string) (sel : gmap string string) | Released (ns : string) (sel : gmap string string).

#[export] Instance recording_mesh : MeshAdapter (list mesh_call) := {|
  Quarantine ns sel l := (None, l ++ [Quarantined ns sel]);
  Release ns sel l := (None, l ++ [Released ns sel]) |}.

(** ** The sample world *)

Definition upf_pod : NamespacedName := {| nn_Namespace := "core"; nn_Name := "upf-0" |}.

Definition sample_api (ps : list TelecomSecurityPolicy) (sw : option (gmap string string)) : EtcdApi := {|
  ea_policies := ps; ea_pods := {[ upf_pod := {[ "app" := "upf" ]} ]};
  ea_killswitch := sw; ea_down := false |}.

Definition SampleWorld := World EtcdApi (Loader HashMaps.hmap) (list mesh_call) Z.

Definition sample_world (ps : list TelecomSecurityPolicy) (sw : option (gmap string string)) : SampleWorld := {|
  w_api := sample_api ps sw; w_block := LoaderSample.empty_loader 8; w_mesh := [];
  w_index := fold_left (λ i p, PolicyIndex_Put p i) ps NewPolicyIndex;
  w_scoring := Some (NewScoringPipelineTracker 0 0);
  w_killswitch := Some (NewKillSwitch 0);
  w_limiter := Some {| rl_rate := f64_one; rl_burst := 1; rl_limiters := ∅ |};
  w_metrics := empty_registry; w_events := []; w_tick := 0 |}.

(** One reading per second, from an hour after the epoch. *)
Definition sample_clock (n : nat) : Time := 3600 * Second + Z.of_nat n * Second.

Definition upf_policy (auto : bool) (s : TelecomSecurityPolicyStatus) : TelecomSecurityPolicy :=
  mk_policy "core" "upf" "upf" auto true true true s.

Definition monitoring : TelecomSecurityPolicyStatus := with_phase PolicyPhaseMonitoring zero_status.
Definition mitigating : TelecomSecurityPolicyStatus :=
  with_ips ["10.0.0.66"] (with_mitigation_time (Some 0) (with_phase PolicyPhaseMitigating zero_status)).

Definition attack : ThreatScoreEvent := {|
  ts_SourceEventID := "e1"; ts_Namespace := "core"; ts_PodName := "upf-0";
  ts_SourceIP := "10.0.0.66"; ts_TEID := 7; ts_Score := f64_one;
  ts_Model := "rule:gtpu-tunnel-flood"; ts_DetectedAt := 0 |}.

Definition benign : ThreatScoreEvent := {|
  ts_SourceEventID := "e2"; ts_Namespace := "core"; ts_PodName := "upf-0";
  ts_SourceIP := "10.0.0.7"; ts_TEID := 7; ts_Score := f64_zero;
  ts_Model := "iforest"; ts_DetectedAt := 0 |}.
