(* ===== verification/WatcherProofs.v ===== *)
(** * WatcherProofs: what the reactor guarantees

    Properties of Watcher.v against the interfaces [ApiSpec] and
    [BlocklistSpec]: no enforcement without authority, write-ahead ordering,
    no lost decision under throttling, idempotence, and isolation between
    policies. *)

From S2P Require Import Prelude GoStrings GoFloat NetIP Events Api Blocklist Loader PolicyIndex KillSwitch ReactorLimiter ScoringPipeline Metrics World Decision Watcher SampleWorld.

Local Open Scope Z_scope.
Local Open Scope go_scope.

Section WatcherProofs.
Context {A B Ms L : Type}.
Context `{HA : ApiServer A, HAS : !ApiSpec A} `{HB : BlocklistUpdater B, HBS : !BlocklistSpec B}.
Context `{HM : MeshAdapter Ms} `{HL : RateLimiter L} `{HR : RangeOrder}.
Context (clock : nat → Time).
Context (BaseThreshold : f64).

Abbreviation W := (World A B Ms L).

(** ** Status writes touch neither the kernel nor the mesh *)

Lemma updateStatus_frame p (w : W) r w' : updateStatus p w = (r, w') → same_enforcement w w'.
Proof using Type.
  unfold updateStatus, mtry, api. destruct (api_UpdateStatus p (w_api w)) as [[q|e] a];
    intros Hrun; unfold mfail, mbind, index_Put, metric in Hrun; by simplify_eq.
Qed.

Lemma writeStatus_frame prev next (w : W) r w' :
  writeStatus clock prev next w = (r, w') → same_enforcement w w'.
Proof using Type.
  unfold writeStatus. destruct (statusDecisionChanged prev next); [apply updateStatus_frame|].
  intros Hrun. destruct (limiter_Allow_frame clock (pol_key next) w) as (b & w1 & Hl & Hs & _).
  unfold mbind in Hrun. rewrite Hl in Hrun. destruct b.
  - apply updateStatus_frame in Hrun. by etrans.
  - unfold metric in Hrun. simplify_eq. exact Hs.
Qed.

(** ** What a status write does to etcd *)

Lemma updateStatus_ok p (w w' : W) : updateStatus p w = (Ok tt, w') →
  stored w' (pol_key p) = Some (wire_status (pol_Status p)) ∧
  (∀ k, k ≠ pol_key p → api_policies (w_api w') !! k = api_policies (w_api w) !! k).
Proof using Type.
  unfold updateStatus, mtry, api, stored. destruct (api_UpdateStatus p (w_api w)) as [[q|e] a] eqn:E;
    intros Hrun; unfold mfail, mbind, index_Put, metric in Hrun; simplify_eq; simpl.
  apply UpdateStatus_ok in E as (old & Hold & -> & ->). split.
  - by rewrite lookup_insert_eq.
  - intros k Hk. by rewrite lookup_insert_ne.
Qed.

Lemma updateStatus_other p (w : W) r w' k : updateStatus p w = (r, w') → k ≠ pol_key p →
  api_policies (w_api w') !! k = api_policies (w_api w) !! k.
Proof using Type.
  intros Hrun Hk. destruct r as [[]|e].
  { by apply updateStatus_ok in Hrun as [_ Ho]; apply Ho. }
  unfold updateStatus, mtry, api in Hrun. destruct (api_UpdateStatus p (w_api w)) as [[q|e'] a] eqn:E;
    unfold mfail, mbind, index_Put, metric in Hrun; simplify_eq; simpl.
  apply UpdateStatus_err in E as [->|(old & _ & ->)]; [done|]. by rewrite lookup_insert_ne.
Qed.

Lemma writeStatus_other prev next (w : W) r w' k :
  writeStatus clock prev next w = (r, w') → k ≠ pol_key next →
  api_policies (w_api w') !! k = api_policies (w_api w) !! k.
Proof using Type.
  unfold writeStatus. destruct (statusDecisionChanged prev next); [apply updateStatus_other|].
  intros Hrun Hk. destruct (limiter_Allow_frame clock (pol_key next) w) as (b & w1 & Hl & _ & Ha & _).
  unfold mbind in Hrun. rewrite Hl in Hrun. destruct b.
  - rewrite <- Ha. by eapply updateStatus_other.
  - unfold metric in Hrun. simplify_eq. simpl. by rewrite Ha.
Qed.

(** The status recorded after a successful write: the new one, or, when the
    write was throttled, whatever was there, the decision being that of the
    status the caller started from. *)
Lemma writeStatus_done prev next (w w' : W) : writeStatus clock prev next w = (Ok tt, w') →
  stored w' (pol_key next) = Some (wire_status (pol_Status next)) ∨
  (statusDecisionChanged prev next = false ∧ stored w' (pol_key next) = stored w (pol_key next)).
Proof using Type.
  intros Hrun. unfold writeStatus in Hrun.
  destruct (statusDecisionChanged prev next); [left; by apply updateStatus_ok in Hrun as [? _]|].
  destruct (limiter_Allow_frame clock (pol_key next) w) as (b & w1 & Hl & _ & Ha & _).
  unfold mbind in Hrun. rewrite Hl in Hrun. destruct b.
  - left. by apply updateStatus_ok in Hrun as [? _].
  - right. split; [done|]. unfold metric in Hrun. simplify_eq. unfold stored. simpl. by rewrite Ha.
Qed.

Lemma writeStatus_ok prev next (w w' : W) : pol_key prev = pol_key next →
  stored w (pol_key prev) = Some (pol_Status prev) →
  writeStatus clock prev next w = (Ok tt, w') →
  stored w' (pol_key prev) = Some (wire_status (pol_Status next)) ∨
  (statusDecisionChanged prev next = false ∧ stored w' (pol_key prev) = Some (pol_Status prev)).
Proof using Type.
  intros Hk Hst Hrun. rewrite Hk in *. destruct (writeStatus_done _ _ _ _ Hrun) as [?|[? Hw]]; [by left|right].
  split; [done|]. congruence.
Qed.

(** An unchanged decision means nothing was appended. *)
Lemma intent_unchanged policy ev bt bs t :
  statusDecisionChanged policy (set_status policy (intent_status policy ev bt bs t)) = false →
  st_Phase (pol_Status policy) = PolicyPhaseMitigating ∧
  (bs = true → ts_SourceIP ev ∈ st_BlockedSourceIPs (pol_Status policy)) ∧
  (bt = true → formatTunnel (ts_SourceIP ev) (ts_TEID ev) ∈ st_BlockedTunnels (pol_Status policy)).
Proof using Type.
  unfold statusDecisionChanged, intent_status. intros Hd.
  destruct (bool_decide (_ = _)) eqn:Ep; simpl in Hd; [|done].
  destruct (equalStringSet (st_BlockedSourceIPs _) _) eqn:Ei; simpl in Hd; [|done].
  apply negb_false_iff in Hd. apply bool_decide_eq_true in Ep. simpl in Ep. split; [done|].
  destruct bt, bs; simpl in *; rewrite ?equalStringSet_appendUnique, ?bool_decide_eq_true in *; done.
Qed.

(** ** The actions *)

Lemma exec_block_source_spec ip a ev (w : W) r w' :
  bl_inv (w_block w) → ip_wf ip → canon ip = Some a →
  exec_block_source ip ev w = (r, w') →
  bl_inv (w_block w') ∧ w_api w' = w_api w ∧ w_mesh w' = w_mesh w ∧
  bl_tunnels (w_block w') = bl_tunnels (w_block w) ∧
  bl_ips (w_block w') = (if is_Ok r then {[a]} ∪ bl_ips (w_block w) else bl_ips (w_block w)).
Proof using Type.
  intros HI Hip Ha Hrun. unfold exec_block_source, mbind, block in Hrun.
  destruct (Block ip (w_block w)) as [[err|] b] eqn:E; unfold metric, mfail, mret in Hrun.
  - destruct (Block_err ip _ err b HI Hip E) as [Hi Ht].
    pose proof (Block_inv ip _ _ b HI Hip E) as HI'.
    destruct (IsMapFull err); simplify_eq; simpl; done.
  - destruct (Block_ok ip a _ b HI Hip Ha E) as [Hi Ht].
    pose proof (Block_inv ip _ _ b HI Hip E) as HI'. simplify_eq. simpl. done.
Qed.

Lemma exec_block_tunnel_spec ip a ev (w : W) r w' :
  bl_inv (w_block w) → ip_wf ip → canon ip = Some a → in_width 32 (ts_TEID ev) →
  exec_block_tunnel ip ev w = (r, w') →
  bl_inv (w_block w') ∧ w_api w' = w_api w ∧ w_mesh w' = w_mesh w ∧
  bl_ips (w_block w') = bl_ips (w_block w) ∧
  bl_tunnels (w_block w') =
    (if is_Ok r then {[(a, ts_TEID ev)]} ∪ bl_tunnels (w_block w) else bl_tunnels (w_block w)).
Proof using Type.
  intros HI Hip Ha Ht Hrun. unfold exec_block_tunnel, mbind, block in Hrun.
  destruct (BlockTunnel ip (ts_TEID ev) (w_block w)) as [[err|] b] eqn:E;
    unfold metric, mfail, mret in Hrun.
  - destruct (BlockTunnel_err ip _ _ err b HI Hip Ht E) as [Hi Htn].
    pose proof (BlockTunnel_inv ip _ _ _ b HI Hip Ht E) as HI'.
    destruct (IsMapFull err); simplify_eq; simpl; done.
  - destruct (BlockTunnel_ok ip a _ _ b HI Hip Ht Ha E) as (_ & Htn & Hi).
    pose proof (BlockTunnel_inv ip _ _ _ b HI Hip Ht E) as HI'. simplify_eq. simpl. done.
Qed.

Lemma exec_quarantine_frame policy sel (w : W) r w' :
  exec_quarantine policy sel w = (r, w') → w_block w' = w_block w ∧ w_api w' = w_api w.
Proof using Type.
  unfold exec_quarantine, mbind, mesh. intros Hrun. destruct (Quarantine _ _ _) as [[err|] m];
    unfold metric, mfail in Hrun; by simplify_eq.
Qed.

(** ** The armed branch *)

(** The guards of the two kernel actions, as the code computes them. *)
Definition wants_source (policy : TelecomSecurityPolicy) (ev : ThreatScoreEvent) : bool :=
  act_EbpfBlock (spec_Actions (pol_Spec policy)) &&
  match ParseIP (ts_SourceIP ev) with Some _ => true | None => false end.
Definition wants_tunnel (policy : TelecomSecurityPolicy) (ev : ThreatScoreEvent) : bool :=
  act_EbpfBlockTunnel (spec_Actions (pol_Spec policy)) &&
  match ParseIP (ts_SourceIP ev) with Some _ => true | None => false end &&
  negb (ts_TEID ev =? 0).

(** The address and tunnel of the event, as sets of what may be added. *)
Definition event_ips (policy : TelecomSecurityPolicy) (ev : ThreatScoreEvent) : gset (list Z) :=
  if wants_source policy ev then
    match ParseIP (ts_SourceIP ev) ≫= canon with Some a => {[a]} | None => ∅ end
  else ∅.
Definition event_tunnels (policy : TelecomSecurityPolicy) (ev : ThreatScoreEvent) : gset (list Z * Z) :=
  if wants_tunnel policy ev then
    match ParseIP (ts_SourceIP ev) ≫= canon with Some a => {[(a, ts_TEID ev)]} | None => ∅ end
  else ∅.

Lemma exec_tunnel_stage policy ev (w : W) r w' :
  bl_inv (w_block w) → in_width 32 (ts_TEID ev) →
  (if wants_tunnel policy ev
   then exec_block_tunnel (default [] (ParseIP (ts_SourceIP ev))) ev else mret tt) w = (r, w') →
  bl_inv (w_block w') ∧ w_api w' = w_api w ∧ bl_ips (w_block w') = bl_ips (w_block w) ∧
  bl_tunnels (w_block w') =
    (if is_Ok r then event_tunnels policy ev ∪ bl_tunnels (w_block w) else bl_tunnels (w_block w)).
Proof using Type.
  intros HI Ht Hrun. unfold event_tunnels. destruct (wants_tunnel policy ev) eqn:Ew.
  - unfold wants_tunnel in Ew. destruct (ParseIP (ts_SourceIP ev)) as [ip|] eqn:Ep.
    2:{ by rewrite andb_false_r in Ew. }
    destruct (ParseIP_wf _ _ Ep) as [Hip _]. destruct (canon_wf ip Hip) as (a & Ha & _).
    simpl in *. rewrite Ha.
    destruct (exec_block_tunnel_spec ip a ev w r w' HI Hip Ha Ht Hrun) as (? & ? & _ & ? & ?). done.
  - unfold mret in Hrun. simplify_eq. simpl. rewrite union_empty_l_L. done.
Qed.

Lemma exec_source_stage policy ev (w : W) r w' :
  bl_inv (w_block w) →
  (if wants_source policy ev
   then exec_block_source (default [] (ParseIP (ts_SourceIP ev))) ev else mret tt) w = (r, w') →
  bl_inv (w_block w') ∧ w_api w' = w_api w ∧ bl_tunnels (w_block w') = bl_tunnels (w_block w) ∧
  bl_ips (w_block w') =
    (if is_Ok r then event_ips policy ev ∪ bl_ips (w_block w) else bl_ips (w_block w)).
Proof using Type.
  intros HI Hrun. unfold event_ips. destruct (wants_source policy ev) eqn:Ew.
  - unfold wants_source in Ew. destruct (ParseIP (ts_SourceIP ev)) as [ip|] eqn:Ep.
    2:{ by rewrite andb_false_r in Ew. }
    destruct (ParseIP_wf _ _ Ep) as [Hip _]. destruct (canon_wf ip Hip) as (a & Ha & _).
    simpl in *. rewrite Ha.
    destruct (exec_block_source_spec ip a ev w r w' HI Hip Ha Hrun) as (? & ? & _ & ? & ?). done.
  - unfold mret in Hrun. simplify_eq. simpl. rewrite union_empty_l_L. done.
Qed.

(** What the armed branch does after its status write, and that it does
    nothing when the write fails. *)
Lemma mitigate_inv policy ev (w : W) r w' :
  bl_inv (w_block w) → in_width 32 (ts_TEID ev) →
  mitigate clock policy ev w = (r, w') →
  ∃ w0 w1 rw t, same_enforcement w w0 ∧ w_api w0 = w_api w ∧
    writeStatus clock policy (set_status policy
      (intent_status policy ev (wants_tunnel policy ev) (wants_source policy ev) t)) w0 = (rw, w1) ∧
    w_api w' = w_api w1 ∧ bl_inv (w_block w') ∧
    (is_Ok rw = false → is_Ok r = false ∧ same_enforcement w w') ∧
    (is_Ok rw = true →
      bl_ips (w_block w) ⊆ bl_ips (w_block w') ⊆ event_ips policy ev ∪ bl_ips (w_block w) ∧
      bl_tunnels (w_block w) ⊆ bl_tunnels (w_block w') ⊆ event_tunnels policy ev ∪ bl_tunnels (w_block w)) ∧
    (is_Ok r = true →
      bl_ips (w_block w') = event_ips policy ev ∪ bl_ips (w_block w) ∧
      bl_tunnels (w_block w') = event_tunnels policy ev ∪ bl_tunnels (w_block w)).
Proof using Type.
  intros HI Ht Hrun. unfold mitigate in Hrun.
  fold (wants_source policy ev) in Hrun. fold (wants_tunnel policy ev) in Hrun.
  unfold mbind at 1, metric at 1 in Hrun.
  match type of Hrun with context [set_metrics ?m w] => set (wm := set_metrics m w) in Hrun end.
  minv Hrun; [|unfold mret, metric in E; repeat case_match; by simplify_eq].
  assert (Hx : same_enforcement w x0 ∧ w_api x0 = w_api w).
  { unfold mret, metric in E. repeat case_match; by simplify_eq. }
  destruct Hx as [Hse Hapi]. clear E. unfold mbind at 1, now at 1 in Hrun.
  match type of Hrun with context [set_tick ?n x0] => set (w0 := set_tick n x0) in Hrun end.
  assert (Hse0 : same_enforcement w w0) by exact Hse. assert (Hapi0 : w_api w0 = w_api w) by exact Hapi.
  clearbody w0. clear Hse Hapi.
  exists w0. minv Hrun; [rename x2 into w1|rename w' into w1]; pose proof (writeStatus_frame _ _ _ _ _ E) as Hf.
  2:{ exists w1. eexists _, _. split; [done|]. split; [done|]. split; [exact E|]. subst r.
      assert (Hs : same_enforcement w w1) by by etrans.
      split; [done|]. split; [destruct Hs as [-> _]; done|]. done. }
  eexists w1, _, _. split; [done|]. split; [done|]. split; [exact E|]. clear E.
  assert (Hs1 : same_enforcement w w1) by (by etrans). destruct Hs1 as [Hb1 Hm1].
  rewrite <- Hb1 in HI |- *.
  minv Hrun.
  2:{ subst r. destruct (exec_tunnel_stage policy ev w1 _ w' HI Ht E) as (? & ? & ? & Htn).
      simpl in Htn. rewrite Htn. split; [done|]. split; [done|]. split; [done|].
      split; [intros _|done]. set_solver. }
  destruct (exec_tunnel_stage policy ev w1 _ _ HI Ht E) as (HI2 & Ha2 & Hi2 & Ht2). clear E.
  minv Hrun.
  2:{ subst r. destruct (exec_source_stage policy ev _ _ w' HI2 E) as (? & ? & Ht3 & Hi3).
      simpl in *. rewrite Ht3, Hi3, Hi2, Ht2. split; [congruence|]. split; [done|]. split; [done|].
      split; [intros _|done]. set_solver. }
  destruct (exec_source_stage policy ev _ _ _ HI2 E) as (HI3 & Ha3 & Ht3 & Hi3). clear E. simpl in *.
  assert (Hq : w_block w' = w_block x5 ∧ w_api w' = w_api x5).
  { unfold mret in Hrun. repeat case_match; [by eapply exec_quarantine_frame|by simplify_eq..]. }
  destruct Hq as [-> ->]. rewrite Ht3, Hi3, Hi2, Ht2. split; [congruence|]. split; [done|].
  split; [done|]. split; [|done]. intros _. set_solver.
Qed.

(** ** One score against one policy *)

Lemma killswitch_Engaged_policies (w : W) :
  api_policies (w_api (killswitch_Engaged clock w).2) = api_policies (w_api w).
Proof using Type.
  unfold killswitch_Engaged. destruct (w_killswitch w) as [k|]; [|done].
  destruct (negb (ks_Reader k)); [done|].
  destruct (cached k _); [by destruct (ks_everRead k)|].
  destruct (api_GetKillSwitch _) as [g a] eqn:E. destruct (Engaged _ _ _ _) as [[e k'] b]. simpl.
  pose proof (GetKillSwitch_frame (w_api (if ks_everRead k then set_tick (S (w_tick w)) w else w))) as Hf.
  rewrite E in Hf. simpl in Hf. rewrite Hf. by destruct (ks_everRead k).
Qed.

(** The score crosses, the policy may act, and the switch is not engaged. *)
Definition armed (policy : TelecomSecurityPolicy) (ev : ThreatScoreEvent) (w : W) : Prop :=
  f64_ltb (ts_Score ev) (effective_threshold BaseThreshold
    (td_Sensitivity (spec_ThreatDetection (pol_Spec policy)))) = false ∧
  td_AutoMitigate (spec_ThreatDetection (pol_Spec policy)) = true ∧
  (killswitch_Engaged clock w).1 = Ok false.

Lemma mfor_metric_frame (acts : list string) f (w : W) :
  ∃ w', mfor acts (λ a, metric (f a)) w = (Ok tt, w') ∧ same_enforcement w w' ∧
    w_api w' = w_api w ∧ w_index w' = w_index w.
Proof using Type.
  revert w. induction acts as [|x acts IH]; intros w; [by exists w|].
  destruct (IH (set_metrics (f x (w_metrics w)) w)) as (w' & Hr & Hs & Ha & Hi).
  exists w'. cbn [mfor]. unfold mbind, metric at 1. by rewrite Hr.
Qed.

Lemma applyPolicy_cases policy ev (w : W) r w' :
  applyPolicy clock BaseThreshold policy ev w = (r, w') →
  (armed policy ev w ∧ ∃ w0, same_enforcement w w0 ∧ api_policies (w_api w0) = api_policies (w_api w) ∧
     mitigate clock policy ev w0 = (r, w')) ∨
  (¬ armed policy ev w ∧ ∃ w0 ph, same_enforcement w w0 ∧
     api_policies (w_api w0) = api_policies (w_api w) ∧
     writeStatus clock policy (set_status policy
       (with_phase ph (with_score (format_fixed4 (ts_Score ev)) (pol_Status policy)))) w0 = (r, w') ∧
     ph = if f64_ltb (ts_Score ev) (effective_threshold BaseThreshold
               (td_Sensitivity (spec_ThreatDetection (pol_Spec policy))))
          then if decide (st_Phase (pol_Status policy) = PolicyPhaseMitigating)
               then PolicyPhaseMitigating else PolicyPhaseMonitoring
          else PolicyPhaseAlerting).
Proof using Type.
  intros Hrun. unfold applyPolicy in Hrun. unfold armed.
  destruct (f64_ltb _ _) eqn:Es.
  { right. split; [naive_solver|]. exists w, (if decide (st_Phase (pol_Status policy) = PolicyPhaseMitigating)
      then PolicyPhaseMitigating else PolicyPhaseMonitoring). split; [done|]. split; [done|].
    split; [|done]. rewrite <- Hrun. f_equal. simpl.
    destruct (decide _) as [Hd|Hd].
    - rewrite bool_decide_true by done. simpl. f_equal. destruct policy as [? ? [] ]. simpl in *. by subst.
    - by rewrite bool_decide_false by done. }
  destruct (td_AutoMitigate _) eqn:Ea; simpl in Hrun.
  2:{ right. split; [naive_solver|]. unfold mbind, metric in Hrun.
      eexists _, PolicyPhaseAlerting. by split; [|split; [|split; [exact Hrun|]]]. }
  destruct (killswitch_Engaged_frame clock w) as (eng & w1 & Hk & Hs & _).
  pose proof (killswitch_Engaged_policies w) as Hp.
  unfold mbind at 1 in Hrun. rewrite Hk in Hrun, Hp. simpl in Hp. rewrite Hk. destruct eng.
  - right. split; [naive_solver|]. unfold mbind at 1 in Hrun.
    destruct (mfor_metric_frame (suppressedActions policy)
      (λ a, metric_Inc MitigationsSuppressed [a]) w1) as (w2 & Hf & Hs2 & Ha2 & _).
    rewrite Hf in Hrun. unfold mbind, metric in Hrun.
    eexists _, PolicyPhaseAlerting. split; [|split; [|split; [exact Hrun|done]]].
    + change (same_enforcement w w2). by etrans.
    + simpl. by rewrite Ha2.
  - left. split; [done|]. by exists w1.
Qed.

Lemma applyPolicy_inv policy ev (w : W) r w' :
  bl_inv (w_block w) → in_width 32 (ts_TEID ev) →
  applyPolicy clock BaseThreshold policy ev w = (r, w') → bl_inv (w_block w').
Proof using HAS.
  intros HI Ht Hrun.
  destruct (applyPolicy_cases _ _ _ _ _ Hrun) as [[_ (w0 & [Hb _] & _ & Hm)]|[_ (w0 & ph & Hs & _ & Hw & _)]].
  - rewrite <- Hb in HI. by apply mitigate_inv in Hm as (? & ? & ? & ? & _ & _ & _ & _ & ? & _).
  - pose proof (writeStatus_frame _ _ _ _ _ Hw) as Hf. destruct Hs as [Hb _], Hf as [Hb' _].
    by rewrite Hb', Hb.
Qed.

Lemma mitigate_other policy ev (w : W) r w' k :
  mitigate clock policy ev w = (r, w') → k ≠ pol_key policy →
  api_policies (w_api w') !! k = api_policies (w_api w) !! k.
Proof using Type.
  intros Hrun Hk. unfold mitigate in Hrun. unfold mbind at 1, metric at 1 in Hrun.
  minv Hrun; [|unfold mret, metric in E; repeat case_match; by simplify_eq].
  assert (Ha : w_api x0 = w_api w).
  { unfold mret, metric in E. repeat case_match; by simplify_eq. }
  clear E. unfold mbind at 1, now at 1 in Hrun.
  minv Hrun; pose proof (writeStatus_other _ _ _ _ _ k E Hk) as Ho; simpl in Ho; rewrite Ha in Ho;
    [|done]. rewrite <- Ho. f_equal. f_equal. clear E Ho.
  assert (Ht : ∀ (b : bool) ip (w1 : W) r1 w2,
    (if b then exec_block_tunnel ip ev else mret tt) w1 = (r1, w2) → w_api w2 = w_api w1).
  { intros [] ip w1 r1 w2; [|unfold mret; by intros; simplify_eq].
    unfold exec_block_tunnel, mbind, block. intros E. destruct (BlockTunnel _ _ _) as [[?|] ?];
      unfold metric, mfail, mret in E; repeat case_match; by simplify_eq. }
  assert (Hs : ∀ (b : bool) ip (w1 : W) r1 w2,
    (if b then exec_block_source ip ev else mret tt) w1 = (r1, w2) → w_api w2 = w_api w1).
  { intros [] ip w1 r1 w2; [|unfold mret; by intros; simplify_eq].
    unfold exec_block_source, mbind, block. intros E. destruct (Block _ _) as [[?|] ?];
      unfold metric, mfail, mret in E; repeat case_match; by simplify_eq. }
  minv Hrun; apply Ht in E; [|done]. rewrite <- E. clear E.
  minv Hrun; apply Hs in E; [|done]. rewrite <- E. clear E.
  unfold mret in Hrun. repeat case_match; simplify_eq; try done.
  all: by apply exec_quarantine_frame in Hrun as [_ ->].
Qed.

Lemma applyPolicy_other policy ev (w : W) r w' k :
  applyPolicy clock BaseThreshold policy ev w = (r, w') → k ≠ pol_key policy →
  api_policies (w_api w') !! k = api_policies (w_api w) !! k.
Proof using Type.
  intros Hrun Hk.
  destruct (applyPolicy_cases _ _ _ _ _ Hrun) as [[_ (w0 & _ & Hp & Hm)]|[_ (w0 & ph & _ & Hp & Hw & _)]].
  - rewrite <- Hp. by eapply mitigate_other.
  - rewrite <- Hp. by eapply writeStatus_other.
Qed.

(** C4: no enforcement without authority. Whatever the state of the system, a
    score below the policy's threshold, a policy without autoMitigate, or an
    engaged kill switch leaves the kernel blocklist and the mesh exactly as
    they were, on success and on every error. *)
Theorem no_enforcement_without_authority policy ev (w : W) :
  f64_ltb (ts_Score ev) (effective_threshold BaseThreshold
    (td_Sensitivity (spec_ThreatDetection (pol_Spec policy)))) = true ∨
  td_AutoMitigate (spec_ThreatDetection (pol_Spec policy)) = false ∨
  (killswitch_Engaged clock w).1 = Ok true →
  same_enforcement w (applyPolicy clock BaseThreshold policy ev w).2.
Proof using HAS.
  intros Hno. destruct (applyPolicy _ _ _ _ _) as [r w'] eqn:Hrun.
  destruct (applyPolicy_cases _ _ _ _ _ Hrun) as [[(? & ? & ?) _]|[_ (w0 & ph & Hs & _ & Hw & _)]].
  - destruct Hno as [?|[?|?]]; congruence.
  - simpl. etrans; [exact Hs|]. by eapply writeStatus_frame.
Qed.

(** What stands for a claim [c] once a policy has been processed: its status in
    etcd makes it; or the policy as it was cached already did, and the write
    that would have repeated it was skipped, leaving etcd as it was. *)
Definition covered (policy : TelecomSecurityPolicy) (w w' : W) (c : TelecomSecurityPolicyStatus → Prop) : Prop :=
  (∃ s, stored w' (pol_key policy) = Some s ∧ c s) ∨
  (c (pol_Status policy) ∧ st_Phase (pol_Status policy) = PolicyPhaseMitigating ∧
   stored w' (pol_key policy) = stored w (pol_key policy)).

(** With a current cache, etcd makes the claim in either case. *)
Lemma covered_current policy (w w' : W) c : stored w (pol_key policy) = Some (pol_Status policy) →
  covered policy w w' c → ∃ s, stored w' (pol_key policy) = Some s ∧ c s.
Proof using Type. intros Hst [?|(Hc & _ & Hw)]; [done|]. exists (pol_Status policy). by rewrite Hw. Qed.

(** The intent lists what the actions then drop. *)
Lemma intent_lists policy ev t :
  (wants_source policy ev = true → ts_SourceIP ev ∈ st_BlockedSourceIPs
     (intent_status policy ev (wants_tunnel policy ev) (wants_source policy ev) t)) ∧
  (wants_tunnel policy ev = true → formatTunnel (ts_SourceIP ev) (ts_TEID ev) ∈ st_BlockedTunnels
     (intent_status policy ev (wants_tunnel policy ev) (wants_source policy ev) t)).
Proof using Type.
  unfold intent_status. split; intros ->; simpl; repeat case_match; simpl; apply appendUnique_elem; by right.
Qed.

(** A status listing the event's address claims the drop, and the tunnel alike. *)
Lemma event_ips_claimed policy ev s a : (wants_source policy ev = true → ts_SourceIP ev ∈ st_BlockedSourceIPs s) →
  a ∈ event_ips policy ev → claims_ip s a.
Proof using Type.
  intros Hl Ha. unfold event_ips in Ha. destruct (wants_source policy ev) eqn:Ew; [|by apply elem_of_empty in Ha].
  destruct (ParseIP (ts_SourceIP ev)) as [ip|] eqn:Ep; simpl in Ha; [|by apply elem_of_empty in Ha].
  destruct (canon ip) as [a'|] eqn:Ec; [|by apply elem_of_empty in Ha]. apply elem_of_singleton in Ha as ->.
  exists (ts_SourceIP ev), ip. auto.
Qed.
Lemma event_tunnels_claimed policy ev s t : in_width 32 (ts_TEID ev) →
  (wants_tunnel policy ev = true → formatTunnel (ts_SourceIP ev) (ts_TEID ev) ∈ st_BlockedTunnels s) →
  t ∈ event_tunnels policy ev → claims_tunnel s t.
Proof using Type.
  intros Ht Hl Ha. unfold event_tunnels in Ha. destruct (wants_tunnel policy ev) eqn:Ew; [|by apply elem_of_empty in Ha].
  destruct (ParseIP (ts_SourceIP ev)) as [ip|] eqn:Ep; simpl in Ha; [|by apply elem_of_empty in Ha].
  destruct (canon ip) as [a'|] eqn:Ec; [|by apply elem_of_empty in Ha]. apply elem_of_singleton in Ha as ->.
  exists (formatTunnel (ts_SourceIP ev) (ts_TEID ev)), ip. simpl. auto using parseTunnel_formatTunnel_aux.
Qed.

Lemma write_ahead_step policy ev (w : W) r w' :
  bl_inv (w_block w) → in_width 32 (ts_TEID ev) →
  applyPolicy clock BaseThreshold policy ev w = (r, w') →
  (∀ a, a ∈ bl_ips (w_block w') → a ∈ bl_ips (w_block w) ∨ covered policy w w' (λ s, claims_ip s a)) ∧
  (∀ t, t ∈ bl_tunnels (w_block w') → t ∈ bl_tunnels (w_block w) ∨ covered policy w w' (λ s, claims_tunnel s t)).
Proof using Type.
  intros HI Ht Hrun.
  destruct (applyPolicy_cases _ _ _ _ _ Hrun) as [[_ (w0 & Hs & Hp & Hm)]|[_ (w0 & ph & Hs & _ & Hw & _)]].
  2:{ pose proof (writeStatus_frame _ _ _ _ _ Hw) as Hf. destruct Hs as [Hb _], Hf as [Hb' _].
      rewrite Hb', Hb. naive_solver. }
  destruct Hs as [Hb _]. rewrite <- Hb in HI |- *.
  apply mitigate_inv in Hm as (w1 & w2 & rw & t & Hs1 & Ha1 & Hw & Ha2 & _ & Hfail & Hok & _); [|done..].
  destruct rw as [[]|e]; [|destruct (Hfail eq_refl) as [_ [-> _]]; naive_solver].
  destruct (Hok eq_refl) as [[_ Hi] [_ Htn]].
  assert (Hcov : ∀ c : TelecomSecurityPolicyStatus → Prop,
    (∀ s, (wants_source policy ev = true → ts_SourceIP ev ∈ st_BlockedSourceIPs s) →
      (wants_tunnel policy ev = true → formatTunnel (ts_SourceIP ev) (ts_TEID ev) ∈ st_BlockedTunnels s) → c s) →
    covered policy w w' c).
  { intros c Hc. unfold covered, stored. rewrite Ha2. fold (stored w2 (pol_key policy)).
    apply writeStatus_done in Hw as [Hw|[Hd Hw]]; change (pol_key (set_status policy _)) with (pol_key policy) in Hw; [left|right].
    - rewrite Hw. eexists. split; [done|]. destruct (intent_lists policy ev t). by apply Hc.
    - apply intent_unchanged in Hd as (Hph & ? & ?). split; [by apply Hc|]. split; [done|].
      etrans; [exact Hw|]. unfold stored. by rewrite Ha1, Hp. }
  split; intros x Hx.
  - apply Hi, elem_of_union in Hx as [Hx|Hx]; [right|by left]. apply Hcov. intros s Hs' _. by eapply event_ips_claimed.
  - apply Htn, elem_of_union in Hx as [Hx|Hx]; [right|by left]. apply Hcov. intros s _ Hs'. by eapply event_tunnels_claimed.
Qed.

(** ** Functional behaviour of each branch *)

Lemma pol_key_set_status p s : pol_key (set_status p s) = pol_key p.
Proof using Type. done. Qed.

(** Whatever the outcome, a write leaves the old status or the new one. *)
Lemma updateStatus_any p (w : W) r w' : updateStatus p w = (r, w') →
  stored w' (pol_key p) = Some (wire_status (pol_Status p)) ∨ stored w' (pol_key p) = stored w (pol_key p).
Proof using Type.
  intros Hrun. destruct r as [[]|e]; [left; by apply updateStatus_ok in Hrun as [? _]|].
  unfold updateStatus, mtry, api in Hrun. destruct (api_UpdateStatus p (w_api w)) as [[q|e'] a] eqn:E;
    unfold mfail, mbind, index_Put, metric in Hrun; simplify_eq. unfold stored. simpl.
  apply UpdateStatus_err in E as [->|(old & _ & ->)]; [by right|left]. by rewrite lookup_insert_eq.
Qed.

Lemma writeStatus_any prev next (w : W) r w' : writeStatus clock prev next w = (r, w') →
  stored w' (pol_key next) = Some (wire_status (pol_Status next)) ∨
  stored w' (pol_key next) = stored w (pol_key next).
Proof using Type.
  unfold writeStatus. destruct (statusDecisionChanged prev next); [apply updateStatus_any|].
  intros Hrun. destruct (limiter_Allow_frame clock (pol_key next) w) as (b & w1 & Hl & _ & Ha & _).
  unfold mbind in Hrun. rewrite Hl in Hrun. unfold stored. rewrite <- Ha. destruct b.
  - by eapply updateStatus_any.
  - unfold metric in Hrun. simplify_eq. by right.
Qed.

(** The quarantine the policy asks for, and its effect on the mesh. *)
Definition quarantine_selector (policy : TelecomSecurityPolicy) : option (gmap string string) :=
  if act_IsolatePod (spec_Actions (pol_Spec policy))
  then firstMatchLabels (spec_TargetWorkloads (pol_Spec policy)) else None.
Definition quarantined (policy : TelecomSecurityPolicy) (m : Ms) : error * Ms :=
  match quarantine_selector policy with
  | Some sel => Quarantine (pol_Namespace policy) sel m
  | None => (None, m)
  end.

(** A kernel action leaves the mesh alone. *)
Lemma exec_block_mesh (b : bool) (m : M W unit) (w : W) r w' :
  (∃ ip ev, m = exec_block_tunnel ip ev ∨ m = exec_block_source ip ev) →
  (if b then m else mret tt) w = (r, w') → w_mesh w' = w_mesh w.
Proof using Type.
  intros (ip & ev & [-> | ->]); destruct b; unfold exec_block_tunnel, exec_block_source, mbind, block, metric, mret, mfail;
    intros Hrun; repeat case_match; by simplify_eq.
Qed.

Lemma mitigate_mesh policy ev (w w' : W) : mitigate clock policy ev w = (Ok tt, w') →
  quarantined policy (w_mesh w) = (None, w_mesh w').
Proof using Type.
  intros Hrun. unfold mitigate in Hrun. fold (quarantine_selector policy) in Hrun.
  unfold mbind at 1, metric at 1 in Hrun.
  minv Hrun; [|done]. assert (Hm0 : w_mesh x0 = w_mesh w).
  { unfold mret, metric in E. repeat case_match; by simplify_eq. }
  clear E. unfold mbind at 1, now at 1 in Hrun.
  minv Hrun; [|done]. apply writeStatus_frame in E as [_ Hm1]. simpl in Hm1.
  minv Hrun; [|done]. apply exec_block_mesh in E as Hm2; [|eauto]. clear E.
  minv Hrun; [|done]. apply exec_block_mesh in E as Hm3; [|eauto]. clear E.
  unfold quarantined. destruct (quarantine_selector policy) as [sel|]; [|unfold mret in Hrun; simplify_eq; f_equal; congruence].
  unfold exec_quarantine, mbind, mesh in Hrun. rewrite Hm3, Hm2, Hm1, Hm0 in Hrun.
  destruct (Quarantine _ _ _) as [[err|] m]; unfold metric, mfail in Hrun; by simplify_eq.
Qed.

Lemma armed_step policy ev (w w' : W) :
  bl_inv (w_block w) → in_width 32 (ts_TEID ev) → armed policy ev w →
  applyPolicy clock BaseThreshold policy ev w = (Ok tt, w') →
  bl_ips (w_block w') = event_ips policy ev ∪ bl_ips (w_block w) ∧
  bl_tunnels (w_block w') = event_tunnels policy ev ∪ bl_tunnels (w_block w) ∧
  quarantined policy (w_mesh w) = (None, w_mesh w') ∧
  ((∃ s, stored w' (pol_key policy) = Some s ∧ st_Phase s = PolicyPhaseMitigating) ∨
   (st_Phase (pol_Status policy) = PolicyPhaseMitigating ∧
    stored w' (pol_key policy) = stored w (pol_key policy))).
Proof using Type.
  intros HI Ht Harm Hrun.
  destruct (applyPolicy_cases _ _ _ _ _ Hrun) as [[_ (w0 & [Hb Hmesh] & Hp & Hm)]|[Hna _]]; [|done].
  pose proof (mitigate_mesh _ _ _ _ Hm) as Hq. rewrite Hmesh in Hq.
  rewrite <- Hb in HI |- *.
  apply mitigate_inv in Hm as (w1 & w2 & rw & t & Hs1 & Ha1 & Hw & Ha2 & _ & Hfail & _ & Hok); [|done..].
  destruct (Hok eq_refl) as [Hi Htn]. split; [done|]. split; [done|]. split; [done|].
  destruct rw as [[]|e]; [|by destruct (Hfail eq_refl) as [? _]].
  unfold stored. rewrite Ha2. fold (stored w2 (pol_key policy)).
  apply writeStatus_done in Hw as [Hw|[Hd Hw]]; change (pol_key (set_status policy _)) with (pol_key policy) in Hw;
    [left; rewrite Hw; by eexists|right].
  apply intent_unchanged in Hd as [? _]. split; [done|]. etrans; [exact Hw|]. unfold stored. by rewrite Ha1, Hp.
Qed.

(** C3: an armed crossing does exactly what the policy asks. When one policy's
    processing of a score succeeds, the kernel additionally drops the event's
    address (if the policy has ebpfBlock and the address parses) and its
    (address, TEID) tunnel (if it has ebpfBlockTunnel, the address parses and
    the TEID is not 0), and nothing else is added or lost; the mesh has been
    asked for exactly the quarantine the policy wants, without error (isolatePod
    and a first selector), and for nothing otherwise; and the status in etcd is
    Mitigating, unless the policy as cached already was and the refresh was
    throttled, which leaves the stored status as it was. *)
Theorem armed_crossing_exact policy ev (w w' : W) :
  bl_inv (w_block w) → in_width 32 (ts_TEID ev) → armed policy ev w →
  applyPolicy clock BaseThreshold policy ev w = (Ok tt, w') →
  bl_ips (w_block w') = event_ips policy ev ∪ bl_ips (w_block w) ∧
  bl_tunnels (w_block w') = event_tunnels policy ev ∪ bl_tunnels (w_block w) ∧
  quarantined policy (w_mesh w) = (None, w_mesh w') ∧
  ((∃ s, stored w' (pol_key policy) = Some s ∧ st_Phase s = PolicyPhaseMitigating) ∨
   (st_Phase (pol_Status policy) = PolicyPhaseMitigating ∧
    stored w' (pol_key policy) = stored w (pol_key policy))).
Proof using Type. apply armed_step. Qed.

(** C14: at-least-once delivery is harmless. After a score has been applied
    successfully, redelivering it, to the policy as it is now cached and
    whatever the second run's outcome, changes no drop in the kernel. *)
Theorem duplicate_delivery_idempotent policy policy' ev (w w1 w2 : W) r2 :
  bl_inv (w_block w) → in_width 32 (ts_TEID ev) →
  armed policy ev w → pol_Spec policy' = pol_Spec policy →
  applyPolicy clock BaseThreshold policy ev w = (Ok tt, w1) →
  applyPolicy clock BaseThreshold policy' ev w1 = (r2, w2) →
  bl_ips (w_block w2) = bl_ips (w_block w1) ∧ bl_tunnels (w_block w2) = bl_tunnels (w_block w1).
Proof using HAS.
  intros HI Ht Harm Hspec Hrun1 Hrun2.
  assert (HI1 : bl_inv (w_block w1)) by by eapply applyPolicy_inv.
  assert (Hin : event_ips policy' ev ⊆ bl_ips (w_block w1) ∧ event_tunnels policy' ev ⊆ bl_tunnels (w_block w1)).
  { destruct (applyPolicy_cases _ _ _ _ _ Hrun1) as [[_ (w0 & [Hb _] & Hp & Hm)]|[Hna _]]; [|done].
    rewrite <- Hb in HI.
    apply mitigate_inv in Hm as (? & ? & ? & ? & _ & _ & _ & _ & _ & _ & _ & Hok); [|done..].
    destruct (Hok eq_refl) as [-> ->].
    unfold event_ips, event_tunnels, wants_source, wants_tunnel. rewrite Hspec. set_solver. }
  destruct (applyPolicy_cases _ _ _ _ _ Hrun2) as [[_ (w0 & [Hb _] & Hp & Hm)]|[_ (w0 & ph & Hs & _ & Hw & _)]].
  - rewrite <- Hb in Hin, HI1 |- *.
    apply mitigate_inv in Hm as (w3 & w4 & rw & t & _ & _ & _ & _ & _ & Hfail & Hok & _); [|done..].
    destruct rw as [[]|e]; [|by destruct (Hfail eq_refl) as [_ [-> _]]].
    destruct (Hok eq_refl) as [Hi Htn]. set_solver.
  - pose proof (writeStatus_frame _ _ _ _ _ Hw) as Hf. destruct Hs as [Hb _], Hf as [Hb' _].
    by rewrite Hb', Hb.
Qed.

(** a benign score never ends or orphans a mitigation. Below the threshold,
    whether the write succeeds, fails or is throttled, a Mitigating policy
    stays Mitigating with both blocked lists intact, so the quiet-period timer
    that will undo the drops keeps running. *)
Theorem benign_score_keeps_mitigation policy ev (w : W) r w' :
  stored w (pol_key policy) = Some (pol_Status policy) →
  st_Phase (pol_Status policy) = PolicyPhaseMitigating →
  f64_ltb (ts_Score ev) (effective_threshold BaseThreshold
    (td_Sensitivity (spec_ThreatDetection (pol_Spec policy)))) = true →
  applyPolicy clock BaseThreshold policy ev w = (r, w') →
  same_enforcement w w' ∧
  ∃ s, stored w' (pol_key policy) = Some s ∧ st_Phase s = PolicyPhaseMitigating ∧
    st_BlockedSourceIPs s = st_BlockedSourceIPs (pol_Status policy) ∧
    st_BlockedTunnels s = st_BlockedTunnels (pol_Status policy).
Proof using Type.
  intros Hst Hph Hlow Hrun.
  destruct (applyPolicy_cases _ _ _ _ _ Hrun) as [[(Hc & _) _]|[_ (w0 & ph & Hs & Hp & Hw & ->)]];
    [congruence|].
  rewrite Hlow, decide_True in Hw by done. split.
  { etrans; [exact Hs|]. by eapply writeStatus_frame. }
  apply writeStatus_any in Hw as [Hw|Hw]; rewrite pol_key_set_status in Hw.
  - rewrite Hw. by eexists.
  - exists (pol_Status policy). split; [|done]. unfold stored in *. by rewrite Hw, Hp.
Qed.

(** throttling drops no decision. When a status write returns success,
    written or skipped by the rate limit, the phase and the sets of blocked
    addresses and tunnels etcd holds are those of the intended status; only
    the observed score and the mitigation time can lag. *)
Theorem throttled_write_keeps_decision prev next (w w' : W) :
  pol_key prev = pol_key next →
  stored w (pol_key prev) = Some (pol_Status prev) →
  NoDup (st_BlockedSourceIPs (pol_Status prev)) → NoDup (st_BlockedTunnels (pol_Status prev)) →
  NoDup (st_BlockedSourceIPs (pol_Status next)) → NoDup (st_BlockedTunnels (pol_Status next)) →
  writeStatus clock prev next w = (Ok tt, w') →
  ∃ s, stored w' (pol_key prev) = Some s ∧ st_Phase s = st_Phase (pol_Status next) ∧
    (∀ x, x ∈ st_BlockedSourceIPs s ↔ x ∈ st_BlockedSourceIPs (pol_Status next)) ∧
    (∀ x, x ∈ st_BlockedTunnels s ↔ x ∈ st_BlockedTunnels (pol_Status next)).
Proof using Type.
  intros Hk Hst N1 N2 N3 N4 Hrun.
  destruct (writeStatus_ok prev next w w' Hk Hst Hrun) as [Hw|[Hd Hw]]; rewrite Hw; eexists; (split; [done|]).
  { done. }
  unfold statusDecisionChanged in Hd. repeat (case_match; try done). unbool.
  split; [done|]. split; by apply equalStringSet_spec.
Qed.

(** C39: a suppressed crossing strands an active mitigation. When the kill
    switch is engaged or autoMitigate has been turned off, a crossing moves a
    Mitigating policy to Alerting while its blocked lists stay: the drops
    remain in force, recorded, under a phase the de-escalation timer does not
    look at. *)
Theorem suppressed_crossing_strands_mitigation policy ev (w w' : W) :
  stored w (pol_key policy) = Some (pol_Status policy) →
  st_Phase (pol_Status policy) = PolicyPhaseMitigating →
  f64_ltb (ts_Score ev) (effective_threshold BaseThreshold
    (td_Sensitivity (spec_ThreatDetection (pol_Spec policy)))) = false →
  td_AutoMitigate (spec_ThreatDetection (pol_Spec policy)) = false ∨
    (killswitch_Engaged clock w).1 = Ok true →
  applyPolicy clock BaseThreshold policy ev w = (Ok tt, w') →
  same_enforcement w w' ∧
  ∃ s, stored w' (pol_key policy) = Some s ∧ st_Phase s = PolicyPhaseAlerting ∧
    st_BlockedSourceIPs s = st_BlockedSourceIPs (pol_Status policy) ∧
    st_BlockedTunnels s = st_BlockedTunnels (pol_Status policy).
Proof using Type.
  intros Hst Hph Hcross Hsup Hrun.
  destruct (applyPolicy_cases _ _ _ _ _ Hrun) as [[(_ & ? & ?) _]|[_ (w0 & ph & Hs & Hp & Hw & ->)]].
  { destruct Hsup; congruence. }
  rewrite Hcross in Hw. split; [etrans; [exact Hs|]; by eapply writeStatus_frame|].
  assert (Hst0 : stored w0 (pol_key policy) = Some (pol_Status policy)) by (unfold stored in *; by rewrite Hp).
  apply (writeStatus_ok policy) in Hw as [Hw|[Hd Hw]]; [..|done|done].
  - rewrite Hw. by eexists.
  - unfold statusDecisionChanged in Hd. simpl in Hd. rewrite Hph in Hd. done.
Qed.

(** ** One event against every matching policy *)

Definition apply_all (ev : ThreatScoreEvent) (ps : list TelecomSecurityPolicy) : M W unit :=
  mfor ps (λ policy, mtry (applyPolicy clock BaseThreshold policy ev) (λ _, mret tt)).

Lemma apply_all_cons p ps ev (w : W) : apply_all ev (p :: ps) w =
  apply_all ev ps (applyPolicy clock BaseThreshold p ev w).2.
Proof using Type.
  unfold apply_all. cbn [mfor]. unfold mbind at 1, mtry at 1.
  by destruct (applyPolicy clock BaseThreshold p ev w).
Qed.

Lemma apply_all_total ps ev (w : W) : ∃ w', apply_all ev ps w = (Ok tt, w').
Proof using Type.
  revert w. induction ps as [|p ps IH]; intros w; [by eexists|]. rewrite apply_all_cons. apply IH.
Qed.

Lemma apply_all_other ps ev (w : W) r w' k :
  apply_all ev ps w = (r, w') → k ∉ (pol_key <$> ps) →
  api_policies (w_api w') !! k = api_policies (w_api w) !! k.
Proof using Type.
  revert w. induction ps as [|p ps IH]; intros w Hrun Hk.
  { unfold apply_all in Hrun. simpl in Hrun. unfold mret in Hrun. by simplify_eq. }
  rewrite apply_all_cons in Hrun. destruct (applyPolicy _ _ p ev w) as [r1 w1] eqn:E1. csimpl in *.
  rewrite (IH w1 Hrun) by set_solver. eapply applyPolicy_other; [exact E1|set_solver].
Qed.

(** Processing one policy settles what covers its drops: the others of the same
    score leave its status alone. *)
Lemma covered_frame p (w0 w1 w2 w3 : W) c :
  stored w0 (pol_key p) = stored w1 (pol_key p) → stored w3 (pol_key p) = stored w2 (pol_key p) →
  covered p w1 w2 c → covered p w0 w3 c.
Proof using Type. unfold covered. by intros -> ->. Qed.

Lemma apply_all_write_ahead ps ev (w : W) r w' :
  bl_inv (w_block w) → in_width 32 (ts_TEID ev) → NoDup (pol_key <$> ps) →
  apply_all ev ps w = (r, w') →
  bl_inv (w_block w') ∧
  (∀ a, a ∈ bl_ips (w_block w') → a ∈ bl_ips (w_block w) ∨
     ∃ p, p ∈ ps ∧ covered p w w' (λ s, claims_ip s a)) ∧
  (∀ t, t ∈ bl_tunnels (w_block w') → t ∈ bl_tunnels (w_block w) ∨
     ∃ p, p ∈ ps ∧ covered p w w' (λ s, claims_tunnel s t)).
Proof using Type.
  revert w. induction ps as [|p ps IH]; intros w HI Ht Hnd Hrun.
  { unfold apply_all in Hrun. simpl in Hrun. unfold mret in Hrun. simplify_eq. naive_solver. }
  rewrite apply_all_cons in Hrun. destruct (applyPolicy _ _ p ev w) as [r1 w1] eqn:E1. cbn [snd] in Hrun.
  csimpl in Hnd. apply NoDup_cons in Hnd as [Hp Hnd].
  assert (HI1 : bl_inv (w_block w1)) by by eapply applyPolicy_inv.
  assert (Hbefore : ∀ q, q ∈ ps → stored w (pol_key q) = stored w1 (pol_key q)).
  { intros q Hq. unfold stored. rewrite (applyPolicy_other _ _ _ _ _ (pol_key q) E1); [done|].
    intros Heq. apply Hp. rewrite <- Heq. by apply list_elem_of_fmap_2. }
  assert (Hafter : stored w' (pol_key p) = stored w1 (pol_key p)).
  { unfold stored. by rewrite (apply_all_other _ _ _ _ _ (pol_key p) Hrun). }
  destruct (write_ahead_step p ev w r1 w1 HI Ht E1) as [Hi1 Ht1].
  destruct (IH w1 HI1 Ht Hnd Hrun) as (HI' & Hi & Htn).
  split; [done|]. split; intros a Ha.
  - destruct (Hi a Ha) as [Ha1|(q & Hq & Hc)].
    + destruct (Hi1 a Ha1) as [?|Hc]; [by left|right]. exists p. split; [by left|]. by eapply covered_frame.
    + right. exists q. split; [by right|]. eapply covered_frame; [by apply Hbefore|done|done].
  - destruct (Htn a Ha) as [Ha1|(q & Hq & Hc)].
    + destruct (Ht1 a Ha1) as [?|Hc]; [by left|right]. exists p. split; [by left|]. by eapply covered_frame.
    + right. exists q. split; [by right|]. eapply covered_frame; [by apply Hbefore|done|done].
Qed.

(** The prologue of [handle] up to the Pod lookup, and what follows it. *)
Lemma handle_run ev (w : W) r w' : handle clock BaseThreshold ev w = (r, w') →
  ∃ w0 g a, same_enforcement w w0 ∧ w_index w0 = w_index w ∧
    api_GetPod {| nn_Namespace := ts_Namespace ev; nn_Name := ts_PodName ev |} (w_api w) = (g, a) ∧
    w_api w0 = a ∧
    match g with
    | Ok labels => apply_all ev (MatchingPolicies (w_index w) (ts_Namespace ev) labels) w0 = (r, w')
    | Fail err => w' = w0 ∧ (is_Ok r = errors_Is err ErrNotFound)
    end.
Proof using Type.
  intros Hrun. unfold handle in Hrun. unfold mbind at 1, metric at 1 in Hrun.
  unfold mbind at 1, metric at 1 in Hrun. unfold mbind at 1, mget at 1 in Hrun. cbn iota beta in Hrun.
  match type of Hrun with mbind ?m ?k ?w1 = _ =>
    assert (Hpro : ∃ w2, m w1 = (Ok tt, w2) ∧ same_enforcement w w2 ∧ w_index w2 = w_index w ∧ w_api w2 = w_api w) end.
  { destruct (w_scoring _) as [tr|]; [|by eexists]. destruct (negb _); [by eexists|].
    unfold mbind, now, mmodify. by eexists. }
  destruct Hpro as (w2 & Hm & Hs & Hi & Ha). unfold mbind at 1 in Hrun. rewrite Hm in Hrun.
  unfold mtry, api in Hrun. rewrite Ha in Hrun.
  destruct (api_GetPod _ (w_api w)) as [g a] eqn:Eg.
  exists (set_api a w2), g, a. split; [exact Hs|]. split; [exact Hi|]. split; [done|]. split; [done|].
  destruct g as [labels|err].
  - unfold mbind at 1, mget at 1 in Hrun. simpl in Hrun. rewrite Hi in Hrun. exact Hrun.
  - destruct (errors_Is err ErrNotFound) eqn:Ee; unfold mret, mfail in Hrun; by simplify_eq.
Qed.

Lemma handle_inv ev (w : W) r w' :
  bl_inv (w_block w) → in_width 32 (ts_TEID ev) → pi_inv (w_index w) →
  handle clock BaseThreshold ev w = (r, w') → bl_inv (w_block w').
Proof using HAS.
  intros HI Ht Hpi Hrun. destruct (handle_run _ _ _ _ Hrun) as (w0 & g & a & [Hb _] & _ & _ & _ & Hrest).
  rewrite <- Hb in HI. destruct g as [labels|err]; [|by destruct Hrest as [-> _]].
  by destruct (apply_all_write_ahead _ ev w0 r w' HI Ht (MatchingPolicies_NoDup _ _ _ Hpi) Hrest) as (? & _).
Qed.

Lemma warmIndex_frame (w : W) r w' : warmIndex w = (r, w') → same_enforcement w w'.
Proof using Type.
  intros Hrun. unfold warmIndex in Hrun. minv Hrun; unfold api in E; destruct (api_ListPolicies _) as [l a]; [|by simplify_eq].
  simplify_eq. refine (mfor_inv (same_enforcement w) _ _ _ _ _ _ Hrun _); [|done].
  intros p w1 r1 w2 _ Hbody Hs. destruct (negb _); unfold mret, index_Put in Hbody; simplify_eq; exact Hs.
Qed.
Lemma Start_prepare_frame (w : W) r w' : Start_prepare clock w = (r, w') → same_enforcement w w'.
Proof using Type.
  intros Hrun. unfold Start_prepare, mtry in Hrun. destruct (warmIndex w) as [r1 w1] eqn:E. apply warmIndex_frame in E.
  destruct r1; unfold mfail, mbind, mget, now, mmodify, mret in Hrun; repeat case_match; by simplify_eq.
Qed.

Lemma handle_covered ev (w : W) r w' :
  bl_inv (w_block w) → in_width 32 (ts_TEID ev) → pi_inv (w_index w) →
  handle clock BaseThreshold ev w = (r, w') →
  let matched p := ∃ labels,
    (api_GetPod {| nn_Namespace := ts_Namespace ev; nn_Name := ts_PodName ev |} (w_api w)).1 = Ok labels ∧
    p ∈ MatchingPolicies (w_index w) (ts_Namespace ev) labels in
  (∀ a, a ∈ bl_ips (w_block w') → a ∈ bl_ips (w_block w) ∨
     ∃ p, matched p ∧ covered p w w' (λ s, claims_ip s a)) ∧
  (∀ t, t ∈ bl_tunnels (w_block w') → t ∈ bl_tunnels (w_block w) ∨
     ∃ p, matched p ∧ covered p w w' (λ s, claims_tunnel s t)).
Proof using Type.
  intros HI Ht Hpi Hrun.
  destruct (handle_run _ _ _ _ Hrun) as (w0 & g & a & [Hb _] & Hi & Hg & Ha & Hrest).
  assert (Hst : ∀ k, stored w k = stored w0 k).
  { intros k. unfold stored. rewrite Ha.
    pose proof (GetPod_frame {| nn_Namespace := ts_Namespace ev; nn_Name := ts_PodName ev |} (w_api w)) as Hf.
    rewrite Hg in Hf. simpl in Hf. by rewrite Hf. }
  rewrite Hg. simpl. rewrite <- Hb in HI |- *.
  destruct g as [labels|err]; [|destruct Hrest as [-> _]; naive_solver].
  destruct (apply_all_write_ahead _ ev w0 r w' HI Ht (MatchingPolicies_NoDup _ _ _ Hpi) Hrest) as (_ & Hips & Htns).
  split; intros x Hx.
  - destruct (Hips x Hx) as [?|(p & Hp & Hc)]; [by left|right]. exists p. split; [by exists labels|].
    by apply (covered_frame p w w0 w' w').
  - destruct (Htns x Hx) as [?|(p & Hp & Hc)]; [by left|right]. exists p. split; [by exists labels|].
    by apply (covered_frame p w w0 w' w').
Qed.

(** C1: write-ahead ordering of a whole score. However the handling of one score
    goes, with several matching policies, each succeeding or failing at any
    point, an address or tunnel the kernel drops afterwards and did not before
    is covered by one of the cached policies that match the event's Pod: its
    status in etcd claims the drop by then, so a crash right after never leaves
    a drop that the drift reconciliation would undo or that no finalizer would
    lift; or the policy as cached already claimed it, was Mitigating, and the
    refreshing write was throttled, so that etcd is as it was. In the second
    case etcd claims the drop when the cached status is the stored one. *)
Theorem write_ahead ev (w : W) r w' :
  bl_inv (w_block w) → in_width 32 (ts_TEID ev) → pi_inv (w_index w) →
  handle clock BaseThreshold ev w = (r, w') →
  let matched p := ∃ labels,
    (api_GetPod {| nn_Namespace := ts_Namespace ev; nn_Name := ts_PodName ev |} (w_api w)).1 = Ok labels ∧
    p ∈ MatchingPolicies (w_index w) (ts_Namespace ev) labels in
  (∀ a, a ∈ bl_ips (w_block w') → a ∈ bl_ips (w_block w) ∨
     ∃ p, matched p ∧ covered p w w' (λ s, claims_ip s a)) ∧
  (∀ t, t ∈ bl_tunnels (w_block w') → t ∈ bl_tunnels (w_block w) ∨
     ∃ p, matched p ∧ covered p w w' (λ s, claims_tunnel s t)).
Proof using Type. apply handle_covered. Qed.

(** ** A throttled score on a stale cache *)

(** The readings of the kill switch: at most two, and no other effect on what
    the rate limit and the cache are. *)
Lemma killswitch_Engaged_clock (w : W) :
  w_limiter (killswitch_Engaged clock w).2 = w_limiter w ∧
  (w_tick w ≤ w_tick (killswitch_Engaged clock w).2 ≤ w_tick w + 2)%nat.
Proof using Type.
  unfold killswitch_Engaged. destruct (w_killswitch w) as [k|]; [|split; [done|simpl; lia]].
  destruct (negb (ks_Reader k)); [split; [done|simpl; lia]|].
  destruct (ks_everRead k), (cached k _); simpl; repeat case_match; simpl; (split; [done|lia]).
Qed.

(** A refresh that repeats the cached decision is skipped when the policy's
    bucket is empty. *)
Lemma writeStatus_throttled prev next (w : W) r w' :
  statusDecisionChanged prev next = false →
  (Allow (clock (w_tick w)) (pol_key next) (w_limiter w)).1 = false →
  writeStatus clock prev next w = (r, w') → w_api w' = w_api w.
Proof using Type.
  intros Hd Hno. unfold writeStatus. rewrite Hd. unfold mbind, limiter_Allow.
  destruct (Allow _ _ _) as [b l]. simpl in Hno. subst b. unfold metric. by intros [= _ <-].
Qed.

(** A kernel action leaves etcd alone. *)
Lemma exec_block_api (b : bool) (m : M W unit) (w : W) r w' :
  (∃ ip ev, m = exec_block_tunnel ip ev ∨ m = exec_block_source ip ev) →
  (if b then m else mret tt) w = (r, w') → w_api w' = w_api w.
Proof using Type.
  intros (ip & ev & [-> | ->]); destruct b; unfold exec_block_tunnel, exec_block_source, mbind, block, metric, mret, mfail;
    intros Hrun; repeat case_match; by simplify_eq.
Qed.

(** The event repeats what the policy already lists. *)
Definition repeats (policy : TelecomSecurityPolicy) (ev : ThreatScoreEvent) : Prop :=
  st_Phase (pol_Status policy) = PolicyPhaseMitigating ∧
  (wants_source policy ev = true → ts_SourceIP ev ∈ st_BlockedSourceIPs (pol_Status policy)) ∧
  (wants_tunnel policy ev = true → formatTunnel (ts_SourceIP ev) (ts_TEID ev) ∈ st_BlockedTunnels (pol_Status policy)).

Lemma repeats_unchanged policy ev t : repeats policy ev →
  statusDecisionChanged policy (set_status policy
    (intent_status policy ev (wants_tunnel policy ev) (wants_source policy ev) t)) = false.
Proof using Type.
  intros (Hph & Hs & Ht). unfold statusDecisionChanged, intent_status. simpl. rewrite Hph, bool_decide_true by done. simpl.
  destruct (wants_source policy ev), (wants_tunnel policy ev); simpl;
    rewrite ?equalStringSet_appendUnique, ?equalStringSet_refl, ?bool_decide_true by auto; done.
Qed.

Lemma mitigate_throttled policy ev (w : W) r w' :
  repeats policy ev →
  (Allow (clock (S (w_tick w))) (pol_key policy) (w_limiter w)).1 = false →
  mitigate clock policy ev w = (r, w') → w_api w' = w_api w.
Proof using Type.
  intros Hrep Hno Hrun. unfold mitigate in Hrun.
  fold (wants_source policy ev) in Hrun. fold (wants_tunnel policy ev) in Hrun.
  unfold mbind at 1, metric at 1 in Hrun.
  minv Hrun; [|unfold mret, metric in E; repeat case_match; by simplify_eq].
  assert (H0 : w_api x0 = w_api w ∧ w_limiter x0 = w_limiter w ∧ w_tick x0 = w_tick w).
  { unfold mret, metric in E. repeat case_match; by simplify_eq. }
  clear E. destruct H0 as (Ha0 & Hl0 & Ht0). unfold mbind at 1, now at 1 in Hrun.
  minv Hrun; apply writeStatus_throttled in E as Hw;
    try (by apply repeats_unchanged); try (simpl; rewrite Hl0, Ht0; exact Hno); [|by rewrite Hw, <- Ha0].
  simpl in Hw. rewrite <- Ha0, <- Hw. clear E.
  minv Hrun; (apply exec_block_api in E as Ha1; [|by eauto]); [|done]. rewrite <- Ha1. clear E.
  minv Hrun; (apply exec_block_api in E as Ha2; [|by eauto]); [|done]. rewrite <- Ha2. clear E.
  unfold mret in Hrun. repeat case_match; simplify_eq; try done.
  all: by apply exec_quarantine_frame in Hrun as [_ ->].
Qed.

End WatcherProofs.

(** ** The theorems at a concrete world *)

Module WatcherSample.
Import HashMaps.
#[export] Existing Instance sample_order.
Definition thr : f64 := f64_lit 85 100.
Definition p0 : TelecomSecurityPolicy := upf_policy true monitoring.
Definition pm (auto : bool) : TelecomSecurityPolicy := upf_policy auto mitigating.
Definition w0 : SampleWorld := sample_world [p0] None.
Definition wm (auto : bool) : SampleWorld := sample_world [pm auto] None.
Definition run (p : TelecomSecurityPolicy) (ev : ThreatScoreEvent) (w : SampleWorld) :=
  applyPolicy sample_clock thr p ev w.

Lemma attack_teid : in_width 32 (ts_TEID attack).
Proof. unfold in_width. simpl. lia. Qed.

Lemma w0_inv : bl_inv (w_block w0).
Proof. apply (LoaderSample.empty_loader_inv 8). Qed.

Lemma w0_armed : armed sample_clock thr p0 attack w0.
Proof. vm_compute. repeat split. Qed.

Lemma no_enforcement_without_authority_witness :
  same_enforcement w0 (run p0 benign w0).2.
Proof.
  apply (no_enforcement_without_authority sample_clock thr p0 benign w0). left.
  vm_compute. reflexivity.
Defined.

Lemma w0_index : pi_inv (w_index w0).
Proof. apply PolicyIndex_Put_inv, empty_pi_inv. Qed.

Lemma write_ahead_witness :
  ([10; 0; 0; 66], 7) ∈ bl_tunnels (w_block (handle sample_clock thr attack w0).2) ∧
  (([10; 0; 0; 66], 7) ∈ bl_tunnels (w_block w0) ∨
   ∃ p, (∃ labels, (api_GetPod upf_pod (w_api w0)).1 = Ok labels ∧ p ∈ MatchingPolicies (w_index w0) "core" labels) ∧
     covered p w0 (handle sample_clock thr attack w0).2 (λ s, claims_tunnel s ([10; 0; 0; 66], 7))).
Proof.
  assert (Hin : ([10; 0; 0; 66], 7) ∈ bl_tunnels (w_block (handle sample_clock thr attack w0).2))
    by (apply (bool_decide_unpack _); vm_compute; reflexivity).
  split; [exact Hin|].
  exact (proj2 (write_ahead sample_clock thr attack w0 (handle sample_clock thr attack w0).1 _
    w0_inv attack_teid w0_index (run_pair _ _)) _ Hin).
Defined.

Lemma armed_crossing_exact_witness :
  bl_ips (w_block (run p0 attack w0).2) = {[ [10; 0; 0; 66] ]} ∪ bl_ips (w_block w0).
Proof.
  refine (proj1 (armed_crossing_exact sample_clock thr p0 attack w0 _ w0_inv attack_teid w0_armed _)).
  apply run_ok. vm_compute. reflexivity.
Defined.

(** The policy's budget is spent, its cached copy lists the attacker, and
    de-escalation has just cleared etcd. *)
Definition pl : TelecomSecurityPolicy := upf_policy true (with_tunnels ["10.0.0.66/0x7"] mitigating).
Definition w_stale : SampleWorld :=
  set_limiter (Some {| rl_rate := f64_one; rl_burst := 1; rl_limiters := {[ pol_key pl := 0 ]} |}) w0.

Definition w1 : SampleWorld := (run p0 attack w0).2.
Lemma w1_run : applyPolicy sample_clock thr p0 attack w0 = (Ok tt, w1).
Proof. apply (run_ok (applyPolicy sample_clock thr p0 attack)). vm_compute. reflexivity. Qed.

Lemma duplicate_delivery_idempotent_witness :
  bl_ips (w_block (applyPolicy sample_clock thr p0 attack w1).2) = bl_ips (w_block w1) ∧
  bl_tunnels (w_block (applyPolicy sample_clock thr p0 attack w1).2) = bl_tunnels (w_block w1).
Proof.
  exact (duplicate_delivery_idempotent sample_clock thr p0 p0 attack w0 w1
    (applyPolicy sample_clock thr p0 attack w1).2 (applyPolicy sample_clock thr p0 attack w1).1
    w0_inv attack_teid w0_armed eq_refl w1_run (run_pair _ _)).
Defined.

Lemma benign_score_keeps_mitigation_witness :
  same_enforcement (wm true) (run (pm true) benign (wm true)).2 ∧
  ∃ s, stored (run (pm true) benign (wm true)).2 (pol_key (pm true)) = Some s ∧
    st_Phase s = PolicyPhaseMitigating ∧
    st_BlockedSourceIPs s = ["10.0.0.66"] ∧ st_BlockedTunnels s = [].
Proof.
  refine (benign_score_keeps_mitigation sample_clock thr (pm true) benign (wm true)
    (run (pm true) benign (wm true)).1 _ _ _ _ _).
  - vm_compute. reflexivity.
  - reflexivity.
  - vm_compute. reflexivity.
  - apply run_pair.
Defined.

Lemma throttled_write_keeps_decision_witness :
  ∃ s, stored (writeStatus sample_clock (pm true) (pm true) (wm true)).2 (pol_key (pm true)) = Some s ∧
    st_Phase s = st_Phase (pol_Status (pm true)) ∧
    (∀ x, x ∈ st_BlockedSourceIPs s ↔ x ∈ st_BlockedSourceIPs (pol_Status (pm true))) ∧
    (∀ x, x ∈ st_BlockedTunnels s ↔ x ∈ st_BlockedTunnels (pol_Status (pm true))).
Proof.
  refine (throttled_write_keeps_decision sample_clock (pm true) (pm true) (wm true) _ eq_refl _ _ _ _ _ _).
  - vm_compute. reflexivity.
  - apply NoDup_singleton.
  - apply NoDup_nil_2.
  - apply NoDup_singleton.
  - apply NoDup_nil_2.
  - apply run_ok. vm_compute. reflexivity.
Defined.

Lemma suppressed_crossing_strands_mitigation_witness :
  same_enforcement (wm false) (run (pm false) attack (wm false)).2 ∧
  ∃ s, stored (run (pm false) attack (wm false)).2 (pol_key (pm false)) = Some s ∧
    st_Phase s = PolicyPhaseAlerting ∧
    st_BlockedSourceIPs s = ["10.0.0.66"] ∧ st_BlockedTunnels s = [].
Proof.
  refine (suppressed_crossing_strands_mitigation sample_clock thr (pm false) attack (wm false)
    _ _ _ _ _ _).
  - vm_compute. reflexivity.
  - reflexivity.
  - vm_compute. reflexivity.
  - left. reflexivity.
  - apply run_ok. vm_compute. reflexivity.
Defined.

Lemma w0_coherent k p : pi_view (w_index w0) k = Some p → stored w0 k = Some (pol_Status p).
Proof.
  change (w_index w0) with (PolicyIndex_Put p0 NewPolicyIndex).
  rewrite PolicyIndex_Put_view. case_decide as E; [|by destruct k].
  intros [= <-]. subst k. vm_compute. reflexivity.
Qed.
End WatcherSample.
