(* ===== verification/Aliasing.v ===== *)
(** * Aliasing: the shared policies of the index and the watcher
    (pkg/controller/policy_index.go, threat_score_watcher.go)

    [MatchingPolicies] hands out the index's own pointers, and [applyPolicy]
    edits a policy in place, appending to its lists: Go's [append] writes into
    spare capacity when there is some. This file has the index and those edits on
    the memory of [Memory], and shows that they implement the functions on values
    the rest of the development uses. *)

From S2P Require Import Prelude GoStrings GoFloat NetIP Events Api Memory PolicyIndex Decision Watcher.

Local Open Scope go_scope.

(** ** Lists that grow *)

Lemma existsb_mem l x : existsb (λ y, y =? x)%string l = bool_decide (x ∈ l).
Proof.
  induction l as [|y l IH]; [done|]. simpl. rewrite IH. destruct (String.eqb_spec y x) as [->|Hne]; simpl.
  - by rewrite bool_decide_true by set_solver.
  - repeat case_bool_decide; set_solver.
Qed.

(** [byNamespace], of pointers. *)
Abbreviation IndexMem := (gmap string (gmap string Loc)).

Section Edits.
Context `{HM : MetaV1}.
(** The spare capacity the runtime adds to an array it moves. *)
Context (spare : nat → nat).

(** The built-in [append]. *)
Definition append (s : option Slice) (x : string) : M Mem (option Slice) :=
  match s with
  | None => let! a := new ([x] ++ replicate (spare 0) "") in mret (Some {| sl_arr := a; sl_len := 1 |})
  | Some s =>
      let! l := load (sl_arr s) in
      if (sl_len s <? length l)%nat then
        store (sl_arr s) (<[sl_len s := x]> l) ;;! mret (Some {| sl_arr := sl_arr s; sl_len := S (sl_len s) |})
      else
        let! a := new (take (sl_len s) l ++ [x] ++ replicate (spare (sl_len s)) "") in
        mret (Some {| sl_arr := a; sl_len := S (sl_len s) |})
  end.

Definition range_strings (s : option Slice) : M Mem (list string) :=
  match s with None => mret [] | Some s => let! l := load (sl_arr s) in mret (take (sl_len s) l) end.

Definition appendUnique_mem (ips : option Slice) (ip : string) : M Mem (option Slice) :=
  let! existing := range_strings ips in
  if existsb (λ x, x =? ip)%string existing then mret ips else append ips ip.

(** ** What applyPolicy does to [latest] *)

(** [latest.Status = f(latest.Status)], field by field. *)
Definition edit_status (latest : Loc) (f : StatusMem → StatusMem) : M Mem unit :=
  let! p := load latest in
  store latest {| py_Meta := py_Meta p; py_Spec := py_Spec p; py_Status := f (py_Status p) |}.

Definition mem_score (x : string) (s : StatusMem) : StatusMem :=
  {| tm_Phase := tm_Phase s; tm_ObservedThreatScore := x; tm_LastMitigationTime := tm_LastMitigationTime s;
     tm_BlockedSourceIPs := tm_BlockedSourceIPs s; tm_BlockedTunnels := tm_BlockedTunnels s; tm_Conditions := tm_Conditions s |}.
Definition mem_phase (x : PolicyPhase) (s : StatusMem) : StatusMem :=
  {| tm_Phase := x; tm_ObservedThreatScore := tm_ObservedThreatScore s; tm_LastMitigationTime := tm_LastMitigationTime s;
     tm_BlockedSourceIPs := tm_BlockedSourceIPs s; tm_BlockedTunnels := tm_BlockedTunnels s; tm_Conditions := tm_Conditions s |}.
Definition mem_time (x : option Loc) (s : StatusMem) : StatusMem :=
  {| tm_Phase := tm_Phase s; tm_ObservedThreatScore := tm_ObservedThreatScore s; tm_LastMitigationTime := x;
     tm_BlockedSourceIPs := tm_BlockedSourceIPs s; tm_BlockedTunnels := tm_BlockedTunnels s; tm_Conditions := tm_Conditions s |}.
Definition mem_ips (x : option Slice) (s : StatusMem) : StatusMem :=
  {| tm_Phase := tm_Phase s; tm_ObservedThreatScore := tm_ObservedThreatScore s; tm_LastMitigationTime := tm_LastMitigationTime s;
     tm_BlockedSourceIPs := x; tm_BlockedTunnels := tm_BlockedTunnels s; tm_Conditions := tm_Conditions s |}.
Definition mem_tunnels (x : option Slice) (s : StatusMem) : StatusMem :=
  {| tm_Phase := tm_Phase s; tm_ObservedThreatScore := tm_ObservedThreatScore s; tm_LastMitigationTime := tm_LastMitigationTime s;
     tm_BlockedSourceIPs := tm_BlockedSourceIPs s; tm_BlockedTunnels := x; tm_Conditions := tm_Conditions s |}.

(** The branch [applyPolicy] takes: below the threshold; above it with the
    action withheld; above it with what is to be blocked and the time. *)
Inductive Verdict := Benign | Withheld | Mitigate (blockTunnel blockSource : bool) (now : Time).

Definition record_tunnel (latest : Loc) (event : ThreatScoreEvent) : M Mem unit :=
  let! p := load latest in
  let! tunnels := appendUnique_mem (tm_BlockedTunnels (py_Status p)) (formatTunnel (ts_SourceIP event) (ts_TEID event)) in
  edit_status latest (mem_tunnels tunnels).
Definition record_source (latest : Loc) (event : ThreatScoreEvent) : M Mem unit :=
  let! p := load latest in
  let! ips := appendUnique_mem (tm_BlockedSourceIPs (py_Status p)) (ts_SourceIP event) in
  edit_status latest (mem_ips ips).

Definition edit_latest (latest : Loc) (event : ThreatScoreEvent) (verdict : Verdict) : M Mem unit :=
  edit_status latest (mem_score (format_fixed4 (ts_Score event))) ;;!
  match verdict with
  | Benign =>
      let! p := load latest in
      if negb (bool_decide (tm_Phase (py_Status p) = PolicyPhaseMitigating))
      then edit_status latest (mem_phase PolicyPhaseMonitoring) else mret tt
  | Withheld => edit_status latest (mem_phase PolicyPhaseAlerting)
  | Mitigate blockTunnel blockSource now =>
      (if blockTunnel then record_tunnel latest event else mret tt) ;;!
      (if blockSource then record_source latest event else mret tt) ;;!
      let! t := new now in
      edit_status latest (mem_phase PolicyPhaseMitigating) ;;!
      edit_status latest (mem_time (Some t))
  end.

Definition make_latest (policy : Loc) (event : ThreatScoreEvent) (verdict : Verdict) : M Mem Loc :=
  let! latest := Policy_DeepCopy policy in
  edit_latest latest event verdict ;;! mret latest.

(** The status on values, as [applyPolicy] and [mitigate] of [Watcher] have it. *)
Definition verdict_status (policy : TelecomSecurityPolicy) (event : ThreatScoreEvent) (verdict : Verdict) : TelecomSecurityPolicyStatus :=
  let latest := with_score (format_fixed4 (ts_Score event)) (pol_Status policy) in
  match verdict with
  | Benign => if negb (bool_decide (st_Phase latest = PolicyPhaseMitigating)) then with_phase PolicyPhaseMonitoring latest else latest
  | Withheld => with_phase PolicyPhaseAlerting latest
  | Mitigate blockTunnel blockSource now => intent_status policy event blockTunnel blockSource now
  end.

(** ** The index *)

Definition Put_mem (policy : Loc) (idx : IndexMem) : M Mem IndexMem :=
  let! p := load policy in
  let byName := match idx !! mm_Namespace (py_Meta p) with Some m => m | None => ∅ end in
  let! cached := Policy_DeepCopy policy in
  mret (<[mm_Namespace (py_Meta p) := <[mm_Name (py_Meta p) := cached]> byName]> idx).

(** The index in memory stands for an index of values. *)
Definition names_rep (m : gmap string Loc) (pm : gmap string TelecomSecurityPolicy) (σ : Mem) : Prop :=
  map_Forall2 (λ (_ : string) l p, den_policy_at σ l = Some p) m pm.
Definition index_rep (idx : IndexMem) (pidx : PolicyIndex) (σ : Mem) : Prop :=
  map_Forall2 (λ (_ : string) m pm, names_rep m pm σ) idx pidx.

#[export] Instance index_rep_mono idx pidx : Mono (index_rep idx pidx).
Proof using Type.
  intros o o' Hs Hr. eapply map_Forall2_impl; [exact Hr|]. intros ns m pm Hm.
  eapply map_Forall2_impl; [exact Hm|]. intros n l p. by apply den_mono.
Qed.

(** ** The edits on values *)

Context `{HS : !MetaV1Spec}.

Definition with_status (f : StatusMem → StatusMem) (p : PolicyMem) : PolicyMem :=
  {| py_Meta := py_Meta p; py_Spec := py_Spec p; py_Status := f (py_Status p) |}.

Lemma den_policy_status o p v : den_policy o p = Some v →
  den_status o (py_Status p) = Some (pol_Status v) ∧
  ∀ f st, den_status o (f (py_Status p)) = Some st → den_policy o (with_status f p) = Some (set_status v st).
Proof using Type.
  intros Hv. unfold den_policy in Hv. den_inv Hv. simplify_eq. split; [done|]. intros f st Hst.
  unfold den_policy. simpl. rewrite E. simpl. rewrite E0. simpl. by rewrite Hst.
Qed.

(** Overwriting a struct leaves the data of the memory alone. *)
Lemma struct_store_keeps o l (p q : PolicyMem) : den_cell o l = Some p → keeps o (<[l := in_cell q]> o).
Proof using Type.
  intros (c & Hc & Hp)%bind_Some l' c' Hl' Hs. destruct (decide (l = l')) as [->|]; [|by rewrite lookup_insert_ne].
  destruct c; simplify_eq/=. 
Qed.

Lemma run_edit σ v l p f st G : Data G →
  (∀ o, G o → den_status o (py_Status p) = Some (pol_Status v) → den_status o (f (py_Status p)) = Some st) →
  run_in σ (λ o, holds v l p o ∧ G o) (edit_status l f) (λ _ o, holds (set_status v st) l (with_status f p) o ∧ G o).
Proof using Type.
  intros HG Hf. eapply run_load_own; [by intros o [[Hp _] _]|]. apply run_store. intros o [[Hp Hv] Go].
  pose proof (struct_store_keeps o l p (with_status f p) Hp) as Hk.
  apply bind_Some in Hp as (c & Hc & Hcp). split; [by eexists|]. split; [split|].
  - unfold den_cell. rewrite lookup_insert_eq. apply (of_in_cell (X := PolicyMem)).
  - apply (den_keeps _ _ _ _ Hk). apply den_policy_status in Hv as [Hst Hset]. auto.
  - by apply (HG o).
Qed.

Lemma mapM_value (σ : Mem) (l : list string) : mapM (den_value σ) l = Some l.
Proof using Type. induction l as [|x l IH]; [done|]. simpl. by rewrite IH. Qed.

(** A list in an array longer than it, and one in an array of its own length. *)
Lemma den_strings_prefix o a (l k : list string) : den_cell o a = Some (l ++ k) →
  den_strings o (Some {| sl_arr := a; sl_len := length l |}) = Some l.
Proof using Type.
  intros Ha. simpl. unfold den_slice. simpl. rewrite Ha. simpl. rewrite decide_True by (rewrite length_app; lia).
  rewrite take_app_length. apply mapM_value.
Qed.

Lemma full_den o s l : den_strings o (Some s) = Some l → full (X := string) o (Some s) →
  den_cell o (sl_arr s) = Some l ∧ sl_len s = length l.
Proof using Type.
  simpl. intros Hd (k & Hk & Hlen). unfold den_slice in Hd. rewrite Hk in Hd. simpl in Hd.
  rewrite decide_True, take_ge, mapM_value in Hd by lia. by simplify_eq.
Qed.

Lemma append_spec σ s x l G : Mono G →
  run_in σ (λ o, den_strings o s = Some l ∧ full (X := string) o s ∧ G o) (append s x)
    (λ s' o, den_strings o s' = Some (l ++ [x]) ∧ G o).
Proof using Type.
  intros HG. destruct s as [s|].
  - intros o Hdis (Hd & Hf & Ho). destruct (full_den o s l Hd Hf) as [Ha Hlen]. unfold append.
    apply (run_load_own σ (λ o, den_cell o (sl_arr s) = Some l ∧ G o) (sl_arr s) l); [by intros ? []| |done|done].
    rewrite Hlen, Nat.ltb_irrefl, take_ge by lia.
    eapply run_bind; [by apply run_new, _|]. intros a. apply run_ret. intros o' [[_ Ho'] Ha'].
    split; [|done]. rewrite app_assoc in Ha'.
    replace (S (length l)) with (length (l ++ [x])) by (rewrite length_app; simpl; lia). by eapply den_strings_prefix.
  - intros o Hdis (Hl & _ & Ho). injection Hl as <-. revert o Hdis Ho.
    change (run_in σ G (append None x) (λ s' o, den_strings o s' = Some ([] ++ [x]) ∧ G o)).
    eapply run_bind; [by apply run_new|]. intros a. apply run_ret. intros o [Ho Ha].
    split; [|done]. by apply (den_strings_prefix _ _ [x]) in Ha.
Qed.

Lemma appendUnique_mem_spec σ s x l G : Mono G →
  run_in σ (λ o, den_strings o s = Some l ∧ full (X := string) o s ∧ G o) (appendUnique_mem s x)
    (λ s' o, den_strings o s' = Some (appendUnique l x) ∧ G o).
Proof using Type.
  intros HG. unfold appendUnique_mem.
  apply (run_bind _ _ _ _ (λ r o, r = l ∧ den_strings o s = Some l ∧ full (X := string) o s ∧ G o)).
  - destruct s as [s|]; [|apply run_ret; intros o (Hd & Hf & Ho); by simplify_eq/=].
    intros o Hdis (Hd & Hf & Ho). destruct (full_den o s l Hd Hf) as [Ha Hlen]. simpl.
    apply (run_load_own σ (λ o', o' = o) (sl_arr s) l); [by intros ? ->| |done|done].
    apply run_ret. intros ? ->. rewrite take_ge by lia. done.
  - intros r o Hdis (-> & HP). rewrite existsb_mem, appendUnique_eq. case_bool_decide.
    + exists s, o. destruct HP as (? & ? & ?). done.
    + by apply append_spec.
Qed.

(** Each field edit on memory is the edit on values. *)
Lemma den_status_lists o s st : den_status o s = Some st →
  den_strings o (tm_BlockedSourceIPs s) = Some (st_BlockedSourceIPs st) ∧
  den_strings o (tm_BlockedTunnels s) = Some (st_BlockedTunnels st).
Proof using Type. intros Hs. unfold den_status in Hs. den_inv Hs. by simplify_eq/=. Qed.

Lemma den_status_edits o s st : den_status o s = Some st →
  (∀ x, den_status o (mem_score x s) = Some (with_score x st)) ∧
  (∀ x, den_status o (mem_phase x s) = Some (with_phase x st)) ∧
  (∀ l t, den_cell o l = Some t → den_status o (mem_time (Some l) s) = Some (with_mitigation_time (Some t) st)) ∧
  (∀ x k, den_strings o x = Some k → den_status o (mem_ips x s) = Some (with_ips k st)) ∧
  (∀ x k, den_strings o x = Some k → den_status o (mem_tunnels x s) = Some (with_tunnels k st)).
Proof using Type.
  intros Hs. unfold den_status in Hs. den_inv Hs. simplify_eq.
  repeat split; intros; unfold den_status; cbn [mem_score mem_phase mem_time mem_ips mem_tunnels tm_Phase tm_ObservedThreatScore
    tm_LastMitigationTime tm_BlockedSourceIPs tm_BlockedTunnels tm_Conditions den_ptr];
    repeat match goal with H : ?a = Some _ |- context [?a] => rewrite H; clear H; cbn [mbind option_bind fmap option_fmap option_map] end; done.
Qed.

(** The status lists of a struct held. *)
Lemma holds_lists v l p o : holds v l p o →
  den_strings o (tm_BlockedSourceIPs (py_Status p)) = Some (st_BlockedSourceIPs (pol_Status v)) ∧
  den_strings o (tm_BlockedTunnels (py_Status p)) = Some (st_BlockedTunnels (pol_Status v)).
Proof using Type. intros [_ [Hst _]%den_policy_status]. by apply den_status_lists. Qed.

(** Recording one more entry in a list of the status, for either list. *)
Lemma record_spec σ v l p x (get : StatusMem → option Slice) put (getv : TelecomSecurityPolicyStatus → list string) putv G : Data G →
  (∀ o, holds v l p o → den_strings o (get (py_Status p)) = Some (getv (pol_Status v))) →
  (∀ o s st t k, den_status o s = Some st → den_strings o t = Some k → den_status o (put t s) = Some (putv k st)) →
  run_in σ (λ o, holds v l p o ∧ full (X := string) o (get (py_Status p)) ∧ G o)
    (let! p := load l in let! t := appendUnique_mem (get (py_Status p)) x in edit_status l (put t))
    (λ _ o, ∃ t, holds (set_status v (putv (appendUnique (getv (pol_Status v)) x) (pol_Status v))) l (with_status (put t) p) o ∧ G o).
Proof using Type.
  intros HG Hget Hput. eapply run_load_own; [by intros o [[Hp _] _]|].
  eapply run_bind.
  { eapply run_weaken; [apply (appendUnique_mem_spec σ (get (py_Status p)) x (getv (pol_Status v)) (λ o, holds v l p o ∧ G o)), _| |].
    - intros o (Hh & Hf & Ho). auto.
    - intros s' o Hq. exact Hq. }
  intros t. eapply run_weaken; [eapply (run_edit σ v l p (put t) _
    (λ o, den_strings o t = Some (appendUnique (getv (pol_Status v)) x) ∧ G o)); [apply _|]| |].
  - intros o [Ht _] Hst. by apply Hput.
  - by intros o (Ht & Hh & Ho).
  - intros _ o (Hh & _ & Ho). by exists t.
Qed.

Lemma run_edit_last σ v l p f st G : Data G →
  (∀ o, G o → den_status o (py_Status p) = Some (pol_Status v) → den_status o (f (py_Status p)) = Some st) →
  run_in σ (λ o, holds v l p o ∧ G o) (edit_status l f) (λ _ o, ∃ p, holds (set_status v st) l p o).
Proof using Type.
  intros HG Hf. eapply run_weaken; [by eapply (run_edit σ v l p f st G)|done|]. intros _ o [Hh _]. by eexists.
Qed.

Lemma holds_phase v l p o : holds v l p o → tm_Phase (py_Status p) = st_Phase (pol_Status v).
Proof using Type.
  intros [_ [Hst _]%den_policy_status]. unfold den_status in Hst. den_inv Hst. by injection Hst as <-.
Qed.

Lemma edit_benign σ v l p :
  run_in σ (λ o, holds v l p o ∧ True)
    (let! p := load l in
     if negb (bool_decide (tm_Phase (py_Status p) = PolicyPhaseMitigating))
     then edit_status l (mem_phase PolicyPhaseMonitoring) else mret tt)
    (λ _ o, ∃ p, holds (set_status v (if negb (bool_decide (st_Phase (pol_Status v) = PolicyPhaseMitigating))
                                      then with_phase PolicyPhaseMonitoring (pol_Status v) else pol_Status v)) l p o).
Proof using Type.
  eapply run_load_own; [by intros o [[Hp _] _]|]. intros o Hd Ho. pose proof (holds_phase _ _ _ _ (proj1 Ho)) as ->.
  case_bool_decide; simpl.
  - exists tt, o. split; [done|]. split; [done|]. exists p. destruct Ho. by destruct v.
  - revert o Hd Ho. apply run_edit_last; [apply _|]. intros o _ Hst. by apply den_status_edits.
Qed.

Lemma edit_mitigate σ v l p ev (bt bs : bool) (t : Time) :
  run_in σ (λ o, holds v l p o ∧ full_status o (py_Status p))
    ((if bt then record_tunnel l ev else mret tt) ;;!
     (if bs then record_source l ev else mret tt) ;;!
     let! now := new t in
     edit_status l (mem_phase PolicyPhaseMitigating) ;;! edit_status l (mem_time (Some now)))
    (λ _ o, ∃ p, holds (set_status v
      (with_mitigation_time (Some t) (with_phase PolicyPhaseMitigating
        (let s1 := if (bt : bool) then with_tunnels (appendUnique (st_BlockedTunnels (pol_Status v))
                                (formatTunnel (ts_SourceIP ev) (ts_TEID ev))) (pol_Status v) else pol_Status v in
         if (bs : bool) then with_ips (appendUnique (st_BlockedSourceIPs s1) (ts_SourceIP ev)) s1 else s1)))) l p o).
Proof using Type.
  set (s1 := if bt then with_tunnels _ _ else _).
  apply (run_bind _ _ _ _ (λ _ o, ∃ p, holds (set_status v s1) l p o ∧ full (X := string) o (tm_BlockedSourceIPs (py_Status p)) ∧ True)).
  { destruct bt.
    - eapply run_weaken; [apply (record_spec σ v l p _ _ _ st_BlockedTunnels with_tunnels
        (λ o, full (X := string) o (tm_BlockedSourceIPs (py_Status p)))); [apply _| |]| |].
      + intros o Hh. by apply (holds_lists v l p).
      + intros o s st x k Hst Hx. by apply (den_status_edits _ _ _ Hst).
      + intros o (Hh & Hi & Ht). done.
      + intros _ o (x & Hh & Hi). by eexists.
    - apply run_ret. intros o (Hh & Hi & _). exists p. split; [|done]. by destruct v. }
  intros _. apply run_exists. intros p1. simpl. set (s2 := if bs then with_ips _ _ else _).
  apply (run_bind _ _ _ _ (λ _ o, ∃ p, holds (set_status v s2) l p o ∧ True)).
  { destruct bs.
    - eapply run_weaken; [apply (record_spec σ (set_status v s1) l p1 _ _ _ st_BlockedSourceIPs with_ips (λ _, True)); [apply _| |]| |].
      + intros o Hh. by apply (holds_lists _ l p1).
      + intros o s st x k Hst Hx. by apply (den_status_edits _ _ _ Hst).
      + done.
      + intros _ o (x & Hh & _). by eexists.
    - apply run_ret. intros o (Hh & _). by exists p1. }
  intros _. apply run_exists. intros p2.
  eapply run_bind; [by apply run_new, _|]. intros a. simpl.
  apply (run_bind _ _ _ _ (λ _ o, holds (set_status v (with_phase PolicyPhaseMitigating s2)) l
    (with_status (mem_phase PolicyPhaseMitigating) p2) o ∧ den_cell o a = Some t)).
  - eapply run_weaken; [eapply (run_edit σ (set_status v s2) l p2 _ _ (λ o, den_cell o a = Some t)); [apply _|]| |].
    + intros o _ Hst. by apply den_status_edits.
    + by intros o [[Hh _] Ha].
    + done.
  - intros _. eapply run_weaken; [eapply (run_edit_last σ (set_status v (with_phase PolicyPhaseMitigating s2)) l
      (with_status (mem_phase PolicyPhaseMitigating) p2) _ _ (λ o, den_cell o a = Some t)); [apply _|]| |].
    + intros o Ha Hst. by apply (den_status_edits _ _ _ Hst).
    + done.
    + done.
Qed.

(** What [latest] ends up as, on each branch. *)
Lemma edit_latest_spec σ v l ev verdict :
  run_in σ (owned v l) (edit_latest l ev verdict)
    (λ _ o, ∃ p, holds (set_status v (verdict_status v ev verdict)) l p o).
Proof using Type.
  apply run_exists. intros p. unfold edit_latest.
  set (v1 := set_status v (with_score (format_fixed4 (ts_Score ev)) (pol_Status v))).
  set (p1 := with_status (mem_score (format_fixed4 (ts_Score ev))) p).
  apply (run_bind _ _ _ _ (λ _ o, holds v1 l p1 o ∧ full_status o (py_Status p1))).
  { eapply run_weaken; [eapply (run_edit σ v l p _ _ (λ o, full_status o (py_Status p))); [apply _|]| |].
    - intros o _ Hst. by apply den_status_edits.
    - done.
    - by intros _ o [Hh Hf]. }
  intros _. destruct verdict as [| |bt bs t].
  - eapply run_weaken; [apply (edit_benign σ v1 l p1)|by intros o [Hh _]|done].
  - eapply run_weaken; [apply (run_edit_last σ v1 l p1 _ (with_phase PolicyPhaseAlerting (pol_Status v1)) (λ _, True)); [apply _|]| |].
    + intros o _ Hst. by apply den_status_edits.
    + by intros o [Hh _].
    + done.
  - apply (edit_mitigate σ v1 l p1).
Qed.

Lemma make_latest_spec σ policy v ev verdict : den_policy_at σ policy = Some v →
  run_in σ (λ _, True) (make_latest policy ev verdict)
    (λ latest o, den_policy_at o latest = Some (set_status v (verdict_status v ev verdict))).
Proof using HS.
  intros Hv. eapply run_bind; [by apply (policy_at_copied σ policy v (λ _, True))|]. intros l.
  eapply run_bind; [eapply run_weaken; [apply (edit_latest_spec σ v l ev verdict)|by intros o []|]|].
  { intros x o Hp. exact Hp. }
  intros []. apply run_ret. intros o (p & Hp & Hd). unfold den_policy_at. by rewrite Hp.
Qed.

Lemma den_policy_key o p v : den_policy o p = Some v →
  mm_Namespace (py_Meta p) = pol_Namespace v ∧ mm_Name (py_Meta p) = pol_Name v.
Proof using Type.
  intros Hv. unfold den_policy, den_meta in Hv. den_inv Hv. den_inv E. by simplify_eq/=.
Qed.

Lemma index_rep_insert idx pidx v l o : index_rep idx pidx o → den_policy_at o l = Some v →
  index_rep (<[pol_Namespace v := <[pol_Name v := l]> (match idx !! pol_Namespace v with Some m => m | None => ∅ end)]> idx)
    (PolicyIndex_Put v pidx) o.
Proof using Type.
  intros Hr Hl. unfold PolicyIndex_Put, index_rep. apply map_Forall2_insert_2; [|done].
  apply map_Forall2_insert_2; [done|]. specialize (Hr (pol_Namespace v)).
  inversion Hr as [m pm Hm E1 E2|E1 E2]; [exact Hm|apply map_Forall2_empty].
Qed.

Lemma Put_mem_spec σ l v idx pidx : den_policy_at σ l = Some v →
  run_in σ (index_rep idx pidx) (Put_mem l idx) (λ idx' o, index_rep idx' (PolicyIndex_Put v pidx) o).
Proof using HS.
  intros Hv. pose proof Hv as (p & Hp & Hd)%bind_Some. destruct (den_policy_key _ _ _ Hd) as [Hns Hn].
  eapply run_load; [exact Hp|]. rewrite Hns, Hn.
  eapply run_bind; [by apply (policy_at_copied σ l v (index_rep idx pidx)), Hv; apply _|].
  intros l'. apply run_ret. intros o [Hr Ho]. apply index_rep_insert; [done|]. by apply owned_den.
Qed.

(** C13: Editing a policy for a score never reaches the cache. [MatchingPolicies]
    hands out the index's own pointer; on every branch [applyPolicy] edits a copy,
    appending to its lists in place, and what it ends up with stands for exactly
    the status of the value-level model, in cells of its own: the cached policies
    and everything else in memory stand for what they did, whatever is written to
    those cells later. And [Put] stores a copy: the index stands for the value-level
    index with that policy in it, whatever is done to the caller's object. *)
Theorem score_edit_isolated σ idx pidx policy v :
  index_rep idx pidx σ → den_policy_at σ policy = Some v →
  (∀ event verdict, ∃ latest o, make_latest policy event verdict σ = (Ok latest, σ ∪ o) ∧ σ ##ₘ o ∧
    den_policy_at (σ ∪ o) latest = Some (set_status v (verdict_status v event verdict)) ∧
    ∀ o', σ ##ₘ o' → index_rep idx pidx (σ ∪ o') ∧ den_policy_at (σ ∪ o') policy = Some v) ∧
  (∀ caller latest w, caller ##ₘ σ → den_policy_at caller latest = Some w →
    ∃ idx' o, Put_mem latest idx (caller ∪ σ) = (Ok idx', caller ∪ o) ∧ caller ##ₘ o ∧
      ∀ caller', caller' ##ₘ o → index_rep idx' (PolicyIndex_Put w pidx) (caller' ∪ o)).
Proof using HS.
  intros Hr Hv. split.
  - intros ev verdict. destruct (make_latest_spec σ policy v ev verdict Hv ∅) as (latest & o & E & Hd & Hl);
      [by apply map_disjoint_empty_r|done|]. rewrite map_union_empty in E. exists latest, o. split; [done|]. split; [done|].
    split; [eapply den_mono; [by apply map_union_subseteq_r|done]|].
    intros o' Hd'. split; [|eapply den_mono; [|done]]; [eapply mono; [|done]|]; by apply map_union_subseteq_l.
  - intros caller latest w Hd Hw. destruct (Put_mem_spec caller latest w idx pidx Hw σ) as (idx' & o & E & Hd' & Hi); [done|done|].
    exists idx', o. split; [done|]. split; [done|]. intros caller' Hc.
    eapply (index_rep_mono idx' _ o); [by apply map_union_subseteq_r|done].
Qed.
End Edits.

(** ** The theorem at work, and why the copy matters *)

Module AliasingSample.
Import MemorySample.

Definition score : ThreatScoreEvent := {|
  ts_SourceEventID := "e1"; ts_Namespace := "core"; ts_PodName := "upf-0"; ts_SourceIP := "10.0.0.66"; ts_TEID := 7;
  ts_Score := f64_one; ts_Model := "rule:gtpu-tunnel-flood"; ts_DetectedAt := 0 |}%Z.
Definition idx : IndexMem := {["core" := {["upf" := 0%nat]}]}.
Definition pidx : PolicyIndex := {["core" := {["upf" := value]}]}.
Definition doubling (n : nat) : nat := n.
Definition verdict : Verdict := Mitigate true true 90%Z.

Lemma idx_rep : index_rep idx pidx mem.
Proof. apply map_Forall2_singleton, map_Forall2_singleton. apply mem_holds. Qed.

Lemma score_edit_isolated_witness :
  st_BlockedSourceIPs (verdict_status value score verdict) = ["10.0.0.9"; "10.0.0.66"] ∧
  ∃ latest o, make_latest doubling 0 score verdict mem = (Ok latest, mem ∪ o) ∧
    den_policy_at (mem ∪ o) latest = Some (set_status value (verdict_status value score verdict)) ∧
    index_rep idx pidx (mem ∪ o).
Proof.
  split; [vm_compute; reflexivity|].
  destruct (score_edit_isolated doubling mem idx pidx 0%nat value idx_rep mem_holds) as [He _].
  destruct (He score verdict) as (latest & o & E & Hd & Hl & Hk). exists latest, o.
  split; [exact E|]. split; [exact Hl|]. exact (proj1 (Hk o Hd)).
Defined.

(** Two appends to one slice with spare capacity write the same element: the
    list the first returned ends in what the second wrote. *)
Example shared_append_clobbers :
  let s := Some {| sl_arr := 3; sl_len := 1 |}%nat in
  match append doubling s "10.0.0.66" mem with
  | (Ok s1, m1) => den_strings (append doubling s "10.0.0.7" m1).2 s1 = Some ["10.0.0.9"; "10.0.0.7"]
  | _ => False
  end.
Proof. vm_compute. reflexivity. Qed.
End AliasingSample.
