(* ===== verification/Messaging.v ===== *)
(** * Messaging: publishing, subscribing and the watcher's start
    (pkg/events/nats.go, threat_score_watcher.go)

    The publish and subscribe methods of the Bus over JetStream, the calls of
    the Publisher carried out on it, and [ThreatScoreWatcher.Start] as a whole:
    the index is filled before the subscription that lets buffered scores in.
    JetStream and the JSON encoding are outside the source: the classes
    [JetStream] and [Json], with what is relied on in [JetStreamSpec] and
    [JsonSpec]. *)

From S2P Require Import Prelude GoStrings GoFloat NetIP Events Api Blocklist Loader PolicyIndex KillSwitch ReactorLimiter ScoringPipeline Metrics Ingestion World Bus Decision Watcher SampleWorld WatcherProofs.

Local Open Scope Z_scope.
Local Open Scope go_scope.

Definition bytes : Type := list Z.

(** encoding/json on the message types; a value may have no encoding (a score
    that is not a number). *)
Class Json := {
  Marshal_event : NormalizedEvent → result bytes;
  Marshal_batch : list NormalizedEvent → result bytes;
  Marshal_score : ThreatScoreEvent → result bytes;
  Unmarshal_score : bytes → result ThreatScoreEvent
}.

Class JsonSpec `{Json} := {
  score_roundtrip e b : Marshal_score e = Ok b → Unmarshal_score b = Ok e
}.

Record SubOptions := { so_Durable : string; so_ManualAck : bool; so_MaxDeliver : Z }.

(** [js.Publish], [js.Subscribe], [sub.Unsubscribe] and [conn.Drain], on a
    connection and a subscription known by their handles. *)
Class JetStream (N : Type) := {
  js_Publish : nat → string → bytes → N → error * N;
  js_Subscribe : nat → string → SubOptions → N → result nat * N;
  js_Unsubscribe : nat → N → error * N;
  nats_Drain : nat → N → error * N
}.

Class JetStreamSpec (N : Type) `{JetStream N} := {
  messages : N → list (string * bytes);
  subs : N → gset nat;

  js_Publish_ok c s b n n' : js_Publish c s b n = (None, n') → messages n' = messages n ++ [(s, b)] ∧ subs n' = subs n;
  (* a failed publish may have reached the stream: only its acknowledgement is missing *)
  js_Publish_err c s b n e n' : js_Publish c s b n = (Some e, n') →
    messages n' = messages n ∨ messages n' = messages n ++ [(s, b)];
  js_Subscribe_ok c s o n i n' : js_Subscribe c s o n = (Ok i, n') → i ∉ subs n ∧ subs n' = {[i]} ∪ subs n;
  js_Subscribe_err c s o n e n' : js_Subscribe c s o n = (Fail e, n') → subs n' = subs n;
  js_Unsubscribe_subs i n e n' : js_Unsubscribe i n = (e, n') → subs n' = subs n ∖ {[i]}
}.

Section Bus.
Context {N : Type} `{JetStream N} `{Json}.

(** The two steps every publish method has. *)
Definition publish_payload (marshalMsg publishMsg : string) (bus : nat) (subject : string)
    (encoded : result bytes) : M N unit :=
  match encoded with
  | Fail err => mfail (Wrap marshalMsg [err])
  | Ok payload =>
      mtry (mact (js_Publish bus subject payload)) (λ r,
        match r with Ok _ => mret tt | Fail err => mfail (Wrap (publishMsg +:+ subject) [err]) end)
  end.

Definition Bus_PublishNormalizedEvent (bus : nat) (subject : string) (event : NormalizedEvent) : M N unit :=
  publish_payload "marshal normalized event" "publish normalized event to " bus subject (Marshal_event event).

(** An empty batch publishes nothing. *)
Definition Bus_PublishNormalizedEventBatch (bus : nat) (subject : string) (batch : list NormalizedEvent) : M N unit :=
  match batch with
  | [] => mret tt
  | _ => publish_payload "marshal normalized event batch" "publish normalized event batch to " bus subject (Marshal_batch batch)
  end.

Definition Bus_PublishThreatScore (bus : nat) (subject : string) (event : ThreatScoreEvent) : M N unit :=
  publish_payload "marshal threat score event" "publish threat score to " bus subject (Marshal_score event).

(** [SubscribeThreatScores] returns the subscription, whose callback is
    [on_message] of the decoded payload. *)
Definition Bus_SubscribeThreatScores (bus : nat) (subject durable : string) : M N nat :=
  mtry (js_Subscribe bus subject
    {| so_Durable := durable; so_ManualAck := true; so_MaxDeliver := maxThreatScoreDeliveries |}) (λ r,
    match r with Ok sub => mret sub | Fail err => mfail (Wrap ("subscribe to " +:+ subject) [err]) end).

(** [Close]; a Bus without a connection does nothing. *)
Definition Bus_Close (conn : option nat) (n : N) : N :=
  match conn with Some c => (nats_Drain c n).2 | None => n end.

(** A call the Publisher makes; its error is only logged. *)
Definition perform (bus : nat) (c : BusCall) : M N unit :=
  mtry (match c with
        | PublishThreatScore subject score => Bus_PublishThreatScore bus subject score
        | PublishNormalizedEvent subject evt => Bus_PublishNormalizedEvent bus subject evt
        | PublishNormalizedEventBatch subject batch => Bus_PublishNormalizedEventBatch bus subject batch
        end) (λ _, mret tt).
End Bus.

(** A publish that reports success has put exactly one message on the stream;
    a score among them reaches the callback as the score that was published. *)
Section Publishing.
Context {N : Type} `{HJ : JetStream N, HJS : !JetStreamSpec N} `{HE : Json, HES : !JsonSpec}.

Lemma publish_payload_ok m1 m2 bus subject enc (n n' : N) : publish_payload m1 m2 bus subject enc n = (Ok tt, n') →
  ∃ b, enc = Ok b ∧ messages n' = messages n ++ [(subject, b)].
Proof using Type.
  unfold publish_payload. destruct enc as [b|e]; [|done]. unfold mtry, mact.
  destruct (js_Publish bus subject b n) as [[e|] n1] eqn:E; unfold mret, mfail; intros [= <-]. exists b.
  split; [done|]. by eapply js_Publish_ok.
Qed.

Lemma published_score_arrives {W} bus subject score (n n' : N) (handler : ThreatScoreEvent → M W unit) w :
  Bus_PublishThreatScore bus subject score n = (Ok tt, n') →
  ∃ payload, messages n' = messages n ++ [(subject, payload)] ∧
    on_message (Unmarshal_score payload) handler w = on_message (Ok score) handler w.
Proof using HJS HES.
  intros (b & Hb & Hm)%publish_payload_ok. exists b. split; [done|]. by rewrite (score_roundtrip _ _ Hb).
Qed.
End Publishing.

(** ** ThreatScoreWatcher.Start *)

Section Start.
Context {A B Ms L N : Type}.
Context `{HA : ApiServer A, HAS : !ApiSpec A} `{HB : BlocklistUpdater B, HBS : !BlocklistSpec B}.
Context `{HM : MeshAdapter Ms} `{HL : RateLimiter L} `{HR : RangeOrder}.
Context `{HJ : JetStream N, HJS : !JetStreamSpec N} `{HE : Json}.
Context (clock : nat → Time) (BaseThreshold : f64).

Abbreviation W := (World A B Ms L).

(** A part of the pair of states. *)
Definition on_world {X} (m : M W X) : M (W * N) X := λ s, let '(r, w) := m s.1 in (r, (w, s.2)).
Definition on_bus {X} (m : M N X) : M (W * N) X := λ s, let '(r, n) := m s.2 in (r, (s.1, n)).

(** The deliveries made while the subscription is open. *)
Fixpoint deliveries (payloads : list bytes) (w : W) : list Disposition * W :=
  match payloads with
  | [] => ([], w)
  | p :: ps =>
      let '(d, w1) := on_message (Unmarshal_score p) (handle clock BaseThreshold) w in
      let '(ds, w2) := deliveries ps w1 in (d :: ds, w2)
  end.

(** [Start]: [waited] is what [w.Bus.Wait(ctx)] returned, [payloads] what is
    delivered between the subscription and the end of the context. *)
Definition Watcher_Start (subject : string) (waited : result nat) (payloads : list bytes) : M (W * N) (list Disposition) :=
  on_world (Start_prepare clock) ;;!
  match waited with
  | Fail _ => mret []          (* the context ended first: an ordinary shutdown *)
  | Ok bus =>
      let! sub := mtry (on_bus (Bus_SubscribeThreatScores bus subject "sentinel5g-operator")) (λ r,
        match r with
        | Ok sub => mret sub
        | Fail err => mfail (Wrap ("subscribe to threat scores on " +:+ subject) [err])
        end) in
      let! ds := on_world (λ w, let '(ds, w') := deliveries payloads w in (Ok ds, w')) in
      on_bus (λ n, (Ok tt, (js_Unsubscribe sub n).2)) ;;!
      mret ds
  end.

(** ** The index is complete before the first score *)

Definition warm (items : list TelecomSecurityPolicy) (idx : PolicyIndex) : PolicyIndex :=
  fold_left (λ i p, if negb (deletion_is_zero p) then i else PolicyIndex_Put p i) items idx.

Lemma warm_view items idx k : pi_inv idx → NoDup (pol_key <$> items) →
  pi_inv (warm items idx) ∧
  (∀ p, p ∈ items → pol_key p = k → deletion_is_zero p = true → pi_view (warm items idx) k = Some p) ∧
  (k ∉ (pol_key <$> items) → pi_view (warm items idx) k = pi_view idx k).
Proof using Type.
  revert idx. induction items as [|q items IH]; intros idx HI Hnd; [split; [done|]; split; [set_solver|done]|].
  csimpl in Hnd. apply NoDup_cons in Hnd as [Hq Hnd]. unfold warm. cbn [fold_left].
  set (idx1 := if negb (deletion_is_zero q) then idx else PolicyIndex_Put q idx).
  assert (HI1 : pi_inv idx1) by (subst idx1; case_match; [done|by apply PolicyIndex_Put_inv]).
  destruct (IH idx1 HI1 Hnd) as (HI' & Hin & Hout). fold (warm items idx1). split; [done|]. split.
  - intros p [->|Hp]%elem_of_cons Hk Hl; [|by apply Hin]. rewrite Hout by (by rewrite <- Hk).
    subst idx1. rewrite Hl. simpl. rewrite PolicyIndex_Put_view. by rewrite decide_True.
  - csimpl. intros [Hne Hn]%not_elem_of_cons. rewrite Hout by done. subst idx1. case_match; [done|].
    rewrite PolicyIndex_Put_view. by rewrite decide_False.
Qed.

Lemma mfor_warm items (w : W) :
  mfor items (λ p, if negb (deletion_is_zero p) then mret tt else index_Put p) w =
  (Ok tt, set_index (warm items (w_index w)) w).
Proof using Type.
  revert w. induction items as [|p items IH]; intros w; simpl; [by destruct w|]. unfold mbind.
  unfold warm. simpl.
  destruct (deletion_is_zero p); simpl; [unfold index_Put|unfold mret]; by rewrite IH.
Qed.

Lemma keys_NoDup (P : gmap NamespacedName TelecomSecurityPolicy) : (∀ k p, P !! k = Some p → pol_key p = k) →
  NoDup (pol_key <$> (map_to_list P).*2).
Proof using Type.
  intros Hk. assert (pol_key <$> (map_to_list P).*2 = (map_to_list P).*1) as ->; [|apply NoDup_fst_map_to_list].
  rewrite <- list_fmap_compose. apply list_fmap_ext. intros i [k p] Hi. simpl. apply Hk, elem_of_map_to_list.
  by eapply list_elem_of_lookup_2.
Qed.

(** The cache the policies are listed from has synced. *)
Context `{HAL : !SyncedList A}.

(** Every live policy in etcd is matched from now on. *)
Definition serves_all (w0 w1 : W) : Prop := ∀ labels p,
  api_policies (w_api w0) !! pol_key p = Some p → deletion_is_zero p = true →
  selectorMatches (spec_TargetWorkloads (pol_Spec p)) labels = true →
  p ∈ MatchingPolicies (w_index w1) (pol_Namespace p) labels.

Lemma warmIndex_serves (w w' : W) : pi_inv (w_index w) → warmIndex w = (Ok tt, w') → serves_all w w'.
Proof using HAL.
  intros HI Hrun. unfold warmIndex, mbind, api in Hrun.
  pose proof (ListPolicies_ok (w_api w)) as Hl.
  destruct (api_ListPolicies (w_api w)) as [[items|e] a]; [|done]. specialize (Hl items eq_refl).
  rewrite mfor_warm in Hrun. injection Hrun as <-. intros labels p Hp Hlive Hsel.
  assert (Hnd : NoDup (pol_key <$> items)) by (rewrite Hl; apply keys_NoDup, policies_keyed).
  destruct (warm_view items (w_index w) (pol_key p) HI Hnd) as (HI' & Hin & _).
  apply MatchingPolicies_spec; [exact HI'|]. split; [done|]. split; [|done]. apply Hin; [|done|done].
  rewrite Hl. apply list_elem_of_fmap. exists (pol_key p, p). split; [done|]. by apply elem_of_map_to_list.
Qed.

Lemma Start_prepare_serves (w w' : W) : pi_inv (w_index w) → Start_prepare clock w = (Ok tt, w') → serves_all w w'.
Proof using HAL.
  intros HI Hrun. unfold Start_prepare, mtry in Hrun. destruct (warmIndex w) as [[[]|e] w1] eqn:E; [|done].
  pose proof (warmIndex_serves w w1 HI E) as Hs.
  assert (w_index w' = w_index w1) as Hi.
  { unfold mbind, mget, now, mmodify, mret in Hrun. by destruct (w_scoring w1); simplify_eq. }
  intros labels p. rewrite Hi. apply Hs.
Qed.

(** C19: a restart loses no score. The manager starts the watcher once its
    cache has synced, so the List is complete. The subscription that lets the
    buffered scores in is made only after the index holds every live policy in
    etcd, so
    the first score delivered, like every other, is matched against all of
    them; when the policies cannot be listed nothing is subscribed and [Start]
    fails; the deliveries are exactly the callback's, in order; and the
    subscription never outlives [Start]. *)
Theorem restart_loses_no_score subject waited payloads (w : W) (n : N) r w' n' :
  pi_inv (w_index w) → Watcher_Start subject waited payloads (w, n) = (r, (w', n')) →
  subs n' = subs n ∧
  match Start_prepare clock w with
  | (Fail _, _) => is_Ok r = false ∧ n' = n
  | (Ok _, w1) => serves_all w w1 ∧
      match r, waited with
      | Ok ds, Ok _ => deliveries payloads w1 = (ds, w')
      | Ok ds, Fail _ => ds = [] ∧ w' = w1
      | Fail _, _ => w' = w1
      end
  end.
Proof using HAL.
  intros HI Hrun. unfold Watcher_Start in Hrun. unfold mbind at 1, on_world at 1 in Hrun. simpl in Hrun.
  pose proof (Start_prepare_serves w) as Hserve.
  destruct (Start_prepare clock w) as [[[]|e] w1] eqn:E.
  2:{ injection Hrun as <- <- <-. done. }
  specialize (Hserve w1 HI eq_refl). destruct waited as [bus|e].
  2:{ unfold mret in Hrun. injection Hrun as <- <- <-. done. }
  unfold mbind at 1, mtry at 1, on_bus at 1, Bus_SubscribeThreatScores at 1, mtry at 1 in Hrun. simpl in Hrun.
  destruct (js_Subscribe bus subject _ n) as [[sub|e] n1] eqn:Es.
  2:{ unfold mfail in Hrun. simpl in Hrun. injection Hrun as <- <- <-.
      split; [by eapply js_Subscribe_err|]. done. }
  apply js_Subscribe_ok in Es as [Hnew Hsub]. unfold mret in Hrun. simpl in Hrun.
  unfold mbind, on_world, on_bus in Hrun. simpl in Hrun. destruct (deliveries payloads w1) as [ds w2] eqn:Ed.
  destruct (js_Unsubscribe sub n1) as [e n2] eqn:Eu. simpl in Hrun. rewrite Eu in Hrun. injection Hrun as <- <- <-. split; [|done].
  rewrite (js_Unsubscribe_subs _ _ _ _ Eu), Hsub. set_solver.
Qed.
End Start.

(** ** A concrete stream, and the theorem at work *)

Module MessagingSample.
Import HashMaps WatcherSample.

Record SimJs := { sj_messages : list (string * bytes); sj_subs : gset nat }.

#[export] Instance sim_js : JetStream SimJs := {|
  js_Publish c s b n := (None, {| sj_messages := sj_messages n ++ [(s, b)]; sj_subs := sj_subs n |});
  js_Subscribe c s o n := let i := fresh (sj_subs n) in
    (Ok i, {| sj_messages := sj_messages n; sj_subs := {[i]} ∪ sj_subs n |});
  js_Unsubscribe i n := (None, {| sj_messages := sj_messages n; sj_subs := sj_subs n ∖ {[i]} |});
  nats_Drain c n := (None, n) |}.

#[export] Program Instance sim_js_spec : JetStreamSpec SimJs := {| messages := sj_messages; subs := sj_subs |}.
Next Obligation. intros c s b n n' [= <-]. done. Qed.
Next Obligation. done. Qed.
Next Obligation. intros c s o n i n' [= <- <-]. split; [apply is_fresh|done]. Qed.
Next Obligation. done. Qed.
Next Obligation. intros i n e n' [= <- <-]. done. Qed.

#[local] Instance float_eq_dec : EqDecision f64.
Proof. solve_decision. Defined.
#[local] Instance score_eq_dec : EqDecision ThreatScoreEvent.
Proof. solve_decision. Defined.

(** A codec that knows one score. *)
#[export] Instance one_score : Json := {|
  Marshal_event _ := Ok [123]; Marshal_batch _ := Ok [91];
  Marshal_score e := if decide (e = attack) then Ok [123; 125] else Fail (Errorf "unsupported value");
  Unmarshal_score b := match b with [123; 125] => Ok attack | _ => Fail (Errorf "invalid character") end |}.
#[export] Program Instance one_score_spec : JsonSpec.
Next Obligation. intros e b. simpl. case_decide; [|done]. by intros [= <-]; subst. Qed.

(** A new process with an empty index, and a score that was waiting. *)
Definition fresh_process : SampleWorld := set_index NewPolicyIndex w0.
Definition stream : SimJs := {| sj_messages := [("threats", [123; 125])]; sj_subs := ∅ |}.
Definition started : result (list Disposition) * (SampleWorld * SimJs) :=
  Watcher_Start sample_clock thr "threats" (Ok 0%nat) [[123; 125]] (fresh_process, stream).

Lemma started_acks : started.1 = Ok [Ack].
Proof. vm_compute. reflexivity. Qed.

Lemma restart_loses_no_score_witness :
  subs started.2.2 = ∅ ∧
  match Start_prepare sample_clock fresh_process with
  | (Fail _, _) => is_Ok started.1 = false ∧ started.2.2 = stream
  | (Ok _, w1) => serves_all fresh_process w1 ∧
      match started.1, Ok (A := nat) 0%nat with
      | Ok ds, Ok _ => deliveries sample_clock thr [[123; 125]] w1 = (ds, started.2.1)
      | Ok ds, Fail _ => ds = [] ∧ started.2.1 = w1
      | Fail _, _ => started.2.1 = w1
      end
  end.
Proof.
  refine (restart_loses_no_score sample_clock thr "threats" (Ok 0%nat) [[123; 125]] fresh_process stream
    started.1 started.2.1 started.2.2 empty_pi_inv _).
  unfold started. by destruct (Watcher_Start _ _ _ _ _ _) as [r [w n]].
Defined.
End MessagingSample.
