(* ===== verification/Pipeline.v ===== *)
(** * Pipeline: from the kernel's records to the messages on the stream

    Layer 1 to Layer 2 on one node, composed: the goroutines of SignalingEvents
    ([EventPump]) feed the Publisher's loop ([Ingestion]), whose calls are carried
    out on the bus ([Messaging]). *)

From S2P Require Import Prelude GoStrings GoFloat NetIP Events Api BoundedFifo TunnelFlood SourceFlood Blocklist Wire EventPump PodIPIndex Ingestion Messaging.

Local Open Scope Z_scope.

(** The Publisher's loop and its calls on the bus. *)
Section Pipeline.
Context {N : Type} `{HJ : JetStream N, HJS : !JetStreamSpec N} `{HE : Json}.

Definition Publisher_on_bus (bus : nat) (cfg : PublisherConfig) (l : list PublisherInput) (p : Publisher) (n : N)
    : list BusCall * Publisher * N :=
  let '(calls, p') := Publisher_run cfg l p in (calls, p', (mfor calls (perform bus) n).2).

(** The message a call puts on the stream. *)
Definition carries (c : BusCall) (m : string * bytes) : Prop :=
  match c with
  | PublishThreatScore subject score => ∃ b, Marshal_score score = Ok b ∧ m = (subject, b)
  | PublishNormalizedEvent subject evt => ∃ b, Marshal_event evt = Ok b ∧ m = (subject, b)
  | PublishNormalizedEventBatch subject batch => ∃ b, Marshal_batch batch = Ok b ∧ m = (subject, b)
  end.

(** JetStream acknowledges every publish, and what is published has an encoding. *)
Definition accepts : Prop := ∀ c s b (n : N), (js_Publish c s b n).1 = None.
Definition encodable (c : BusCall) : Prop := ∃ m, carries c m.

Lemma publish_payload_accepted m1 m2 bus subject b (n : N) : accepts →
  ∃ n', publish_payload m1 m2 bus subject (Ok b) n = (Ok tt, n') ∧ messages n' = messages n ++ [(subject, b)].
Proof using Type.
  intros Hacc. unfold publish_payload, mtry, mact. specialize (Hacc bus subject b n).
  destruct (js_Publish bus subject b n) as [e n'] eqn:E. simpl in Hacc. subst e.
  exists n'. split; [done|]. by apply js_Publish_ok in E as [? _].
Qed.

Lemma perform_accepted bus cfg c (n : N) : accepts → encodable c → batch_sized cfg c →
  ∃ m n', perform bus c n = (Ok tt, n') ∧ carries c m ∧ messages n' = messages n ++ [m].
Proof using Type.
  intros Hacc [m Hm] Hb. unfold perform, mtry.
  destruct c as [subject score|subject evt|subject [|e batch]]; simpl in Hm, Hb; [| |simpl in Hb; lia|];
    destruct Hm as (b & Hb' & ->);
    unfold Bus_PublishThreatScore, Bus_PublishNormalizedEvent, Bus_PublishNormalizedEventBatch; rewrite Hb';
    match goal with |- context [publish_payload ?a ?d _ _ _ _] =>
      destruct (publish_payload_accepted a d bus subject b n Hacc) as (n' & -> & Hn) end;
    exists (subject, b), n'; (split; [done|]); (split; [|done]); by exists b.
Qed.

Lemma mfor_perform bus cfg calls (n : N) : accepts → Forall encodable calls → Forall (batch_sized cfg) calls →
  ∃ msgs n', mfor calls (perform bus) n = (Ok tt, n') ∧ Forall2 carries calls msgs ∧ messages n' = messages n ++ msgs.
Proof using Type.
  intros Hacc He. revert n. induction He as [|c calls Hc _ IH]; intros n Hb.
  { exists [], n. simpl. split; [done|]. split; [constructor|by rewrite app_nil_r]. }
  apply Forall_cons in Hb as [Hbc Hb].
  destruct (perform_accepted bus cfg c n Hacc Hc Hbc) as (m & n1 & Hp & Hcm & Hn1).
  destruct (IH n1 Hb) as (msgs & n2 & Hf & Hcs & Hn2). exists (m :: msgs), n2. simpl. unfold mbind. rewrite Hp.
  split; [done|]. split; [by constructor|]. rewrite Hn2, Hn1. by rewrite <- app_assoc.
Qed.

(** An event of the stream as the Publisher receives it, and what it sends on. *)
Definition input_signal (i : PublisherInput) : list SignalingEvent :=
  match i with StreamEvent evt _ _ _ _ => [evt] | _ => [] end.

(** [n] reports the packet of [evt], field for field. *)
Record reports (node : string) (evt : SignalingEvent) (n : NormalizedEvent) : Prop := {
  rp_node : ne_NodeName n = node;
  rp_at : ne_ObservedAt n = se_ObservedAt evt;
  rp_source : ne_SourceIP n = IPString (se_SourceIP evt);
  rp_dest : ne_DestIP n = IPString (se_DestIP evt);
  rp_port : ne_DestPort n = se_DestPort evt;
  rp_proto : ne_Protocol n = protocolFromSignal (se_Protocol evt);
  rp_size : ne_PayloadSize n = se_PayloadSize evt;
  rp_malformed : ne_Malformed n = se_Malformed evt;
  rp_vlan : ne_VLANID n = se_VLANID evt;
  rp_teid : ne_TEID n = se_TEID evt;
  rp_rate : ne_TunnelRatePerSecond n = f64_of_Z (se_TunnelRate evt)
}.

Lemma inputs_report cfg l :
  Forall2 (reports (pc_NodeName cfg)) (concat (input_signal <$> l)) (concat (input_events cfg <$> l)).
Proof using Type.
  induction l as [|i l IH]; [constructor|]. csimpl. destruct i; simpl; try done. constructor; [by split|done].
Qed.

(** [l] merges [l4] and [l6], each in its order. *)
Inductive merges {X} : list X → list X → list X → Prop :=
  | merges_nil : merges [] [] []
  | merges_v4 x l4 l6 l : merges l4 l6 l → merges (x :: l4) l6 (x :: l)
  | merges_v6 x l4 l6 l : merges l4 l6 l → merges l4 (x :: l6) (x :: l).

Definition of_ring (r : Ring) (out : list (Ring * SignalingEvent)) : list SignalingEvent :=
  (filter (λ x, x.1 = r) out).*2.

Lemma out_merges node out tel : Forall2 (reports node) out.*2 tel →
  ∃ tel4 tel6, merges tel4 tel6 tel ∧ Forall2 (reports node) (of_ring RingV4 out) tel4 ∧
    Forall2 (reports node) (of_ring RingV6 out) tel6.
Proof using Type.
  revert tel. induction out as [|[[] evt] out IH]; intros tel Ht; csimpl in Ht.
  { apply Forall2_nil_inv_l in Ht as ->. exists [], []. split; [constructor|]. split; constructor. }
  all: apply Forall2_cons_inv_l in Ht as (n & tel' & Hn & Ht & ->);
    destruct (IH tel' Ht) as (tel4 & tel6 & Hm & H4 & H6).
  - exists (n :: tel4), tel6. split; [by constructor|]. unfold of_ring. rewrite !filter_cons. simpl. by split; [constructor|].
  - exists tel4, (n :: tel6). split; [by constructor|]. unfold of_ring. rewrite !filter_cons. simpl. by split; [|constructor].
Qed.

(** Of a ring's records, all but the last one reached the consumer. *)
Definition sent_on {X} (node : string) (event_of : X → SignalingEvent) (raws : list X) (tel : list NormalizedEvent) : Prop :=
  ∃ sent rest, raws = sent ++ rest ∧ (length rest ≤ 1)%nat ∧ Forall2 (λ x n, reports node (event_of x) n) sent tel.

Lemma ring_sent {X} bootTime node r tr s (enc : X → list Z) (dec : X → SignalingEvent) xs tel :
  schedule bootTime tr pump_start = Step s →
  samples r tr = enc <$> xs → Forall (λ x, decode bootTime r (enc x) = Ok (dec x)) xs →
  Forall2 (reports node) (of_ring r (pu_out s)) tel → sent_on node dec xs tel.
Proof using Type.
  intros Hs Hsam Hdec Hrep.
  destruct (accounted_rest _ _ _ (schedule_accounted bootTime r tr s Hs)) as (rest & E & Hlen & _).
  rewrite (read_events_map bootTime r tr enc dec xs Hsam Hdec) in E.
  apply fmap_app_inv in E as (sent & lost & Hd & -> & ->). rewrite length_fmap in Hlen.
  exists sent, lost. split; [done|]. split; [done|]. apply Forall2_fmap_l. by rewrite <- Hd.
Qed.

(** C6: What the kernel records is what Layer 2 gets. Whatever the interleaving
    of the goroutines that read the two rings, the batch size and the ticks, when
    the bus is connected, the Publisher has consumed the merged channel, every
    call it made has an encoding and JetStream acknowledged every publish, the
    stream has grown by exactly its calls' messages, in order; and their
    telemetry is a merge of one report per IPv4 record and one per IPv6 record, in
    the order the kernel wrote them and equal to the record in every field the
    record has, the tunnel's rate included; at most the last record of a ring, in
    hand at shutdown, is missing. *)
Theorem records_reach_stream bootTime NewReader s0 tr s raws raws6 cfg bus l stop p (n : N) :
  (SignalingEvents NewReader).1 = Ok s0 → schedule bootTime tr s0 = Step s →
  samples RingV4 tr = encode_raw <$> raws → Forall raw_wf raws →
  samples RingV6 tr = encode_raw_v6 <$> raws6 → Forall raw_v6_wf raws6 →
  pub_connected p = true → pub_batch p = [] → Forall (λ i, ends i = false) l → ends stop = true →
  concat (input_signal <$> l) = (pu_out s).*2 → accepts →
  let '(calls, p', n') := Publisher_on_bus bus cfg (l ++ [stop]) p n in
  Forall encodable calls →
  ∃ msgs tel4 tel6, messages n' = messages n ++ msgs ∧ Forall2 carries calls msgs ∧
    merges tel4 tel6 (telemetry calls) ∧
    sent_on (pc_NodeName cfg) (event_of_raw bootTime) raws tel4 ∧
    sent_on (pc_NodeName cfg) (event_of_raw_v6 bootTime) raws6 tel6.
Proof using HJS.
  intros ->%SignalingEvents_ok Hs H4 Hw4 H6 Hw6 Hc Hb Hl Hstop Hin Hacc. unfold Publisher_on_bus.
  destruct (telemetry_complete cfg l stop p Hc Hb Hl Hstop) as (Ht & _ & Hsz).
  destruct (Publisher_run cfg (l ++ [stop]) p) as [calls p']. simpl in Ht, Hsz. intros Henc.
  destruct (mfor_perform bus cfg calls n Hacc Henc Hsz) as (msgs & n' & -> & Hcar & Hmsg).
  pose proof (inputs_report cfg l) as Hrep. rewrite Hin, <- Ht in Hrep.
  destruct (out_merges _ _ _ Hrep) as (tel4 & tel6 & Hm & R4 & R6).
  exists msgs, tel4, tel6. split; [done|]. split; [done|]. split; [done|]. split.
  - eapply (ring_sent bootTime _ RingV4); [exact Hs|exact H4| |exact R4].
    eapply Forall_impl; [exact Hw4|]. intros raw Hw. by apply decode_encode_raw.
  - eapply (ring_sent bootTime _ RingV6); [exact Hs|exact H6| |exact R6].
    eapply Forall_impl; [exact Hw6|]. intros raw Hw. by apply decode_encode_raw_v6.
Qed.
End Pipeline.

(** ** Two rings, one batch *)

Module PipelineSample.
Import EventPumpSample MessagingSample.

(** A codec that writes a message as its tunnels. *)
#[local] Instance teids : Json := {|
  Marshal_event e := Ok [ne_TEID e]; Marshal_batch b := Ok (ne_TEID <$> b); Marshal_score e := Ok [255];
  Unmarshal_score _ := Fail (Errorf "invalid character") |}.

Definition final : Pump := after (busy ++ stop).
Definition input_of (id : string) (evt : SignalingEvent) : PublisherInput := StreamEvent evt NewPodIPIndex (λ _ _, None) id 10.
Definition inputs : list PublisherInput :=
  [input_of "a" (event_of_raw_v6 1000 raw6); BusConnected; input_of "b" (event_of_raw 1000 (raw 7))].
Definition quiet : Publisher := {| pub_TunnelFlood := None; pub_SourceFlood := None; pub_connected := true; pub_batch := [] |}.
Definition empty_stream : SimJs := {| sj_messages := []; sj_subs := ∅ |}.
Definition consumed : list BusCall * Publisher * SimJs :=
  Publisher_on_bus 0 IngestionSample.cfg (inputs ++ [StreamClosed]) quiet empty_stream.

Lemma records_reach_stream_witness :
  messages consumed.2 = [("events", [9; 7])] ∧
  ∃ tel4 tel6, merges tel4 tel6 (telemetry consumed.1.1) ∧ sent_on "n1" (event_of_raw 1000) [raw 7; raw 8] tel4 ∧
    sent_on "n1" (event_of_raw_v6 1000) [raw6] tel6.
Proof.
  split; [vm_compute; reflexivity|].
  pose proof (records_reach_stream 1000 opens pump_start (busy ++ stop) final [raw 7; raw 8] [raw6] IngestionSample.cfg 0
    inputs StreamClosed quiet empty_stream) as Ht.
  fold consumed in Ht. destruct consumed as [[calls p'] n'] eqn:Ed.
  destruct Ht as (msgs & tel4 & tel6 & _ & _ & Hm & H4 & H6).
  - reflexivity.
  - vm_compute; reflexivity.
  - vm_compute; reflexivity.
  - repeat constructor; vm_compute; discriminate.
  - vm_compute; reflexivity.
  - repeat constructor; vm_compute; discriminate.
  - reflexivity.
  - reflexivity.
  - repeat constructor.
  - reflexivity.
  - vm_compute; reflexivity.
  - intros c s b n. reflexivity.
  - vm_compute in Ed. injection Ed as <- _ _. constructor; [|constructor]. eexists. eexists. split; reflexivity.
  - exists tel4, tel6. done.
Defined.
End PipelineSample.
