(* ===== verification/OperatorMain.v ===== *)
(** * OperatorMain: main of cmd/operator, from flags to shutdown

    The whole of main: the healthcheck mode, the manager, the order in which
    the parts are built and registered, the run, and the deferred calls.
    [os.Exit(1)] is [Fail], which skips them. The controller-runtime manager is
    the parameter [CtrlManager]; what it is given is a list of [Part]s. *)

From S2P Require Import Prelude GoStrings GoPath GoFloat NetIP Events Api BoundedFifo TunnelFlood SourceFlood Blocklist Loader PolicyIndex Attach AttachProofs KillSwitch Metrics Ingestion World Bus Decision Config Mesh Operator OperatorProofs Messaging.

Local Open Scope Z_scope.
Local Open Scope go_scope.

(** What main hands to the manager, with what it was built from. *)
Inductive Part :=
  | PodIPIndexerPart
  | PublisherPart (cfg : PublisherConfig) (p : Publisher) (FlushInterval : Duration)
  | ObserverPart (addr : string) (tls : option TLSConfig) (subject : string)
  | ReconcilerPart (bl : OperatorBlocklist) (adapter : Adapter) (dwell grace : Duration)
  | WatcherPart (subject : string) (bl : OperatorBlocklist) (adapter : Adapter) (BaseThreshold : f64)
      (ks : option KillSwitch) (writesPerSecond : f64) (burst : Z)
  | DriftPart (interval : Duration) (podRef : option NamespacedName)
  | HealthzCheck (name : string)
  | ReadyzCheck (name : string).

Record ManagerOptions := {
  mo_MetricsBindAddress : string; mo_HealthProbeBindAddress : string;
  mo_LeaderElection : bool; mo_LeaderElectionID : string
}.

(** [ctrl.NewManager]; [mgr.Add], [SetupWithManager] and the Add*Check methods;
    [mgr.Start], which returns when the context is done. *)
Class CtrlManager (G : Type) := {
  NewManager : ManagerOptions → G → error * G;
  mgr_Add : Part → G → error * G;
  mgr_Start : G → error * G
}.

Class CtrlManagerSpec (G : Type) `{CtrlManager G} := {
  registered : G → list Part;
  NewManager_ok o g g' : NewManager o g = (None, g') → registered g' = [];
  mgr_Add_ok p g g' : mgr_Add p g = (None, g') → registered g' = registered g ++ [p];
  mgr_Start_frame g e g' : mgr_Start g = (e, g') → registered g' = registered g
}.

Section Main.
Context {G H N : Type} `{HG : CtrlManager G} `{HH : BpfHost H} `{HJ : JetStream N} `{HR : RangeOrder}.
(** strconv and time parsers, the environment, the two flags and what the
    machine and the cluster answer. *)
Context (pf : string → result f64) (pd : string → result Duration) (env : gmap string string).
Context (bpfObjectPath bpfInterface : string) (hostname : result string).
Context (ReadFile : string → result string) (AppendCertsFromPEM : string → bool)
        (LoadX509KeyPair : string → string → error) (restMapping : GroupVersionKind → error).
(** The state [busConnector] has reached when main returns. *)
Context (busConnector : Connector).

Record MainState := { ms_mgr : G; ms_host : H; ms_nats : N; ms_events : list string }.

Definition on_mgr (f : G → error * G) : M MainState unit :=
  λ s, let '(e, g) := f (ms_mgr s) in
       (match e with None => Ok tt | Some err => Fail err end,
        {| ms_mgr := g; ms_host := ms_host s; ms_nats := ms_nats s; ms_events := ms_events s |}).

Definition lift_result {X} (r : result X) : M MainState X := λ s, (r, s).

Definition attach_step (cfg : OperatorConfig) : M MainState OperatorBlocklist :=
  λ s, let '(bl, evs, h) := attachBlocklist (operatorPodRef env) bpfObjectPath bpfInterface (oc_BPFPinPath cfg) (ms_host s) in
       (Ok bl, {| ms_mgr := ms_mgr s; ms_host := h; ms_nats := ms_nats s; ms_events := ms_events s ++ evs |}).

(** The deferred calls: [blocklist.Close()], then the bus if it ever connected. *)
Definition deferred (bl : OperatorBlocklist) (s : MainState) : MainState :=
  {| ms_mgr := ms_mgr s;
     ms_host := match bl with Attached l => (AttachedLoader_Close l (ms_host s)).2 | NoBlocklist => ms_host s end;
     ms_nats := match Connector_Bus busConnector with Some bus => Bus_Close (Some bus) (ms_nats s) | None => ms_nats s end;
     ms_events := ms_events s |}.

Definition manager_options (cfg : OperatorConfig) : ManagerOptions :=
  {| mo_MetricsBindAddress := oc_MetricsBindAddress cfg; mo_HealthProbeBindAddress := oc_HealthProbeBindAddress cfg;
     mo_LeaderElection := oc_LeaderElect cfg; mo_LeaderElectionID := "sentinel5g-operator-lock" |}.

(** The publisher, the observer and the drift reconciler are optional. *)
Definition add_publisher (cfg : OperatorConfig) (bl : OperatorBlocklist) : M MainState unit :=
  let! p := lift_result (register_publisher cfg hostname bl) in
  match p with
  | Some (c, p) => on_mgr (mgr_Add (PublisherPart c p (oc_NATSEventFlushInterval cfg)))
  | None => mret tt
  end.
Definition add_observer (cfg : OperatorConfig) : M MainState unit :=
  match register_observer cfg with
  | Some addr =>
      let! tls := lift_result (hubbleTLSConfig ReadFile AppendCertsFromPEM LoadX509KeyPair cfg) in
      on_mgr (mgr_Add (ObserverPart addr tls (oc_NATSEventsSubject cfg)))
  | None => mret tt
  end.
Definition add_drift (cfg : OperatorConfig) (bl : OperatorBlocklist) : M MainState unit :=
  match register_drift cfg bl with
  | Some interval => on_mgr (mgr_Add (DriftPart interval (operatorPodRef env)))
  | None => mret tt
  end.

Definition reconciler_part (cfg : OperatorConfig) (bl : OperatorBlocklist) (a : Adapter) : Part :=
  ReconcilerPart bl a (oc_DeEscalationDwell cfg) (oc_ScoringPipelineGrace cfg).
Definition watcher_part (cfg : OperatorConfig) (bl : OperatorBlocklist) (a : Adapter) : Part :=
  WatcherPart (oc_NATSThreatsSubject cfg) bl a (oc_ThreatScoreThreshold cfg) (new_killswitch cfg)
    (oc_ReactorStatusWritesPerSecond cfg) (oc_ReactorStatusWriteBurst cfg).

(** main once the configuration is loaded. *)
Definition run_operator (cfg : OperatorConfig) : M MainState unit :=
  on_mgr (NewManager (manager_options cfg)) ;;!
  let! bl := attach_step cfg in
  on_mgr (mgr_Add PodIPIndexerPart) ;;!
  add_publisher cfg bl ;;!
  add_observer cfg ;;!
  let! adapter := lift_result (buildMeshAdapter restMapping (oc_MeshAdapter cfg)) in
  on_mgr (mgr_Add (reconciler_part cfg bl adapter)) ;;!
  on_mgr (mgr_Add (watcher_part cfg bl adapter)) ;;!
  add_drift cfg bl ;;!
  on_mgr (mgr_Add (HealthzCheck "healthz")) ;;!
  on_mgr (mgr_Add (ReadyzCheck "readyz")) ;;!
  on_mgr (mgr_Add (ReadyzCheck "nats")) ;;!
  on_mgr mgr_Start ;;!
  mmodify (deferred bl).

(** [main]: the exit code and the state it leaves. [get] is the HTTP client of
    the healthcheck mode. *)
Definition main (args : list string) (get : string → result Z) (s : MainState) : Z * MainState :=
  if bool_decide (args !! 1%nat = Some "healthcheck") then (operator_runHealthcheck get (Load pf pd env), s)
  else
    match Load pf pd env with
    | Fail _ => (1, s)
    | Ok cfg => let '(r, s') := run_operator cfg s in (if is_Ok r then 0 else 1, s')
    end.

(** ** What it takes to start *)

Context `{HGS : !CtrlManagerSpec G} `{HHS : !BpfHostSpec H}.

(** The manager accepts what it is given. *)
Context (manager_works : (∀ o g, (NewManager o g).1 = None) ∧ (∀ p g, (mgr_Add p g).1 = None) ∧ (∀ g, (mgr_Start g).1 = None)).

(** The parts of an operator, in the order they are registered. *)
Definition parts (cfg : OperatorConfig) (bl : OperatorBlocklist) (node : string) (tls : option TLSConfig) (a : Adapter)
    : list Part :=
  [PodIPIndexerPart] ++
  match bl with
  | Attached _ => [PublisherPart (new_publisher cfg node).1 (new_publisher cfg node).2 (oc_NATSEventFlushInterval cfg)]
  | NoBlocklist => []
  end ++
  (if (oc_HubbleAddr cfg =? "")%string then [] else [ObserverPart (oc_HubbleAddr cfg) tls (oc_NATSEventsSubject cfg)]) ++
  [reconciler_part cfg bl a; watcher_part cfg bl a] ++
  match bl with Attached _ => [DriftPart (oc_BlocklistReconcileInterval cfg) (operatorPodRef env)] | NoBlocklist => [] end ++
  [HealthzCheck "healthz"; ReadyzCheck "readyz"; ReadyzCheck "nats"].

(** What the blocklist is: the Loader attached under the configured pin path;
    without pinning when exactly that path was refused as not on a bpffs; the
    no-op when the attach, or the second one, failed. *)
Inductive attach_outcome (pin : string) (h : H) : OperatorBlocklist → Prop :=
  | attached_as_configured l h1 :
      AttachWithOptions bpfObjectPath bpfInterface pin h = (Ok l, h1) → attach_outcome pin h (Attached l)
  | attached_unpinned err h1 l h2 :
      AttachWithOptions bpfObjectPath bpfInterface pin h = (Fail err, h1) →
      pin ≠ "" → errors_Is err ErrPinPathNotBPFFS = true →
      AttachWithOptions bpfObjectPath bpfInterface "" h1 = (Ok l, h2) → attach_outcome pin h (Attached l)
  | attach_failed err h1 :
      AttachWithOptions bpfObjectPath bpfInterface pin h = (Fail err, h1) →
      pin = "" ∨ errors_Is err ErrPinPathNotBPFFS = false → attach_outcome pin h NoBlocklist
  | attach_failed_twice err h1 err2 h2 :
      AttachWithOptions bpfObjectPath bpfInterface pin h = (Fail err, h1) →
      pin ≠ "" → errors_Is err ErrPinPathNotBPFFS = true →
      AttachWithOptions bpfObjectPath bpfInterface "" h1 = (Fail err2, h2) → attach_outcome pin h NoBlocklist.

Lemma attachBlocklist_outcome ref pin h bl evs h' :
  attachBlocklist ref bpfObjectPath bpfInterface pin h = (bl, evs, h') → attach_outcome pin h bl.
Proof using Type.
  unfold attachBlocklist, attachBlocklist_on. destruct (AttachWithOptions _ _ pin h) as [[l|err] h1] eqn:E1.
  { intros [= <- <- <-]. by eapply attached_as_configured. }
  destruct (pin =? "")%string eqn:Ep; cbn [negb andb]; unbool.
  { intros [= <- <- <-]. eapply attach_failed; [done|by left]. }
  destruct (errors_Is err ErrPinPathNotBPFFS) eqn:Ei;
    [|intros [= <- <- <-]; eapply attach_failed; [done|by right]].
  destruct (AttachWithOptions _ _ "" h1) as [[l|err2] h2] eqn:E2; intros [= <- <- <-];
    [by eapply attached_unpinned|by eapply attach_failed_twice].
Qed.

(** Hubble's files can be read: a CA file that holds certificates, a loadable
    key pair, each if configured. *)
Definition hubble_files (cfg : OperatorConfig) : Prop :=
  (oc_HubbleTLSCAFile cfg ≠ "" →
     ∃ pem, ReadFile (oc_HubbleTLSCAFile cfg) = Ok pem ∧ AppendCertsFromPEM pem = true) ∧
  (oc_HubbleTLSCertFile cfg ≠ "" →
     LoadX509KeyPair (oc_HubbleTLSCertFile cfg) (oc_HubbleTLSKeyFile cfg) = None).

(** How Hubble is dialled: in plaintext only when no file is configured, else
    with exactly the configured roots and client certificate. *)
Definition hubble_tls (cfg : OperatorConfig) (tls : option TLSConfig) : Prop :=
  match tls with
  | None => oc_HubbleTLSCAFile cfg = "" ∧ oc_HubbleTLSCertFile cfg = "" ∧ oc_HubbleTLSKeyFile cfg = ""
  | Some t =>
      match tls_RootCAs t with
      | Some pem => ReadFile (oc_HubbleTLSCAFile cfg) = Ok pem ∧ oc_HubbleTLSCAFile cfg ≠ ""
      | None => oc_HubbleTLSCAFile cfg = ""
      end ∧
      match tls_Certificate t with
      | Some keys => keys = (oc_HubbleTLSCertFile cfg, oc_HubbleTLSKeyFile cfg) ∧ oc_HubbleTLSCertFile cfg ≠ ""
      | None => oc_HubbleTLSCertFile cfg = ""
      end
  end.

Lemma hubbleTLSConfig_files cfg : hubble_files cfg →
  ∃ tls, hubbleTLSConfig ReadFile AppendCertsFromPEM LoadX509KeyPair cfg = Ok tls ∧ hubble_tls cfg tls.
Proof using Type.
  intros [Hca Hcert]. unfold hubbleTLSConfig.
  destruct (oc_HubbleTLSCAFile cfg =? "")%string eqn:E1, (oc_HubbleTLSCertFile cfg =? "")%string eqn:E2,
    (oc_HubbleTLSKeyFile cfg =? "")%string eqn:E3; cbn [andb negb]; unbool;
    try (destruct (Hca ltac:(done)) as (pem & Hr & Hp); rewrite Hr; cbn; rewrite Hp);
    try rewrite (Hcert ltac:(done)); eexists; (split; [reflexivity|]); done.
Qed.

(** Which adapter isolates Pods: the configured one where the cluster serves its
    kind, else none. *)
Definition mesh_kinds : list (string * Adapter * GroupVersionKind) :=
  [("istio", IstioAdapter,
    {| gvk_Group := "security.istio.io"; gvk_Version := "v1"; gvk_Kind := "AuthorizationPolicy" |});
   ("cilium", CiliumAdapter,
    {| gvk_Group := "cilium.io"; gvk_Version := "v2"; gvk_Kind := "CiliumNetworkPolicy" |});
   ("linkerd", LinkerdAdapter,
    {| gvk_Group := "policy.linkerd.io"; gvk_Version := "v1beta3"; gvk_Kind := "Server" |})].
Definition mesh_choice (kind : string) (a : Adapter) : Prop :=
  (kind ∈ ["noop"; ""] ∧ a = NoopAdapter) ∨
  ∃ a' gvk, (kind, a', gvk) ∈ mesh_kinds ∧
    a = match restMapping gvk with None => a' | Some _ => NoopAdapter end.

Lemma buildMeshAdapter_choice kind : kind ∈ ["istio"; "cilium"; "linkerd"; "noop"; ""] →
  ∃ a, buildMeshAdapter restMapping kind = Ok a ∧ mesh_choice kind a.
Proof using Type.
  rewrite !elem_of_cons, elem_of_nil. unfold buildMeshAdapter, mesh_choice, mesh_kinds.
  intros [-> | [-> | [-> | [-> | [-> | []]]]]]; cbn;
    try (eexists; split; [done|]; left; split; [clear; set_solver|done]).
  - exists (match restMapping authorizationPolicyGVK with None => IstioAdapter | Some _ => NoopAdapter end).
    split; [by case_match|]. right. do 2 eexists. split; [apply list_elem_of_here|done].
  - exists (match restMapping ciliumNetworkPolicyGVK with None => CiliumAdapter | Some _ => NoopAdapter end).
    split; [by case_match|]. right. do 2 eexists. split; [apply list_elem_of_further, list_elem_of_here|done].
  - exists (match restMapping serverGVK with None => LinkerdAdapter | Some _ => NoopAdapter end).
    split; [by case_match|]. right. do 2 eexists.
    split; [do 2 apply list_elem_of_further; apply list_elem_of_here|done].
Qed.

(** A registration: one part more, nothing else touched. *)
Definition grown (ps : list Part) (s s' : MainState) : Prop :=
  registered (ms_mgr s') = registered (ms_mgr s) ++ ps ∧ ms_host s' = ms_host s ∧ ms_nats s' = ms_nats s ∧
  ms_events s' = ms_events s.

Lemma grown_trans ps qs s1 s2 s3 : grown ps s1 s2 → grown qs s2 s3 → grown (ps ++ qs) s1 s3.
Proof using Type. intros (Ha & ? & ? & ?) (Hb & ? & ? & ?). split; [by rewrite Hb, Ha, app_assoc|split_and!; congruence]. Qed.

Lemma add_grown p s : ∃ s', on_mgr (mgr_Add p) s = (Ok tt, s') ∧ grown [p] s s'.
Proof using manager_works HGS.
  destruct manager_works as (_ & Hadd & _). specialize (Hadd p (ms_mgr s)). unfold on_mgr.
  destruct (mgr_Add p (ms_mgr s)) as [e g] eqn:E. simpl in Hadd. subst e. eexists. split; [done|].
  split; [|done]. simpl. by apply mgr_Add_ok.
Qed.

Lemma bind_grown {X} ps (m : M MainState unit) (k : unit → M MainState X) s :
  (∃ s', m s = (Ok tt, s') ∧ grown ps s s') → ∃ s', mbind m k s = k tt s' ∧ grown ps s s'.
Proof using Type. intros (s' & Hm & Hg). exists s'. unfold mbind. by rewrite Hm. Qed.

Lemma add_publisher_grown cfg bl node s : hostname = Ok node →
  ∃ s', add_publisher cfg bl s = (Ok tt, s') ∧
    grown match bl with
          | Attached _ => [PublisherPart (new_publisher cfg node).1 (new_publisher cfg node).2 (oc_NATSEventFlushInterval cfg)]
          | NoBlocklist => []
          end s s'.
Proof using manager_works HGS.
  intros Hh. unfold add_publisher, mbind, lift_result, register_publisher. rewrite Hh. destruct bl; simpl.
  - apply add_grown.
  - unfold mret. exists s. split; [done|]. split; [by rewrite app_nil_r|done].
Qed.

Lemma add_observer_grown cfg s :
  oc_HubbleAddr cfg = "" ∨ hubble_files cfg →
  ∃ tls s', add_observer cfg s = (Ok tt, s') ∧ (oc_HubbleAddr cfg ≠ "" → hubble_tls cfg tls) ∧
    grown (if (oc_HubbleAddr cfg =? "")%string then [] else [ObserverPart (oc_HubbleAddr cfg) tls (oc_NATSEventsSubject cfg)]) s s'.
Proof using manager_works HGS.
  intros Hh. unfold add_observer, register_observer. destruct (oc_HubbleAddr cfg =? "")%string eqn:E; simpl.
  - exists None, s. unbool. split; [done|]. split; [done|]. split; [by rewrite app_nil_r|done].
  - unbool. destruct Hh as [|Ht]; [done|]. unfold mbind, lift_result.
    destruct (hubbleTLSConfig_files cfg Ht) as (tls & -> & Hspec). exists tls.
    destruct (add_grown (ObserverPart (oc_HubbleAddr cfg) tls (oc_NATSEventsSubject cfg)) s) as (s' & ? & ?). by exists s'.
Qed.

Lemma add_drift_grown cfg bl s : ∃ s', add_drift cfg bl s = (Ok tt, s') ∧
  grown match bl with Attached _ => [DriftPart (oc_BlocklistReconcileInterval cfg) (operatorPodRef env)] | NoBlocklist => [] end s s'.
Proof using manager_works HGS.
  unfold add_drift, register_drift. destruct bl; simpl; [apply add_grown|].
  unfold mret. exists s. split; [done|]. split; [by rewrite app_nil_r|done].
Qed.

(** Runs the first registration of the goal, keeping what it grew. *)
Ltac register H :=
  match goal with
  | |- context [mbind ?m ?k ?s] =>
      let s' := fresh "s" in let G := fresh "Hg" in
      destruct (bind_grown _ m k s H) as (s' & -> & G)
  end.

(** The end of main: the manager runs until its context is done. *)
Lemma run_end bl s : ∃ s', (on_mgr mgr_Start ;;! mmodify (deferred bl)) s = (Ok tt, deferred bl s') ∧
  grown [] s s'.
Proof using manager_works HGS.
  destruct manager_works as (_ & _ & Hstart). specialize (Hstart (ms_mgr s)). unfold mbind, on_mgr.
  destruct (mgr_Start (ms_mgr s)) as [e g] eqn:E. simpl in Hstart. subst e. eexists. split; [done|].
  apply mgr_Start_frame in E. split; [|done]. simpl. by rewrite app_nil_r.
Qed.

Lemma run_operator_ok cfg node s bl evs h : hostname = Ok node →
  oc_HubbleAddr cfg = "" ∨ hubble_files cfg →
  oc_MeshAdapter cfg ∈ ["istio"; "cilium"; "linkerd"; "noop"; ""] →
  attachBlocklist (operatorPodRef env) bpfObjectPath bpfInterface (oc_BPFPinPath cfg) (ms_host s) = (bl, evs, h) →
  ∃ tls a s', run_operator cfg s = (Ok tt, deferred bl s') ∧
    (oc_HubbleAddr cfg ≠ "" → hubble_tls cfg tls) ∧ mesh_choice (oc_MeshAdapter cfg) a ∧
    registered (ms_mgr s') = parts cfg bl node tls a ∧ ms_host s' = h ∧ ms_nats s' = ms_nats s ∧
    ms_events s' = ms_events s ++ evs.
Proof using manager_works HGS.
  intros Hhost Htls Hmesh Hattach. unfold run_operator.
  pose proof manager_works as (Hnew & _ & _).
  specialize (Hnew (manager_options cfg) (ms_mgr s)). unfold mbind at 1, on_mgr at 1.
  destruct (NewManager (manager_options cfg) (ms_mgr s)) as [e g] eqn:En. simpl in Hnew. subst e.
  apply NewManager_ok in En. unfold mbind at 1, attach_step at 1. cbn [ms_host].
  rewrite Hattach. cbn [ms_mgr ms_nats ms_events].
  set (s1 := {| ms_mgr := g; ms_host := h; ms_nats := _; ms_events := _ |}).
  register (add_grown PodIPIndexerPart s1).
  register (add_publisher_grown cfg bl node s0 Hhost).
  destruct (add_observer_grown cfg s2 Htls) as (tls & s2' & Ho & Hspec & Hgo).
  pose proof (ex_intro (λ s', add_observer cfg s2 = (Ok tt, s') ∧ grown _ s2 s') s2' (conj Ho Hgo)) as Ho'.
  register Ho'.
  unfold mbind at 1, lift_result at 1.
  destruct (buildMeshAdapter_choice _ Hmesh) as (a & -> & Hchoice).
  register (add_grown (reconciler_part cfg bl a) s3).
  register (add_grown (watcher_part cfg bl a) s4).
  register (add_drift_grown cfg bl s5).
  register (add_grown (HealthzCheck "healthz") s6).
  register (add_grown (ReadyzCheck "readyz") s7).
  register (add_grown (ReadyzCheck "nats") s8).
  destruct (run_end bl s9) as (s10 & -> & Hg8).
  pose proof (grown_trans _ _ _ _ _ Hg (grown_trans _ _ _ _ _ Hg0 (grown_trans _ _ _ _ _ Hg1
    (grown_trans _ _ _ _ _ Hg2 (grown_trans _ _ _ _ _ Hg3 (grown_trans _ _ _ _ _ Hg4
    (grown_trans _ _ _ _ _ Hg5 (grown_trans _ _ _ _ _ Hg6 (grown_trans _ _ _ _ _ Hg7 Hg8))))))))) as (Hr & Hrest).
  exists tls, a, s10. split; [done|]. split; [done|]. split; [done|]. split; [|done]. rewrite Hr. unfold s1, parts. simpl. by rewrite En.
Qed.

End Main.
Arguments MainState G H N : clear implicits.

(** ** An operator on a bare host *)

Module MainSample.
Import ConfigSample SimHosts MessagingSample.

#[local] Instance order : RangeOrder := sample_order.

(** A manager that takes everything. *)
#[local] Instance sim_manager : CtrlManager (list Part) := {|
  NewManager o g := (None, []); mgr_Add p g := (None, g ++ [p]); mgr_Start g := (None, g) |}.
#[local] Program Instance sim_manager_spec : CtrlManagerSpec (list Part) := {| registered := id |}.
Next Obligation. by intros o g g' [= <-]. Qed.
Next Obligation. by intros p g g' [= <-]. Qed.
Next Obligation. by intros g e g' [= <- <-]. Qed.

Definition host0 : MainState (list Part) SimHost SimJs :=
  {| ms_mgr := []; ms_host := AttachSample.blank; ms_nats := {| sj_messages := []; sj_subs := ∅ |}; ms_events := [] |}.
Definition get_nothing (url : string) : result Z := Fail (Errorf "connection refused").
Definition no_file (path : string) : result string := Fail (Errorf "no such file").
Definition serves (g : GroupVersionKind) : error := None.

(** [/manager] on a node called upf-1, with the default mesh adapter. *)
Definition run : Z * MainState (list Part) SimHost SimJs :=
  main floats durations env "/bpf/packet_filter.o" "eth0" (Ok "upf-1") no_file (λ _, false) (λ _ _, None) serves
    NewConnector ["/manager"] get_nothing host0.

Lemma sim_manager_works : (∀ o (g : list Part), (NewManager o g).1 = None) ∧ (∀ p (g : list Part), (mgr_Add p g).1 = None) ∧
  (∀ g : list Part, (mgr_Start g).1 = None).
Proof. done. Qed.

End MainSample.
