(* ===== verification/FalcoBridge.v ===== *)
(** * FalcoBridge: the bridge's server and its main
    (pkg/falco/bridge.go, cmd/falco-bridge/main.go)

    [Bridge.Start] runs two goroutines, the HTTP server and the select that
    waits for the context or for the server's error, while each request is served
    on a goroutine of its own. [bridge_step] is one step of one of them. net/http
    is modelled as far as [Start] uses it: [Shutdown] refuses new requests and
    waits for those in flight, up to its deadline; [ListenAndServe] returns
    [ErrServerClosed] after it and only then. *)

From S2P Require Import Prelude GoStrings GoFloat NetIP Events Api Bus Config Ingestion Messaging Capture Operator.
From stdpp Require Import relations.

Local Open Scope Z_scope.

(** A request, with what its handler draws: an event id and the time. *)
Record Request := {
  rq_path : string; rq_header : string; rq_body : result Alert; rq_id : string; rq_now : Time
}.

(** The Bridge, as main builds it; its bus is a connection's handle. *)
Record Bridge := { br_Addr : string; br_Bus : nat; br_Subject : string; br_NodeName : string; br_SharedSecret : string }.

(** Where [ListenAndServe]'s goroutine and [Start] are. *)
Inductive ServePc := Serving | ServeReturned.
Inductive StartPc := Selecting | ShuttingDown | StartReturned (err : error).

Section Bridge.
Context {N : Type} `{HJ : JetStream N} `{HE : Json}.
Context (b : Bridge).

Record BridgeRun := {
  bs_bus : N;
  bs_serve : ServePc;
  bs_start : StartPc;
  bs_ctx : bool;                             (* ctx.Done() is closed *)
  bs_errCh : list go_error;                  (* a channel of capacity one *)
  bs_inflight : list Request;
  bs_answers : list (Request * Z)            (* requests answered, with the status *)
}.

(** The handler registered for /falco, with its publish on the bus. *)
Definition handle_falco (r : Request) (n : N) : Z * N :=
  let published e := Bus_PublishNormalizedEvent (br_Bus b) (br_Subject b) e n in
  let '(code, event) := Bridge_handle (br_SharedSecret b) (br_NodeName b) (rq_header r) (rq_body r) (rq_id r) (rq_now r)
    (λ e, match (published e).1 with Ok _ => None | Fail err => Some err end) in
  (code, match event with Some e => (published e).2 | None => n end).

(** [ServeMux] on the two patterns; [unrouted] is its own answer to any other
    path (not found, or a redirect). *)
Definition serve_request (unrouted : Request → Z) (r : Request) (n : N) : Z * N :=
  if (rq_path r =? "/falco")%string then handle_falco r n
  else if (rq_path r =? "/healthz")%string then (200, n)
  else (unrouted r, n).

Definition bridge_init (n : N) : BridgeRun :=
  {| bs_bus := n; bs_serve := Serving; bs_start := Selecting; bs_ctx := false; bs_errCh := []; bs_inflight := []; bs_answers := [] |}.

Context (unrouted : Request → Z).

Definition answer (i : nat) (r : Request) (s : BridgeRun) : BridgeRun :=
  let '(code, n) := serve_request unrouted r (bs_bus s) in
  {| bs_bus := n; bs_serve := bs_serve s; bs_start := bs_start s; bs_ctx := bs_ctx s; bs_errCh := bs_errCh s;
     bs_inflight := delete i (bs_inflight s); bs_answers := bs_answers s ++ [(r, code)] |}.

Definition with_serve (p : ServePc) (errs : list go_error) (s : BridgeRun) : BridgeRun :=
  {| bs_bus := bs_bus s; bs_serve := p; bs_start := bs_start s; bs_ctx := bs_ctx s; bs_errCh := errs;
     bs_inflight := bs_inflight s; bs_answers := bs_answers s |}.
Definition with_start (p : StartPc) (s : BridgeRun) : BridgeRun :=
  {| bs_bus := bs_bus s; bs_serve := bs_serve s; bs_start := p; bs_ctx := bs_ctx s; bs_errCh := bs_errCh s;
     bs_inflight := bs_inflight s; bs_answers := bs_answers s |}.
Definition with_ctx (s : BridgeRun) : BridgeRun :=
  {| bs_bus := bs_bus s; bs_serve := bs_serve s; bs_start := bs_start s; bs_ctx := true; bs_errCh := bs_errCh s;
     bs_inflight := bs_inflight s; bs_answers := bs_answers s |}.
Definition arrive (r : Request) (s : BridgeRun) : BridgeRun :=
  {| bs_bus := bs_bus s; bs_serve := bs_serve s; bs_start := bs_start s; bs_ctx := bs_ctx s; bs_errCh := bs_errCh s;
     bs_inflight := bs_inflight s ++ [r]; bs_answers := bs_answers s |}.

(** [Start]: the steps of its goroutines, and of a handler's. *)
Inductive bridge_step : BridgeRun → BridgeRun → Prop :=
  | step_arrive s r : bs_serve s = Serving → bs_start s = Selecting → bridge_step s (arrive r s)
  | step_answer s i r : bs_inflight s !! i = Some r → bridge_step s (answer i r s)
  | step_cancel s : bs_ctx s = false → bridge_step s (with_ctx s)
  (* ListenAndServe returns an error (the address is taken, Accept fails), sent if there is room *)
  | step_serve_fails s e : bs_serve s = Serving → (length (bs_errCh s) < 1)%nat →
      bridge_step s (with_serve ServeReturned (bs_errCh s ++ [e]) s)
  (* ListenAndServe returns ErrServerClosed, which is not sent *)
  | step_serve_closed s : bs_serve s = Serving → bs_start s ≠ Selecting →
      bridge_step s (with_serve ServeReturned (bs_errCh s) s)
  (* the select takes ctx.Done() and calls Shutdown *)
  | step_select_ctx s : bs_start s = Selecting → bs_ctx s = true → bridge_step s (with_start ShuttingDown s)
  | step_shutdown s : bs_start s = ShuttingDown → bs_inflight s = [] → bridge_step s (with_start (StartReturned None) s)
  | step_shutdown_deadline s e : bs_start s = ShuttingDown → bs_inflight s ≠ [] →
      bridge_step s (with_start (StartReturned (Some e)) s)
  (* the select receives the server's error *)
  | step_select_err s e rest : bs_start s = Selecting → bs_errCh s = e :: rest →
      bridge_step s (with_start (StartReturned (Some (Wrap "falco bridge http server" [e]))) (with_serve (bs_serve s) rest s)).

(** ** What it promises *)

(** What may be on the stream, and what an answer of 200 says. *)
Definition authentic (r : Request) (alert : Alert) : Prop :=
  rq_path r = "/falco" ∧ (br_SharedSecret b = "" ∨ rq_header r = br_SharedSecret b) ∧ rq_body r = Ok alert.
Definition payload (r : Request) (alert : Alert) : result bytes :=
  Marshal_event (FromAlert (br_NodeName b) alert (rq_id r) (rq_now r)).

Context `{HJS : !JetStreamSpec N}.

Lemma publish_event_spec bus subject e n r n' : Bus_PublishNormalizedEvent bus subject e n = (r, n') →
  (messages n' = messages n ∧ r ≠ Ok tt) ∨
  (∃ p, Marshal_event e = Ok p ∧ messages n' = messages n ++ [(subject, p)]).
Proof using Type.
  unfold Bus_PublishNormalizedEvent, publish_payload, mtry, mact, mret, mfail.
  destruct (Marshal_event e) as [p|]; [|by intros [= <- <-]; left].
  destruct (js_Publish bus subject p n) as [[err|] n1] eqn:E; intros [= <- <-].
  - apply js_Publish_err in E as [H1|H1]; [by left|right; eauto].
  - right. apply js_Publish_ok in E as [H1 _]. eauto.
Qed.

(** A request changes the stream only by the payload of an authentic alert,
    and is answered 200 on /falco only once that payload is there. *)
Lemma serve_request_spec r n code n' : serve_request unrouted r n = (code, n') →
  (messages n' = messages n ∧ (rq_path r = "/falco" → code ≠ 200)) ∨
  (∃ alert p, authentic r alert ∧ payload r alert = Ok p ∧ messages n' = messages n ++ [(br_Subject b, p)]).
Proof using HJS.
  unfold serve_request. destruct (rq_path r =? "/falco")%string eqn:Ep; unbool.
  2:{ case_match; intros [= <- <-]; left; done. }
  unfold handle_falco, Bridge_handle. cbv zeta.
  destruct (negb (br_SharedSecret b =? "")%string && negb (rq_header r =? br_SharedSecret b)%string) eqn:Es.
  { intros [= <- <-]. by left. }
  destruct (rq_body r) as [alert|] eqn:Eb; [|intros [= <- <-]; by left].
  destruct (Bus_PublishNormalizedEvent _ _ _ n) as [res n1] eqn:Epub0. pose proof (publish_event_spec _ _ _ _ _ _ Epub0) as Epub.
  intros Hr. simpl in Hr. assert (n' = n1) as -> by (destruct res; simpl in Hr; injection Hr as _ <-; by rewrite Epub0).
  destruct Epub as [[Hm Hres]|(p & Hp & Hm)].
  - left. split; [done|]. intros _. destruct res as [[]|]; [done|]. simpl in Hr. by injection Hr as <- _.
  - right. exists alert, p. split; [|done]. split; [done|]. split; [|done].
    apply andb_false_iff in Es as [Es|Es]; unbool; auto.
Qed.

Definition served (r : Request) (m : string * bytes) : Prop :=
  ∃ alert p, authentic r alert ∧ payload r alert = Ok p ∧ m = (br_Subject b, p).

Record bridge_inv (n0 : N) (s : BridgeRun) : Prop := {
  bi_ok r : (r, 200) ∈ bs_answers s → rq_path r = "/falco" → ∃ m, served r m ∧ m ∈ messages (bs_bus s);
  bi_only m : m ∈ messages (bs_bus s) → m ∈ messages n0 ∨ ∃ r code, (r, code) ∈ bs_answers s ∧ served r m;
  bi_room : bs_serve s = Serving → bs_errCh s = [];
  bi_err : bs_serve s = ServeReturned → bs_start s = Selecting → bs_errCh s ≠ [];
  bi_drained : bs_start s = StartReturned None → bs_inflight s = []
}.

Lemma answer_inv n0 s i r : bs_inflight s !! i = Some r → bridge_inv n0 s → bridge_inv n0 (answer i r s).
Proof using HJS.
  intros Hi [Hok Honly Hroom Herr Hdr]. unfold answer.
  destruct (serve_request unrouted r (bs_bus s)) as [code n] eqn:Es. apply serve_request_spec in Es.
  assert (Hgrow : ∀ m, m ∈ messages (bs_bus s) → m ∈ messages n).
  { intros m Hm. destruct Es as [[-> _]|(? & ? & _ & _ & ->)]; [done|]. set_solver. }
  split; simpl; [| |done|done|].
  - intros r' [Ha|[= -> <-]%list_elem_of_singleton]%elem_of_app Hp.
    { destruct (Hok r' Ha Hp) as (m & Hs & Hm). eauto. }
    destruct Es as [[_ Hc]|(al & p & Ha & Hpay & ->)]; [by destruct Hc|].
    exists (br_Subject b, p). split; [by exists al, p|set_solver].
  - intros m Hm. assert (Hold : m ∈ messages (bs_bus s) ∨ served r m).
    { destruct Es as [[Hn _]|(al & p & Ha & Hpay & Hn)]; rewrite Hn in Hm; [by left|].
      apply elem_of_app in Hm as [Hm| ->%list_elem_of_singleton]; [by left|right]. by exists al, p. }
    destruct Hold as [Hold|Hs]; [|right; exists r, code; set_solver].
    destruct (Honly m Hold) as [|(r' & c & Hin & Hs)]; [by left|right; exists r', c; set_solver].
  - intros Hst. rewrite (Hdr Hst) in Hi. done.
Qed.

Lemma bridge_step_inv n0 s s' : bridge_inv n0 s → bridge_step s s' → bridge_inv n0 s'.
Proof using HJS.
  intros HI Hstep. destruct Hstep as [s r Hs Hst|s i r Hi|s Hc|s e Hs Hl|s Hs Hst|s Hst Hc|s Hst Hi|s e Hst Hi|s e rest Hst He].
  2:{ by apply answer_inv. }
  all: destruct HI as [Hok Honly Hroom Herr Hdr]; split; simpl; try done; try congruence.
  - intros _ _. by destruct (bs_errCh s).
  - intros Hs. specialize (Hroom Hs). congruence.
Qed.

Lemma bridge_reach_inv n s : rtc bridge_step (bridge_init n) s → bridge_inv n s.
Proof using HJS.
  intros Hr. remember (bridge_init n) as s0 eqn:E. assert (HI : bridge_inv n s0).
  { subst s0. split; simpl; try done; [by intros r ?%elem_of_nil|auto]. }
  clear E. induction Hr as [|s1 s2 s3 H12 _ IH]; [done|]. apply IH. by eapply bridge_step_inv.
Qed.

(** C31: An alert Falco was told 200 for is on the stream, and nothing else is. In
    every interleaving of the server, the handlers and the shutdown, each request
    answered 200 on /falco carried the shared secret, if one is set, and a body
    that decodes, and its event's payload has been published on the configured
    subject; every message the bridge added is the payload of such a request; and
    when Start returns without an error no request is left unanswered. *)
Theorem acknowledged_alerts_published n s : rtc bridge_step (bridge_init n) s →
  (∀ r, (r, 200) ∈ bs_answers s → rq_path r = "/falco" → ∃ m, served r m ∧ m ∈ messages (bs_bus s)) ∧
  (∀ m, m ∈ messages (bs_bus s) → m ∈ messages n ∨ ∃ r code, (r, code) ∈ bs_answers s ∧ served r m) ∧
  (bs_start s = StartReturned None → bs_inflight s = []).
Proof using HJS. intros [Hok Honly _ _ Hdr]%bridge_reach_inv. done. Qed.

(** ** Shutdown *)

(** Start is never stuck: with the context over, or the server gone, one of its
    own steps is enabled, and the server's goroutine can always send its error. *)
Definition start_moves (s : BridgeRun) : Prop := ∃ s', bridge_step s s' ∧ bs_start s' ≠ bs_start s.

Lemma start_not_stuck n s : rtc bridge_step (bridge_init n) s →
  (∀ e, bs_start s ≠ StartReturned e) → (bs_start s = Selecting → bs_ctx s = true ∨ bs_serve s = ServeReturned) →
  start_moves s.
Proof using HJS.
  intros [_ _ _ Herr _]%bridge_reach_inv Hnot Hover. destruct (bs_start s) as [| |e] eqn:Est; [| |by destruct (Hnot e)].
  - destruct (Hover eq_refl) as [Hc|Hs].
    + eexists. split; [by apply step_select_ctx|]. simpl. congruence.
    + specialize (Herr Hs eq_refl). destruct (bs_errCh s) as [|e rest] eqn:Ee; [done|].
      eexists. split; [by eapply step_select_err|]. simpl. congruence.
  - destruct (bs_inflight s) as [|r l] eqn:Ei.
    + eexists. split; [by apply step_shutdown|]. simpl. congruence.
    + eexists. split; [by apply (step_shutdown_deadline s (Errorf "context deadline exceeded")); [|rewrite Ei]|].
      simpl. congruence.
Qed.

Lemma server_never_blocks n s : rtc bridge_step (bridge_init n) s → bs_serve s = Serving → (length (bs_errCh s) < 1)%nat.
Proof using HJS. intros [_ _ Hroom _ _]%bridge_reach_inv Hs. rewrite (Hroom Hs). simpl. lia. Qed.

(** Once Shutdown has begun every step takes the bridge closer to its end. *)
Definition remaining (s : BridgeRun) : nat :=
  length (bs_inflight s) + (if bs_serve s is Serving then 1 else 0) + (if bs_ctx s then 0 else 1) +
  match bs_start s with Selecting => 2 | ShuttingDown => 1 | StartReturned _ => 0 end.

Lemma remaining_decreases s s' : bs_start s ≠ Selecting → bridge_step s s' →
  bs_start s' ≠ Selecting ∧ (remaining s' < remaining s)%nat.
Proof using Type.
  intros Hsel Hstep. destruct Hstep as [s r Hs Hst|s i r Hi|s Hc|s e Hs Hl|s Hs Hst|s Hst Hc|s Hst Hi|s e Hst Hi|s e rest Hst He];
    try done; unfold remaining, answer; simpl.
  - destruct (serve_request _ _ _); simpl. split; [done|]. apply lookup_lt_Some in Hi as Hlt.
    rewrite length_delete by by eexists. lia.
  - rewrite Hc. split; [done|lia].
  - rewrite Hs. split; [done|lia].
  - rewrite Hs. split; [done|lia].
  - rewrite Hst. split; [done|lia].
  - rewrite Hst. split; [done|lia].
Qed.

Lemma shutdown_bounded k s s' : bs_start s ≠ Selecting → nsteps bridge_step k s s' → (k ≤ remaining s)%nat.
Proof using Type.
  intros Hsel Hn. induction Hn as [s|k s1 s2 s3 H12 _ IH]; [lia|].
  apply remaining_decreases in H12 as [H1 H2]; [|done]. specialize (IH H1). lia.
Qed.

(** The bridge stops when it is told to. In every interleaving, once the
    select has left its wait no request is accepted any more and at most
    [remaining] steps follow; until Start has returned, a context that is over or
    a server that is gone lets one of its own steps happen, as does a shutdown
    under way; and the server's goroutine never blocks on its error channel. *)
Theorem bridge_shuts_down n s : rtc bridge_step (bridge_init n) s →
  (bs_start s ≠ Selecting → ∀ k s', nsteps bridge_step k s s' → (k ≤ remaining s)%nat) ∧
  ((∀ e, bs_start s ≠ StartReturned e) → (bs_start s = Selecting → bs_ctx s = true ∨ bs_serve s = ServeReturned) →
   start_moves s) ∧
  (bs_serve s = Serving → (length (bs_errCh s) < 1)%nat).
Proof using HJS.
  intros Hr. split; [intros ? k s'; by apply shutdown_bounded|].
  split; [by apply start_not_stuck with n|by apply server_never_blocks with n].
Qed.
End Bridge.
Arguments BridgeRun N : clear implicits.

(** ** main *)

Section FalcoMain.
Context {N : Type} `{HN : NatsLib N} `{HJ : JetStream N} `{HE : Json}.
Context (pd : string → result Duration) (env : gmap string string) (hostname : result string).

Definition new_bridge (cfg : falco_config) (bus : nat) : Bridge :=
  {| br_Addr := fb_listenAddr cfg; br_Bus := bus; br_Subject := fb_natsEventsSubject cfg;
     br_NodeName := falco_nodeName env hostname; br_SharedSecret := fb_sharedSecret cfg |}.

(** [main args n code n']: an execution that ends with the exit code [code] and
    leaves [n']. Building the logger and the HTTP client are outside the source. *)
Inductive falco_main (get : string → result Z) (logger : error) (unrouted : Request → Z) (args : list string) (n : N) : Z → N → Prop :=
  | main_healthcheck : args !! 1%nat = Some "healthcheck" →
      falco_main get logger unrouted args n (falco_runHealthcheck get (falco_loadConfig pd env)) n
  | main_no_logger e : args !! 1%nat ≠ Some "healthcheck" → logger = Some e → falco_main get logger unrouted args n 1 n
  | main_no_bus e n1 : args !! 1%nat ≠ Some "healthcheck" → logger = None →
      Connect (falco_bus_config (falco_loadConfig pd env)) n = (Fail e, n1) →
      falco_main get logger unrouted args n 1 n1
  | main_served bus n1 s err : args !! 1%nat ≠ Some "healthcheck" → logger = None →
      Connect (falco_bus_config (falco_loadConfig pd env)) n = (Ok bus, n1) →
      rtc (bridge_step (new_bridge (falco_loadConfig pd env) bus) unrouted) (bridge_init n1) s →
      bs_start s = StartReturned err →
      falco_main get logger unrouted args n (match err with None => 0 | Some _ => 1 end) (bs_bus s).

(** A serving bridge exits with 0 only after answering every request it
    accepted, each 200 of them published. *)
Lemma falco_main_clean `{!JetStreamSpec N} get logger unrouted args n n' :
  falco_main get logger unrouted args n 0 n' → args !! 1%nat ≠ Some "healthcheck" →
  ∃ bus n1 s, Connect (falco_bus_config (falco_loadConfig pd env)) n = (Ok bus, n1) ∧ bs_bus s = n' ∧ bs_inflight s = [] ∧
    ∀ r, (r, 200) ∈ bs_answers s → rq_path r = "/falco" →
      ∃ m, served (new_bridge (falco_loadConfig pd env) bus) r m ∧ m ∈ messages n'.
Proof using Type.
  intros Hm Hargs. inversion Hm; [done|]. destruct err; [done|].
  match goal with Hr : rtc _ _ _ |- _ => pose proof (bridge_reach_inv _ _ _ _ Hr) as [Hok _ _ _ Hdr] end.
  exists bus, n1, s. auto.
Qed.
End FalcoMain.

(** ** The bridge at work *)

Module FalcoSample.
Import MessagingSample.

Definition bridge : Bridge :=
  {| br_Addr := ":2801"; br_Bus := 0%nat; br_Subject := "events"; br_NodeName := "worker-1"; br_SharedSecret := "s3cret" |}.
Definition alert : Alert := {| al_Time := 0; al_Hostname := "worker-1"; al_OutputFields := ∅ |}.
Definition post (secret : string) : Request :=
  {| rq_path := "/falco"; rq_header := secret; rq_body := Ok alert; rq_id := "id-1"; rq_now := 0 |}.
Definition not_found (r : Request) : Z := 404.
Definition empty_stream : SimJs := {| sj_messages := []; sj_subs := ∅ |}.

(** One request with the secret, one without it, and a shutdown. *)
Definition s0 : BridgeRun SimJs := bridge_init empty_stream.
Definition s1 := arrive (post "guess") (arrive (post "s3cret") s0).
Definition s2 := answer bridge not_found 0 (post "guess") (answer bridge not_found 0 (post "s3cret") s1).
Definition s3 := with_start (StartReturned None) (with_start ShuttingDown (with_ctx s2)).

Lemma cancelled : rtc (bridge_step bridge not_found) s0 (with_ctx s2).
Proof.
  eapply rtc_l; [by apply (step_arrive _ _ s0 (post "s3cret"))|].
  eapply rtc_l; [by apply (step_arrive _ _ _ (post "guess"))|].
  eapply rtc_l; [by apply (step_answer _ _ _ 0 (post "s3cret"))|].
  eapply rtc_l; [by apply (step_answer _ _ _ 0 (post "guess"))|].
  apply rtc_once. by apply step_cancel.
Qed.
Lemma session : rtc (bridge_step bridge not_found) s0 s3.
Proof.
  etrans; [apply cancelled|]. eapply rtc_l; [by apply step_select_ctx|]. apply rtc_once. by apply step_shutdown.
Qed.

Lemma acknowledged_alerts_published_witness :
  (bs_answers s3).*2 = [200; 401] ∧ messages (bs_bus s3) = [("events", [123])] ∧ bs_inflight s3 = [] ∧
  ∃ m, served bridge (post "s3cret") m ∧ m ∈ messages (bs_bus s3).
Proof.
  destruct (acknowledged_alerts_published bridge not_found empty_stream s3 session) as (Hok & _ & Hd).
  split; [reflexivity|]. split; [reflexivity|]. split; [apply Hd; reflexivity|].
  apply (Hok (post "s3cret")); [left|reflexivity].
Defined.

Lemma bridge_shuts_down_witness :
  remaining (with_ctx s2) = 3%nat ∧ start_moves bridge not_found (with_ctx s2) ∧ (length (bs_errCh s3) < 1)%nat.
Proof.
  split; [reflexivity|]. split.
  - apply (bridge_shuts_down bridge not_found empty_stream (with_ctx s2) cancelled); [discriminate|left; reflexivity].
  - apply (bridge_shuts_down bridge not_found empty_stream s3 session). reflexivity.
Defined.
End FalcoSample.
