(* ===== verification/ClosedLoop.v ===== *)
(** * ClosedLoop: from a packet to a drop

    The composition of the components: a GTP-U record from the kernel is
    normalised and judged by the Publisher, the score it publishes is delivered
    to the watcher's callback, and the policies of the Pod act on it. *)

From S2P Require Import Prelude GoStrings GoFloat NetIP Events Api BoundedFifo TunnelFlood Blocklist Loader PolicyIndex PodIPIndex KillSwitch ReactorLimiter ScoringPipeline Metrics Ingestion World Bus Decision Watcher SampleWorld WatcherProofs.
From Stdlib Require Import SpecFloat.

Local Open Scope Z_scope.
Local Open Scope go_scope.

(** ** The sensing half *)

(** The score of a flooding record, as the Publisher publishes it. *)
Definition flood_score (evt : SignalingEvent) (ref : NamespacedName) (id : string) (now : Time) : ThreatScoreEvent :=
  {| ts_SourceEventID := id; ts_Namespace := nn_Namespace ref; ts_PodName := nn_Name ref;
     ts_SourceIP := IPString (se_SourceIP evt); ts_TEID := se_TEID evt; ts_Score := f64_one;
     ts_Model := ModelGTPUTunnelFlood; ts_DetectedAt := now |}.

(** A GTP-U record of a tunnel at or above the rule's rate. *)
Record flooding (evt : SignalingEvent) (d : GTPUFloodDetector) : Prop := {
  fl_ip : ip_wf (se_SourceIP evt);
  fl_proto : se_Protocol evt = SignalProtoGTPU;
  fl_teid : 0 < se_TEID evt < 2 ^ 32;
  fl_rate : 0 ≤ se_TunnelRate evt < 2 ^ 32;
  fl_enabled : fc_Enabled (fd_cfg d) = true;
  fl_threshold : 0 < fc_PacketsPerSecond (fd_cfg d) ≤ se_TunnelRate evt
}.

(** The tunnel is not within the cooldown of an earlier report. *)
Definition reportable (evt : SignalingEvent) (d : GTPUFloodDetector) (now : Time) : Prop :=
  match ff_map (fd_seen d) !! mk_tid (IPString (se_SourceIP evt)) (se_TEID evt) with
  | Some last => fc_Cooldown (fd_cfg d) ≤ Sub now last
  | None => True
  end.

Lemma flood_reported evt idx rate node id now d ref : flooding evt d → reportable evt d now →
  PodIPIndex_Lookup idx (IPString (se_SourceIP evt)) = Some ref →
  ∃ d', Evaluate d (FromSignalingEvent evt idx rate node id) now = (flood_score evt ref id now, true, d').
Proof.
  intros [Hip Hp Ht Hr He Hth] Hrep Href. unfold Evaluate. rewrite He.
  assert (E1 : (fc_PacketsPerSecond (fd_cfg d) =? 0) = false) by (apply Z.eqb_neq; lia).
  assert (E2 : (se_TEID evt =? 0) = false) by (apply Z.eqb_neq; lia).
  rewrite E1. cbn [ne_Protocol ne_TEID ne_TunnelRatePerSecond ne_SourceIP ne_EventID ne_Namespace ne_PodName FromSignalingEvent].
  rewrite Hp, E2. change ((protocolFromSignal SignalProtoGTPU =? ProtocolGTPU)%string) with true. simpl.
  rewrite f64_ltb_of_Z by lia. rewrite (proj2 (Z.ltb_ge _ _)) by lia.
  destruct (claim d _ now) as [ok d'] eqn:Ec. pose proof (claim_true_iff _ _ _ _ _ Ec) as [_ Hok].
  rewrite (Hok Hrep), Href. by eexists.
Qed.

(** The first call of the step is the report. *)
Lemma step_reports cfg evt idx rate id now p d ref :
  pub_connected p = true → pub_TunnelFlood p = Some d → flooding evt d → reportable evt d now →
  PodIPIndex_Lookup idx (IPString (se_SourceIP evt)) = Some ref →
  ∃ rest, (Publisher_step cfg (StreamEvent evt idx rate id now) p).1.1 =
    PublishThreatScore (pc_ThreatsSubject cfg) (flood_score evt ref id now) :: rest.
Proof.
  intros Hc Hd Hf Hrep Href. unfold Publisher_step. rewrite Hc. cbn [negb].
  destruct (flood_reported evt idx rate (pc_NodeName cfg) id now d ref Hf Hrep Href) as [d' Hev].
  unfold evaluateTunnelFlood. rewrite Hd, Hev.
  destruct (evaluateSourceFlood _ _ _ _) as [c2 p2]. destruct (publish_telemetry _ _ _) as [c3 p3].
  by eexists.
Qed.

(** ** The acting half *)

Section Acting.
Context {A B Ms L : Type}.
Context `{HA : ApiServer A, HAS : !ApiSpec A} `{HB : BlocklistUpdater B, HBS : !BlocklistSpec B}.
Context `{HM : MeshAdapter Ms} `{HL : RateLimiter L} `{HR : RangeOrder}.
Context (clock : nat → Time) (BaseThreshold : f64).

Abbreviation W := (World A B Ms L).

(** The state in which the policies get a score: after its metrics, the first
    score's mark and the Pod lookup. *)
Definition lookup_state (ev : ThreatScoreEvent) (w : W) : W :=
  let w1 := set_metrics (score_Observe (ts_Score ev)
    (metric_Inc ThreatScoresReceived [scoreSourceLabel (ts_Model ev)] (w_metrics w))) w in
  let w2 := match w_scoring w1 with
            | Some tr => if negb (firstScoreUnixNano tr =? 0) then w1
                         else set_scoring (Some (Observe (clock (w_tick w1)) tr)) (set_tick (S (w_tick w1)) w1)
            | None => w1
            end in
  set_api (api_GetPod {| nn_Namespace := ts_Namespace ev; nn_Name := ts_PodName ev |} (w_api w)).2 w2.

Lemma handle_eq ev (w : W) labels :
  (api_GetPod {| nn_Namespace := ts_Namespace ev; nn_Name := ts_PodName ev |} (w_api w)).1 = Ok labels →
  handle clock BaseThreshold ev w =
  apply_all clock BaseThreshold ev (MatchingPolicies (w_index w) (ts_Namespace ev) labels) (lookup_state ev w).
Proof using Type.
  intros Hg. unfold handle, lookup_state, mbind, metric, mget, mtry, api. simpl.
  destruct (w_scoring w) as [tr|]; [destruct (negb _)|]; simpl;
    destruct (api_GetPod _ (w_api w)) as [g a]; simpl in *; by subst.
Qed.

Lemma lookup_state_frame ev (w : W) :
  w_block (lookup_state ev w) = w_block w ∧
  api_policies (w_api (lookup_state ev w)) = api_policies (w_api w).
Proof using Type.
  unfold lookup_state. simpl. split; [|apply GetPod_frame].
  destruct (w_scoring w) as [tr|]; [destruct (negb _)|]; done.
Qed.

(** Processing one score never lifts a drop, and adds at most the event's own. *)
Definition adds_at_most (ips : gset (list Z)) (tunnels : gset (list Z * Z)) (w w' : W) : Prop :=
  bl_ips (w_block w) ⊆ bl_ips (w_block w') ⊆ ips ∪ bl_ips (w_block w) ∧
  bl_tunnels (w_block w) ⊆ bl_tunnels (w_block w') ⊆ tunnels ∪ bl_tunnels (w_block w).

Lemma adds_at_most_same ips tunnels (w w' : W) : w_block w' = w_block w → adds_at_most ips tunnels w w'.
Proof using Type. intros Hb. unfold adds_at_most. rewrite Hb. clear. set_solver. Qed.
Lemma adds_at_most_trans ips tunnels (w1 w2 w3 : W) :
  adds_at_most ips tunnels w1 w2 → adds_at_most ips tunnels w2 w3 → adds_at_most ips tunnels w1 w3.
Proof using Type. unfold adds_at_most. clear. set_solver. Qed.

Lemma applyPolicy_grows policy ev (w : W) r w' : bl_inv (w_block w) → in_width 32 (ts_TEID ev) →
  applyPolicy clock BaseThreshold policy ev w = (r, w') →
  adds_at_most (event_ips policy ev) (event_tunnels policy ev) w w'.
Proof using HAS.
  intros HI Ht Hrun.
  destruct (applyPolicy_cases _ _ _ _ _ _ _ Hrun) as [[_ (w0 & [Hb _] & _ & Hm)]|[_ (w0 & ph & [Hb _] & _ & Hw & _)]].
  - unfold adds_at_most. rewrite <- Hb in HI |- *.
    apply mitigate_inv in Hm as (w1 & w2 & rw & t & _ & _ & _ & _ & _ & Hfail & Hok & _); [|done..].
    destruct rw as [[]|e]; [by apply Hok|]. apply (adds_at_most_same _ _ w0). by destruct (Hfail eq_refl) as [_ [-> _]].
  - pose proof (writeStatus_frame _ _ _ _ _ _ Hw) as [Hb' _]. apply adds_at_most_same. by rewrite Hb', Hb.
Qed.

(** The sets of one event, whatever the policy. *)
Lemma event_sets_bound policy ev a : ParseIP (ts_SourceIP ev) ≫= canon = Some a →
  event_ips policy ev ⊆ {[a]} ∧ event_tunnels policy ev ⊆ {[(a, ts_TEID ev)]}.
Proof using Type. intros Ha. unfold event_ips, event_tunnels. rewrite Ha. split; case_match; set_solver. Qed.

Lemma apply_all_grows ps ev a (w : W) : bl_inv (w_block w) → in_width 32 (ts_TEID ev) →
  ParseIP (ts_SourceIP ev) ≫= canon = Some a →
  bl_inv (w_block (apply_all clock BaseThreshold ev ps w).2) ∧
  adds_at_most {[a]} {[(a, ts_TEID ev)]} w (apply_all clock BaseThreshold ev ps w).2.
Proof using HAS.
  intros HI Ht Ha. revert w HI. induction ps as [|p ps IH]; intros w HI; [split; [done|by apply adds_at_most_same]|].
  rewrite apply_all_cons. destruct (applyPolicy clock BaseThreshold p ev w) as [r w1] eqn:E. simpl.
  pose proof (applyPolicy_inv _ _ _ _ _ _ _ HI Ht E) as HI1. apply applyPolicy_grows in E; [|done..].
  destruct (event_sets_bound p ev a Ha) as [Hi Htn]. destruct (IH w1 HI1) as [? Hrest]. split; [done|].
  eapply adds_at_most_trans; [|exact Hrest]. unfold adds_at_most in *. clear -E Hi Htn. set_solver.
Qed.

Lemma apply_all_app ps qs ev (w : W) : apply_all clock BaseThreshold ev (ps ++ qs) w =
  apply_all clock BaseThreshold ev qs (apply_all clock BaseThreshold ev ps w).2.
Proof using Type.
  revert w. induction ps as [|p ps IH]; intros w; [done|]. simpl app. by rewrite !apply_all_cons, IH.
Qed.

(** One armed policy among those that match: its own success is the drop,
    whatever the others do. *)
Lemma policy_acts ev a (w : W) l1 policy l2 : bl_inv (w_block w) → in_width 32 (ts_TEID ev) →
  ParseIP (ts_SourceIP ev) ≫= canon = Some a →
  NoDup (pol_key <$> l1 ++ policy :: l2) →
  let w1 := (apply_all clock BaseThreshold ev l1 w).2 in
  armed clock BaseThreshold policy ev w1 → is_Ok (applyPolicy clock BaseThreshold policy ev w1).1 = true →
  let w' := (apply_all clock BaseThreshold ev (l1 ++ policy :: l2) w).2 in
  event_tunnels policy ev ⊆ bl_tunnels (w_block w') ∧
  ((∃ s, stored w' (pol_key policy) = Some s ∧ st_Phase s = PolicyPhaseMitigating) ∨
   (st_Phase (pol_Status policy) = PolicyPhaseMitigating ∧ stored w' (pol_key policy) = stored w (pol_key policy))).
Proof using Type.
  intros HI Ht Ha Hnd w1 Harm Hok w'. destruct (apply_all_grows l1 ev a w HI Ht Ha) as [HI1 _]. fold w1 in HI1.
  rewrite fmap_app in Hnd. apply NoDup_app in Hnd as (_ & Hdis & Hnd). csimpl in *.
  apply NoDup_cons in Hnd as [Hnin _].
  assert (Hst1 : stored w1 (pol_key policy) = stored w (pol_key policy)).
  { unfold stored, w1. f_equal. destruct (apply_all_total clock BaseThreshold l1 ev w) as [wx Hx].
    rewrite Hx. simpl. apply (apply_all_other _ _ _ _ _ _ _ (pol_key policy) Hx).
    intros Hin. by eapply Hdis; [exact Hin|left]. }
  unfold w'. rewrite apply_all_app. fold w1. rewrite apply_all_cons.
  destruct (applyPolicy clock BaseThreshold policy ev w1) as [[[]|e] w2] eqn:E; [|done]. simpl.
  pose proof (applyPolicy_inv _ _ _ _ _ _ _ HI1 Ht E) as HI2.
  destruct (armed_step _ _ _ _ _ _ HI1 Ht Harm E) as (_ & Htn & _ & Hs).
  destruct (apply_all_grows l2 ev a w2 HI2 Ht Ha) as [_ [_ [Hg _]]]. split; [clear -Htn Hg; set_solver|].
  assert (Hst2 : stored (apply_all clock BaseThreshold ev l2 w2).2 (pol_key policy) = stored w2 (pol_key policy)).
  { unfold stored. f_equal. destruct (apply_all_total clock BaseThreshold l2 ev w2) as [wx Hx]. rewrite Hx.
    by apply (apply_all_other _ _ _ _ _ _ _ (pol_key policy) Hx). }
  by rewrite Hst2, <- Hst1.
Qed.

(** ** The loop *)

(** C5: The loop closes. When the kernel reports a GTP-U packet of a tunnel at
    or above the configured rate, from an address the Pod index resolves, not
    reported within the cooldown, and the bus is connected, the Publisher
    publishes a score for it at once. Delivering that score, with the Pod found
    in the cluster, acknowledges it; it lifts no drop and adds none but that
    source address and that (source, TEID) tunnel; and any matching policy with
    autoMitigate and ebpfBlockTunnel either is held back by the kill switch, or
    failed in its own processing, or ends with the kernel dropping the tunnel
    and its stored status Mitigating (as it was before, when the cached policy
    already was Mitigating and the refresh was throttled). *)
Theorem closed_loop cfg evt idx rate id now p d ref a (w : W) labels l1 policy l2 disp w' :
  pub_connected p = true → pub_TunnelFlood p = Some d → flooding evt d → reportable evt d now →
  PodIPIndex_Lookup idx (IPString (se_SourceIP evt)) = Some ref → canon (se_SourceIP evt) = Some a →
  bl_inv (w_block w) → pi_inv (w_index w) →
  (api_GetPod ref (w_api w)).1 = Ok labels →
  MatchingPolicies (w_index w) (nn_Namespace ref) labels = l1 ++ policy :: l2 →
  td_AutoMitigate (spec_ThreatDetection (pol_Spec policy)) = true →
  act_EbpfBlockTunnel (spec_Actions (pol_Spec policy)) = true →
  let score := flood_score evt ref id now in
  on_message (Ok score) (handle clock BaseThreshold) w = (disp, w') →
  let w1 := (apply_all clock BaseThreshold score l1 (lookup_state score w)).2 in
  (∃ rest, (Publisher_step cfg (StreamEvent evt idx rate id now) p).1.1 =
     PublishThreatScore (pc_ThreatsSubject cfg) score :: rest) ∧
  disp = Ack ∧
  bl_ips (w_block w) ⊆ bl_ips (w_block w') ⊆ {[a]} ∪ bl_ips (w_block w) ∧
  bl_tunnels (w_block w) ⊆ bl_tunnels (w_block w') ⊆ {[(a, se_TEID evt)]} ∪ bl_tunnels (w_block w) ∧
  ((killswitch_Engaged clock w1).1 = Ok true ∨
   is_Ok (applyPolicy clock BaseThreshold policy score w1).1 = false ∨
   ((a, se_TEID evt) ∈ bl_tunnels (w_block w') ∧
    ((∃ s, stored w' (pol_key policy) = Some s ∧ st_Phase s = PolicyPhaseMitigating) ∨
     (st_Phase (pol_Status policy) = PolicyPhaseMitigating ∧
      stored w' (pol_key policy) = stored w (pol_key policy))))).
Proof using Type.
  intros Hc Hd Hf Hrep Href Ha HI Hpi Hpod Hmatch Hauto Htun score Hmsg w1.
  split; [by eapply step_reports|].
  assert (Hnn : {| nn_Namespace := ts_Namespace score; nn_Name := ts_PodName score |} = ref) by by destruct ref.
  assert (Hrun : handle clock BaseThreshold score w =
    apply_all clock BaseThreshold score (l1 ++ policy :: l2) (lookup_state score w)).
  { rewrite <- Hmatch. apply handle_eq. by rewrite Hnn. }
  destruct (apply_all_total clock BaseThreshold (l1 ++ policy :: l2) score (lookup_state score w)) as [wx Hx].
  unfold on_message in Hmsg. rewrite Hrun, Hx in Hmsg. injection Hmsg as <- <-. split; [done|].
  destruct (lookup_state_frame score w) as [Hb Hp]. destruct Hf as [Hip _ Ht _ _ _].
  destruct (ParseIP_IPString _ Hip) as (ip' & Hparse & Hcan).
  assert (Hsrc : ParseIP (ts_SourceIP score) ≫= canon = Some a) by (simpl; rewrite Hparse; simpl; by rewrite Hcan).
  assert (Hwidth : in_width 32 (ts_TEID score)) by (unfold in_width; simpl; lia).
  pose proof HI as HI0. rewrite <- Hb in HI0.
  destruct (apply_all_grows (l1 ++ policy :: l2) score a _ HI0 Hwidth Hsrc) as [_ [Hips Htns]].
  rewrite Hx, Hb in Hips, Htns. split; [exact Hips|]. split; [exact Htns|].
  destruct (killswitch_Engaged_frame clock w1) as (eng & wk & Hk & _).
  destruct eng; [left; by rewrite Hk|right].
  destruct (is_Ok (applyPolicy clock BaseThreshold policy score w1).1) eqn:Hok; [right|by left].
  destruct (policy_acts score a (lookup_state score w) l1 policy l2 HI0 Hwidth Hsrc) as [Htn Hph].
  - rewrite <- Hmatch. by apply MatchingPolicies_NoDup.
  - split; [apply full_score_crosses|]. split; [done|]. exact (f_equal fst Hk).
  - exact Hok.
  - rewrite Hx in Htn, Hph. split.
    + apply Htn. unfold event_tunnels, wants_tunnel. rewrite Hsrc. simpl. rewrite Htun, Hparse. simpl.
      rewrite (proj2 (Z.eqb_neq _ _)) by lia. simpl. by apply elem_of_singleton.
    + assert (Hst : stored (lookup_state score w) (pol_key policy) = stored w (pol_key policy))
        by (unfold stored; by rewrite Hp). by rewrite <- Hst.
Qed.

(** ** Redelivery *)

(** What one delivery is answered, and what it leaves alone. *)
Lemma on_message_answer decoded (w : W) disp w' :
  on_message decoded (handle clock BaseThreshold) w = (disp, w') →
  match decoded with
  | Fail _ => disp = Term ∧ w' = w
  | Ok ev =>
      match (api_GetPod {| nn_Namespace := ts_Namespace ev; nn_Name := ts_PodName ev |} (w_api w)).1 with
      | Ok _ => disp = Ack
      | Fail err =>
          disp = (if errors_Is err ErrNotFound then Ack else Nak) ∧
          same_enforcement w w' ∧ api_policies (w_api w') = api_policies (w_api w)
      end
  end.
Proof using Type.
  destruct decoded as [ev|err]; simpl; [|by intros [= <- <-]].
  destruct (handle clock BaseThreshold ev w) as [r wr] eqn:Hrun. intros Hd.
  assert (Hdisp : disp = (if is_Ok r then Ack else Nak) ∧ w' = wr) by (destruct r; by simplify_eq).
  destruct Hdisp as [-> ->].
  destruct (handle_run _ _ _ _ _ _ Hrun) as (w0 & g & a & Hse & _ & Hg & Ha & Hrest). rewrite Hg. simpl.
  destruct g as [labels|err].
  - destruct (apply_all_total clock BaseThreshold
      (MatchingPolicies (w_index w) (ts_Namespace ev) labels) ev w0) as [wx Hx].
    rewrite Hrest in Hx. by simplify_eq.
  - destruct Hrest as [-> ->]. split; [done|]. split; [done|]. rewrite Ha.
    pose proof (GetPod_frame {| nn_Namespace := ts_Namespace ev; nn_Name := ts_PodName ev |} (w_api w)) as Hfr.
    by rewrite Hg in Hfr.
Qed.

(** JetStream's side of the consumer: whether it delivers a message again after
    its n-th delivery got that answer, under a MaxDeliver limit. The server
    redelivers what was Nak'd, as long as the limit is not reached. *)
Context (redelivers : Z → nat → Disposition → bool).
Context (redelivers_spec : ∀ max n d, redelivers max n d = true ↔ d = Nak ∧ Z.of_nat n < max).

(** The deliveries of one message from its n-th on: the world each one found,
    the answer, and the world it left. [meanwhile] is whatever happens to the
    world before the next delivery; the fuel is the limit the subscription
    asks for. *)
Fixpoint message_deliveries (fuel : nat) (meanwhile : nat → W → W) (decoded : result ThreatScoreEvent) (n : nat)
    (w : W) : list (W * Disposition * W) :=
  let '(d, w') := on_message decoded (handle clock BaseThreshold) w in
  (w, d, w') ::
    match fuel with
    | O => []
    | S fuel' => if redelivers maxThreatScoreDeliveries n d
                 then message_deliveries fuel' meanwhile decoded (S n) (meanwhile n w') else []
    end.

(** The Pod lookup of a delivery fails for a reason other than absence. *)
Definition lookup_fails (decoded : result ThreatScoreEvent) (w : W) : Prop :=
  ∃ ev err, decoded = Ok ev ∧ errors_Is err ErrNotFound = false ∧
    (api_GetPod {| nn_Namespace := ts_Namespace ev; nn_Name := ts_PodName ev |} (w_api w)).1 = Fail err.

Lemma on_message_nak decoded (w : W) d w' : on_message decoded (handle clock BaseThreshold) w = (d, w') →
  (d = Nak ↔ lookup_fails decoded w) ∧
  (d = Term ↔ ∃ e, decoded = Fail e) ∧
  (d ≠ Ack → same_enforcement w w' ∧ api_policies (w_api w') = api_policies (w_api w)).
Proof using Type.
  intros Hm%on_message_answer. unfold lookup_fails. destruct decoded as [ev|e].
  2:{ destruct Hm as [-> ->]. split; [split; [done|]; by intros (? & ? & ? & _)|]. split; [split; [by eexists|done]|done]. }
  destruct (api_GetPod _ (w_api w)).1 as [labels|err] eqn:Eg.
  { subst d. split; [split; [done|]; intros (ev' & err & [= <-] & _ & ?); congruence|].
    split; [split; [done|]; by intros [? ?]|done]. }
  destruct Hm as (-> & Hs & Hp). destruct (errors_Is err ErrNotFound) eqn:Ee.
  - split; [split; [done|]; intros (ev' & err' & [= <-] & ? & ?); congruence|].
    split; [split; [done|]; by intros [? ?]|done].
  - split; [split; [intros _; by exists ev, err|done]|]. split; [split; [done|]; by intros [? ?]|done].
Qed.

Lemma message_deliveries_spec fuel meanwhile decoded n (w : W) i x d y :
  Z.of_nat n + Z.of_nat fuel = maxThreatScoreDeliveries →
  message_deliveries fuel meanwhile decoded n w !! i = Some (x, d, y) →
  on_message decoded (handle clock BaseThreshold) x = (d, y) ∧
  (is_Some (message_deliveries fuel meanwhile decoded n w !! S i) ↔
     d = Nak ∧ Z.of_nat (n + i) < maxThreatScoreDeliveries).
Proof using redelivers_spec.
  revert n w i. induction fuel as [|fuel IH]; intros n w i Hn Hi; simpl in *;
    destruct (on_message decoded (handle clock BaseThreshold) w) as [d0 w0] eqn:E.
  - destruct i as [|i]; [|done]. injection Hi as <- <- <-. split; [exact E|]. split; [by intros [? ?]|]. lia.
  - destruct i as [|i]; simpl in *.
    + injection Hi as <- <- <-. split; [exact E|]. rewrite Nat.add_0_r, <- redelivers_spec.
      destruct (redelivers _ n d0); [|split; [by intros [? ?]|done]]. split; [done|]. intros _.
      destruct fuel; cbn [message_deliveries]; destruct (on_message decoded _ (meanwhile n w0)) as [d1 w1]; by eexists.
    + destruct (redelivers _ n d0); [|done]. rewrite Nat.add_succ_r. apply (IH (S n)); [lia|done].
Qed.

End Acting.

(** ** The loop at work *)

Module ClosedLoopSample.
Import HashMaps WatcherSample.

(** A flooding subscriber behind 10.0.0.66, TEID 7, on the UPF's node. *)
Definition packet : SignalingEvent := {|
  se_ObservedAt := 0; se_SourceIP := [10; 0; 0; 66]; se_DestIP := [10; 0; 0; 1]; se_DestPort := 2152;
  se_PayloadSize := 1400; se_Protocol := SignalProtoGTPU; se_Malformed := false; se_VLANID := 0;
  se_TEID := 7; se_TunnelRate := 150000 |}.
Definition detector : GTPUFloodDetector := NewGTPUFloodDetector
  {| fc_Enabled := true; fc_PacketsPerSecond := 100000; fc_Cooldown := 30 * Second; fc_MaxTrackedTunnels := 4 |}.
Definition publisher : Publisher :=
  {| pub_TunnelFlood := Some detector; pub_SourceFlood := None; pub_connected := true; pub_batch := [] |}.
Definition pods : PodIPIndex := PodIPIndex_Put "10.0.0.66" upf_pod NewPodIPIndex.
Definition pub_cfg : PublisherConfig :=
  {| pc_Subject := "events"; pc_ThreatsSubject := "threats"; pc_NodeName := "n1"; pc_BatchSize := 1 |}.
Definition no_rate : SignalRateLookup := λ _ _, None.
Definition score : ThreatScoreEvent := flood_score packet upf_pod "e1" 0.
Definition delivered : Disposition * SampleWorld := on_message (Ok score) (handle sample_clock thr) w0.

Lemma packet_floods : flooding packet detector.
Proof.
  split; [|reflexivity|simpl; lia|simpl; lia|reflexivity|simpl; lia].
  split; [repeat constructor; lia|left; reflexivity].
Qed.

Lemma closed_loop_witness :
  delivered.1 = Ack ∧ ([10; 0; 0; 66], 7) ∈ bl_tunnels (w_block delivered.2) ∧
  bl_tunnels (w_block delivered.2) ⊆ {[([10; 0; 0; 66], 7)]} ∪ bl_tunnels (w_block w0).
Proof.
  destruct (closed_loop sample_clock thr pub_cfg packet pods no_rate "e1" 0 publisher detector upf_pod
    [10; 0; 0; 66] w0 {["app" := "upf"]} [] p0 [] delivered.1 delivered.2) as (_ & Hack & _ & [_ Hmost] & Hout).
  - reflexivity.
  - reflexivity.
  - exact packet_floods.
  - exact I.
  - vm_compute. reflexivity.
  - vm_compute. reflexivity.
  - exact w0_inv.
  - exact w0_index.
  - vm_compute. reflexivity.
  - vm_compute. reflexivity.
  - reflexivity.
  - reflexivity.
  - apply surjective_pairing.
  - split; [exact Hack|]. split; [|exact Hmost]. destruct Hout as [Hk|[Hf|[Hin _]]]; [..|exact Hin].
    + vm_compute in Hk. discriminate Hk.
    + vm_compute in Hf. discriminate Hf.
Defined.

(** A score for a Pod that is gone: acknowledged, and delivered once. *)
Definition orphan : ThreatScoreEvent :=
  flood_score packet {| nn_Namespace := "core"; nn_Name := "upf-9" |} "e2" 0.
Definition server (max : Z) (n : nat) (d : Disposition) : bool :=
  match d with Nak => Z.of_nat n <? max | _ => false end.
Lemma server_spec max n d : server max n d = true ↔ d = Nak ∧ Z.of_nat n < max.
Proof. unfold server. destruct d; rewrite ?Z.ltb_lt; naive_solver. Qed.


(** An API server that cannot read Pods: five deliveries, and no more. *)
#[local] Instance podless : ApiServer EtcdApi := {|
  api_GetPod k a := (Fail (Errorf "unreachable"), a);
  api_GetPolicy := @api_GetPolicy _ EtcdApi_server; api_ListPolicies := @api_ListPolicies _ EtcdApi_server;
  api_UpdateStatus := @api_UpdateStatus _ EtcdApi_server; api_Update := @api_Update _ EtcdApi_server;
  api_GetKillSwitch := @api_GetKillSwitch _ EtcdApi_server |}.
Example gives_up : (λ x, x.1.2) <$> message_deliveries sample_clock thr server 4 (λ _ w, w) (Ok orphan) 1 w0 =
  replicate 5 Nak.
Proof. vm_compute. reflexivity. Qed.
End ClosedLoopSample.
