(* ===== verification/Reconciler.v ===== *)
(** * Reconciler: the policy lifecycle
    (pkg/controller/telecomsecuritypolicy_controller.go)

    [Reconcile] registers a policy, reports the scoring pipeline, reverses
    quiet mitigations ([tryDeEscalate]) and releases everything on deletion
    ([finalize]). The Kubernetes helpers it calls on finalizers and conditions
    are outside the source: the class [ApiMachinery]. *)

From S2P Require Import Prelude GoStrings NetIP Api Blocklist PolicyIndex KillSwitch ReactorLimiter ScoringPipeline Metrics World Decision.

Local Open Scope Z_scope.
Local Open Scope go_scope.

Definition telecomSecurityPolicyFinalizer : string := "security.sentinel5g.io/finalizer".
Definition defaultDeEscalationDwell : Duration := 5 * Minute.

(** controllerutil and api/meta, on the lists they maintain. *)
Class ApiMachinery := {
  ContainsFinalizer : list string → string → bool;
  AddFinalizer : list string → string → list string;
  RemoveFinalizer : list string → string → list string;
  FindStatusCondition : list Condition → string → option Condition;
  SetStatusCondition : list Condition → Condition → list Condition
}.

Class ApiMachinerySpec `{ApiMachinery} := {
  ContainsFinalizer_spec l f : ContainsFinalizer l f = true ↔ f ∈ l;
  AddFinalizer_spec l f g : g ∈ AddFinalizer l f ↔ g ∈ l ∨ g = f;
  RemoveFinalizer_spec l f g : g ∈ RemoveFinalizer l f ↔ g ∈ l ∧ g ≠ f;
  FindStatusCondition_type l t c : FindStatusCondition l t = Some c → cond_Type c = t;
  FindStatusCondition_set l c : ∃ c', FindStatusCondition (SetStatusCondition l c) (cond_Type c) = Some c' ∧
    cond_Status c' = cond_Status c ∧ cond_Reason c' = cond_Reason c
}.

(** The fields of the Go struct that are not part of the shared world; nil
    Blocklist, Mesh and Recorder are [false]. *)
Record ReconcilerConfig := {
  rc_Blocklist : bool;
  rc_Mesh : bool;
  rc_Recorder : bool;
  rc_DeEscalationDwell : Duration
}.

Definition deEscalationDwell (r : ReconcilerConfig) : Duration :=
  if 0 <? rc_DeEscalationDwell r then rc_DeEscalationDwell r else defaultDeEscalationDwell.

(** [ctrl.Result] carries one [RequeueAfter]. *)
Definition withSoonerRequeue (result after : Duration) : Duration :=
  if after <=? 0 then result
  else if (result =? 0) || (after <? result) then after else result.

Section Reconciler.
Context {A B Ms L : Type}.
Context `{ApiServer A} `{BlocklistUpdater B} `{MeshAdapter Ms} `{RateLimiter L} `{ApiMachinery}.
Context (clock : nat → Time).
Context (rc : ReconcilerConfig).

Abbreviation W := (World A B Ms L).

Definition wrapf {X} (msg : string) (m : M W X) : M W X :=
  mtry m (λ r, match r with Ok x => mret x | Fail err => mfail (Wrap msg [err]) end).

Definition ns_name (p : TelecomSecurityPolicy) : string := pol_Namespace p +:+ "/" +:+ pol_Name p.

(** The loops over the status lists, shared by de-escalation and finalization. *)
Definition unblock_source (msg : string) (policy : TelecomSecurityPolicy) (raw : string) : M W unit :=
  match ParseIP raw with
  | None => mret tt
  | Some ip =>
      let! e := block (Unblock ip) in
      match e with
      | Some err => mfail (Wrap (msg +:+ raw +:+ " for " +:+ ns_name policy) [err])
      | None => mret tt
      end
  end.

Definition unblock_tunnel (msg : string) (policy : TelecomSecurityPolicy) (entry : string) : M W unit :=
  match parseTunnel entry with
  | Fail _ => mret tt      (* logged and skipped *)
  | Ok (ip, teid) =>
      let! e := block (UnblockTunnel ip teid) in
      match e with
      | Some err => mfail (Wrap (msg +:+ entry +:+ " for " +:+ ns_name policy) [err])
      | None => mret tt
      end
  end.

Definition unblock_all (msg msgt : string) (policy : TelecomSecurityPolicy) : M W unit :=
  mfor (st_BlockedSourceIPs (pol_Status policy)) (unblock_source msg policy) ;;!
  mfor (st_BlockedTunnels (pol_Status policy)) (unblock_tunnel msgt policy).

Definition release_mesh (msg : string) (policy : TelecomSecurityPolicy) : M W unit :=
  match firstMatchLabels (spec_TargetWorkloads (pol_Spec policy)) with
  | None => mret tt
  | Some selector =>
      let! e := mesh (Release (pol_Namespace policy) selector) in
      match e with
      | Some err => mfail (Wrap (msg +:+ ns_name policy) [err])
      | None => mret tt
      end
  end.

Definition tryDeEscalate (policy : TelecomSecurityPolicy) : M W Duration :=
  match st_LastMitigationTime (pol_Status policy) with
  | None => mret 0
  | Some last =>
      let! t := now clock in
      let remaining := deEscalationDwell rc - Sub t last in
      if 0 <? remaining then mret remaining
      else
        (if rc_Blocklist rc
         then unblock_all "de-escalate: unblock " "de-escalate: unblock tunnel " policy
         else mret tt) ;;!
        (if rc_Mesh rc && act_IsolatePod (spec_Actions (pol_Spec policy))
         then release_mesh "de-escalate: release mesh quarantine for " policy else mret tt) ;;!
        let policy' := set_status policy
          (with_phase PolicyPhaseMonitoring (with_tunnels [] (with_ips [] (pol_Status policy)))) in
        let! q := wrapf ("update status after de-escalating " +:+ ns_name policy)
                    (api (api_UpdateStatus policy')) in
        index_Put q ;;!
        metric (SetPolicyPhase (pol_Namespace q) (pol_Name q) (st_Phase (pol_Status q))) ;;!
        mret 0
  end.

Definition finalize (policy : TelecomSecurityPolicy) : M W Duration :=
  if negb (ContainsFinalizer (om_Finalizers (pol_Meta policy)) telecomSecurityPolicyFinalizer)
  then mret 0
  else
    (if rc_Mesh rc then release_mesh "release mesh quarantine for " policy else mret tt) ;;!
    (if rc_Blocklist rc then unblock_all "unblock " "unblock tunnel " policy else mret tt) ;;!
    let policy' := set_meta policy (with_finalizers
      (RemoveFinalizer (om_Finalizers (pol_Meta policy)) telecomSecurityPolicyFinalizer) (pol_Meta policy)) in
    wrapf ("remove finalizer from " +:+ ns_name policy) (api (api_Update policy')) ;;!
    index_Remove (pol_key policy) ;;!
    metric (ForgetPolicyMetrics (pol_Namespace policy) (pol_Name policy)) ;;!
    mret 0.

Definition scoring_condition (reason : string) (generation : Z) : Condition :=
  {| cond_Type := ConditionScoringPipelineReady;
     cond_Status := if (reason =? ReasonScoresReceived)%string then ConditionTrue else ConditionFalse;
     cond_Reason := reason;
     cond_Message :=
       if (reason =? ReasonScoresReceived)%string
       then "The AI engine has published at least one threat score."
       else if (reason =? ReasonAwaitingFirstScore)%string
       then "Subscribed to the threat score subject; no score has arrived yet. Normal shortly after install."
       else "Subscribed to the threat score subject, but no threat score has ever arrived. " +:+
         "The AI engine (cmd/ai-engine) is deployed separately from this operator and needs a trained model; " +:+
         "without it nothing publishes a score and this policy will stay in its current phase indefinitely. " +:+
         "See docs/production-install.md.";
     cond_ObservedGeneration := generation |}.

(** Returns the delay, and the policy as it is in memory afterwards. *)
Definition reportScoringPipeline (policy : TelecomSecurityPolicy) : M W (Duration * TelecomSecurityPolicy) :=
  let! sc := mget w_scoring in
  match sc with
  | None => mret (0, policy)
  | Some tr =>
      let! t := (if EverScored tr then mret 0 else now clock) in
      let '(reason, retryAfter) := Status t tr in
      let condition := scoring_condition reason (om_Generation (pol_Meta policy)) in
      let existing := FindStatusCondition (st_Conditions (pol_Status policy)) ConditionScoringPipelineReady in
      if match existing with
         | Some c => bool_decide (cond_Status c = cond_Status condition) &&
                     (cond_Reason c =? cond_Reason condition)%string
         | None => false
         end
      then mret (retryAfter, policy)
      else
        let policy' := set_status policy
          (with_conditions (SetStatusCondition (st_Conditions (pol_Status policy)) condition) (pol_Status policy)) in
        mtry (api (api_UpdateStatus policy')) (λ r,
          match r with
          | Fail err =>
              if errors_Is err ErrConflict then mret (Second, policy')
              else mfail (Wrap ("update scoring pipeline condition for " +:+ ns_name policy) [err])
          | Ok q =>
              index_Put q ;;!
              (if (reason =? ReasonNoThreatScoresReceived)%string && rc_Recorder rc
               then record_event "ScoringPipelineNotReady" else mret tt) ;;!
              mret (retryAfter, q)
          end)
  end.

(** [Reconcile] on a live policy, first half: finalizer, cache, first phase. *)
Definition register (policy : TelecomSecurityPolicy) : M W TelecomSecurityPolicy :=
  let! policy1 :=
    (if negb (ContainsFinalizer (om_Finalizers (pol_Meta policy)) telecomSecurityPolicyFinalizer)
     then wrapf ("add finalizer to " +:+ ns_name policy)
            (api (api_Update (set_meta policy (with_finalizers
              (AddFinalizer (om_Finalizers (pol_Meta policy)) telecomSecurityPolicyFinalizer)
              (pol_Meta policy)))))
     else mret policy) in
  index_Put policy1 ;;!
  let policy2 := if bool_decide (st_Phase (pol_Status policy1) = PhaseUnset)
                 then set_status policy1 (with_phase PolicyPhasePending (pol_Status policy1)) else policy1 in
  if bool_decide (st_Phase (pol_Status policy2) = PolicyPhasePending)
  then let! q := wrapf ("update status for " +:+ ns_name policy)
         (api (api_UpdateStatus (set_status policy2 (with_phase PolicyPhaseMonitoring (pol_Status policy2))))) in
       index_Put q ;;! mret q
  else mret policy2.

(** Second half: the phase gauge, the pipeline condition, de-escalation. *)
Definition reconcile_live (policy : TelecomSecurityPolicy) : M W Duration :=
  let! policy3 := register policy in
  metric (SetPolicyPhase (pol_Namespace policy3) (pol_Name policy3) (st_Phase (pol_Status policy3))) ;;!
  let! p := reportScoringPipeline policy3 in
  let '(scoringRetry, policy4) := p in
  if bool_decide (st_Phase (pol_Status policy4) = PolicyPhaseMitigating) then
    let! result := tryDeEscalate policy4 in
    mret (withSoonerRequeue result scoringRetry)
  else mret (withSoonerRequeue 0 scoringRetry).

Definition Reconcile (req : NamespacedName) : M W Duration :=
  mtry (api (api_GetPolicy req)) (λ r,
    match r with
    | Fail err =>
        if errors_Is err ErrNotFound then
          index_Remove req ;;!
          metric (ForgetPolicyMetrics (nn_Namespace req) (nn_Name req)) ;;!
          mret 0
        else mfail (Wrap ("get TelecomSecurityPolicy " +:+ nn_Namespace req +:+ "/" +:+ nn_Name req) [err])
    | Ok policy =>
        if negb (deletion_is_zero policy) then finalize policy else reconcile_live policy
    end).
End Reconciler.
