(* ===== verification/ReconcilerProofs.v ===== *)
(** * ReconcilerProofs: what the policy lifecycle guarantees

    De-escalation lifts exactly what the status claims, and only after the
    quiet period; a policy leaves etcd only after its drops left the kernel;
    a reconcile lifts only what its policy claimed, however stale its read. *)

From S2P Require Import Prelude GoStrings GoFloat NetIP Events Api Blocklist Loader PolicyIndex KillSwitch ReactorLimiter ScoringPipeline Metrics World Decision SampleWorld Reconciler.

Local Open Scope Z_scope.
Local Open Scope go_scope.

(** the requeue delay of a reconcile is the sooner of the two timers: it is
    one of the two delays, never later than a pending one, and no delay is
    dropped (zero means nothing to wait for). *)
Theorem withSoonerRequeue_spec result after : 0 ≤ result →
  (0 < after → 0 < withSoonerRequeue result after ≤ after) ∧
  (0 < result → 0 < withSoonerRequeue result after ≤ result) ∧
  (withSoonerRequeue result after = result ∨ withSoonerRequeue result after = after).
Proof.
  intros Hr. unfold withSoonerRequeue. destruct (after <=? 0) eqn:E1; unbool; [lia|].
  destruct (result =? 0) eqn:E2, (after <? result) eqn:E3; simpl; unbool; lia.
Qed.

Lemma withSoonerRequeue_spec_witness : 0 < withSoonerRequeue 0 Minute ≤ Minute.
Proof. apply (withSoonerRequeue_spec 0 Minute); vm_compute; [discriminate|reflexivity]. Defined.

Section Lifting.
Context {A B Ms L : Type}.
Context `{HB : BlocklistUpdater B, HBS : !BlocklistSpec B} `{HM : MeshAdapter Ms}.

Abbreviation W := (World A B Ms L).

(** ** Lifting what a status claims *)

Lemma unblock_source_spec msg policy raw (w : W) r w' :
  bl_inv (w_block w) → unblock_source msg policy raw w = (r, w') →
  bl_inv (w_block w') ∧ w_api w' = w_api w ∧ w_index w' = w_index w ∧ w_mesh w' = w_mesh w ∧
  bl_tunnels (w_block w') = bl_tunnels (w_block w) ∧
  bl_ips (w_block w') = (if is_Ok r then bl_ips (w_block w) ∖ claimed_ips [raw] else bl_ips (w_block w)).
Proof using Type.
  intros HI. unfold unblock_source, claimed_ips, raw_addr. simpl.
  destruct (ParseIP raw) as [ip|] eqn:Ep; simpl.
  2:{ unfold mret. intros [= <- <-]. do 5 (split; [done|]). simpl. set_solver. }
  destruct (ParseIP_wf _ _ Ep) as [Hip _]. destruct (canon_wf ip Hip) as (c & Hc & _). rewrite Hc.
  unfold mbind, block. destruct (Unblock ip (w_block w)) as [[err|] b] eqn:E;
    unfold mfail, mret; intros [= <- <-]; simpl;
    (split; [by eapply Unblock_inv|]); do 3 (split; [done|]).
  - by destruct (Unblock_err ip (w_block w) err b HI Hip E).
  - destruct (Unblock_ok ip c (w_block w) b HI Hip Hc E) as [Hi Ht]. split; [done|]. set_solver.
Qed.

Lemma unblock_tunnel_spec msg policy entry (w : W) r w' :
  bl_inv (w_block w) → unblock_tunnel msg policy entry w = (r, w') →
  bl_inv (w_block w') ∧ w_api w' = w_api w ∧ w_index w' = w_index w ∧ w_mesh w' = w_mesh w ∧
  bl_ips (w_block w') = bl_ips (w_block w) ∧
  bl_tunnels (w_block w') =
    (if is_Ok r then bl_tunnels (w_block w) ∖ claimed_tunnels [entry] else bl_tunnels (w_block w)).
Proof using Type.
  intros HI. unfold unblock_tunnel, claimed_tunnels, entry_tunnel. simpl.
  destruct (parseTunnel entry) as [[ip teid]|e] eqn:Ep; simpl.
  2:{ unfold mret. intros [= <- <-]. do 5 (split; [done|]). simpl. set_solver. }
  destruct (parseTunnel_wf _ _ _ Ep) as [Hip Ht]. destruct (canon_wf ip Hip) as (c & Hc & _). rewrite Hc.
  unfold mbind, block. destruct (UnblockTunnel ip teid (w_block w)) as [[err|] b] eqn:E;
    unfold mfail, mret; intros [= <- <-]; simpl;
    (split; [by eapply UnblockTunnel_inv|]); do 3 (split; [done|]).
  - by destruct (UnblockTunnel_err ip teid (w_block w) err b HI Hip Ht E).
  - destruct (UnblockTunnel_ok ip c teid (w_block w) b HI Hip Ht Hc E) as (_ & Htn & Hi).
    split; [done|]. set_solver.
Qed.

Lemma unblock_sources_spec msg policy l (w : W) r w' :
  bl_inv (w_block w) → mfor l (unblock_source msg policy) w = (r, w') →
  bl_inv (w_block w') ∧ w_api w' = w_api w ∧ w_index w' = w_index w ∧ w_mesh w' = w_mesh w ∧
  bl_tunnels (w_block w') = bl_tunnels (w_block w) ∧
  bl_ips (w_block w) ∖ claimed_ips l ⊆ bl_ips (w_block w') ⊆ bl_ips (w_block w) ∧
  (is_Ok r = true → bl_ips (w_block w') = bl_ips (w_block w) ∖ claimed_ips l).
Proof using Type.
  revert w. induction l as [|raw l IH]; intros w HI Hrun; cbn [mfor] in Hrun.
  { unfold mret in Hrun. simplify_eq. do 5 (split; [done|]). set_solver. }
  rewrite claimed_ips_cons. minv Hrun.
  - destruct (unblock_source_spec _ _ _ _ _ _ HI E) as (HI1 & Ha1 & Hx1 & Hm1 & Ht1 & Hi1).
    destruct (IH _ HI1 Hrun) as (HI' & Ha & Hx & Hm & Ht & Hsub & Hok). simpl in Hi1.
    split; [done|]. do 4 (split; [congruence|]). split; [clear -Hi1 Hsub; set_solver|].
    intros Hr. rewrite (Hok Hr). clear -Hi1; set_solver.
  - subst r. destruct (unblock_source_spec _ _ _ _ _ _ HI E) as (HI1 & Ha1 & Hx1 & Hm1 & Ht1 & Hi1).
    simpl in Hi1. do 5 (split; [done|]). rewrite Hi1. split; [clear; set_solver|done].
Qed.

Lemma unblock_tunnels_spec msg policy l (w : W) r w' :
  bl_inv (w_block w) → mfor l (unblock_tunnel msg policy) w = (r, w') →
  bl_inv (w_block w') ∧ w_api w' = w_api w ∧ w_index w' = w_index w ∧ w_mesh w' = w_mesh w ∧
  bl_ips (w_block w') = bl_ips (w_block w) ∧
  bl_tunnels (w_block w) ∖ claimed_tunnels l ⊆ bl_tunnels (w_block w') ⊆ bl_tunnels (w_block w) ∧
  (is_Ok r = true → bl_tunnels (w_block w') = bl_tunnels (w_block w) ∖ claimed_tunnels l).
Proof using Type.
  revert w. induction l as [|raw l IH]; intros w HI Hrun; cbn [mfor] in Hrun.
  { unfold mret in Hrun. simplify_eq. do 5 (split; [done|]). set_solver. }
  rewrite claimed_tunnels_cons. minv Hrun.
  - destruct (unblock_tunnel_spec _ _ _ _ _ _ HI E) as (HI1 & Ha1 & Hx1 & Hm1 & Ht1 & Hi1).
    destruct (IH _ HI1 Hrun) as (HI' & Ha & Hx & Hm & Ht & Hsub & Hok). simpl in Hi1.
    split; [done|]. do 4 (split; [congruence|]). split; [clear -Hi1 Hsub; set_solver|].
    intros Hr. rewrite (Hok Hr). clear -Hi1; set_solver.
  - subst r. destruct (unblock_tunnel_spec _ _ _ _ _ _ HI E) as (HI1 & Ha1 & Hx1 & Hm1 & Ht1 & Hi1).
    simpl in Hi1. do 5 (split; [done|]). rewrite Hi1. split; [clear; set_solver|done].
Qed.

(** What lifting everything a policy claims does, stage by stage. *)
Definition lifted (policy : TelecomSecurityPolicy) (w w' : W) : Prop :=
  bl_ips (w_block w') = bl_ips (w_block w) ∖ claimed_ips (st_BlockedSourceIPs (pol_Status policy)) ∧
  bl_tunnels (w_block w') =
    bl_tunnels (w_block w) ∖ claimed_tunnels (st_BlockedTunnels (pol_Status policy)).

(** Only drops the policy claims are lifted, on every path. *)
Definition only_claimed_lifted (policy : TelecomSecurityPolicy) (w w' : W) : Prop :=
  bl_ips (w_block w) ∖ claimed_ips (st_BlockedSourceIPs (pol_Status policy)) ⊆ bl_ips (w_block w') ⊆
    bl_ips (w_block w) ∧
  bl_tunnels (w_block w) ∖ claimed_tunnels (st_BlockedTunnels (pol_Status policy)) ⊆
    bl_tunnels (w_block w') ⊆ bl_tunnels (w_block w).

Lemma lifted_only policy w w' : lifted policy w w' → only_claimed_lifted policy w w'.
Proof using Type. unfold lifted, only_claimed_lifted. intros [-> ->]. set_solver. Qed.

Lemma unblock_all_spec msg msgt policy (w : W) r w' :
  bl_inv (w_block w) → unblock_all msg msgt policy w = (r, w') →
  bl_inv (w_block w') ∧ w_api w' = w_api w ∧ w_index w' = w_index w ∧ w_mesh w' = w_mesh w ∧
  only_claimed_lifted policy w w' ∧ (is_Ok r = true → lifted policy w w').
Proof using Type.
  intros HI Hrun. unfold unblock_all in Hrun. unfold lifted, only_claimed_lifted. minv Hrun.
  - destruct (unblock_sources_spec _ _ _ _ _ _ HI E) as (HI1 & Ha1 & Hx1 & Hm1 & Ht1 & Hs1 & Ho1).
    destruct (unblock_tunnels_spec _ _ _ _ _ _ HI1 Hrun) as (HI2 & Ha2 & Hx2 & Hm2 & Hi2 & Hs2 & Ho2).
    specialize (Ho1 eq_refl). split; [done|]. do 3 (split; [congruence|]).
    rewrite <- Ht1, Hi2, Ho1 in *. split; [set_solver|]. intros Hr. by rewrite (Ho2 Hr).
  - subst r. destruct (unblock_sources_spec _ _ _ _ _ _ HI E) as (HI1 & Ha1 & Hx1 & Hm1 & Ht1 & Hs1 & _).
    do 4 (split; [done|]). rewrite Ht1. split; [|done]. set_solver.
Qed.

Lemma release_mesh_frame msg policy (w : W) r w' : release_mesh msg policy w = (r, w') →
  w_block w' = w_block w ∧ w_api w' = w_api w ∧ w_index w' = w_index w.
Proof using Type.
  unfold release_mesh, mbind, mesh, mret, mfail. intros Hrun. repeat case_match; by simplify_eq.
Qed.
End Lifting.

Section DeEscalation.
Context {A B Ms L : Type}.
Context `{HA : ApiServer A, HAS : !ApiSpec A} `{HB : BlocklistUpdater B, HBS : !BlocklistSpec B}.
Context `{HM : MeshAdapter Ms}.
Context (clock : nat → Time).
Context (rc : ReconcilerConfig).

Abbreviation W := (World A B Ms L).


Lemma wrapf_ok {X} msg (m : M W X) w x w' : wrapf msg m w = (Ok x, w') → m w = (Ok x, w').
Proof using Type.
  unfold wrapf, mtry, mret, mfail. destruct (m w) as [[y|e] w1]; intros; by simplify_eq.
Qed.
Lemma wrapf_fail {X} msg (m : M W X) w e w' : wrapf msg m w = (Fail e, w') → ∃ e', m w = (Fail e', w').
Proof using Type.
  unfold wrapf, mtry, mret, mfail. destruct (m w) as [[y|e1] w1]; intros; simplify_eq; eauto.
Qed.

Lemma api_run {X} (f : A → result X * A) (w : W) r w' : api f w = (r, w') →
  f (w_api w) = (r, w_api w') ∧ same_enforcement w w' ∧ w_index w' = w_index w.
Proof using Type. unfold api. destruct (f (w_api w)) as [r1 a]. intros [= <- <-]. done. Qed.

(** ** De-escalation *)

Definition dwell_left (policy : TelecomSecurityPolicy) (w : W) : option Duration :=
  last ← st_LastMitigationTime (pol_Status policy);
  Some (deEscalationDwell rc - Sub (clock (w_tick w)) last).

(** The part of [tryDeEscalate] past the quiet period. *)
Lemma tryDeEscalate_inv policy (w : W) r w' left :
  bl_inv (w_block w) → rc_Blocklist rc = true → dwell_left policy w = Some left →
  tryDeEscalate clock rc policy w = (r, w') →
  if decide (0 < left)
  then r = Ok left ∧ same_enforcement w w' ∧ w_api w' = w_api w ∧ w_index w' = w_index w
  else bl_inv (w_block w') ∧ only_claimed_lifted policy w w' ∧
    ((is_Ok r = false ∧ w_api w' = w_api w ∧ w_index w' = w_index w) ∨
     (lifted policy w w' ∧ ∃ ru a, w_api w' = a ∧
        api_UpdateStatus (set_status policy (with_phase PolicyPhaseMonitoring
          (with_tunnels [] (with_ips [] (pol_Status policy))))) (w_api w) = (ru, a) ∧
        match ru with
        | Ok q => r = Ok 0 ∧ w_index w' = PolicyIndex_Put q (w_index w)
        | Fail _ => is_Ok r = false ∧ w_index w' = w_index w
        end)).
Proof using Type.
  intros HI Hbl Hleft Hrun. unfold dwell_left in Hleft. unfold tryDeEscalate in Hrun.
  destruct (st_LastMitigationTime (pol_Status policy)) as [last|]; [|done]. simpl in Hleft.
  simplify_eq. unfold mbind at 1, now at 1 in Hrun.
  case_decide as Hd.
  { rewrite (proj2 (Z.ltb_lt _ _) Hd) in Hrun. unfold mret in Hrun. by simplify_eq. }
  rewrite (proj2 (Z.ltb_ge _ _)) in Hrun by lia. rewrite Hbl in Hrun.
  change (bl_inv (w_block (set_tick (S (w_tick w)) w))) in HI.
  minv Hrun.
  2:{ subst r. destruct (unblock_all_spec _ _ _ _ _ _ HI E) as (? & ? & ? & _ & ? & _).
      split; [done|]. split; [done|]. by left. }
  destruct (unblock_all_spec _ _ _ _ _ _ HI E) as (HI1 & Ha1 & Hx1 & _ & Ho1 & Hl1).
  specialize (Hl1 eq_refl). clear E. simpl in Ha1, Hx1.
  assert (Hmesh : ∀ r1 w2, (if rc_Mesh rc && act_IsolatePod (spec_Actions (pol_Spec policy))
    then release_mesh "de-escalate: release mesh quarantine for " policy else mret tt) x0 = (r1, w2) →
    w_block w2 = w_block x0 ∧ w_api w2 = w_api x0 ∧ w_index w2 = w_index x0).
  { intros r1 w2. destruct (_ && _); [apply release_mesh_frame|]. unfold mret. by intros [= <- <-]. }
  minv Hrun; destruct (Hmesh _ _ E) as (Hb2 & Ha2 & Hx2); clear E Hmesh.
  2:{ subst r. unfold only_claimed_lifted. rewrite Hb2. split; [done|]. split; [done|]. left.
      split; [done|]. split; congruence. }
  rewrite <- Ha1, <- Ha2, <- Hx1, <- Hx2. unfold lifted, only_claimed_lifted in *. rewrite <- Hb2 in *.
  minv Hrun.
  - apply wrapf_ok, api_run in E as (E & [Hb3 _] & Hx3). unfold mbind, index_Put, metric, mret in Hrun.
    simplify_eq. simpl. rewrite Hb3. split; [done|]. split; [done|]. right. split; [done|].
    eexists (Ok _), _. split; [done|]. split; [exact E|]. by rewrite Hx3.
  - subst r. apply wrapf_fail in E as (e' & E). apply api_run in E as (E & [Hb3 _] & Hx3).
    rewrite Hb3. split; [done|]. split; [done|]. right. split; [done|].
    eexists (Fail _), _. split; [done|]. split; [exact E|]. done.
Qed.


(** the record of what to undo outlives the undoing. On every path of a
    de-escalation, failures included, only drops the status claims are lifted,
    and etcd keeps the status that claims them unless all of them were
    lifted: a half-done reversal is retried, never forgotten. *)
Theorem deescalation_keeps_record policy (w : W) r w' left :
  bl_inv (w_block w) → rc_Blocklist rc = true → dwell_left policy w = Some left →
  tryDeEscalate clock rc policy w = (r, w') →
  only_claimed_lifted policy w w' ∧
  (stored w' (pol_key policy) = stored w (pol_key policy) ∨ lifted policy w w').
Proof using Type.
  intros HI Hbl Hleft Hrun. pose proof (tryDeEscalate_inv _ _ _ _ _ HI Hbl Hleft Hrun) as Hinv.
  case_decide.
  - destruct Hinv as (_ & [Hb _] & Ha & _). unfold only_claimed_lifted, stored. rewrite Hb, Ha.
    split; [set_solver|by left].
  - destruct Hinv as (_ & Ho & [(_ & Ha & _)|(Hl & _)]); (split; [done|]); [left|by right].
    unfold stored. by rewrite Ha.
Qed.

Lemma mfor_fails {X} (l : list X) (body : X → M W unit) x w :
  x ∈ l → (∀ w r w', body x w = (r, w') → bl_inv (w_block w) → is_Ok r = false) →
  (∀ y w r w', body y w = (r, w') → bl_inv (w_block w) → bl_inv (w_block w')) →
  bl_inv (w_block w) → is_Ok (mfor l body w).1 = false.
Proof using Type.
  intros Hin Hx Hinv. revert w. induction l as [|y l IH]; intros w HI; [set_solver|].
  cbn [mfor]. unfold mbind. destruct (body y w) as [[[]|e] w1] eqn:E; [|done].
  apply elem_of_cons in Hin as [->|Hin]; [by apply Hx in E|]. eauto.
Qed.

(** C40: one zero-TEID entry wedges de-escalation. A status tunnel entry that
    parses with TEID 0 is rejected by every enforcing blocklist, so past the
    quiet period the reversal of that policy fails every time, although
    unparseable entries are skipped to avoid exactly that. *)
Theorem zero_teid_entry_wedges policy (w : W) left entry ip :
  bl_inv (w_block w) → rc_Blocklist rc = true → dwell_left policy w = Some left → left ≤ 0 →
  entry ∈ st_BlockedTunnels (pol_Status policy) → parseTunnel entry = Ok (ip, 0) →
  is_Ok (tryDeEscalate clock rc policy w).1 = false.
Proof using Type.
  intros HI Hbl Hleft Hle Hin Hp. destruct (tryDeEscalate clock rc policy w) as [r w'] eqn:Hrun. simpl.
  unfold dwell_left in Hleft. unfold tryDeEscalate in Hrun.
  destruct (st_LastMitigationTime (pol_Status policy)) as [last|]; [|done]. simpl in Hleft.
  simplify_eq. unfold mbind at 1, now at 1 in Hrun.
  rewrite (proj2 (Z.ltb_ge _ _)) in Hrun by lia. rewrite Hbl in Hrun.
  minv Hrun; [|by subst]. exfalso. unfold unblock_all in E. minv E; [|done].
  assert (HI1 : bl_inv (w_block x2)).
  { by eapply (unblock_sources_spec _ _ _ (set_tick (S (w_tick w)) w)). }
  assert (Hf : is_Ok (mfor (st_BlockedTunnels (pol_Status policy))
    (unblock_tunnel "de-escalate: unblock tunnel " policy) x2).1 = false).
  { apply (mfor_fails _ _ entry); [done| | |done].
    - intros w1 r1 w2. unfold unblock_tunnel. rewrite Hp. unfold mbind, block.
      destruct (UnblockTunnel ip 0 (w_block w1)) as [[err|] b] eqn:Eu; unfold mfail, mret; intros [= <- <-]; [done|].
      destruct (parseTunnel_wf _ _ _ Hp) as [Hip Ht]. destruct (canon_wf ip Hip) as (c & Hc & _).
      intros HIw. by destruct (UnblockTunnel_ok ip c 0 (w_block w1) b HIw Hip Ht Hc Eu).
    - intros y w1 r1 w2 Hy HIw. by eapply unblock_tunnel_spec. }
  by rewrite E in Hf.
Qed.
End DeEscalation.

Section Lifecycle.
Context {A B Ms L : Type}.
Context `{HA : ApiServer A, HAS : !ApiSpec A} `{HB : BlocklistUpdater B, HBS : !BlocklistSpec B}.
Context `{HM : MeshAdapter Ms} `{HL : RateLimiter L} `{HK : ApiMachinery, HKS : !ApiMachinerySpec}.
Context (clock : nat → Time).
Context (rc : ReconcilerConfig).

Abbreviation W := (World A B Ms L).



(** ** Finalization *)

(** Runs [finalize] up to the update that removes the finalizer. *)
Lemma finalize_inv policy (w : W) r w' :
  bl_inv (w_block w) → rc_Blocklist rc = true →
  ContainsFinalizer (om_Finalizers (pol_Meta policy)) telecomSecurityPolicyFinalizer = true →
  finalize rc policy w = (r, w') →
  bl_inv (w_block w') ∧ only_claimed_lifted policy w w' ∧
  ((is_Ok r = false ∧ w_api w' = w_api w ∧ w_index w' = w_index w) ∨
   (lifted policy w w' ∧ ∃ ru, api_Update (set_meta policy (with_finalizers
      (RemoveFinalizer (om_Finalizers (pol_Meta policy)) telecomSecurityPolicyFinalizer)
      (pol_Meta policy))) (w_api w) = (ru, w_api w') ∧ is_Ok r = is_Ok ru ∧
      w_index w' = if is_Ok r then PolicyIndex_Remove (pol_key policy) (w_index w) else w_index w)).
Proof using Type.
  intros HI Hbl Hc Hrun. unfold finalize in Hrun. rewrite Hc in Hrun. simpl in Hrun.
  assert (Hmesh : ∀ r1 w1, (if rc_Mesh rc then release_mesh "release mesh quarantine for " policy
    else mret tt) w = (r1, w1) → w_block w1 = w_block w ∧ w_api w1 = w_api w ∧ w_index w1 = w_index w).
  { intros r1 w1. destruct (rc_Mesh rc); [apply release_mesh_frame|]. unfold mret. by intros [= <- <-]. }
  minv Hrun; destruct (Hmesh _ _ E) as (Hb1 & Ha1 & Hx1); clear E Hmesh.
  2:{ subst r. unfold only_claimed_lifted. rewrite Hb1. split; [done|].
      split; [clear; set_solver|]. by left. }
  rewrite Hbl in Hrun. rewrite <- Hb1 in HI.
  unfold lifted, only_claimed_lifted. rewrite <- Ha1, <- Hx1, <- Hb1.
  minv Hrun.
  2:{ subst r. destruct (unblock_all_spec _ _ _ _ _ _ HI E) as (? & ? & ? & _ & ? & _).
      split; [done|]. split; [done|]. by left. }
  destruct (unblock_all_spec _ _ _ _ _ _ HI E) as (HI2 & Ha2 & Hx2 & _ & Ho2 & Hl2).
  specialize (Hl2 eq_refl). clear E. rewrite <- Ha2, <- Hx2. minv Hrun.
  - apply wrapf_ok, api_run in E as (E & [Hb3 _] & Hx3).
    unfold mbind, index_Remove, metric, mret in Hrun. simplify_eq. simpl. rewrite Hb3.
    split; [done|]. split; [done|]. right. split; [done|]. eexists (Ok _). rewrite Hx3. done.
  - subst r. apply wrapf_fail in E as (e' & E). apply api_run in E as (E & [Hb3 _] & Hx3).
    rewrite Hb3. split; [done|]. split; [done|]. right. split; [done|]. by eexists (Fail _).
Qed.

(** C10: a policy leaves etcd only after its drops left the kernel. On every
    path of the finalizer, only drops the policy's status claims are lifted;
    if the stored object changed at all (finalizer removed, object gone), every
    one of them was lifted; and on success the policy is out of the cache, so
    no later score can act for it. *)
Theorem finalizer_releases_first policy (w : W) r w' :
  bl_inv (w_block w) → rc_Blocklist rc = true → pi_inv (w_index w) →
  ContainsFinalizer (om_Finalizers (pol_Meta policy)) telecomSecurityPolicyFinalizer = true →
  finalize rc policy w = (r, w') →
  only_claimed_lifted policy w w' ∧
  (api_policies (w_api w') = api_policies (w_api w) ∨ lifted policy w w') ∧
  (is_Ok r = true → lifted policy w w' ∧ pi_view (w_index w') (pol_key policy) = None).
Proof using Type.
  intros HI Hbl Hpi Hc Hrun.
  destruct (finalize_inv _ _ _ _ HI Hbl Hc Hrun) as (_ & Ho & [(Hr & Ha & _)|(Hl & ru & Hu & Hru & Hx)]).
  - split; [done|]. split; [left; by rewrite Ha|]. by rewrite Hr.
  - split; [done|]. split; [by right|]. intros Hr. split; [done|]. rewrite Hx, Hr.
    rewrite PolicyIndex_Remove_view. by rewrite decide_True.
Qed.

(** ** Reconciling a live policy *)

(** Two statuses list the same drops. *)
Definition same_claims (s s' : TelecomSecurityPolicyStatus) : Prop :=
  st_BlockedSourceIPs s = st_BlockedSourceIPs s' ∧ st_BlockedTunnels s = st_BlockedTunnels s'.

(** Reporting the scoring pipeline leaves the blocked lists alone. *)
Lemma report_claims policy (w : W) r w' :
  reportScoringPipeline clock rc policy w = (r, w') →
  same_enforcement w w' ∧ ∀ d q, r = Ok (d, q) → same_claims (pol_Status q) (pol_Status policy).
Proof using HAS.
  intros Hrun. unfold reportScoringPipeline in Hrun. unfold mbind at 1, mget at 1 in Hrun.
  destruct (w_scoring w) as [tr|].
  2:{ unfold mret in Hrun. simplify_eq. split; [done|]. by intros d q [= _ <-]. }
  assert (Ht : ∃ t w1, (if EverScored tr then mret 0 else now clock) w = (Ok t, w1) ∧ same_enforcement w w1).
  { destruct (EverScored tr); unfold mret, now; by eexists _, _. }
  destruct Ht as (t & w1 & Ht & Hs1). unfold mbind at 1 in Hrun. rewrite Ht in Hrun.
  destruct (Status t tr) as [reason retryAfter].
  destruct (match FindStatusCondition _ _ with Some _ => _ | None => _ end).
  { unfold mret in Hrun. simplify_eq. split; [done|]. by intros d q [= _ <-]. }
  unfold mtry in Hrun.
  destruct (api (api_UpdateStatus _) w1) as [[q|err] w2] eqn:E; apply api_run in E as (E & Hs2 & _);
    assert (Hs : same_enforcement w w2) by (by etrans).
  - apply UpdateStatus_ok in E as (old & Ho & -> & _). unfold mbind, index_Put, record_event, mret in Hrun.
    destruct (_ && _); simplify_eq; (split; [exact Hs|]); by intros d q [= _ <-].
  - destruct (errors_Is err ErrConflict); unfold mret, mfail in Hrun; simplify_eq; (split; [exact Hs|]); [|done].
    by intros d q [= _ <-].
Qed.

Lemma reconcile_live_register policy (w : W) r w' :
  reconcile_live clock rc policy w = (r, w') →
  (∃ p3 w1 w2, register policy w = (Ok p3, w1) ∧ same_enforcement w1 w2 ∧
     w_api w2 = w_api w1 ∧ w_index w2 = w_index w1 ∧
     mbind (reportScoringPipeline clock rc p3) (λ p, let '(scoringRetry, policy4) := p in
       if bool_decide (st_Phase (pol_Status policy4) = PolicyPhaseMitigating) then
         mbind (tryDeEscalate clock rc policy4) (λ result, mret (withSoonerRequeue result scoringRetry))
       else mret (withSoonerRequeue 0 scoringRetry)) w2 = (r, w')) ∨
  (is_Ok r = false ∧ ∃ e, register policy w = (Fail e, w')).
Proof using Type.
  intros Hrun. unfold reconcile_live in Hrun. minv Hrun; [left|right; subst r; eauto].
  unfold mbind at 1, metric at 1 in Hrun. eexists _, _, _.
  split; [done|]. split; [|split; [|split; [|exact Hrun]]]; done.
Qed.

Lemma register_frame policy (w : W) r w' : register policy w = (r, w') → same_enforcement w w'.
Proof using Type.
  intros Hrun. unfold register in Hrun. minv Hrun.
  - assert (H1 : same_enforcement w x0).
    { destruct (negb _); [|unfold mret in E; by simplify_eq]. by apply wrapf_ok, api_run in E as (_ & ? & _). }
    clear E. unfold mbind at 1, index_Put at 1 in Hrun. cbv zeta in Hrun.
    destruct (bool_decide (_ = PolicyPhasePending)); [|unfold mret in Hrun; by simplify_eq]. minv Hrun.
    + apply wrapf_ok, api_run in E as (_ & Hs & _). unfold mbind, index_Put, mret in Hrun.
      simplify_eq. by etrans.
    + apply wrapf_fail in E as (? & E). apply api_run in E as (_ & Hs & _). by etrans.
  - destruct (negb _); [|unfold mret in E; by simplify_eq].
    apply wrapf_fail in E as (? & E). by apply api_run in E as (_ & ? & _).
Qed.

(** What registering hands on lists what the policy did, or, when the finalizer
    had to be added, what the stored policy does. *)
Lemma register_claims policy (w : W) q w' : register policy w = (Ok q, w') →
  same_claims (pol_Status q) (pol_Status policy) ∨
  ∃ s, stored w (pol_key policy) = Some s ∧ same_claims (pol_Status q) s.
Proof using HAS.
  intros Hrun. unfold register in Hrun. minv Hrun; [|done].
  assert (Hx : ∀ q', same_claims (pol_Status q') (pol_Status x) →
    same_claims (pol_Status q') (pol_Status policy) ∨
    ∃ s, stored w (pol_key policy) = Some s ∧ same_claims (pol_Status q') s).
  { intros q' Hq. destruct (negb _); [|unfold mret in E; simplify_eq; by left].
    apply wrapf_ok, api_run in E as (E & _ & _). apply Update_ok in E as (old & Ho & -> & _). right.
    exists (pol_Status old). split; [|done]. unfold stored.
    change (pol_key (set_meta policy _)) with (pol_key policy) in Ho. by rewrite Ho. }
  apply Hx. clear E Hx. unfold mbind at 1, index_Put at 1 in Hrun. cbv zeta in Hrun.
  set (p2 := if bool_decide (st_Phase (pol_Status x) = PhaseUnset) then set_status x _ else x) in Hrun.
  assert (Hp2 : same_claims (pol_Status p2) (pol_Status x)) by (subst p2; clear; by case_bool_decide).
  clearbody p2. destruct (bool_decide (_ = PolicyPhasePending)); [|unfold mret in Hrun; by simplify_eq].
  minv Hrun; [|done]. apply wrapf_ok, api_run in E as (E & _ & _). apply UpdateStatus_ok in E as (old & _ & -> & _).
  unfold mbind, index_Put, mret in Hrun. injection Hrun as <- _. exact Hp2.
Qed.

(** The drops only shrink, and what was lifted is claimed by a status of [S]. *)
Definition lifted_within (S : TelecomSecurityPolicyStatus → Prop) (w w' : W) : Prop :=
  bl_ips (w_block w') ⊆ bl_ips (w_block w) ∧ bl_tunnels (w_block w') ⊆ bl_tunnels (w_block w) ∧
  (∀ a, a ∈ bl_ips (w_block w) → a ∉ bl_ips (w_block w') → ∃ s, S s ∧ claims_ip s a) ∧
  (∀ t, t ∈ bl_tunnels (w_block w) → t ∉ bl_tunnels (w_block w') → ∃ s, S s ∧ claims_tunnel s t).

Lemma lifted_within_same S (w w' : W) : w_block w' = w_block w → lifted_within S w w'.
Proof using Type. intros Hb. unfold lifted_within. rewrite Hb. naive_solver. Qed.

Lemma only_claimed_within policy s (S : TelecomSecurityPolicyStatus → Prop) (w w' : W) :
  only_claimed_lifted policy w w' → same_claims (pol_Status policy) s → S s → lifted_within S w w'.
Proof using Type.
  intros [[Hi Hi'] [Ht Ht']] [Ei Et] HS. rewrite Ei in Hi. rewrite Et in Ht.
  split; [done|]. split; [done|]. split; intros x Hx Hn; exists s; (split; [done|]).
  - destruct (decide (x ∈ claimed_ips (st_BlockedSourceIPs s))) as [Hc|Hc]; [by apply claimed_ips_spec|].
    destruct Hn. by apply Hi, elem_of_difference.
  - destruct (decide (x ∈ claimed_tunnels (st_BlockedTunnels s))) as [Hc|Hc]; [by apply claimed_tunnels_spec|].
    destruct Hn. by apply Ht, elem_of_difference.
Qed.

Lemma only_claimed_refl policy (w w' : W) : w_block w' = w_block w → only_claimed_lifted policy w w'.
Proof using Type.
  intros Hb. unfold only_claimed_lifted. rewrite Hb. by repeat split; intros x; rewrite ?elem_of_difference; try intros [? _].
Qed.

(** Either half of a reconcile lifts within what one status claims. *)
Lemma finalize_lifts policy (w : W) r w' : bl_inv (w_block w) → rc_Blocklist rc = true →
  finalize rc policy w = (r, w') → bl_inv (w_block w') ∧ only_claimed_lifted policy w w'.
Proof using Type.
  intros HI Hbl Hrun. destruct (ContainsFinalizer (om_Finalizers (pol_Meta policy)) telecomSecurityPolicyFinalizer) eqn:Ef.
  - by destruct (finalize_inv _ _ _ _ HI Hbl Ef Hrun) as (? & ? & _).
  - unfold finalize in Hrun. rewrite Ef in Hrun. unfold mret in Hrun. simpl in Hrun. simplify_eq.
    split; [done|]. by apply only_claimed_refl.
Qed.
Lemma deescalate_lifts policy (w : W) r w' : bl_inv (w_block w) → rc_Blocklist rc = true →
  tryDeEscalate clock rc policy w = (r, w') → bl_inv (w_block w') ∧ only_claimed_lifted policy w w'.
Proof using Type.
  intros HI Hbl Hrun. assert (Hsame : ∀ w'' : W, w_block w'' = w_block w →
    bl_inv (w_block w'') ∧ only_claimed_lifted policy w w'').
  { intros w'' Hb. split; [by rewrite Hb|by apply only_claimed_refl]. }
  destruct (dwell_left clock rc policy w) as [left|] eqn:El.
  2:{ unfold dwell_left in El. unfold tryDeEscalate in Hrun.
      destruct (st_LastMitigationTime (pol_Status policy)); [done|]. unfold mret in Hrun. simplify_eq. by apply Hsame. }
  pose proof (tryDeEscalate_inv clock rc policy w _ w' left HI Hbl El Hrun) as Hinv. case_decide.
  - destruct Hinv as (_ & [Hb _] & _). by apply Hsame.
  - by destruct Hinv as (? & ? & _).
Qed.

Lemma Reconcile_lifts req (w : W) r w' :
  bl_inv (w_block w) → rc_Blocklist rc = true → Reconcile clock rc req w = (r, w') →
  bl_inv (w_block w') ∧
  lifted_within (λ s, (∃ p, (api_GetPolicy req (w_api w)).1 = Ok p ∧ s = pol_Status p) ∨ stored w req = Some s) w w'.
Proof using HAS.
  intros HI Hbl Hrun. set (S := λ s : TelecomSecurityPolicyStatus, _).
  assert (Hsame : ∀ w'' : W, same_enforcement w w'' → bl_inv (w_block w'') ∧ lifted_within S w w'').
  { intros w'' [Hb _]. split; [by rewrite Hb|by apply lifted_within_same]. }
  assert (Hframe : ∀ w1 w2 : W, same_enforcement w w1 → bl_inv (w_block w2) ∧ lifted_within S w1 w2 →
    bl_inv (w_block w2) ∧ lifted_within S w w2).
  { intros w1 w2 [Hb _]. unfold lifted_within. by rewrite Hb. }
  unfold Reconcile, mtry in Hrun. destruct (api (api_GetPolicy req) w) as [g w0] eqn:Eg.
  apply api_run in Eg as (Eg & Hs0 & _).
  pose proof (GetPolicy_frame req (w_api w)) as Hf. pose proof (GetPolicy_key req (w_api w)) as Hk.
  rewrite Eg in Hf, Hk. simpl in Hf, Hk. apply (Hframe w0 w' Hs0). rewrite <- (proj1 Hs0) in HI.
  destruct g as [p|err].
  2:{ clear Hframe. destruct (errors_Is err ErrNotFound); unfold mbind, index_Remove, metric, mret, mfail in Hrun;
        injection Hrun as _ <-; (split; [exact HI|by apply lifted_within_same]). }
  specialize (Hk p eq_refl). assert (HSp : S (pol_Status p)) by (left; exists p; by rewrite Eg).
  destruct (deletion_is_zero p); simpl in Hrun.
  2:{ destruct (finalize_lifts _ _ _ _ HI Hbl Hrun) as [? Ho]. split; [done|]. by eapply only_claimed_within. }
  apply reconcile_live_register in Hrun as [(p3 & w1 & w2 & Hreg & Hs2 & Ha2 & Hx2 & Hrun)|[_ [e Hreg]]].
  2:{ apply register_frame in Hreg as [Hb _]. split; [by rewrite Hb|by apply lifted_within_same]. }
  assert (Hs3 : ∃ s, S s ∧ same_claims (pol_Status p3) s).
  { destruct (register_claims _ _ _ _ Hreg) as [Hc|(s & Hst & Hc)]; [by eexists|]. exists s. split; [|done]. right.
    rewrite <- Hst, Hk. unfold stored. by rewrite Hf. }
  destruct Hs3 as (s & HS & Hc3). apply register_frame in Hreg as Hs1.
  assert (Hb2 : w_block w2 = w_block w0) by (by destruct Hs1 as [<- _], Hs2 as [-> _]).
  unfold lifted_within. rewrite <- Hb2 in HI |- *.
  minv Hrun; destruct (report_claims _ _ _ _ E) as [[Hb3 _] Hc4].
  2:{ rewrite Hb3. split; [done|]. by apply lifted_within_same. }
  destruct x as [retry p4]. specialize (Hc4 _ _ eq_refl). rewrite <- Hb3 in HI |- *.
  destruct (bool_decide _).
  2:{ unfold mret in Hrun. injection Hrun as _ <-. split; [done|]. by apply lifted_within_same. }
  assert (Hd : ∃ rd, tryDeEscalate clock rc p4 x0 = (rd, w')).
  { minv Hrun; [unfold mret in Hrun; injection Hrun as _ <-|]; by eexists. }
  destruct Hd as [rd Hd]. destruct (deescalate_lifts _ _ _ _ HI Hbl Hd) as [? Ho]. split; [done|].
  eapply only_claimed_within; [exact Ho| |exact HS]. destruct Hc3, Hc4. split; congruence.
Qed.

(** C12: a reconcile lifts only what its policy claimed. Whatever the cached
    object the Get returned, however far that is behind etcd, and on every
    success and failure path, reconciling a policy adds no drop to the kernel,
    and an address or tunnel it lifts is claimed by that policy's status: the
    one read, or the one etcd held when the reconcile began. *)
Theorem reconcile_lifts_own req (w : W) r w' :
  bl_inv (w_block w) → rc_Blocklist rc = true → Reconcile clock rc req w = (r, w') →
  lifted_within (λ s, (∃ p, (api_GetPolicy req (w_api w)).1 = Ok p ∧ s = pol_Status p) ∨ stored w req = Some s) w w'.
Proof using HAS. intros HI Hbl Hrun. by destruct (Reconcile_lifts _ _ _ _ HI Hbl Hrun). Qed.
End Lifecycle.

(** ** The theorems at a concrete world *)

Module ReconcilerSample.
Import HashMaps.

#[export] Instance list_machinery : ApiMachinery := {|
  ContainsFinalizer l f := bool_decide (f ∈ l);
  AddFinalizer l f := if bool_decide (f ∈ l) then l else l ++ [f];
  RemoveFinalizer l f := filter (λ g, g ≠ f) l;
  FindStatusCondition l t := List.find (λ c, (cond_Type c =? t)%string) l;
  SetStatusCondition l c := c :: filter (λ d, cond_Type d ≠ cond_Type c) l |}.

#[export] Program Instance list_machinery_spec : ApiMachinerySpec.
Next Obligation. intros l f. simpl. apply bool_decide_eq_true. Qed.
Next Obligation. intros l f g. simpl. case_bool_decide; set_solver. Qed.
Next Obligation. intros l f g. simpl. rewrite list_elem_of_filter. naive_solver. Qed.
Next Obligation. intros l t c [_ H]%find_some. by apply String.eqb_eq in H. Qed.
Next Obligation. intros l c. simpl. rewrite String.eqb_refl. eauto. Qed.

Definition rc : ReconcilerConfig :=
  {| rc_Blocklist := true; rc_Mesh := true; rc_Recorder := true; rc_DeEscalationDwell := 0 |}.

(** A policy that mitigated at the epoch, with its address dropped. *)
Definition pm : TelecomSecurityPolicy := upf_policy true mitigating.
Definition dropped : Loader hmap :=
  (Loader_Block LoaderSample.attacker (LoaderSample.empty_loader 8)).2.
Definition wd : SampleWorld := set_block dropped (sample_world [pm] None).
Definition w0 : SampleWorld := sample_world [upf_policy true zero_status] None.

Lemma dropped_inv : bl_inv dropped.
Proof.
  refine (Block_inv LoaderSample.attacker (LoaderSample.empty_loader 8) None dropped
    (LoaderSample.empty_loader_inv 8) LoaderSample.attacker_wf _). vm_compute. reflexivity.
Qed.

Definition wd' : SampleWorld := (tryDeEscalate sample_clock rc pm wd).2.

Lemma wd_run : tryDeEscalate sample_clock rc pm wd = (Ok 0, wd').
Proof. apply (run_ok (tryDeEscalate sample_clock rc pm)). vm_compute. reflexivity. Qed.
Lemma wd_left : dwell_left sample_clock rc pm wd = Some (-3300 * Second).
Proof. vm_compute. reflexivity. Qed.


Lemma deescalation_keeps_record_witness : only_claimed_lifted pm wd wd'.
Proof.
  exact (proj1 (deescalation_keeps_record sample_clock rc pm wd
    (Ok 0) wd' (-3300 * Second) dropped_inv eq_refl wd_left wd_run)).
Defined.

Definition pz : TelecomSecurityPolicy := upf_policy true (with_tunnels ["10.0.0.66/0x0"] mitigating).

Lemma zero_teid_entry_wedges_witness :
  is_Ok (tryDeEscalate sample_clock rc pz wd).1 = false.
Proof.
  refine (zero_teid_entry_wedges sample_clock rc pz wd (-3300 * Second) "10.0.0.66/0x0" _
    dropped_inv eq_refl (ltac:(vm_compute; reflexivity)) _ _ (ltac:(vm_compute; reflexivity))).
  - vm_compute. discriminate.
  - apply list_elem_of_here.
Defined.

Definition pf : TelecomSecurityPolicy :=
  set_meta pm (with_finalizers [telecomSecurityPolicyFinalizer] (pol_Meta pm)).

Lemma finalizer_releases_first_witness : only_claimed_lifted pf wd (finalize rc pf wd).2.
Proof.
  refine (proj1 (finalizer_releases_first rc pf wd (finalize rc pf wd).1 _ dropped_inv eq_refl _
    _ (run_pair _ _))).
  - apply PolicyIndex_Put_inv, empty_pi_inv.
  - vm_compute. reflexivity.
Defined.

Definition key : NamespacedName := {| nn_Namespace := "core"; nn_Name := "upf" |}.
Definition w0' : SampleWorld := (Reconcile sample_clock rc key w0).2.

Lemma reconcile_lifts_own_witness :
  [10; 0; 0; 66] ∉ bl_ips (w_block (Reconcile sample_clock rc key wd).2) ∧
  ∃ s, ((∃ p, (api_GetPolicy key (w_api wd)).1 = Ok p ∧ s = pol_Status p) ∨ stored wd key = Some s) ∧
    claims_ip s [10; 0; 0; 66].
Proof.
  assert (H1 : [10; 0; 0; 66] ∈ bl_ips (w_block wd)) by (apply (bool_decide_unpack _); vm_compute; reflexivity).
  assert (H2 : [10; 0; 0; 66] ∉ bl_ips (w_block (Reconcile sample_clock rc key wd).2))
    by (apply (bool_decide_unpack _); vm_compute; reflexivity).
  split; [exact H2|].
  exact (proj1 (proj2 (proj2 (reconcile_lifts_own sample_clock rc key wd (Reconcile sample_clock rc key wd).1 _
    dropped_inv eq_refl (run_pair _ _)))) _ H1 H2).
Defined.

(** The reconcile of that sample does lift the drop. *)
Example reconcile_lifts : BlockedIPs (w_block wd) = Ok [LoaderSample.attacker] ∧
  BlockedIPs (w_block (Reconcile sample_clock rc key wd).2) = Ok [].
Proof. split; vm_compute; reflexivity. Qed.
End ReconcilerSample.
