(* ===== verification/BlocklistSync.v ===== *)
(** * BlocklistSync: kernel versus status (pkg/controller/blocklist_reconciler.go)

    [Sync] is one comparison and correction pass: what every live policy's
    status claims is re-applied when the kernel lost it, what the kernel holds
    and nothing claims is removed, but only when it was unclaimed on the
    previous pass too. *)

From S2P Require Import Prelude GoStrings NetIP Api Blocklist Metrics World Decision.

Local Open Scope Z_scope.

Definition defaultBlocklistReconcileInterval : Duration := Minute.

Record DriftReport := {
  MissingIPs : nat; MissingTunnels : nat;
  ExtraIPs : nat; ExtraTunnels : nat;
  PendingExtraIPs : nat; PendingExtraTunnels : nat;
  DesiredIPs : nat; DesiredTunnels : nat;
  KernelIPs : nat; KernelTunnels : nat
}.

Definition Drifted (d : DriftReport) : bool :=
  (0 <? MissingIPs d + MissingTunnels d + ExtraIPs d + ExtraTunnels d)%nat.

(** A report in which only the sizes of the two sides are filled in. *)
Definition sizes_report (di dt ki kt : nat) : DriftReport :=
  {| MissingIPs := 0; MissingTunnels := 0; ExtraIPs := 0; ExtraTunnels := 0;
     PendingExtraIPs := 0; PendingExtraTunnels := 0;
     DesiredIPs := di; DesiredTunnels := dt; KernelIPs := ki; KernelTunnels := kt |}.

Definition interval (configured : Duration) : Duration :=
  if configured =? 0 then defaultBlocklistReconcileInterval else configured.

Definition sortedKeys {V} (m : gmap string V) : list string := sort_strings (map_to_list m).*1.

(** ** The desired state *)

Definition add_desired_ip (m : gmap string net_IP) (raw : string) : gmap string net_IP :=
  match ParseIP raw with
  | None => m
  | Some ip => <[IPString ip := ip]> m
  end.

Definition add_desired_tunnel (m : gmap string BlockedTunnel) (entry : string) : gmap string BlockedTunnel :=
  match parseTunnel entry with
  | Fail _ => m
  | Ok (ip, teid) =>
      if teid =? 0 then m
      else <[formatTunnel (IPString ip) teid := {| bt_IP := ip; bt_TEID := teid |}]> m
  end.

Definition desiredEnforcement (policies : list TelecomSecurityPolicy) :
    gmap string net_IP * gmap string BlockedTunnel :=
  fold_left (λ acc policy,
    if negb (deletion_is_zero policy) then acc
    else (fold_left add_desired_ip (st_BlockedSourceIPs (pol_Status policy)) acc.1,
          fold_left add_desired_tunnel (st_BlockedTunnels (pol_Status policy)) acc.2))
    policies (∅, ∅).

(** ** One pass *)

(** The reconciler's view of the system: the API server, the enforcement maps,
    the metrics, and the entries the previous pass found unclaimed. *)
Record SyncState (A B : Type) := {
  sy_api : A;
  sy_block : B;
  sy_metrics : Registry;
  sy_unclaimed : gset string
}.
Arguments sy_api {A B} _.
Arguments sy_block {A B} _.
Arguments sy_metrics {A B} _.
Arguments sy_unclaimed {A B} _.

(** The variables the correction loops update. *)
Record LoopAcc (B : Type) := {
  la_block : B;
  la_metrics : Registry;
  la_errs : list go_error;
  la_still : gset string;
  la_count : nat;       (* missing, or extra *)
  la_pending : nat
}.
Arguments la_block {B} _.
Arguments la_metrics {B} _.
Arguments la_errs {B} _.
Arguments la_still {B} _.
Arguments la_count {B} _.
Arguments la_pending {B} _.

Section Loops.
Context {B : Type}.

Definition errs_of (msg key : string) (e : error) : list go_error :=
  match e with Some err => [Wrap (msg +:+ key) [err]] | None => [] end.

(** The body of [for key in sortedKeys(desired) { if in actual: continue; ... }]. *)
Definition reapply_step (kind msg : string) (actual : string → bool) (put : string → B → error * B)
    (acc : LoopAcc B) (key : string) : LoopAcc B :=
  if actual key then acc
  else
    let '(e, b) := put key (la_block acc) in
    {| la_block := b;
       la_metrics := metric_Inc BlocklistDrift [kind; "missing"] (la_metrics acc);
       la_errs := la_errs acc ++ errs_of msg key e;
       la_still := la_still acc;
       la_count := S (la_count acc);
       la_pending := la_pending acc |}.

(** The body of [for key in sortedKeys(actual) { if in desired: continue; ... }]. *)
Definition prune_step (kind msg prefix : string) (desired : string → bool) (unclaimed : gset string)
    (del : string → B → error * B) (acc : LoopAcc B) (key : string) : LoopAcc B :=
  if desired key then acc
  else
    let still := {[prefix +:+ key]} ∪ la_still acc in
    if negb (bool_decide (prefix +:+ key ∈ unclaimed)) then
      {| la_block := la_block acc; la_metrics := la_metrics acc; la_errs := la_errs acc;
         la_still := still; la_count := la_count acc; la_pending := S (la_pending acc) |}
    else
      let '(e, b) := del key (la_block acc) in
      {| la_block := b;
         la_metrics := metric_Inc BlocklistDrift [kind; "extra"] (la_metrics acc);
         la_errs := la_errs acc ++ errs_of msg key e;
         la_still := still;
         la_count := S (la_count acc);
         la_pending := la_pending acc |}.

(** Hands the shared variables to the next loop, with fresh counters. *)
Definition next_loop (acc : LoopAcc B) : LoopAcc B :=
  {| la_block := la_block acc; la_metrics := la_metrics acc; la_errs := la_errs acc;
     la_still := la_still acc; la_count := 0; la_pending := 0 |}.
End Loops.

Definition in_map {V} (m : gmap string V) (k : string) : bool := bool_decide (is_Some (m !! k)).

Section Sync.
Context {A B : Type}.
Context `{ApiServer A} `{BlocklistUpdater B} `{BlocklistInspector B}.

(** [actualIPs] and [actualTunnels]. *)
Definition actual_ips (l : list net_IP) : gmap string net_IP :=
  fold_left (λ m ip, <[IPString ip := ip]> m) l ∅.
Definition actual_tunnels (l : list BlockedTunnel) : gmap string BlockedTunnel :=
  fold_left (λ m t, <[formatTunnel (IPString (bt_IP t)) (bt_TEID t) := t]> m) l ∅.

(** The zero values a lookup of a present key never returns. *)
Definition zero_tunnel : BlockedTunnel := {| bt_IP := []; bt_TEID := 0 |}.

Definition put_ip (m : gmap string net_IP) (key : string) : B → error * B :=
  Block (default [] (m !! key)).
Definition del_ip (m : gmap string net_IP) (key : string) : B → error * B :=
  Unblock (default [] (m !! key)).
Definition put_tunnel (m : gmap string BlockedTunnel) (key : string) : B → error * B :=
  let t := default zero_tunnel (m !! key) in BlockTunnel (bt_IP t) (bt_TEID t).
Definition del_tunnel (m : gmap string BlockedTunnel) (key : string) : B → error * B :=
  let t := default zero_tunnel (m !! key) in UnblockTunnel (bt_IP t) (bt_TEID t).

(** The gauges set at the end of a pass. *)
Definition publish (r : DriftReport) (b : B) (m : Registry) : Registry :=
  let m1 := metric_Set BlocklistEntries ["ip"; "desired"] (Z.of_nat (DesiredIPs r)) m in
  let m2 := metric_Set BlocklistEntries ["tunnel"; "desired"] (Z.of_nat (DesiredTunnels r)) m1 in
  let m3 := metric_Set BlocklistEntries ["ip"; "kernel"] (Z.of_nat (KernelIPs r)) m2 in
  let m4 := metric_Set BlocklistEntries ["tunnel"; "kernel"] (Z.of_nat (KernelTunnels r)) m3 in
  let '(capIPs, capTunnels) := MapCapacity b in
  let m5 := metric_Set BlocklistCapacity ["ip"] capIPs m4 in
  let m6 := metric_Set BlocklistCapacity ["tunnel"] capTunnels m5 in
  match ObservationOccupancy b with
  | Fail _ => m6
  | Ok (occ, cap) =>
      metric_Set ObservationMapCapacity ["tunnel_rate"] cap
        (metric_Set ObservationMapOccupancy ["tunnel_rate"] occ m6)
  end.

(** The four correction loops, in the code's order. *)
Definition correct (dI aI : gmap string net_IP) (dT aT : gmap string BlockedTunnel)
    (unclaimed : gset string) (b : B) (m : Registry) :
    LoopAcc B * LoopAcc B * LoopAcc B * LoopAcc B :=
  let acc0 := {| la_block := b; la_metrics := m; la_errs := []; la_still := ∅;
                 la_count := 0; la_pending := 0 |} in
  let acc1 := fold_left (reapply_step "ip" "re-apply block for " (in_map aI) (put_ip dI))
                (sortedKeys dI) acc0 in
  let acc2 := fold_left (prune_step "ip" "remove unclaimed block for " "ip:" (in_map dI) unclaimed (del_ip aI))
                (sortedKeys aI) (next_loop acc1) in
  let acc3 := fold_left (reapply_step "tunnel" "re-apply tunnel block for " (in_map aT) (put_tunnel dT))
                (sortedKeys dT) (next_loop acc2) in
  let acc4 := fold_left (prune_step "tunnel" "remove unclaimed tunnel block for " "tunnel:" (in_map dT)
                unclaimed (del_tunnel aT)) (sortedKeys aT) (next_loop acc3) in
  (acc1, acc2, acc3, acc4).

Definition Sync (s : SyncState A B) : DriftReport * error * SyncState A B :=
  let '(listed, api') := api_ListPolicies (sy_api s) in
  let with_api := {| sy_api := api'; sy_block := sy_block s; sy_metrics := sy_metrics s;
                     sy_unclaimed := sy_unclaimed s |} in
  match listed with
  | Fail err => (sizes_report 0 0 0 0, Some (Wrap "list TelecomSecurityPolicies" [err]), with_api)
  | Ok items =>
      let '(dI, dT) := desiredEnforcement items in
      match BlockedIPs (sy_block s) with
      | Fail err => (sizes_report (size dI) (size dT) 0 0, Some (Wrap "read kernel blocklist" [err]), with_api)
      | Ok kernelIPs =>
          match BlockedTunnels (sy_block s) with
          | Fail err =>
              (sizes_report (size dI) (size dT) 0 0, Some (Wrap "read kernel tunnel blocklist" [err]), with_api)
          | Ok kernelTunnels =>
              let aI := actual_ips kernelIPs in
              let aT := actual_tunnels kernelTunnels in
              let '(acc1, acc2, acc3, acc4) :=
                correct dI aI dT aT (sy_unclaimed s) (sy_block s) (sy_metrics s) in
              let report := {|
                MissingIPs := la_count acc1; MissingTunnels := la_count acc3;
                ExtraIPs := la_count acc2; ExtraTunnels := la_count acc4;
                PendingExtraIPs := la_pending acc2; PendingExtraTunnels := la_pending acc4;
                DesiredIPs := size dI; DesiredTunnels := size dT;
                KernelIPs := length kernelIPs; KernelTunnels := length kernelTunnels |} in
              let m := publish report (la_block acc4) (la_metrics acc4) in
              let done_ r := {| sy_api := api'; sy_block := la_block acc4;
                                sy_metrics := metric_Inc BlocklistReconciles [r] m;
                                sy_unclaimed := la_still acc4 |} in
              if (0 <? length (la_errs acc4))%nat
              then (report, Some (Wrap "blocklist reconciliation applied some of the corrections" (la_errs acc4)),
                    done_ "error")
              else (report, None, done_ "success")
          end
      end
  end.

(** [reportPinState]: the gauge, and the Events recorded. *)
Definition reportPinState (hasRecorder hasPodRef : bool) (b : B) (m : Registry) : Registry * list string :=
  let m' := metric_Set EnforcementPinned [] (if (PinPath b =? "")%string then 0 else 1) m in
  if negb (PinReset b) then (m', [])
  else (m', if hasRecorder && hasPodRef then ["EBPFPinsReset"] else []).

(** [Start]: the startup pass, then one pass per tick of the ticker; [ticks]
    is how many ticks arrive before the context is done. *)
Fixpoint sync_ticks (ticks : nat) (s : SyncState A B) : SyncState A B :=
  match ticks with
  | O => s
  | S n => sync_ticks n (Sync s).2
  end.

Definition Start (hasBlocklist hasInspector : bool) (configured : Duration) (ticks : nat)
    (s : SyncState A B) : SyncState A B :=
  if negb hasBlocklist || negb hasInspector then s
  else
    let s0 := {| sy_api := sy_api s; sy_block := sy_block s;
                 sy_metrics := (reportPinState false false (sy_block s) (sy_metrics s)).1;
                 sy_unclaimed := sy_unclaimed s |} in
    let s1 := (Sync s0).2 in
    if interval configured <=? 0 then s1 else sync_ticks ticks s1.
End Sync.
