(* ===== verification/SyncProofs.v ===== *)
(** * SyncProofs: drift reconciliation converges

    The two correction loops are analysed once, for a kind of entry whose
    elements have an injective textual key; addresses and tunnels instantiate
    it. On top: what one pass does, and that two error-free passes make the
    kernel equal to what the policies claim. *)

From S2P Require Import Prelude GoStrings NetIP Api Blocklist Loader Metrics World Decision SampleWorld BlocklistSync.

Local Open Scope Z_scope.

(** ** One kind of entry *)

Section Kind.
Context {B X O : Type} `{Countable X}.
Context (inv : B → Prop) (view : B → gset X) (other : B → O).

Context (den : string → option X).       (* what a key stands for *)

(** [put key] and [del key], on keys of [ks] with a denotation, act on the
    denoted element alone, or fail and change nothing. *)
Definition puts (put : string → B → error * B) (ks : list string) : Prop :=
  ∀ k b e b', k ∈ ks → inv b → put k b = (e, b') →
    inv b' ∧ other b' = other b ∧ ∃ x, den k = Some x ∧
      view b' = if e is None then {[x]} ∪ view b else view b.
Definition dels (del : string → B → error * B) (ks : list string) : Prop :=
  ∀ k b e b', k ∈ ks → inv b → del k b = (e, b') →
    inv b' ∧ other b' = other b ∧ ∃ x, den k = Some x ∧
      view b' = if e is None then view b ∖ {[x]} else view b.

(** The elements of the keys a loop acts on. *)
Definition acted (f : string → bool) (ks : list string) : gset X :=
  list_to_set (omap (λ k, if f k then den k else None) ks).

Lemma acted_spec f ks x : x ∈ acted f ks ↔ ∃ k, k ∈ ks ∧ f k = true ∧ den k = Some x.
Proof.
  unfold acted. rewrite elem_of_list_to_set, list_elem_of_omap. split.
  - intros (k & ? & Hk). destruct (f k) eqn:E; [|done]. eauto.
  - intros (k & ? & E & ?). exists k. by rewrite E.
Qed.

Lemma acted_cons f k ks : acted f (k :: ks) = acted f [k] ∪ acted f ks.
Proof. unfold acted. simpl. destruct (if f k then den k else None); set_solver. Qed.

Lemma errs_of_nil msg k e : errs_of msg k e = [] ↔ e = None.
Proof. split; [by destruct e|by intros ->]. Qed.

Lemma reapply_loop kind msg actual put ks acc :
  puts put ks → inv (la_block acc) →
  let acc' := fold_left (reapply_step kind msg actual put) ks acc in
  let added := acted (λ k, negb (actual k)) ks in
  inv (la_block acc') ∧ other (la_block acc') = other (la_block acc) ∧
  la_still acc' = la_still acc ∧ (∃ es, la_errs acc' = la_errs acc ++ es) ∧
  view (la_block acc) ⊆ view (la_block acc') ⊆ added ∪ view (la_block acc) ∧
  (la_errs acc' = [] → view (la_block acc') = added ∪ view (la_block acc)).
Proof.
  revert acc. induction ks as [|k ks IH]; intros acc Hput HI; cbn zeta; cbn [fold_left].
  { split; [done|]. split; [done|]. split; [done|]. split; [exists []; by rewrite app_nil_r|].
    unfold acted; simpl. clear; set_solver. }
  assert (Hput' : puts put ks) by (intros k' b e b' Hk'; apply Hput; set_solver).
  set (acc1 := reapply_step kind msg actual put acc k).
  assert (Hstep : inv (la_block acc1) ∧ other (la_block acc1) = other (la_block acc) ∧
    la_still acc1 = la_still acc ∧ (∃ es, la_errs acc1 = la_errs acc ++ es) ∧
    view (la_block acc) ⊆ view (la_block acc1) ⊆ acted (λ k, negb (actual k)) [k] ∪ view (la_block acc) ∧
    (la_errs acc1 = [] → view (la_block acc1) = acted (λ k, negb (actual k)) [k] ∪ view (la_block acc))).
  { subst acc1. unfold reapply_step, acted. simpl. destruct (actual k); simpl.
    { do 3 (split; [done|]). split; [exists []; by rewrite app_nil_r|]. clear; set_solver. }
    destruct (put k (la_block acc)) as [e b] eqn:E. simpl.
    destruct (Hput k _ _ _ (list_elem_of_here _ _) HI E) as (HI1 & Ho & x & Hx & Hv). rewrite Hx.
    do 3 (split; [done|]). split; [by eexists|]. rewrite Hv. split; [clear; destruct e; set_solver|].
    intros [_ He]%app_eq_nil. apply errs_of_nil in He as ->. clear; set_solver. }
  destruct Hstep as (HI1 & Ho1 & Hs1 & [es1 He1] & Hsub1 & Hok1).
  destruct (IH acc1 Hput' HI1) as (HI' & Ho' & Hs' & [es He'] & Hsub & Hok). rewrite acted_cons.
  split; [done|]. split; [congruence|]. split; [congruence|].
  split; [exists (es1 ++ es); by rewrite He', He1, app_assoc|]. split; [clear -Hsub1 Hsub; set_solver|].
  intros He. rewrite (Hok He), Hok1; [clear; set_solver|]. rewrite He' in He. by apply app_eq_nil in He as [? _].
Qed.

Lemma prune_loop kind msg prefix desired unclaimed del ks acc :
  dels del ks → inv (la_block acc) →
  let acc' := fold_left (prune_step kind msg prefix desired unclaimed del) ks acc in
  let removed := acted (λ k, negb (desired k) && bool_decide (prefix +:+ k ∈ unclaimed)) ks in
  inv (la_block acc') ∧ other (la_block acc') = other (la_block acc) ∧
  (∀ s, s ∈ la_still acc' ↔ s ∈ la_still acc ∨
     ∃ k, k ∈ ks ∧ desired k = false ∧ s = prefix +:+ k) ∧
  (∃ es, la_errs acc' = la_errs acc ++ es) ∧
  view (la_block acc) ∖ removed ⊆ view (la_block acc') ⊆ view (la_block acc) ∧
  (la_errs acc' = [] → view (la_block acc') = view (la_block acc) ∖ removed).
Proof.
  revert acc. induction ks as [|k ks IH]; intros acc Hdel HI; cbn zeta; cbn [fold_left].
  { split; [done|]. split; [done|]. split; [clear; set_solver|]. split; [exists []; by rewrite app_nil_r|].
    unfold acted; simpl. clear; set_solver. }
  assert (Hdel' : dels del ks) by (intros k' b e b' Hk'; apply Hdel; set_solver).
  set (acc1 := prune_step kind msg prefix desired unclaimed del acc k).
  set (f := λ k, negb (desired k) && bool_decide (prefix +:+ k ∈ unclaimed)) in *.
  assert (Hstep : inv (la_block acc1) ∧ other (la_block acc1) = other (la_block acc) ∧
    (∀ s, s ∈ la_still acc1 ↔ s ∈ la_still acc ∨ (desired k = false ∧ s = prefix +:+ k)) ∧
    (∃ es, la_errs acc1 = la_errs acc ++ es) ∧
    view (la_block acc) ∖ acted f [k] ⊆ view (la_block acc1) ⊆ view (la_block acc) ∧
    (la_errs acc1 = [] → view (la_block acc1) = view (la_block acc) ∖ acted f [k])).
  { subst acc1 f. unfold prune_step, acted. simpl. destruct (desired k); simpl.
    { do 2 (split; [done|]). split; [naive_solver|]. split; [exists []; by rewrite app_nil_r|]. clear; set_solver. }
    destruct (bool_decide (prefix +:+ k ∈ unclaimed)); simpl.
    2:{ do 2 (split; [done|]). split; [clear; set_solver|]. split; [exists []; by rewrite app_nil_r|]. clear; set_solver. }
    destruct (del k (la_block acc)) as [e b] eqn:E. simpl.
    destruct (Hdel k _ _ _ (list_elem_of_here _ _) HI E) as (HI1 & Ho & x & Hx & Hv). rewrite Hx.
    do 2 (split; [done|]). split; [clear; set_solver|]. split; [by eexists|].
    rewrite Hv. split; [clear; destruct e; set_solver|].
    intros [_ He]%app_eq_nil. apply errs_of_nil in He as ->. clear; set_solver. }
  destruct Hstep as (HI1 & Ho1 & Hs1 & [es1 He1] & Hsub1 & Hok1).
  destruct (IH acc1 Hdel' HI1) as (HI' & Ho' & Hs' & [es He'] & Hsub & Hok). rewrite acted_cons.
  split; [done|]. split; [congruence|].
  split; [intros s; rewrite Hs', Hs1; setoid_rewrite elem_of_cons; naive_solver|].
  split; [exists (es1 ++ es); by rewrite He', He1, app_assoc|]. split; [clear -Hsub1 Hsub; set_solver|].
  intros He. rewrite (Hok He), Hok1; [clear; set_solver|]. rewrite He' in He. by apply app_eq_nil in He as [? _].
Qed.
End Kind.

(** ** Maps keyed by the text of what they hold *)

Section Keyed.
Context {V X : Type} `{Countable X}.
Context (keyV : V → string) (denV : V → option X) (wfV : V → Prop).
Context (ckey : X → string) (wfX : X → Prop).
Context (den_wf : ∀ v, wfV v → ∃ x, denV v = Some x ∧ wfX x ∧ keyV v = ckey x).
Context (ckey_inj : ∀ x y, wfX x → wfX y → ckey x = ckey y → x = y).

Definition keyed (m : gmap string V) : Prop := ∀ k v, m !! k = Some v → k = keyV v ∧ wfV v.
Definition holds (m : gmap string V) : gset X := list_to_set (omap denV (map_to_list m).*2).

Lemma holds_spec m x : x ∈ holds m ↔ ∃ k v, m !! k = Some v ∧ denV v = Some x.
Proof using Type.
  unfold holds. rewrite elem_of_list_to_set, list_elem_of_omap. split.
  - intros (v & Hv & Hd). apply list_elem_of_fmap in Hv as ([k v'] & -> & Hin%elem_of_map_to_list). eauto.
  - intros (k & v & Hm & Hd). exists v. split; [|done]. apply list_elem_of_fmap. exists (k, v).
    split; [done|]. by apply elem_of_map_to_list.
Qed.

Lemma holds_wf m x : keyed m → x ∈ holds m → wfX x ∧ in_map m (ckey x) = true.
Proof using den_wf.
  intros Hk (k & v & Hm & Hd)%holds_spec. destruct (Hk _ _ Hm) as [-> Hv].
  destruct (den_wf v Hv) as (x' & Hd' & Hw & Hc). simplify_eq. split; [done|].
  apply bool_decide_eq_true. rewrite <- Hc. eauto.
Qed.

Lemma in_map_holds m x : keyed m → wfX x → in_map m (ckey x) = true ↔ x ∈ holds m.
Proof using den_wf ckey_inj.
  intros Hk Hx. split; [|by intros Hin; apply holds_wf].
  intros [v Hv]%bool_decide_eq_true. apply holds_spec. exists (ckey x), v. split; [done|].
  destruct (Hk _ _ Hv) as [Hkey Hw]. destruct (den_wf v Hw) as (x' & Hd & Hwx & Hc).
  rewrite Hd. f_equal. apply ckey_inj; [done..|]. congruence.
Qed.

(** The keys a sorted range visits are those of the elements held. *)
Lemma sortedKeys_spec m k : keyed m →
  k ∈ sortedKeys m ↔ ∃ x, x ∈ holds m ∧ k = ckey x ∧ (m !! k ≫= denV) = Some x.
Proof using den_wf.
  intros Hk. unfold sortedKeys. rewrite elem_of_sort_strings, list_elem_of_fmap. split.
  - intros ([k' v] & -> & Hin%elem_of_map_to_list). simpl. destruct (Hk _ _ Hin) as [Hkey Hw].
    destruct (den_wf v Hw) as (x & Hd & _ & Hc). exists x. rewrite Hin. simpl.
    split; [|by rewrite Hkey]. apply holds_spec. eauto.
  - intros (x & _ & -> & Hd). destruct (m !! ckey x) as [v|] eqn:E; [|done].
    exists (ckey x, v). split; [done|]. by apply elem_of_map_to_list.
Qed.

Lemma acted_holds f m x : keyed m →
  x ∈ acted (λ k, m !! k ≫= denV) f (sortedKeys m) ↔ x ∈ holds m ∧ f (ckey x) = true.
Proof using den_wf.
  intros Hk. rewrite acted_spec. split.
  - intros (k & Hks & Hf & Hd). apply sortedKeys_spec in Hks as (y & Hy & -> & Hd'); [|done].
    by simplify_eq.
  - intros [Hx Hf]. destruct (proj1 (holds_spec _ _) Hx) as (k & v & Hm & Hd).
    destruct (Hk _ _ Hm) as [-> Hw]. destruct (den_wf v Hw) as (x' & Hd' & _ & Hc). simplify_eq.
    exists (ckey x). rewrite <- Hc, Hm. simpl. split; [|by rewrite Hc].
    apply sortedKeys_spec; [done|]. exists x. rewrite Hm. done.
Qed.

Lemma keyed_insert m v : keyed m → wfV v → keyed (<[keyV v := v]> m).
Proof using Type.
  intros Hk Hv k v'. rewrite lookup_insert_Some. intros [[<- <-]|[_ ?]]; [done|by apply Hk].
Qed.

Lemma holds_insert m v x : keyed m → wfV v → denV v = Some x →
  holds (<[keyV v := v]> m) = {[x]} ∪ holds m.
Proof using den_wf ckey_inj.
  intros Hk Hv Hd. apply set_eq. intros y. rewrite elem_of_union, elem_of_singleton, !holds_spec. split.
  - intros (k & v' & Hm & Hd'). apply lookup_insert_Some in Hm as [[<- <-]|[_ Hm]]; [left; congruence|eauto].
  - intros [->|(k & v' & Hm & Hd')]; [exists (keyV v), v; by rewrite lookup_insert_eq|].
    destruct (decide (k = keyV v)) as [->|Hne].
    + exists (keyV v), v. rewrite lookup_insert_eq. split; [done|].
      destruct (Hk _ _ Hm) as [Hkey Hw]. destruct (den_wf v' Hw) as (y' & Hy & Hwy & Hcy).
      destruct (den_wf v Hv) as (x' & Hx & Hwx & Hcx). simplify_eq.
      rewrite Hd. f_equal. apply ckey_inj; congruence || done.
    + exists k, v'. by rewrite lookup_insert_ne.
Qed.

Lemma not_in_map_holds m x : keyed m → wfX x → in_map m (ckey x) = false ↔ x ∉ holds m.
Proof using den_wf ckey_inj.
  intros Hk Hx. rewrite <- (in_map_holds m x Hk Hx). by destruct (in_map m (ckey x)).
Qed.

(** What the two loops act on, and the marks the second leaves, in terms of
    the elements instead of their keys: [d] is desired, [a] is actual. *)
Lemma added_holds d a : keyed d → keyed a →
  acted (λ k, d !! k ≫= denV) (λ k, negb (in_map a k)) (sortedKeys d) = holds d ∖ holds a.
Proof using den_wf ckey_inj.
  intros Hd Ha. apply set_eq. intros x. rewrite elem_of_difference, acted_holds, negb_true_iff by done.
  split; intros [Hx Hf]; (split; [done|]); destruct (holds_wf d x Hd Hx) as [Hw _];
    by apply not_in_map_holds.
Qed.

Lemma removed_holds prefix d a (U : gset string) : keyed d → keyed a →
  acted (λ k, a !! k ≫= denV)
    (λ k, negb (in_map d k) && bool_decide (prefix +:+ k ∈ U)) (sortedKeys a) =
  filter (λ x, x ∉ holds d ∧ prefix +:+ ckey x ∈ U) (holds a).
Proof using den_wf ckey_inj.
  intros Hd Ha. apply set_eq. intros x. rewrite elem_of_filter, acted_holds by done.
  rewrite andb_true_iff, negb_true_iff, bool_decide_eq_true. split.
  - intros [Hx [Hf HU]]. destruct (holds_wf a x Ha Hx) as [Hw _]. by apply not_in_map_holds in Hf.
  - intros [[Hn HU] Hx]. destruct (holds_wf a x Ha Hx) as [Hw _]. by apply not_in_map_holds in Hn.
Qed.

Lemma still_holds prefix d a (s : string) : keyed d → keyed a →
  (∃ k, k ∈ sortedKeys a ∧ in_map d k = false ∧ s = prefix +:+ k) ↔
  (∃ x, x ∈ holds a ∖ holds d ∧ s = prefix +:+ ckey x).
Proof using den_wf ckey_inj.
  intros Hd Ha. split.
  - intros (k & (x & Hx & -> & _)%sortedKeys_spec & Hf & ->); [|done].
    destruct (holds_wf a x Ha Hx) as [Hw _]. apply not_in_map_holds in Hf; [|done..]. exists x. set_solver.
  - intros (x & [Hx Hn]%elem_of_difference & ->). exists (ckey x).
    destruct (holds_wf a x Ha Hx) as [Hw Hin]. split; [|split; [by apply not_in_map_holds|done]].
    apply elem_of_sort_strings, list_elem_of_fmap. apply bool_decide_eq_true in Hin as [v Hv].
    exists (ckey x, v). split; [done|]. by apply elem_of_map_to_list.
Qed.
End Keyed.

(** ** Addresses and tunnels *)

Definition tunnel_key (t : BlockedTunnel) : string := formatTunnel (IPString (bt_IP t)) (bt_TEID t).
Definition tunnel_den (t : BlockedTunnel) : option (list Z * Z) :=
  a ← canon (bt_IP t); Some (a, bt_TEID t).
Definition bt_wf (t : BlockedTunnel) : Prop := ip_wf (bt_IP t) ∧ 0 < bt_TEID t < 2 ^ 32.
Definition tunnel_ckey (x : list Z * Z) : string := formatTunnel (IPString x.1) x.2.

Lemma ip_den_wf ip : ip_wf ip → ∃ x, canon ip = Some x ∧ addr_wf x ∧ IPString ip = IPString x.
Proof.
  intros Hip. destruct (canon_wf ip Hip) as (x & Hc & Hx). exists x. split; [done|]. split; [done|].
  by apply IPString_canon.
Qed.

Lemma tunnel_den_wf t : bt_wf t → ∃ x, tunnel_den t = Some x ∧ tunnel_wf x ∧ tunnel_key t = tunnel_ckey x.
Proof.
  intros [Hip Ht]. destruct (ip_den_wf _ Hip) as (x & Hc & Hx & Hk). exists (x, bt_TEID t).
  unfold tunnel_den, tunnel_wf, tunnel_key, tunnel_ckey. rewrite Hc, Hk. done.
Qed.

Lemma tunnel_ckey_inj x y : tunnel_wf x → tunnel_wf y → tunnel_ckey x = tunnel_ckey y → x = y.
Proof.
  destruct x as [a i], y as [b j]. intros [Ha Hi] [Hb Hj] Heq. simpl in *.
  destruct (ParseIP_IPString a (addr_wf_ip_wf _ Ha)) as (ia & Pa & Ca).
  destruct (ParseIP_IPString b (addr_wf_ip_wf _ Hb)) as (ib & Pb & Cb).
  unfold tunnel_ckey in Heq. simpl in Heq.
  assert (Hr : Ok (ia, i) = Ok (ib, j)).
  { rewrite <- (parseTunnel_formatTunnel_aux _ _ i Pa), <- (parseTunnel_formatTunnel_aux _ _ j Pb)
      by (unfold in_width; lia). by rewrite Heq. }
  injection Hr as -> ->. destruct Ha as [_ Ha], Hb as [_ Hb]. congruence.
Qed.

(** ** The desired sets *)

Definition live (items : list TelecomSecurityPolicy) : list TelecomSecurityPolicy :=
  filter (λ p, deletion_is_zero p = true) items.

(** What the policies that are not being deleted claim, canonically; a tunnel
    entry with TEID 0 names nothing. *)
Definition desired_ips (items : list TelecomSecurityPolicy) : gset (list Z) :=
  ⋃ ((λ p, claimed_ips (st_BlockedSourceIPs (pol_Status p))) <$> live items).
Definition desired_tunnels (items : list TelecomSecurityPolicy) : gset (list Z * Z) :=
  filter (λ t, t.2 ≠ 0) (⋃ ((λ p, claimed_tunnels (st_BlockedTunnels (pol_Status p))) <$> live items)).

Abbreviation keyed_ips := (keyed IPString ip_wf) (only parsing).
Abbreviation keyed_tunnels := (keyed tunnel_key bt_wf) (only parsing).
Abbreviation holds_ips := (holds canon) (only parsing).
Abbreviation holds_tunnels := (holds tunnel_den) (only parsing).

Lemma add_desired_ips_spec l m : keyed_ips m →
  keyed_ips (fold_left add_desired_ip l m) ∧
  holds_ips (fold_left add_desired_ip l m) = claimed_ips l ∪ holds_ips m.
Proof.
  revert m. induction l as [|raw l IH]; intros m Hm; cbn [fold_left].
  { split; [done|]. unfold claimed_ips. simpl. set_solver. }
  assert (Hstep : keyed_ips (add_desired_ip m raw) ∧ holds_ips (add_desired_ip m raw) = claimed_ips [raw] ∪ holds_ips m).
  { unfold add_desired_ip, claimed_ips, raw_addr. simpl. destruct (ParseIP raw) as [ip|] eqn:Ep; simpl.
    - destruct (ParseIP_wf _ _ Ep) as [Hip _]. destruct (canon_wf ip Hip) as (x & Hc & _).
      split; [by apply keyed_insert|]. rewrite (holds_insert IPString canon ip_wf IPString addr_wf ip_den_wf IPString_inj m ip x) by done.
      rewrite Hc. set_solver.
    - split; [done|set_solver]. }
  destruct Hstep as [Hk Hh]. destruct (IH _ Hk) as [Hk' Hh']. split; [done|].
  rewrite Hh', Hh, (claimed_ips_cons raw l). set_solver.
Qed.

Lemma add_desired_tunnels_spec l m : keyed_tunnels m →
  keyed_tunnels (fold_left add_desired_tunnel l m) ∧
  holds_tunnels (fold_left add_desired_tunnel l m) =
    filter (λ t, t.2 ≠ 0) (claimed_tunnels l) ∪ holds_tunnels m.
Proof.
  revert m. induction l as [|e l IH]; intros m Hm; cbn [fold_left].
  { split; [done|]. unfold claimed_tunnels. simpl. set_solver. }
  assert (Hstep : keyed_tunnels (add_desired_tunnel m e) ∧ holds_tunnels (add_desired_tunnel m e) =
    filter (λ t, t.2 ≠ 0) (claimed_tunnels [e]) ∪ holds_tunnels m).
  { unfold add_desired_tunnel, claimed_tunnels, entry_tunnel. simpl.
    destruct (parseTunnel e) as [[ip teid]|] eqn:Ep; simpl; [|split; [done|set_solver]].
    destruct (parseTunnel_wf _ _ _ Ep) as [Hip Ht]. destruct (canon_wf ip Hip) as (x & Hc & _). rewrite Hc. simpl.
    destruct (teid =? 0) eqn:E0; unbool.
    - subst. split; [done|set_solver].
    - set (t := {| bt_IP := ip; bt_TEID := teid |}).
      change (formatTunnel (IPString ip) teid) with (tunnel_key t).
      assert (Hw : bt_wf t) by (split; simpl; [done|lia]). split; [by apply keyed_insert|].
      rewrite (holds_insert tunnel_key tunnel_den bt_wf tunnel_ckey tunnel_wf tunnel_den_wf tunnel_ckey_inj m t (x, teid)); [|done|done|].
      + set_solver.
      + unfold tunnel_den. simpl. by rewrite Hc. }
  destruct Hstep as [Hk Hh]. destruct (IH _ Hk) as [Hk' Hh']. split; [done|].
  rewrite Hh', Hh, (claimed_tunnels_cons e l). set_solver.
Qed.

Lemma keyed_empty {V} (key : V → string) (wf : V → Prop) : keyed key wf ∅.
Proof. intros k v. by rewrite lookup_empty. Qed.

Lemma holds_empty {V X} `{Countable X} (d : V → option X) : holds d ∅ = ∅.
Proof. unfold holds. by rewrite map_to_list_empty. Qed.

Lemma desiredEnforcement_spec items dI dT : desiredEnforcement items = (dI, dT) →
  keyed_ips dI ∧ keyed_tunnels dT ∧
  holds_ips dI = desired_ips items ∧ holds_tunnels dT = desired_tunnels items.
Proof.
  unfold desiredEnforcement.
  assert (Hgen : ∀ items mI mT dI dT, keyed_ips mI → keyed_tunnels mT →
    fold_left (λ acc policy, if negb (deletion_is_zero policy) then acc
      else (fold_left add_desired_ip (st_BlockedSourceIPs (pol_Status policy)) acc.1,
            fold_left add_desired_tunnel (st_BlockedTunnels (pol_Status policy)) acc.2)) items (mI, mT) = (dI, dT) →
    keyed_ips dI ∧ keyed_tunnels dT ∧ holds_ips dI = desired_ips items ∪ holds_ips mI ∧
    holds_tunnels dT = desired_tunnels items ∪ holds_tunnels mT).
  { clear. induction items as [|p items IH]; intros mI mT dI dT HI HT; cbn [fold_left].
    { intros [= <- <-]. split; [done|]. split; [done|]. unfold desired_ips, desired_tunnels. simpl.
      set_solver. }
    destruct (deletion_is_zero p) eqn:Ed; cbn [negb fst snd].
    - destruct (add_desired_ips_spec (st_BlockedSourceIPs (pol_Status p)) mI HI) as [HI1 HhI].
      destruct (add_desired_tunnels_spec (st_BlockedTunnels (pol_Status p)) mT HT) as [HT1 HhT].
      intros Hrun. destruct (IH _ _ _ _ HI1 HT1 Hrun) as (? & ? & -> & ->). split; [done|]. split; [done|].
      rewrite HhI, HhT. unfold desired_ips, desired_tunnels, live. rewrite filter_cons_True by done.
      csimpl. clear. split; set_solver.
    - intros Hrun. destruct (IH _ _ _ _ HI HT Hrun) as (? & ? & -> & ->). split; [done|]. split; [done|].
      unfold desired_ips, desired_tunnels, live. by rewrite filter_cons_False by congruence. }
  intros Hrun. destruct (Hgen _ _ _ _ _ (keyed_empty _ _) (keyed_empty _ _) Hrun) as (? & ? & HhI & HhT).
  rewrite (holds_empty canon) in HhI. rewrite (holds_empty tunnel_den) in HhT.
  split; [done|]. split; [done|]. set_solver.
Qed.

(** ** One pass *)

Section Pass.
Context {A B : Type}.
Context `{HA : ApiServer A} `{HB : BlocklistUpdater B, HBS : !BlocklistSpec B}.
Context `{HBI : BlocklistInspector B, HIS : !InspectorSpec B}.

Lemma put_ip_puts m : keyed_ips m →
  puts bl_inv bl_ips bl_tunnels (λ k, m !! k ≫= canon) (put_ip m) (sortedKeys m).
Proof using Type.
  intros Hm k b e b' Hks HI Hrun.
  apply (sortedKeys_spec IPString canon ip_wf IPString addr_wf ip_den_wf) in Hks as (x & _ & _ & Hd); [|done].
  unfold put_ip in Hrun. destruct (m !! k) as [ip|] eqn:E; simpl in *; [|done].
  destruct (Hm _ _ E) as [_ Hip]. split; [by eapply Block_inv|]. destruct e as [err|].
  - destruct (Block_err ip b err b' HI Hip Hrun) as [Hi Ht]. split; [done|]. by exists x.
  - destruct (Block_ok ip x b b' HI Hip Hd Hrun) as [Hi Ht]. split; [done|]. by exists x.
Qed.

Lemma del_ip_dels m : keyed_ips m →
  dels bl_inv bl_ips bl_tunnels (λ k, m !! k ≫= canon) (del_ip m) (sortedKeys m).
Proof using Type.
  intros Hm k b e b' Hks HI Hrun.
  apply (sortedKeys_spec IPString canon ip_wf IPString addr_wf ip_den_wf) in Hks as (x & _ & _ & Hd); [|done].
  unfold del_ip in Hrun. destruct (m !! k) as [ip|] eqn:E; simpl in *; [|done].
  destruct (Hm _ _ E) as [_ Hip]. split; [by eapply Unblock_inv|]. destruct e as [err|].
  - destruct (Unblock_err ip b err b' HI Hip Hrun) as [Hi Ht]. split; [done|]. by exists x.
  - destruct (Unblock_ok ip x b b' HI Hip Hd Hrun) as [Hi Ht]. split; [done|]. by exists x.
Qed.

Lemma put_tunnel_puts m : keyed_tunnels m →
  puts bl_inv bl_tunnels bl_ips (λ k, m !! k ≫= tunnel_den) (put_tunnel m) (sortedKeys m).
Proof using Type.
  intros Hm k b e b' Hks HI Hrun.
  apply (sortedKeys_spec tunnel_key tunnel_den bt_wf tunnel_ckey tunnel_wf tunnel_den_wf) in Hks as (x & _ & _ & Hd); [|done].
  unfold put_tunnel in Hrun. destruct (m !! k) as [t|] eqn:E; simpl in *; [|done].
  destruct (Hm _ _ E) as [_ [Hip Ht]]. assert (Ht' : 0 ≤ bt_TEID t < 2 ^ 32) by lia.
  unfold tunnel_den in Hd. destruct (canon (bt_IP t)) as [c|] eqn:Hc; [|done]. simpl in Hd. injection Hd as <-.
  split; [by eapply BlockTunnel_inv|]. destruct e as [err|].
  - destruct (BlockTunnel_err _ _ b err b' HI Hip Ht' Hrun) as [Hi Htn]. split; [done|]. eexists. split; [|done].
    unfold tunnel_den. by rewrite Hc.
  - destruct (BlockTunnel_ok _ c _ b b' HI Hip Ht' Hc Hrun) as (_ & Htn & Hi). split; [done|]. eexists.
    split; [|done]. unfold tunnel_den. by rewrite Hc.
Qed.

Lemma del_tunnel_dels m : keyed_tunnels m →
  dels bl_inv bl_tunnels bl_ips (λ k, m !! k ≫= tunnel_den) (del_tunnel m) (sortedKeys m).
Proof using Type.
  intros Hm k b e b' Hks HI Hrun.
  apply (sortedKeys_spec tunnel_key tunnel_den bt_wf tunnel_ckey tunnel_wf tunnel_den_wf) in Hks as (x & _ & _ & Hd); [|done].
  unfold del_tunnel in Hrun. destruct (m !! k) as [t|] eqn:E; simpl in *; [|done].
  destruct (Hm _ _ E) as [_ [Hip Ht]]. assert (Ht' : 0 ≤ bt_TEID t < 2 ^ 32) by lia.
  unfold tunnel_den in Hd. destruct (canon (bt_IP t)) as [c|] eqn:Hc; [|done]. simpl in Hd. injection Hd as <-.
  split; [by eapply UnblockTunnel_inv|]. destruct e as [err|].
  - destruct (UnblockTunnel_err _ _ b err b' HI Hip Ht' Hrun) as [Hi Htn]. split; [done|]. eexists. split; [|done].
    unfold tunnel_den. by rewrite Hc.
  - destruct (UnblockTunnel_ok _ c _ b b' HI Hip Ht' Hc Hrun) as (_ & Htn & Hi). split; [done|]. eexists.
    split; [|done]. unfold tunnel_den. by rewrite Hc.
Qed.

(** *** What the kernel read back is *)

Lemma actual_ips_spec b l : bl_inv b → BlockedIPs b = Ok l →
  keyed_ips (actual_ips l) ∧ holds_ips (actual_ips l) = bl_ips b.
Proof using HIS.
  intros HI Hread. destruct (BlockedIPs_spec b l HI Hread) as (_ & Hwf & Hmem).
  assert (Hgen : ∀ l m, Forall addr_wf l → keyed_ips m →
    keyed_ips (fold_left (λ m ip, <[IPString ip := ip]> m) l m) ∧
    ∀ x, x ∈ holds_ips (fold_left (λ m ip, <[IPString ip := ip]> m) l m) ↔ x ∈ l ∨ x ∈ holds_ips m).
  { clear. induction l as [|a l IH]; intros m Hl Hm; cbn [fold_left]; [split; [done|]; set_solver|].
    apply Forall_cons in Hl as [Ha Hl]. pose proof (addr_wf_ip_wf _ Ha) as Hip.
    destruct (IH (<[IPString a := a]> m) Hl) as [Hk Hh]; [by apply keyed_insert|]. split; [done|].
    intros x. rewrite Hh, (holds_insert IPString canon ip_wf IPString addr_wf ip_den_wf IPString_inj m a a)
      by (done || apply Ha). set_solver. }
  destruct (Hgen l ∅ Hwf (keyed_empty _ _)) as [Hk Hh]. split; [done|]. apply set_eq. intros x.
  unfold actual_ips. rewrite Hh, Hmem. rewrite (holds_empty canon). set_solver.
Qed.

Lemma actual_tunnels_spec b l : bl_inv b → BlockedTunnels b = Ok l →
  keyed_tunnels (actual_tunnels l) ∧ holds_tunnels (actual_tunnels l) = bl_tunnels b.
Proof using HIS.
  intros HI Hread. destruct (BlockedTunnels_spec b l HI Hread) as (_ & Hwf & Hmem).
  assert (Hgen : ∀ l m, Forall (λ t, tunnel_wf (bt_IP t, bt_TEID t)) l → keyed_tunnels m →
    keyed_tunnels (fold_left (λ m t, <[formatTunnel (IPString (bt_IP t)) (bt_TEID t) := t]> m) l m) ∧
    ∀ x, x ∈ holds_tunnels (fold_left (λ m t, <[formatTunnel (IPString (bt_IP t)) (bt_TEID t) := t]> m) l m) ↔
      x ∈ ((λ t, (bt_IP t, bt_TEID t)) <$> l) ∨ x ∈ holds_tunnels m).
  { clear. induction l as [|t l IH]; intros m Hl Hm; cbn [fold_left]; [split; [done|]; set_solver|].
    apply Forall_cons in Hl as [[Ha Ht] Hl]. simpl in Ha, Ht. pose proof (addr_wf_ip_wf _ Ha) as Hip.
    change (formatTunnel (IPString (bt_IP t)) (bt_TEID t)) with (tunnel_key t).
    assert (Hw : bt_wf t) by done.
    destruct (IH (<[tunnel_key t := t]> m) Hl) as [Hk Hh]; [by apply keyed_insert|]. split; [done|].
    intros x. rewrite Hh. csimpl.
    rewrite (holds_insert tunnel_key tunnel_den bt_wf tunnel_ckey tunnel_wf tunnel_den_wf tunnel_ckey_inj m t
      (bt_IP t, bt_TEID t)); [set_solver|done|done|].
    unfold tunnel_den. destruct Ha as [_ ->]. done. }
  destruct (Hgen l ∅ Hwf (keyed_empty _ _)) as [Hk Hh]. split; [done|]. apply set_eq. intros x.
  unfold actual_tunnels. rewrite Hh, Hmem. rewrite (holds_empty tunnel_den). set_solver.
Qed.

(** What a pass may remove: held, unclaimed by status, and marked by the
    previous pass. *)
Definition removable_ips (D K : gset (list Z)) (U : gset string) : gset (list Z) :=
  filter (λ x, x ∉ D ∧ "ip:" +:+ IPString x ∈ U) K.
Definition removable_tunnels (D K : gset (list Z * Z)) (U : gset string) : gset (list Z * Z) :=
  filter (λ x, x ∉ D ∧ "tunnel:" +:+ tunnel_ckey x ∈ U) K.


Lemma removable_ips_claimed D K U x : x ∈ removable_ips D K U → x ∉ D ∧ x ∈ K.
Proof using Type. unfold removable_ips. rewrite elem_of_filter. tauto. Qed.
Lemma removable_tunnels_claimed D K U x : x ∈ removable_tunnels D K U → x ∉ D ∧ x ∈ K.
Proof using Type. unfold removable_tunnels. rewrite elem_of_filter. tauto. Qed.

(** The four loops together. [D] and [K] are the desired and the kernel
    addresses, [DT] and [KT] the tunnels, [U] the previous marks. *)
Lemma correct_spec dI aI dT aT U b m acc1 acc2 acc3 acc4 :
  bl_inv b → keyed_ips dI → keyed_ips aI → keyed_tunnels dT → keyed_tunnels aT →
  holds_ips aI = bl_ips b → holds_tunnels aT = bl_tunnels b →
  correct dI aI dT aT U b m = (acc1, acc2, acc3, acc4) →
  let D := holds_ips dI in let DT := holds_tunnels dT in
  let K := bl_ips b in let KT := bl_tunnels b in
  let b' := la_block acc4 in
  bl_inv b' ∧
  (∀ s, s ∈ la_still acc4 ↔ (∃ x, x ∈ K ∖ D ∧ s = "ip:" +:+ IPString x) ∨
                            (∃ x, x ∈ KT ∖ DT ∧ s = "tunnel:" +:+ tunnel_ckey x)) ∧
  K ∖ removable_ips D K U ⊆ bl_ips b' ⊆ D ∪ K ∧
  KT ∖ removable_tunnels DT KT U ⊆ bl_tunnels b' ⊆ DT ∪ KT ∧
  (la_errs acc4 = [] →
     bl_ips b' = (D ∪ K) ∖ removable_ips D K U ∧
     bl_tunnels b' = (DT ∪ KT) ∖ removable_tunnels DT KT U).
Proof using Type.
  intros HI HdI HaI HdT HaT HKI HKT Hrun. unfold correct in Hrun. cbv zeta in Hrun.
  injection Hrun as H1 H2 H3 H4. cbv zeta.
  set (acc0 := {| la_block := b; la_metrics := m; la_errs := []; la_still := ∅; la_count := 0; la_pending := 0 |}) in *.
  rewrite H1 in H2, H3, H4. rewrite H2 in H3, H4. rewrite H3 in H4.
  destruct (reapply_loop bl_inv bl_ips bl_tunnels _ "ip" "re-apply block for " (in_map aI) (put_ip dI)
    (sortedKeys dI) acc0 (put_ip_puts _ HdI) HI) as (I1 & O1 & S1 & [e1 E1] & V1 & X1).
  rewrite H1 in I1, O1, S1, E1, V1, X1. clear H1.
  destruct (prune_loop bl_inv bl_ips bl_tunnels _ "ip" "remove unclaimed block for " "ip:" (in_map dI) U (del_ip aI)
    (sortedKeys aI) (next_loop acc1) (del_ip_dels _ HaI) I1) as (I2 & O2 & S2 & [e2 E2] & V2 & X2).
  rewrite H2 in I2, O2, S2, E2, V2, X2. clear H2.
  destruct (reapply_loop bl_inv bl_tunnels bl_ips _ "tunnel" "re-apply tunnel block for " (in_map aT) (put_tunnel dT)
    (sortedKeys dT) (next_loop acc2) (put_tunnel_puts _ HdT) I2) as (I3 & O3 & S3 & [e3 E3] & V3 & X3).
  rewrite H3 in I3, O3, S3, E3, V3, X3. clear H3.
  destruct (prune_loop bl_inv bl_tunnels bl_ips _ "tunnel" "remove unclaimed tunnel block for " "tunnel:" (in_map dT) U
    (del_tunnel aT) (sortedKeys aT) (next_loop acc3) (del_tunnel_dels _ HaT) I3) as (I4 & O4 & S4 & [e4 E4] & V4 & X4).
  rewrite H4 in I4, O4, S4, E4, V4, X4. clear H4. subst acc0.
  cbn [la_block la_errs la_still next_loop] in *.
  rewrite (added_holds _ _ _ _ _ ip_den_wf IPString_inj dI aI HdI HaI), HKI in V1, X1.
  rewrite (removed_holds _ _ _ _ _ ip_den_wf IPString_inj "ip:" dI aI U HdI HaI), HKI in V2, X2.
  rewrite (added_holds _ _ _ _ _ tunnel_den_wf tunnel_ckey_inj dT aT HdT HaT), HKT in V3, X3.
  rewrite (removed_holds _ _ _ _ _ tunnel_den_wf tunnel_ckey_inj "tunnel:" dT aT U HdT HaT), HKT in V4, X4.
  fold (removable_ips (holds_ips dI) (bl_ips b) U) in V2, X2.
  fold (removable_tunnels (holds_tunnels dT) (bl_tunnels b) U) in V4, X4.
  rewrite O2, O1 in *. rewrite O4, O3.
  split; [done|]. split.
  { intros s. rewrite S4, S3, S2, S1.
    rewrite (still_holds _ _ _ _ _ ip_den_wf IPString_inj "ip:" dI aI s HdI HaI), HKI.
    rewrite (still_holds _ _ _ _ _ tunnel_den_wf tunnel_ckey_inj "tunnel:" dT aT s HdT HaT), HKT.
    clear. set_solver. }
  split; [clear -V1 V2; set_solver|]. split; [clear -V3 V4; set_solver|]. intros He.
  assert (Hn : la_errs acc1 = [] ∧ la_errs acc2 = [] ∧ la_errs acc3 = []).
  { rewrite E4 in He. apply app_eq_nil in He as [He3 _]. pose proof He3 as He2. rewrite E3 in He2.
    apply app_eq_nil in He2 as [He2 _]. pose proof He2 as He1. rewrite E2 in He1.
    by apply app_eq_nil in He1 as [He1 _]. }
  destruct Hn as (N1 & N2 & N3). rewrite (X2 N2), (X1 N1), (X4 He), (X3 N3).
  by rewrite !difference_union_L.
Qed.

(** ** Whole passes *)

(** The policies a pass gets to see: what its own List returns, however far
    that is behind etcd. *)
Definition listed (a : A) : list TelecomSecurityPolicy :=
  match (api_ListPolicies a).1 with Ok items => items | Fail _ => [] end.
Definition wanted_ips (a : A) : gset (list Z) := desired_ips (listed a).
Definition wanted_tunnels (a : A) : gset (list Z * Z) := desired_tunnels (listed a).

(** What a readable kernel holds. *)
Definition kernel_wf (b : B) : Prop :=
  (∀ x, x ∈ bl_ips b → addr_wf x) ∧ (∀ x, x ∈ bl_tunnels b → tunnel_wf x).
Lemma read_kernel_wf b kI kT : bl_inv b → BlockedIPs b = Ok kI → BlockedTunnels b = Ok kT → kernel_wf b.
Proof using HIS.
  intros HI EI ET. destruct (BlockedIPs_spec b kI HI EI) as (_ & HwI & HI').
  destruct (BlockedTunnels_spec b kT HI ET) as (_ & HwT & HT'). split; intros x Hx.
  - apply HI' in Hx. by eapply Forall_forall in HwI.
  - apply HT', list_elem_of_fmap in Hx as (t & -> & Ht). by eapply Forall_forall in HwT.
Qed.

Lemma Sync_inv s r e s' : bl_inv (sy_block s) → Sync s = (r, e, s') →
  sy_api s' = (api_ListPolicies (sy_api s)).2 ∧ bl_inv (sy_block s') ∧
  ((is_Some e ∧ sy_block s' = sy_block s ∧ sy_unclaimed s' = sy_unclaimed s) ∨
   (is_Ok (api_ListPolicies (sy_api s)).1 = true ∧ kernel_wf (sy_block s) ∧
    let D := wanted_ips (sy_api s) in let DT := wanted_tunnels (sy_api s) in
    let K := bl_ips (sy_block s) in let KT := bl_tunnels (sy_block s) in
    (∀ m, m ∈ sy_unclaimed s' ↔ (∃ x, x ∈ K ∖ D ∧ m = "ip:" +:+ IPString x) ∨
                                (∃ x, x ∈ KT ∖ DT ∧ m = "tunnel:" +:+ tunnel_ckey x)) ∧
    K ∖ removable_ips D K (sy_unclaimed s) ⊆ bl_ips (sy_block s') ⊆ D ∪ K ∧
    KT ∖ removable_tunnels DT KT (sy_unclaimed s) ⊆ bl_tunnels (sy_block s') ⊆ DT ∪ KT ∧
    (e = None →
       bl_ips (sy_block s') = (D ∪ K) ∖ removable_ips D K (sy_unclaimed s) ∧
       bl_tunnels (sy_block s') = (DT ∪ KT) ∖ removable_tunnels DT KT (sy_unclaimed s)))).
Proof using HIS.
  intros HI Hrun. unfold Sync in Hrun.
  unfold wanted_ips, wanted_tunnels, listed.
  destruct (api_ListPolicies (sy_api s)) as [[items|err] a]; simpl.
  2:{ simplify_eq. simpl. split; [done|]. split; [done|]. left. split; [by eexists|done]. }
  destruct (desiredEnforcement items) as [dI dT] eqn:Ed.
  destruct (desiredEnforcement_spec _ _ _ Ed) as (KdI & KdT & HdI & HdT).
  destruct (BlockedIPs (sy_block s)) as [kI|err] eqn:EI.
  2:{ simplify_eq. simpl. split; [done|]. split; [done|]. left. split; [by eexists|done]. }
  destruct (BlockedTunnels (sy_block s)) as [kT|err] eqn:ET.
  2:{ simplify_eq. simpl. split; [done|]. split; [done|]. left. split; [by eexists|done]. }
  pose proof (read_kernel_wf _ _ _ HI EI ET) as Hwf.
  destruct (actual_ips_spec _ _ HI EI) as [KaI HaI]. destruct (actual_tunnels_spec _ _ HI ET) as [KaT HaT].
  destruct (correct _ _ _ _ _ _ _) as [[[acc1 acc2] acc3] acc4] eqn:Ec.
  pose proof (correct_spec _ _ _ _ _ _ _ _ _ _ _ HI KdI KaI KdT KaT HaI HaT Ec) as Hc. cbv zeta in Hc.
  rewrite HdI, HdT in Hc. destruct Hc as (HI' & Hst & Hs1 & Hs2 & Hok).
  destruct (la_errs acc4) as [|e0 es] eqn:Ee; simpl in Hrun; simplify_eq; simpl;
    (split; [done|]); (split; [done|]); right; do 5 (split; [done|]); [by intros _; apply Hok|done].
Qed.

(** a failed read is never acted on. When the policies cannot be listed, or
    either enforcement map cannot be read, the pass reports the error and
    changes nothing: no drop is added, none is removed, and the marks of the
    previous pass are kept (an unreachable API server does not look like "no
    policy wants anything blocked"). *)
Theorem failed_read_changes_nothing s :
  (∃ err, (api_ListPolicies (sy_api s)).1 = Fail err) ∨
  (∃ err, BlockedIPs (sy_block s) = Fail err) ∨ (∃ err, BlockedTunnels (sy_block s) = Fail err) →
  is_Some (Sync s).1.2 ∧ sy_block (Sync s).2 = sy_block s ∧ sy_unclaimed (Sync s).2 = sy_unclaimed s.
Proof using Type.
  intros Hfail. unfold Sync. destruct (api_ListPolicies (sy_api s)) as [[items|err] a]; simpl in Hfail.
  2:{ simpl. split; [by eexists|done]. }
  destruct (desiredEnforcement items) as [dI dT].
  destruct (BlockedIPs (sy_block s)) as [kI|err]; [|simpl; split; [by eexists|done]].
  destruct (BlockedTunnels (sy_block s)) as [kT|err]; [|simpl; split; [by eexists|done]].
  destruct Hfail as [[? ?]|[[? ?]|[? ?]]]; done.
Qed.

(** Both marks, of a drop a completed pass left unclaimed. *)
Lemma mark_ip_inv (K D : gset (list Z)) (KT DT : gset (list Z * Z)) x :
  addr_wf x → (∀ y, y ∈ K → addr_wf y) →
  (∃ y, y ∈ K ∖ D ∧ "ip:" +:+ IPString x = "ip:" +:+ IPString y) ∨
  (∃ y, y ∈ KT ∖ DT ∧ "ip:" +:+ IPString x = "tunnel:" +:+ tunnel_ckey y) → x ∈ K ∧ x ∉ D.
Proof using Type.
  intros Hx HK [(y & [Hy Hn]%elem_of_difference & Heq)|(y & _ & Heq)]; [|done].
  injection Heq as Heq. apply IPString_inj in Heq as ->; auto.
Qed.
Lemma mark_tunnel_inv (K D : gset (list Z)) (KT DT : gset (list Z * Z)) x :
  tunnel_wf x → (∀ y, y ∈ KT → tunnel_wf y) →
  (∃ y, y ∈ K ∖ D ∧ "tunnel:" +:+ tunnel_ckey x = "ip:" +:+ IPString y) ∨
  (∃ y, y ∈ KT ∖ DT ∧ "tunnel:" +:+ tunnel_ckey x = "tunnel:" +:+ tunnel_ckey y) → x ∈ KT ∧ x ∉ DT.
Proof using Type.
  intros Hx HK [(y & _ & Heq)|(y & [Hy Hn]%elem_of_difference & Heq)]; [done|].
  injection Heq as Heq. apply tunnel_ckey_inj in Heq as ->; auto.
Qed.

(** What one pass removes: something its own List does not claim, and that the
    previous pass had marked. *)
Lemma removal_marked s r e s' :
  bl_inv (sy_block s) → Sync s = (r, e, s') →
  (∀ x, x ∈ bl_ips (sy_block s) → x ∉ bl_ips (sy_block s') →
     addr_wf x ∧ x ∉ wanted_ips (sy_api s) ∧ "ip:" +:+ IPString x ∈ sy_unclaimed s) ∧
  (∀ x, x ∈ bl_tunnels (sy_block s) → x ∉ bl_tunnels (sy_block s') →
     tunnel_wf x ∧ x ∉ wanted_tunnels (sy_api s) ∧ "tunnel:" +:+ tunnel_ckey x ∈ sy_unclaimed s).
Proof using HIS.
  intros HI Hrun. destruct (Sync_inv _ _ _ _ HI Hrun) as (_ & _ & [(_ & -> & _)|(_ & Hwf & _ & [Hs1 _] & [Hs2 _] & _)]).
  { naive_solver. }
  split; intros x Hx Hn; (split; [by apply Hwf|]).
  - destruct (decide (x ∈ removable_ips (wanted_ips (sy_api s)) (bl_ips (sy_block s)) (sy_unclaimed s))) as [Hr|Hr].
    + unfold removable_ips in Hr. by apply elem_of_filter in Hr as [? _].
    + exfalso. apply Hn, Hs1. by apply elem_of_difference.
  - destruct (decide (x ∈ removable_tunnels (wanted_tunnels (sy_api s)) (bl_tunnels (sy_block s)) (sy_unclaimed s))) as [Hr|Hr].
    + unfold removable_tunnels in Hr. by apply elem_of_filter in Hr as [? _].
    + exfalso. apply Hn, Hs2. by apply elem_of_difference.
Qed.


(** the restart replay is immediate. One error-free pass leaves every
    address and tunnel claimed by a live policy it listed enforced, whatever the
    kernel had lost. *)
Theorem one_pass_replays s r s' :
  bl_inv (sy_block s) → Sync s = (r, None, s') →
  wanted_ips (sy_api s) ⊆ bl_ips (sy_block s') ∧ wanted_tunnels (sy_api s) ⊆ bl_tunnels (sy_block s').
Proof using HIS.
  intros HI Hrun. destruct (Sync_inv _ _ _ _ HI Hrun) as (_ & _ & [([? ?] & _)|(_ & _ & _ & _ & _ & Hok)]); [done|].
  destruct (Hok eq_refl) as [-> ->]. split; intros x Hx; apply elem_of_difference;
    (split; [by apply elem_of_union_l|]).
  - by intros [? _]%removable_ips_claimed.
  - by intros [? _]%removable_tunnels_claimed.
Qed.

(** Every drop outside [D] and [DT] carries the mark of the previous pass. *)
Definition marked (D : gset (list Z)) (DT : gset (list Z * Z)) (b : B) (U : gset string) : Prop :=
  bl_inv b ∧ (∀ x, x ∈ bl_ips b → x ∉ D → "ip:" +:+ IPString x ∈ U) ∧
  (∀ x, x ∈ bl_tunnels b → x ∉ DT → "tunnel:" +:+ tunnel_ckey x ∈ U).

(** An error-free pass marks, and after one that marked it settles. *)
Lemma pass_marks s r s' : bl_inv (sy_block s) → Sync s = (r, None, s') →
  marked (wanted_ips (sy_api s)) (wanted_tunnels (sy_api s)) (sy_block s') (sy_unclaimed s').
Proof using HIS.
  intros HI Hrun. destruct (Sync_inv _ _ _ _ HI Hrun) as (_ & HI' & [([? ?] & _)|(_ & _ & Hm & _ & _ & Hok)]); [done|].
  destruct (Hok eq_refl) as [Hi Ht]. split; [done|].
  split; intros x Hx Hd; apply Hm; [left|right]; exists x; (split; [|done]).
  - rewrite Hi in Hx. clear -Hx Hd. set_solver.
  - rewrite Ht in Hx. clear -Hx Hd. set_solver.
Qed.

Lemma pass_settles s r s' :
  marked (wanted_ips (sy_api s)) (wanted_tunnels (sy_api s)) (sy_block s) (sy_unclaimed s) → Sync s = (r, None, s') →
  bl_ips (sy_block s') = wanted_ips (sy_api s) ∧ bl_tunnels (sy_block s') = wanted_tunnels (sy_api s).
Proof using HIS.
  intros (HI & Hmi & Hmt) Hrun.
  destruct (Sync_inv _ _ _ _ HI Hrun) as (_ & HI' & [([? ?] & _)|(_ & _ & _ & _ & _ & Hok)]); [done|].
  destruct (Hok eq_refl) as [-> ->]. split; apply set_eq; intros x; rewrite elem_of_difference, elem_of_union.
  - split.
    + intros [[?|Hx] Hn]; [done|]. destruct (decide (x ∈ wanted_ips (sy_api s))) as [?|Hd]; [done|].
      destruct Hn. apply elem_of_filter. auto.
    + intros Hx. split; [by left|]. by intros [? _]%removable_ips_claimed.
  - split.
    + intros [[?|Hx] Hn]; [done|]. destruct (decide (x ∈ wanted_tunnels (sy_api s))) as [?|Hd]; [done|].
      destruct Hn. apply elem_of_filter. auto.
    + intros Hx. split; [by left|]. by intros [? _]%removable_tunnels_claimed.
Qed.

(** two passes converge. After two error-free passes in a row over the same
    kernel, both of which listed policies claiming the same, the kernel drops
    exactly the addresses and tunnels claimed: everything lost was re-applied
    and everything stale removed, whatever the kernel, and whatever marks, the
    first pass started from. *)
Theorem two_passes_converge s r1 s1 r2 s2 :
  bl_inv (sy_block s) → Sync s = (r1, None, s1) → Sync s1 = (r2, None, s2) →
  wanted_ips (sy_api s1) = wanted_ips (sy_api s) → wanted_tunnels (sy_api s1) = wanted_tunnels (sy_api s) →
  bl_ips (sy_block s2) = wanted_ips (sy_api s) ∧ bl_tunnels (sy_block s2) = wanted_tunnels (sy_api s).
Proof using HIS.
  intros HI Hrun1 Hrun2 Hw Hwt. rewrite <- Hw, <- Hwt. eapply pass_settles; [|exact Hrun2].
  rewrite Hw, Hwt. by eapply pass_marks.
Qed.
End Pass.

(** ** The theorems at a concrete node *)

Module SyncSample.
Import HashMaps.

(** The kernel holds a stale drop and lost the claimed one. *)
Definition stale : net_IP := [10; 0; 0; 99].
Lemma stale_wf : ip_wf stale.
Proof. split; [|by left]. repeat constructor; unfold is_byte; lia. Qed.
Definition node : Loader hmap := (Loader_Block stale (LoaderSample.empty_loader 8)).2.
Lemma node_inv : bl_inv node.
Proof.
  refine (Block_inv stale (LoaderSample.empty_loader 8) None node
    (LoaderSample.empty_loader_inv 8) stale_wf _). vm_compute. reflexivity.
Qed.

Definition policies : list TelecomSecurityPolicy :=
  [upf_policy true (with_tunnels ["10.0.0.66/0x7"; "10.0.0.66/0x0"] mitigating)].
Definition s0 : SyncState EtcdApi (Loader hmap) :=
  {| sy_api := sample_api policies None; sy_block := node; sy_metrics := empty_registry; sy_unclaimed := ∅ |}.
Definition s1 : SyncState EtcdApi (Loader hmap) := (Sync s0).2.
Definition s2 : SyncState EtcdApi (Loader hmap) := (Sync s1).2.

(** The first pass re-applies and marks, the second removes, the third is idle. *)
Example three_passes :
  ((Sync s0).1.1, (Sync s1).1.1, Drifted (Sync s2).1.1) =
  ({| MissingIPs := 1; MissingTunnels := 1; ExtraIPs := 0; ExtraTunnels := 0;
      PendingExtraIPs := 1; PendingExtraTunnels := 0; DesiredIPs := 1; DesiredTunnels := 1;
      KernelIPs := 1; KernelTunnels := 0 |},
   {| MissingIPs := 0; MissingTunnels := 0; ExtraIPs := 1; ExtraTunnels := 0;
      PendingExtraIPs := 0; PendingExtraTunnels := 0; DesiredIPs := 1; DesiredTunnels := 1;
      KernelIPs := 2; KernelTunnels := 1 |},
   false).
Proof. vm_compute. reflexivity. Qed.

Definition r0 : DriftReport := (Sync s0).1.1.
Definition r1 : DriftReport := (Sync s1).1.1.
Lemma s0_run : Sync s0 = (r0, None, s1).
Proof.
  unfold r0, s1. assert (He : (Sync s0).1.2 = None) by (vm_compute; reflexivity).
  rewrite <- He. by destruct (Sync s0) as [[]].
Qed.
Lemma s1_run : Sync s1 = (r1, None, s2).
Proof.
  unfold r1, s2. assert (He : (Sync s1).1.2 = None) by (vm_compute; reflexivity).
  rewrite <- He. by destruct (Sync s1) as [[]].
Qed.

Lemma s1_inv : bl_inv (sy_block s1).
Proof. exact (proj1 (proj2 (Sync_inv s0 r0 None s1 node_inv s0_run))). Qed.


Lemma one_pass_replays_witness :
  wanted_ips (sy_api s0) ⊆ bl_ips (sy_block s1) ∧ wanted_tunnels (sy_api s0) ⊆ bl_tunnels (sy_block s1).
Proof. exact (one_pass_replays s0 r0 s1 node_inv s0_run). Defined.

Lemma two_passes_converge_witness :
  bl_ips (sy_block s2) = wanted_ips (sy_api s0) ∧ bl_tunnels (sy_block s2) = wanted_tunnels (sy_api s0).
Proof. refine (two_passes_converge s0 r0 s1 r1 s2 node_inv s0_run s1_run _ _); vm_compute; reflexivity. Defined.

(** An API server that cannot list, over a map library that reads. *)
#[local] Instance deaf_server : ApiServer unit := {|
  api_GetPod _ a := (Fail (Errorf "unreachable"), a);
  api_GetPolicy _ a := (Fail (Errorf "unreachable"), a);
  api_ListPolicies a := (Fail (Errorf "unreachable"), a);
  api_UpdateStatus _ a := (Fail (Errorf "unreachable"), a);
  api_Update _ a := (Fail (Errorf "unreachable"), a);
  api_GetKillSwitch a := (Fail (Errorf "unreachable"), a) |}.

Definition s_deaf : SyncState unit (Loader hmap) :=
  {| sy_api := tt; sy_block := node; sy_metrics := empty_registry; sy_unclaimed := ∅ |}.

Lemma failed_read_changes_nothing_witness :
  is_Some (Sync s_deaf).1.2 ∧ sy_block (Sync s_deaf).2 = node ∧ sy_unclaimed (Sync s_deaf).2 = ∅.
Proof.
  refine (failed_read_changes_nothing s_deaf _). left. eexists. reflexivity.
Defined.
End SyncSample.
