(* ===== verification/Fleet.v ===== *)
(** * Fleet: one replica per node (leader election and node-local kernels)

    In DaemonSet mode every node runs the operator against its own kernel and,
    through its own cache, the same etcd. Leader election decides which parts
    run where: the watcher and the policy reconciler act on the leader, the
    Publisher and the drift reconciler on every node. [fleet_run] interleaves
    the drift passes of the nodes in any order; the gate itself is the
    manager's, a parameter. *)

From S2P Require Import Prelude GoStrings GoFloat NetIP Events Api BoundedFifo TunnelFlood SourceFlood Blocklist Loader PolicyIndex PodIPIndex KillSwitch ReactorLimiter ScoringPipeline Metrics Ingestion World Bus Decision Watcher SampleWorld WatcherProofs BlocklistSync SyncProofs.

Local Open Scope Z_scope.

(** ** Who runs where *)

Definition Publisher_NeedLeaderElection : bool := false.
Definition ThreatScoreWatcher_NeedLeaderElection : bool := true.

(** ** Convergence of the whole fleet *)

Section Fleet.
Context {A B : Type}.
Context `{HA : ApiServer A} `{HB : BlocklistUpdater B, HBS : !BlocklistSpec B}.
Context `{HBI : BlocklistInspector B, HIS : !InspectorSpec B}.

(** A node: its kernel, and its drift reconciler's own state. *)
Record Replica := { rp_block : B; rp_metrics : Registry; rp_unclaimed : gset string }.

(** A pass of a node reads through that node's client, in the state its cache
    is in at that moment. *)
Definition replica_view (a : A) (r : Replica) : SyncState A B :=
  {| sy_api := a; sy_block := rp_block r; sy_metrics := rp_metrics r; sy_unclaimed := rp_unclaimed r |}.
Definition replica_of (s : SyncState A B) : Replica :=
  {| rp_block := sy_block s; rp_metrics := sy_metrics s; rp_unclaimed := sy_unclaimed s |}.

(** A schedule of passes: which node, what its client was, and the outcome. *)
Inductive fleet_run : list (string * (A * error)) → gmap string Replica → gmap string Replica → Prop :=
  | run_none f : fleet_run [] f f
  | run_pass n a e r rep s l f f' : f !! n = Some r → Sync (replica_view a r) = (rep, e, s) →
      fleet_run l (<[n := replica_of s]> f) f' → fleet_run ((n, (a, e)) :: l) f f'.

(** The passes of one node, and what they do to it alone. *)
Definition passes_of (n : string) (l : list (string * (A * error))) : list (A * error) :=
  (filter (λ x, x.1 = n) l).*2.

Inductive node_run : list (A * error) → Replica → Replica → Prop :=
  | node_none r : node_run [] r r
  | node_pass a e r rep s l r' : Sync (replica_view a r) = (rep, e, s) →
      node_run l (replica_of s) r' → node_run ((a, e) :: l) r r'.

Lemma fleet_run_node l f f' n r : fleet_run l f f' → f !! n = Some r →
  ∃ r', f' !! n = Some r' ∧ node_run (passes_of n l) r r'.
Proof using Type.
  intros Hrun. revert r. induction Hrun as [f|m a e q rep s l f f' Hm Hs _ IH]; intros r Hn.
  { exists r. split; [done|]. constructor. }
  unfold passes_of. rewrite filter_cons. simpl. case_decide as Hmn.
  - subst m. simplify_eq. destruct (IH _ (lookup_insert_eq _ _ _)) as (r' & Hr' & Hrun'). exists r'. split; [done|].
    csimpl. by econstructor.
  - apply IH. by rewrite lookup_insert_ne.
Qed.

Lemma fleet_run_dom l f f' : fleet_run l f f' → dom f' = dom f.
Proof using Type.
  induction 1 as [|n a e r rep s l f f' Hn _ _ IH]; [done|]. rewrite IH.
  rewrite dom_insert_lookup_L; [done|by eexists].
Qed.

Lemma node_run_inv l r r' : node_run l r r' → bl_inv (rp_block r) → bl_inv (rp_block r').
Proof using HIS.
  induction 1 as [|a e r rep s l r' Hs _ IH]; [done|]. intros HI. apply IH.
  by destruct (Sync_inv (replica_view a r) _ _ _ HI Hs) as (_ & ? & _).
Qed.

Lemma node_run_app l1 l2 r r' : node_run (l1 ++ l2) r r' → ∃ r1, node_run l1 r r1 ∧ node_run l2 r1 r'.
Proof using Type.
  revert r. induction l1 as [|[a e] l1 IH]; intros r Hrun; [exists r; split; [constructor|done]|].
  inversion Hrun as [|? ? ? rep s ? ? Hs Hrest]; subst. destruct (IH _ Hrest) as (r1 & H1 & H2).
  exists r1. split; [by econstructor|done].
Qed.

(** The client lists policies whose live members claim exactly [D] and [DT]. *)
Definition claims_seen (D : gset (list Z)) (DT : gset (list Z * Z)) (a : A) : Prop :=
  ∃ items, (api_ListPolicies a).1 = Ok items ∧ desired_ips items = D ∧ desired_tunnels items = DT.

Lemma claims_seen_wanted D DT a : claims_seen D DT a → wanted_ips a = D ∧ wanted_tunnels a = DT.
Proof using Type. unfold wanted_ips, wanted_tunnels, listed. by intros (items & -> & ? & ?). Qed.

Lemma node_settles D DT h a1 a2 r r' : bl_inv (rp_block r) →
  node_run (h ++ [(a1, None); (a2, None)]) r r' → claims_seen D DT a1 → claims_seen D DT a2 →
  bl_ips (rp_block r') = D ∧ bl_tunnels (rp_block r') = DT.
Proof using HIS.
  intros HI (r0 & Hh & Htwo)%node_run_app [H1 H1t]%claims_seen_wanted [H2 H2t]%claims_seen_wanted.
  pose proof (node_run_inv _ _ _ Hh HI) as HI0.
  inversion Htwo as [|? ? ? rep s ? ? Hs Hrest]; subst. inversion Hrest as [|? ? ? rep2 s2 ? ? Hs2 Hend]; subst.
  inversion Hend; subst. pose proof (pass_marks (replica_view a1 r0) _ _ HI0 Hs) as Hm. simpl in Hm.
  destruct (pass_settles (replica_view a2 (replica_of s)) _ _ ltac:(simpl; by rewrite H2, H2t) Hs2) as [Hi Ht].
  simpl in *. by rewrite Hi, Ht, H2, H2t.
Qed.

(** C7: every node ends up enforcing the same policies. The passes of the nodes
    are interleaved in any order and number, each reading through its own
    node's cache however stale, and failing at will. Once the last two passes of
    every node were error-free and listed policies whose live members claim the
    same addresses [D] and tunnels [DT], every kernel of the fleet drops exactly
    [D] and [DT], whatever it held at first and whatever the earlier passes did
    to it. *)
Theorem fleet_converges D DT l f f' :
  (∀ n r, f !! n = Some r → bl_inv (rp_block r)) → fleet_run l f f' →
  (∀ n, n ∈ dom f → ∃ h a1 a2, passes_of n l = h ++ [(a1, None); (a2, None)] ∧
     claims_seen D DT a1 ∧ claims_seen D DT a2) →
  ∀ n r', f' !! n = Some r' → bl_ips (rp_block r') = D ∧ bl_tunnels (rp_block r') = DT.
Proof using HIS.
  intros HI Hrun Hlast n r' Hn'. assert (Hd : n ∈ dom f).
  { rewrite <- (fleet_run_dom _ _ _ Hrun). by eapply elem_of_dom_2. }
  destruct (Hlast n Hd) as (h & a1 & a2 & Hp & H1 & H2). apply elem_of_dom in Hd as [r Hn].
  destruct (fleet_run_node _ _ _ _ _ Hrun Hn) as (r'' & Hr'' & Hnode). simplify_eq. rewrite Hp in Hnode.
  eapply node_settles; [by eapply HI|exact Hnode|done|done].
Qed.
End Fleet.
Arguments Replica B : clear implicits.

(** ** A standby node *)

Section Standby.
Context {A B Ms L : Type}.
Context `{HA : ApiServer A, HAS : !ApiSpec A} `{HB : BlocklistUpdater B, HBS : !BlocklistSpec B}.
Context `{HM : MeshAdapter Ms} `{HL : RateLimiter L} `{HR : RangeOrder}.
Context (clock : nat → Time) (BaseThreshold : f64).

(** The controller-runtime manager: whether it runs a part that does or does
    not need leader election, given whether election is on and won; and whether
    a controller whose options do not say needs it. A standby runs exactly what
    does not need election, and the default for a controller is that it does. *)
Context (runs_here : bool → bool → bool → bool) (controllers_need_election : bool).
Context (standby_runs : ∀ needs, runs_here true false needs = negb needs).
Context (default_gated : controllers_need_election = true).

Abbreviation W := (World A B Ms L).

(** The Pod index of a process, after the Pod events it was there to see:
    PodIPIndexer is such a controller, set up without options. *)
Definition process_pod_index (LeaderElection leads : bool)
    (evs : list (NamespacedName * result (PodRef * string))) : PodIPIndex :=
  if runs_here LeaderElection leads controllers_need_election then pip_run evs NewPodIPIndex else NewPodIPIndex.

Definition no_pod : NamespacedName := {| nn_Namespace := ""; nn_Name := "" |}.

Lemma standby_unattributed evs evt rate node id :
  let n := FromSignalingEvent evt (process_pod_index true false evs) rate node id in
  ne_Namespace n = "" ∧ ne_PodName n = "".
Proof using default_gated standby_runs.
  unfold process_pod_index. rewrite standby_runs, default_gated. simpl.
  unfold PodIPIndex_Lookup, NewPodIPIndex. simpl. by rewrite lookup_empty.
Qed.

(** A score names the Pod of the event it was made from. *)
Lemma Evaluate_pod d n now score d' : Evaluate d n now = (score, true, d') →
  ts_Namespace score = ne_Namespace n ∧ ts_PodName score = ne_PodName n.
Proof using Type. unfold Evaluate. intros Hev. repeat case_match; by simplify_eq/=. Qed.
Lemma EvaluateSource_pod d n now score o d' : EvaluateSource d n now = (score, o, true, d') →
  ts_Namespace score = ne_Namespace n ∧ ts_PodName score = ne_PodName n.
Proof using Type. unfold EvaluateSource. intros Hev. repeat case_match; by simplify_eq/=. Qed.

Lemma telemetry_no_score cfg n p subject score : PublishThreatScore subject score ∉ (publish_telemetry cfg n p).1.
Proof using Type.
  intros Hin. destruct (telemetry_detection cfg n p) as [_ Hf].
  assert (Hs : PublishThreatScore subject score ∈ filter (λ c, is_score c = true) (publish_telemetry cfg n p).1)
    by (by apply list_elem_of_filter).
  rewrite Hf in Hs. by apply elem_of_nil in Hs.
Qed.

(** The scores of the two rules. *)
Lemma tunnel_score_pod cfg n now p subject score :
  PublishThreatScore subject score ∈ (evaluateTunnelFlood cfg n now p).1 →
  ts_Namespace score = ne_Namespace n ∧ ts_PodName score = ne_PodName n.
Proof using Type.
  unfold evaluateTunnelFlood. destruct (pub_TunnelFlood p) as [d|]; [|by intros ?%elem_of_nil].
  destruct (Evaluate d n now) as [[sc fired] d'] eqn:E. simpl. destruct fired; [|by intros ?%elem_of_nil].
  intros [= _ ->]%list_elem_of_singleton. by eapply Evaluate_pod.
Qed.
Lemma source_score_pod cfg n now p subject score :
  PublishThreatScore subject score ∈ (evaluateSourceFlood cfg n now p).1 →
  ts_Namespace score = ne_Namespace n ∧ ts_PodName score = ne_PodName n.
Proof using Type.
  unfold evaluateSourceFlood. destruct (pub_SourceFlood p) as [d|]; [|by intros ?%elem_of_nil].
  destruct (EvaluateSource d n now) as [[[sc o] fired] d'] eqn:E. simpl. destruct fired; [|by intros ?%elem_of_nil].
  intros [= _ ->]%list_elem_of_singleton. by eapply EvaluateSource_pod.
Qed.

(** Every score of a step names the Pod its event was attributed to. *)
Lemma step_score_pod cfg evt idx rate id now p subject score :
  PublishThreatScore subject score ∈ (Publisher_step cfg (StreamEvent evt idx rate id now) p).1.1 →
  let n := FromSignalingEvent evt idx rate (pc_NodeName cfg) id in
  ts_Namespace score = ne_Namespace n ∧ ts_PodName score = ne_PodName n.
Proof using Type.
  unfold Publisher_step. destruct (pub_connected p); simpl negb; [|by intros ?%elem_of_nil].
  cbv iota zeta. generalize (FromSignalingEvent evt idx rate (pc_NodeName cfg) id). intros n.
  pose proof (tunnel_score_pod cfg n now p subject score) as H1.
  destruct (evaluateTunnelFlood cfg n now p) as [c1 p1].
  pose proof (source_score_pod cfg n now p1 subject score) as H2.
  destruct (evaluateSourceFlood cfg n now p1) as [c2 p2].
  pose proof (telemetry_no_score cfg n p2 subject score) as H3.
  destruct (publish_telemetry cfg n p2) as [c3 p3]. simpl in *. rewrite !elem_of_app. naive_solver.
Qed.

(** C38: what a standby node detects is never mitigated. With leader election
    on, a process that does not lead still runs its Publisher with its flood
    rules, but neither the watcher nor the controller that fills its Pod index,
    so its scores name no Pod; delivered to the leader's watcher such a score
    blocks nothing, isolates nothing and changes no policy, whatever the flood. *)
Theorem standby_floods_unenforced cfg evt evs rate id now p subject score (w : W) disp w' :
  PublishThreatScore subject score ∈
    (Publisher_step cfg (StreamEvent evt (process_pod_index true false evs) rate id now) p).1.1 →
  is_Ok (api_GetPod no_pod (w_api w)).1 = false →
  on_message (Ok score) (handle clock BaseThreshold) w = (disp, w') →
  runs_here true false Publisher_NeedLeaderElection = true ∧
  runs_here true false ThreatScoreWatcher_NeedLeaderElection = false ∧
  same_enforcement w w' ∧ api_policies (w_api w') = api_policies (w_api w).
Proof using default_gated standby_runs HAS.
  intros [Hns Hpod]%step_score_pod Hnone Hmsg. split; [apply standby_runs|]. split; [apply standby_runs|].
  destruct (standby_unattributed evs evt rate (pc_NodeName cfg) id) as [Hn Hp].
  rewrite Hn in Hns. rewrite Hp in Hpod. unfold on_message in Hmsg.
  destruct (handle clock BaseThreshold score w) as [r wr] eqn:Hrun.
  assert (w' = wr) as -> by (by destruct r; simplify_eq).
  destruct (handle_run _ _ _ _ _ _ Hrun) as (w0 & g & a & Hse & _ & Hg & Ha & Hrest).
  rewrite Hns, Hpod in Hg. fold no_pod in Hg. rewrite Hg in Hnone. destruct g as [labels|err]; [done|].
  destruct Hrest as [-> _]. split; [done|]. rewrite Ha.
  pose proof (GetPod_frame no_pod (w_api w)) as Hfr. by rewrite Hg in Hfr.
Qed.
End Standby.

(** ** The theorems at a concrete fleet *)

Module FleetSample.
Import HashMaps WatcherSample SyncSample.

(** Two nodes: one lost its drops and holds a stale one, the other is empty.
    The first pass of n2 reads through a cache that has not seen the policy yet. *)
Definition replica (b : Loader hmap) : Replica (Loader hmap) :=
  {| rp_block := b; rp_metrics := empty_registry; rp_unclaimed := ∅ |}.
Definition fleet : gmap string (Replica (Loader hmap)) :=
  {[ "n1" := replica node; "n2" := replica (LoaderSample.empty_loader 8) ]}.
Definition current : EtcdApi := sample_api policies None.
Definition behind : EtcdApi := sample_api [] None.

Lemma fleet_inv m q : fleet !! m = Some q → bl_inv (rp_block q).
Proof.
  unfold fleet. intros [[<- <-]|[_ [<- <-]%lookup_singleton_Some]]%lookup_insert_Some; [apply node_inv|].
  apply (LoaderSample.empty_loader_inv 8).
Qed.

Definition schedule : list (string * (EtcdApi * error)) :=
  [("n2", (behind, None)); ("n1", (current, None)); ("n2", (current, None)); ("n1", (current, None)); ("n2", (current, None))].

(** The schedule run, each pass found to have the outcome it names. *)
Fixpoint run_schedule (l : list (string * (EtcdApi * error))) (f : gmap string (Replica (Loader hmap))) :=
  match l with
  | [] => f
  | (n, (a, _)) :: l' =>
      match f !! n with
      | Some r => run_schedule l' (<[n := replica_of (Sync (replica_view a r)).2]> f)
      | None => f
      end
  end.
Fixpoint schedule_clean (l : list (string * (EtcdApi * error))) (f : gmap string (Replica (Loader hmap))) : bool :=
  match l with
  | [] => true
  | (n, (a, _)) :: l' =>
      match f !! n with
      | Some r => match (Sync (replica_view a r)).1.2 with None => true | Some _ => false end &&
                  schedule_clean l' (<[n := replica_of (Sync (replica_view a r)).2]> f)
      | None => false
      end
  end.
Lemma run_schedule_run l f : Forall (λ x, x.2.2 = None) l → schedule_clean l f = true → fleet_run l f (run_schedule l f).
Proof.
  revert f. induction l as [|[n [a e]] l IH]; intros f Hall Hc; [constructor|].
  apply Forall_cons in Hall as [He Hall]. simpl in He, Hc. subst e. simpl. destruct (f !! n) as [r|] eqn:En; [|done].
  apply andb_true_iff in Hc as [Hs Hc]. destruct (Sync (replica_view a r)) as [[rep [err|]] s] eqn:E; [done|].
  econstructor; [exact En|exact E|]. by apply IH.
Qed.

Lemma fleet_converges_witness :
  ∃ r', run_schedule schedule fleet !! "n2" = Some r' ∧
    bl_ips (rp_block r') = {[ [10; 0; 0; 66] ]} ∧ bl_tunnels (rp_block r') = {[ ([10; 0; 0; 66], 7) ]}.
Proof.
  destruct (run_schedule schedule fleet !! "n2") as [r2|] eqn:E2; [|vm_compute in E2; discriminate].
  exists r2. split; [reflexivity|].
  assert (Hc : claims_seen {[ [10; 0; 0; 66] ]} {[ ([10; 0; 0; 66], 7) ]} current).
  { eexists. split; [reflexivity|]. split; apply (bool_decide_unpack _); vm_compute; reflexivity. }
  refine (fleet_converges {[ [10; 0; 0; 66] ]} {[ ([10; 0; 0; 66], 7) ]} schedule fleet _ fleet_inv _ _ "n2" r2 E2).
  - apply run_schedule_run; [repeat constructor|vm_compute; reflexivity].
  - intros n [q Hq]%elem_of_dom. unfold fleet in Hq.
    apply lookup_insert_Some in Hq as [[<- _]|[_ [<- _]%lookup_singleton_Some]].
    + exists [], current, current. by split; [reflexivity|split].
    + exists [(behind, None)], current, current. by split; [reflexivity|split].
Defined.

(** The flood of the closed loop, seen by a node that does not lead. *)
Definition flood : SignalingEvent := {|
  se_ObservedAt := 0; se_SourceIP := [10; 0; 0; 66]; se_DestIP := [10; 0; 0; 1]; se_DestPort := 2152;
  se_PayloadSize := 1400; se_Protocol := SignalProtoGTPU; se_Malformed := false; se_VLANID := 0;
  se_TEID := 7; se_TunnelRate := 150000 |}.
Definition publisher : Publisher := {|
  pub_TunnelFlood := Some (NewGTPUFloodDetector
    {| fc_Enabled := true; fc_PacketsPerSecond := 100000; fc_Cooldown := 30 * Second; fc_MaxTrackedTunnels := 4 |});
  pub_SourceFlood := None; pub_connected := true; pub_batch := [] |}.
Definition pods : list (NamespacedName * result (PodRef * string)) := [(upf_pod, Ok (upf_pod, "10.0.0.66"))].
Definition unattributed : ThreatScoreEvent := {|
  ts_SourceEventID := "e1"; ts_Namespace := ""; ts_PodName := ""; ts_SourceIP := "10.0.0.66"; ts_TEID := 7;
  ts_Score := f64_one; ts_Model := ModelGTPUTunnelFlood; ts_DetectedAt := 10 |}.

(** The manager's gate. *)
Definition gate (LeaderElection leads needs : bool) : bool := negb LeaderElection || leads || negb needs.

Lemma standby_floods_unenforced_witness :
  gate true false Publisher_NeedLeaderElection = true ∧ gate true false ThreatScoreWatcher_NeedLeaderElection = false ∧
  same_enforcement w0 (on_message (Ok unattributed) (handle sample_clock thr) w0).2 ∧
  api_policies (w_api (on_message (Ok unattributed) (handle sample_clock thr) w0).2) = api_policies (w_api w0).
Proof.
  refine (standby_floods_unenforced sample_clock thr gate true (λ _, eq_refl) eq_refl IngestionSample.cfg flood pods (λ _ _, None) "e1" 10
    publisher "threats" unattributed w0 _ _ _ _ (surjective_pairing _)).
  - vm_compute. left.
  - vm_compute. reflexivity.
Defined.
End FleetSample.
