(* ===== verification/System.v ===== *)
(** * System: any sequence of handler runs

    The watcher's callback, the policy reconciler, the drift reconciler, a
    process restart and everyone else who writes to the API act on the same
    etcd, index and kernel maps, in any order. [sys_step] is one such action.
    Reads go through a cache that may be arbitrarily far behind, and a failed
    write may have been committed; what survives all that is that every drop
    in the kernel has been recorded in etcd ([StatusHistory] of World.v). *)

From S2P Require Import Prelude GoStrings GoFloat NetIP Events Api Blocklist Loader PolicyIndex KillSwitch ReactorLimiter ScoringPipeline Metrics World Decision Watcher SampleWorld WatcherProofs Reconciler ReconcilerProofs BlocklistSync SyncProofs.

Local Open Scope Z_scope.
Local Open Scope go_scope.

(** ** What the index holds has been in etcd *)

Section Tracking.
Context {A B Ms L : Type}.
Context `{HA : ApiServer A, HAS : !ApiSpec A, HAH : !StatusHistory A}.
Context `{HB : BlocklistUpdater B} `{HM : MeshAdapter Ms} `{HL : RateLimiter L} `{HR : RangeOrder} `{HK : ApiMachinery}.
Context (clock : nat → Time) (BaseThreshold : f64) (rc : ReconcilerConfig).

Abbreviation W := (World A B Ms L).

(** The history only grows. *)
Definition grows (a a' : A) : Prop := ∀ s, api_recorded a s → api_recorded a' s.
#[export] Instance grows_preorder : PreOrder grows.
Proof. split; [by intros a s|]. intros a b c H1 H2 s Hs. by apply H2, H1. Qed.

Definition index_tracked (w : W) : Prop :=
  pi_inv (w_index w) ∧ ∀ k p, pi_view (w_index w) k = Some p → api_recorded (w_api w) (pol_Status p).

(** A computation keeps the index tracked and the history growing; a value it
    returns is a policy whose status has been recorded when [P] says so. The
    precondition [P] is one that more history does not falsify. *)
Definition tracks {X} (P : A → Prop) (m : M W X) (Q : X → A → Prop) : Prop :=
  ∀ w r w', index_tracked w → P (w_api w) → m w = (r, w') →
    index_tracked w' ∧ grows (w_api w) (w_api w') ∧ ∀ x, r = Ok x → Q x (w_api w').

Definition stable (P : A → Prop) : Prop := ∀ a a', grows a a' → P a → P a'.

(** The status of a policy has been recorded. *)
Definition known (p : TelecomSecurityPolicy) (a : A) : Prop := api_recorded a (pol_Status p).
Definition any {X} (x : X) (a : A) : Prop := True.

Lemma known_stable p : stable (known p).
Proof using Type. intros a a' Hg. apply Hg. Qed.
Lemma stable_and P Q : stable P → stable Q → stable (λ a, P a ∧ Q a).
Proof using Type. intros HP HQ a a' Hg []. split; [by eapply HP|by eapply HQ]. Qed.
Lemma stable_True : stable (λ _, True).
Proof using Type. done. Qed.

Lemma tracks_bind {X Y} P (m : M W X) Q (k : X → M W Y) R : stable P →
  tracks P m Q → (∀ x, tracks (λ a, P a ∧ Q x a) (k x) R) → tracks P (mbind m k) R.
Proof using Type.
  intros HP Hm Hk w r w' HI Hw Hrun. apply mbind_inv in Hrun as [(x & w1 & E & Hrun)|(e & E & ->)].
  - destruct (Hm _ _ _ HI Hw E) as (HI1 & Hg1 & HQ). destruct (Hk x _ _ _ HI1 (conj (HP _ _ Hg1 Hw) (HQ x eq_refl)) Hrun)
      as (HI2 & Hg2 & HR'). split; [done|]. split; [by etrans|done].
  - destruct (Hm _ _ _ HI Hw E) as (HI1 & Hg1 & _). done.
Qed.

Lemma tracks_try {X Y} P (m : M W X) Q (k : result X → M W Y) R : stable P →
  tracks P m Q → (∀ x, tracks (λ a, P a ∧ Q x a) (k (Ok x)) R) → (∀ e, tracks P (k (Fail e)) R) →
  tracks P (mtry m k) R.
Proof using Type.
  intros HP Hm Hk He w r w' HI Hw Hrun. unfold mtry in Hrun. destruct (m w) as [rx w1] eqn:E.
  destruct (Hm _ _ _ HI Hw E) as (HI1 & Hg1 & HQ). pose proof (HP _ _ Hg1 Hw) as Hw1.
  destruct rx as [x|e].
  - destruct (Hk x _ _ _ HI1 (conj Hw1 (HQ x eq_refl)) Hrun) as (? & ? & ?). split; [done|]. split; [by etrans|done].
  - destruct (He e _ _ _ HI1 Hw1 Hrun) as (? & ? & ?). split; [done|]. split; [by etrans|done].
Qed.

Lemma tracks_pre {X} P P' (m : M W X) Q : (∀ a, P a → P' a) → tracks P' m Q → tracks P m Q.
Proof using Type. intros Himp Hm w r w' HI Hw. apply Hm; auto. Qed.

(** An effect on neither etcd nor the index. *)
Lemma tracks_frame {X} P (m : M W X) :
  (∀ w, w_api (m w).2 = w_api w ∧ w_index (m w).2 = w_index w) → tracks P m any.
Proof using Type.
  intros Hf w r w' HI Hw Hrun. specialize (Hf w). rewrite Hrun in Hf. simpl in Hf. destruct Hf as [Ha Hi].
  unfold index_tracked. rewrite Ha, Hi. done.
Qed.
Lemma tracks_ret {X} (P : A → Prop) (Q : X → A → Prop) x : (∀ a, P a → Q x a) → tracks P (mret x) Q.
Proof using Type. intros HQ w r w' HI Hw [= <- <-]. split; [done|]. split; [done|]. intros y [= <-]. auto. Qed.
Lemma tracks_fail {X} P (Q : X → A → Prop) e : tracks P (mfail e) Q.
Proof using Type. intros w r w' HI Hw [= <- <-]. split; [done|]. split; [done|]. done. Qed.

(** A request. *)
Lemma tracks_api {X} P (f : A → result X * A) Q :
  (∀ a, P a → grows a (f a).2 ∧ ∀ x, (f a).1 = Ok x → Q x (f a).2) → tracks P (api f) Q.
Proof using Type.
  intros Hf w r w' [HI Hv] Hw Hrun. unfold api in Hrun. destruct (Hf _ Hw) as [Hg HQ].
  destruct (f (w_api w)) as [r0 a]. injection Hrun as <- <-. simpl in *. split; [|done].
  split; [done|]. intros k p Hp. apply Hg. by eapply Hv.
Qed.

(** The response to a status write has been recorded, and so has the status an
    object update leaves alone. *)
Lemma tracks_UpdateStatus P p : tracks P (api (api_UpdateStatus p)) known.
Proof using Type.
  apply tracks_api. intros a _. split; [intros s; apply recorded_UpdateStatus|].
  intros q Hq. destruct (api_UpdateStatus p a) as [[q'|e] a'] eqn:E; simplify_eq/=.
  apply UpdateStatus_ok in E as (old & Ho & Hq' & Ha). eapply (recorded_now _ (pol_key p)). rewrite Ha. apply lookup_insert_eq.
Qed.
Lemma tracks_Update P p : tracks P (api (api_Update p)) known.
Proof using Type.
  apply tracks_api. intros a _. split; [intros s; apply recorded_Update|].
  intros q Hq. pose proof (recorded_Update p a) as Hg. destruct (api_Update p a) as [[q'|e] a'] eqn:E; simplify_eq/=.
  apply Update_ok in E as (old & Ho & -> & _). apply Hg. exact (recorded_now _ _ _ Ho).
Qed.
Lemma tracks_wrapf {X} P msg (m : M W X) Q : stable P → tracks P m Q → tracks P (wrapf msg m) Q.
Proof using Type.
  intros HP Hm. unfold wrapf. eapply tracks_try; [done|exact Hm| |intros e; apply tracks_fail].
  intros x. apply tracks_ret. by intros a [].
Qed.

Lemma tracks_Put P p : (∀ a, P a → known p a) → tracks P (index_Put p) any.
Proof using Type.
  intros HP w r w' [HI Hv] Hw [= <- <-]. split; [|done]. split; [by apply PolicyIndex_Put_inv|].
  intros k q. simpl. rewrite PolicyIndex_Put_view. case_decide; [intros [= <-]; by apply HP|apply Hv].
Qed.
Lemma tracks_Remove P k : tracks P (index_Remove k) any.
Proof using Type.
  intros w r w' [HI Hv] Hw [= <- <-]. split; [|done]. split; [by apply PolicyIndex_Remove_inv|].
  intros k' q. simpl. rewrite PolicyIndex_Remove_view. case_decide; [done|apply Hv].
Qed.

Lemma tracks_mfor {X} P (l : list X) (body : X → M W unit) : stable P →
  (∀ x, x ∈ l → tracks P (body x) any) → tracks P (mfor l body) any.
Proof using Type.
  intros HP. induction l as [|x l IH]; intros Hb; [by apply tracks_ret|]. cbn [mfor].
  eapply tracks_bind; [done|apply Hb; by left|]. intros u. eapply tracks_pre; [|apply IH].
  - by intros a [].
  - intros y Hy. apply Hb. by right.
Qed.

Create HintDb tracks.
#[local] Hint Resolve known_stable stable_and stable_True : tracks.

(** A step of a sequence whose value does not matter. *)
Lemma tracks_seq {X Y} P (m : M W X) (k : X → M W Y) R : stable P →
  tracks P m any → (∀ x, tracks P (k x) R) → tracks P (mbind m k) R.
Proof using Type. intros HP Hm Hk. eapply tracks_bind; [done|done|]. intros x. eapply tracks_pre; [|apply Hk]. by intros a []. Qed.

Ltac framed := apply tracks_frame; intros ?; by repeat case_match.
Lemma tracks_metric P f : tracks P (metric f) any.
Proof using Type. framed. Qed.
Lemma tracks_now P : tracks P (now clock) any.
Proof using Type. framed. Qed.
Lemma tracks_get {X} P (f : W → X) : tracks P (mget f) any.
Proof using Type. framed. Qed.
Lemma tracks_event P reason : tracks P (record_event reason) any.
Proof using Type. framed. Qed.
Lemma tracks_scoring P s : tracks P (mmodify (set_scoring s)) any.
Proof using Type. framed. Qed.
Lemma tracks_limiter P k : tracks P (limiter_Allow clock k) any.
Proof using Type. apply tracks_frame. intros w. unfold limiter_Allow. by destruct (Allow _ _ _). Qed.
Lemma tracks_block P f : tracks P (block f) any.
Proof using Type. apply tracks_frame. intros w. unfold block. by destruct (f (w_block w)). Qed.
Lemma tracks_mesh P f : tracks P (mesh f) any.
Proof using Type. apply tracks_frame. intros w. unfold mesh. by destruct (f (w_mesh w)). Qed.
Lemma tracks_killswitch P : tracks P (killswitch_Engaged clock) any.
Proof using Type.
  intros w r w' [HI Hv] Hw Hrun. unfold killswitch_Engaged in Hrun.
  destruct (w_killswitch w) as [k|]; [|by injection Hrun as <- <-].
  destruct (negb (ks_Reader k)); [by injection Hrun as <- <-|].
  destruct (cached k _); [injection Hrun as <- <-; by destruct (ks_everRead k)|].
  pose proof (recorded_GetKillSwitch (w_api (if ks_everRead k then set_tick (S (w_tick w)) w else w))) as Hg.
  destruct (api_GetKillSwitch _) as [g a]. destruct (Engaged _ _ _ _) as [[e k'] b]. injection Hrun as <- <-. simpl in *.
  assert (Hg' : grows (w_api w) a) by (intros s Hs; apply Hg; by destruct (ks_everRead k)).
  assert (Hx : ∀ b : bool, w_index (if b then set_tick (S (w_tick w)) w else w) = w_index w) by (by intros []).
  unfold index_tracked. simpl. rewrite Hx. split; [|done]. split; [done|]. intros q p Hp. apply Hg'. by eapply Hv.
Qed.
#[local] Hint Resolve tracks_metric tracks_now tracks_event tracks_scoring tracks_limiter tracks_block tracks_mesh tracks_killswitch tracks_Remove tracks_fail : tracks.

(** Runs through a program whose intermediate values do not matter. *)
Ltac track :=
  repeat first
    [ solve [eauto with tracks]
    | apply tracks_ret; by intros
    | apply tracks_seq; [solve [eauto with tracks]| |intros ?]
    | case_match ].

(** ** The watcher *)

Lemma tracks_updateStatus policy : tracks (λ _, True) (updateStatus policy) any.
Proof using Type.
  eapply tracks_try; [apply stable_True|apply tracks_UpdateStatus| |intros e; apply tracks_fail].
  intros q. apply tracks_seq; [apply stable_and; [apply stable_True|apply known_stable]| |intros ?; apply tracks_metric].
  apply tracks_Put. by intros a [].
Qed.
#[local] Hint Resolve tracks_updateStatus : tracks.

Lemma tracks_writeStatus prev next : tracks (λ _, True) (writeStatus clock prev next) any.
Proof using Type. unfold writeStatus. track. Qed.
#[local] Hint Resolve tracks_writeStatus : tracks.

Lemma tracks_exec_tunnel ip ev : tracks (λ _, True) (exec_block_tunnel ip ev) any.
Proof using Type. unfold exec_block_tunnel. track. Qed.
Lemma tracks_exec_source ip ev : tracks (λ _, True) (exec_block_source ip ev) any.
Proof using Type. unfold exec_block_source. track. Qed.
Lemma tracks_exec_quarantine p sel : tracks (λ _, True) (exec_quarantine p sel) any.
Proof using Type. unfold exec_quarantine. track. Qed.
#[local] Hint Resolve tracks_exec_tunnel tracks_exec_source tracks_exec_quarantine : tracks.

Lemma tracks_mitigate policy ev : tracks (λ _, True) (mitigate clock policy ev) any.
Proof using Type.
  unfold mitigate. do 3 (apply tracks_seq; [done|track|intros ?]). do 3 (apply tracks_seq; [done|track|intros ?]). track.
Qed.
#[local] Hint Resolve tracks_mitigate : tracks.

Lemma tracks_applyPolicy policy ev : tracks (λ _, True) (applyPolicy clock BaseThreshold policy ev) any.
Proof using Type.
  unfold applyPolicy. case_match; [track|]. case_match; [track|]. apply tracks_seq; [done|track|intros []]; [|track].
  apply tracks_seq; [done|apply tracks_mfor; [done|intros; track]|intros ?]. track.
Qed.

Lemma tracks_handle ev : tracks (λ _, True) (handle clock BaseThreshold ev) any.
Proof using Type.
  unfold handle. do 2 (apply tracks_seq; [done|track|intros ?]). apply tracks_seq; [done|apply tracks_get|intros sc].
  apply tracks_seq; [done|track|intros ?]. eapply (tracks_try _ _ any); [done| | |].
  - apply tracks_api. intros a _. split; [intros s; apply recorded_GetPod|done].
  - intros labels. eapply tracks_pre; [by intros a []|]. apply tracks_seq; [done|apply tracks_get|intros idx].
    apply tracks_mfor; [done|]. intros p _. eapply tracks_try; [done|apply tracks_applyPolicy| |]; intros; by apply tracks_ret.
  - intros e. track.
Qed.

Lemma tracks_Start_prepare : tracks (λ _, True) (Start_prepare clock) any.
Proof using Type.
  unfold Start_prepare. eapply (tracks_try _ _ any); [done| | |intros e; track].
  - unfold warmIndex. eapply (tracks_bind _ _ (λ l a, ∀ p, p ∈ l → known p a)); [done| |].
    + apply tracks_api. intros a _. split; [intros s; apply recorded_ListPolicies|].
      intros l Hl p Hp. apply recorded_ListPolicies. by eapply ListPolicies_recorded.
    + intros l. apply tracks_mfor; [intros a a' Hg [_ Hl]; split; [done|]; intros p Hp; by apply Hg, Hl|].
      intros p Hp. case_match; [by apply tracks_ret|]. apply tracks_Put. intros a [_ Hl]. by apply Hl.
  - intros u. eapply tracks_pre; [by intros a []|]. apply tracks_seq; [done|apply tracks_get|intros sc]. track.
Qed.

(** ** The policy reconciler *)

Lemma tracks_release msg policy : tracks (λ _, True) (release_mesh msg policy) any.
Proof using Type. unfold release_mesh. track. Qed.
Lemma tracks_unblock msg msgt policy : tracks (λ _, True) (unblock_all msg msgt policy) any.
Proof using Type.
  unfold unblock_all. apply tracks_seq; [done| |intros ?]; (apply tracks_mfor; [done|]); intros entry _;
    unfold unblock_source, unblock_tunnel; track.
Qed.
#[local] Hint Resolve tracks_release tracks_unblock : tracks.

Lemma tracks_finalize policy : tracks (λ _, True) (finalize rc policy) any.
Proof using Type.
  unfold finalize. case_match; [track|]. do 2 (apply tracks_seq; [done|track|intros ?]).
  eapply tracks_bind; [done|apply tracks_wrapf; [done|apply tracks_Update]|intros q]. eapply tracks_pre; [by intros a []|]. track.
Qed.

Lemma tracks_deescalate policy : tracks (λ _, True) (tryDeEscalate clock rc policy) any.
Proof using Type.
  unfold tryDeEscalate. case_match; [|track]. apply tracks_seq; [done|track|intros ?]. case_match; [track|].
  do 2 (apply tracks_seq; [done|track|intros ?]).
  eapply tracks_bind; [done|apply tracks_wrapf; [done|apply tracks_UpdateStatus]|intros q].
  apply tracks_seq; [eauto with tracks|apply tracks_Put; by intros a []|intros ?].
  eapply tracks_pre; [by intros a []|]. track.
Qed.

(** A status write whose response is cached and handed on. *)
Lemma tracks_register policy : tracks (known policy) (register policy) any.
Proof using Type.
  unfold register. eapply (tracks_bind _ _ known); [apply known_stable| |intros p1].
  - case_match; [apply tracks_wrapf; [apply known_stable|apply tracks_Update]|by apply tracks_ret].
  - apply tracks_seq; [eauto with tracks|apply tracks_Put; by intros a []|intros ?]. eapply (tracks_pre _ (λ _, True)); [done|].
    case_match; [|track]. eapply tracks_bind; [done|apply tracks_wrapf; [done|apply tracks_UpdateStatus]|intros q].
    apply tracks_seq; [eauto with tracks|apply tracks_Put; by intros a []|intros ?]. by apply tracks_ret.
Qed.

Lemma tracks_report policy : tracks (λ _, True) (reportScoringPipeline clock rc policy) any.
Proof using Type.
  unfold reportScoringPipeline. apply tracks_seq; [done|apply tracks_get|intros sc]. case_match; [|track].
  apply tracks_seq; [done|track|intros ?]. case_match. case_match; [track|].
  eapply tracks_try; [done|apply tracks_UpdateStatus| |intros e; track].
  intros q. apply tracks_seq; [eauto with tracks|apply tracks_Put; by intros a []|intros ?].
  eapply (tracks_pre _ (λ _, True)); [done|]. track.
Qed.

Lemma tracks_Reconcile req : tracks (λ _, True) (Reconcile clock rc req) any.
Proof using Type.
  unfold Reconcile. eapply (tracks_try _ _ known); [done| | |intros e; track].
  - apply tracks_api. intros a _. split; [intros s; apply recorded_GetPolicy|].
    intros p Hp. apply recorded_GetPolicy. by eapply GetPolicy_recorded.
  - intros p. case_match; [eapply tracks_pre; [|apply tracks_finalize]; done|].
    unfold reconcile_live. apply tracks_seq; [eauto with tracks|eapply tracks_pre; [|apply tracks_register]; by intros a []|intros p3].
    eapply (tracks_pre _ (λ _, True)); [done|]. apply tracks_seq; [done|track|intros ?].
    apply tracks_seq; [done|apply tracks_report|intros [retry p4]]. case_match; [|track].
    apply tracks_seq; [done|apply tracks_deescalate|intros ?]. track.
Qed.
End Tracking.

(** ** The whole system *)

Section System.
Context {A B Ms L : Type}.
Context `{HA : ApiServer A, HAS : !ApiSpec A, HAH : !StatusHistory A}.
Context `{HB : BlocklistUpdater B, HBS : !BlocklistSpec B} `{HBI : BlocklistInspector B, HIS : !InspectorSpec B}.
Context `{HM : MeshAdapter Ms} `{HL : RateLimiter L} `{HR : RangeOrder} `{HK : ApiMachinery}.
Context (clock : nat → Time) (BaseThreshold : f64) (rc : ReconcilerConfig) (rc_enforces : rc_Blocklist rc = true).

Abbreviation W := (World A B Ms L).

(** Some status that has been in etcd satisfies [c]. *)
Definition was_recorded (a : A) (c : TelecomSecurityPolicyStatus → Prop) : Prop := ∃ s, api_recorded a s ∧ c s.

Record sys_inv (w : W) : Prop := {
  si_block : bl_inv (w_block w);
  si_index : index_tracked w;
  si_ips : ∀ x, x ∈ bl_ips (w_block w) → was_recorded (w_api w) (λ s, claims_ip s x);
  si_tunnels : ∀ t, t ∈ bl_tunnels (w_block w) → was_recorded (w_api w) (λ s, claims_tunnel s t)
}.

(** The drift reconciler runs on the world, with its own marks. *)
Definition sync_view (w : W) (marks : gset string) : SyncState A B :=
  {| sy_api := w_api w; sy_block := w_block w; sy_metrics := w_metrics w; sy_unclaimed := marks |}.
Definition sync_world (s : SyncState A B) (w : W) : W :=
  set_metrics (sy_metrics s) (set_block (sy_block s) (set_api (sy_api s) w)).

(** One step of one controller, of the process, or of anyone else. *)
Inductive sys_step : W * gset string → W * gset string → Prop :=
  | step_score ev w marks : in_width 32 (ts_TEID ev) →
      sys_step (w, marks) ((handle clock BaseThreshold ev w).2, marks)
  | step_reconcile req w marks : sys_step (w, marks) ((Reconcile clock rc req w).2, marks)
  | step_sync w marks : let s := (Sync (sync_view w marks)).2 in
      sys_step (w, marks) (sync_world s w, sy_unclaimed s)
  (* a new process: empty index and marks; the maps are the pinned ones, or
     hold a part of them (none, when they were not pinned) *)
  | step_restart (w w' : W) marks : grows (w_api w) (w_api w') →
      w_index w' = NewPolicyIndex → bl_inv (w_block w') → bl_ips (w_block w') ⊆ bl_ips (w_block w) →
      bl_tunnels (w_block w') ⊆ bl_tunnels (w_block w) → sys_step (w, marks) (w', ∅)
  | step_warm w marks : sys_step (w, marks) ((Start_prepare clock w).2, marks)
  (* users, other controllers, the cache catching up: any change of the API
     server's state, statuses included *)
  | step_others w a marks : grows (w_api w) a → sys_step (w, marks) (set_api a w, marks).

Lemma was_recorded_grows a a' c : grows a a' → was_recorded a c → was_recorded a' c.
Proof using Type. intros Hg (s & Hs & Hc). exists s. split; [by apply Hg|done]. Qed.

(** The drops stay recorded when they only shrink, or grow by recorded ones. *)
Lemma sys_inv_next (w w' : W) : sys_inv w → bl_inv (w_block w') → index_tracked w' → grows (w_api w) (w_api w') →
  (∀ x, x ∈ bl_ips (w_block w') → x ∈ bl_ips (w_block w) ∨ was_recorded (w_api w') (λ s, claims_ip s x)) →
  (∀ t, t ∈ bl_tunnels (w_block w') → t ∈ bl_tunnels (w_block w) ∨ was_recorded (w_api w') (λ s, claims_tunnel s t)) →
  sys_inv w'.
Proof using Type.
  intros [_ _ Hi Ht] HB' HI' Hg Hi' Ht'. split; [done|done|..].
  - intros x [Hx|?]%Hi'; [|done]. eapply was_recorded_grows; [exact Hg|by apply Hi].
  - intros x [Hx|?]%Ht'; [|done]. eapply was_recorded_grows; [exact Hg|by apply Ht].
Qed.

Lemma covered_recorded p (w w' : W) c : index_tracked w → pi_view (w_index w) (pol_key p) = Some p →
  grows (w_api w) (w_api w') → covered p w w' c → was_recorded (w_api w') c.
Proof using Type.
  intros [_ Hv] Hp Hg [(s & Hs & Hc)|(Hc & _)].
  - unfold stored in Hs. destruct (api_policies (w_api w') !! pol_key p) as [q|] eqn:E; simplify_eq/=.
    exists (pol_Status q). split; [by eapply recorded_now|done].
  - exists (pol_Status p). split; [|done]. by apply Hg, (Hv _ _ Hp).
Qed.

Lemma handle_sys ev (w : W) r w' : sys_inv w → in_width 32 (ts_TEID ev) →
  handle clock BaseThreshold ev w = (r, w') → sys_inv w'.
Proof using Type.
  intros HI Ht Hrun. pose proof (si_block _ HI) as Hb. pose proof (si_index _ HI) as Hx.
  destruct (tracks_handle clock BaseThreshold ev _ _ _ Hx I Hrun) as (Hx' & Hg & _).
  destruct (handle_covered clock BaseThreshold ev w r w' Hb Ht (proj1 Hx) Hrun) as [Hi Htn].
  assert (Hm : ∀ p c, (∃ labels, (api_GetPod {| nn_Namespace := ts_Namespace ev; nn_Name := ts_PodName ev |} (w_api w)).1 = Ok labels ∧
    p ∈ MatchingPolicies (w_index w) (ts_Namespace ev) labels) → covered p w w' c → was_recorded (w_api w') c).
  { intros p c (labels & _ & (_ & Hv & _)%MatchingPolicies_spec) Hc; [|apply Hx].
    exact (covered_recorded p w w' c Hx Hv Hg Hc). }
  apply (sys_inv_next w); [done|exact (handle_inv clock BaseThreshold ev w r w' Hb Ht (proj1 Hx) Hrun)|done|done|..].
  - intros x [?|(p & Hp & Hc)]%Hi; [by left|right]. by eapply Hm.
  - intros x [?|(p & Hp & Hc)]%Htn; [by left|right]. by eapply Hm.
Qed.

Lemma Reconcile_sys req (w : W) r w' : sys_inv w → Reconcile clock rc req w = (r, w') → sys_inv w'.
Proof using HAH rc_enforces.
  intros HI Hrun. destruct (tracks_Reconcile clock rc req _ _ _ (si_index _ HI) I Hrun) as (Hx' & Hg & _).
  destruct (Reconcile_lifts clock rc req w r w' (si_block _ HI) rc_enforces Hrun) as (Hb & Hi & Ht & _).
  apply (sys_inv_next w); [done|done|done|done|..]; intros x Hx; left; [by apply Hi|by apply Ht].
Qed.

(** A drop a pass wants is claimed by a policy it listed. *)
Lemma wanted_recorded (a : A) :
  (∀ x, x ∈ wanted_ips a → was_recorded a (λ s, claims_ip s x)) ∧
  (∀ t, t ∈ wanted_tunnels a → was_recorded a (λ s, claims_tunnel s t)).
Proof using Type.
  assert (Hlive : ∀ p, p ∈ live (listed a) → api_recorded a (pol_Status p)).
  { intros p [_ Hp]%list_elem_of_filter. unfold listed in Hp.
    destruct (api_ListPolicies a).1 as [items|e] eqn:E; [|by apply elem_of_nil in Hp]. by eapply ListPolicies_recorded. }
  split; intros x Hx.
  - unfold wanted_ips, desired_ips in Hx. apply elem_of_union_list in Hx as (X & HX & Hin).
    apply list_elem_of_fmap in HX as (p & -> & Hk%Hlive). exists (pol_Status p). split; [done|]. by apply claimed_ips_spec.
  - unfold wanted_tunnels, desired_tunnels in Hx. apply elem_of_filter in Hx as [_ Hx].
    apply elem_of_union_list in Hx as (X & HX & Hin).
    apply list_elem_of_fmap in HX as (p & -> & Hk%Hlive). exists (pol_Status p). split; [done|]. by apply claimed_tunnels_spec.
Qed.

Lemma sync_sys (w : W) marks : sys_inv w → sys_inv (sync_world (Sync (sync_view w marks)).2 w).
Proof using HAH HIS.
  intros HI. destruct (Sync (sync_view w marks)) as [[rep e] s'] eqn:Hrun. simpl.
  destruct (Sync_inv (sync_view w marks) _ _ _ (si_block _ HI) Hrun) as (Ha & Hb & Hcase). simpl in Ha, Hcase.
  assert (Hg : grows (w_api w) (sy_api s')) by (rewrite Ha; intros s; apply recorded_ListPolicies).
  destruct (wanted_recorded (w_api w)) as [Hwi Hwt]. destruct (si_index _ HI) as [Hpi Hv].
  apply (sys_inv_next w); [done|done| |done|..]; simpl.
  - split; [done|]. intros k p Hp. apply Hg. by eapply Hv.
  - intros x Hx. destruct Hcase as [(_ & E & _)|(_ & _ & _ & [_ Hi] & _)]; [left; by rewrite <- E|].
    apply Hi, elem_of_union in Hx as [Hx|Hx]; [right|by left]. eapply was_recorded_grows; [exact Hg|by apply Hwi].
  - intros x Hx. destruct Hcase as [(_ & E & _)|(_ & _ & _ & _ & [_ Hi] & _)]; [left; by rewrite <- E|].
    apply Hi, elem_of_union in Hx as [Hx|Hx]; [right|by left]. eapply was_recorded_grows; [exact Hg|by apply Hwt].
Qed.

Lemma step_sys c c' : sys_inv c.1 → sys_step c c' → sys_inv c'.1.
Proof using HAH HIS rc_enforces.
  intros HI Hstep.
  destruct Hstep as [ev w marks Ht|req w marks|w marks s|w w' marks Hg Hx Hb Hi Ht|w marks|w a marks Hg]; simpl in *.
  - by eapply handle_sys; [..|apply run_pair].
  - by eapply Reconcile_sys; [..|apply run_pair].
  - by apply sync_sys.
  - apply (sys_inv_next w); [done|done| |done|..]; [|intros x Hin; left; by apply Hi|intros x Hin; left; by apply Ht].
    unfold index_tracked. rewrite Hx. split; [apply empty_pi_inv|]. intros k p. unfold pi_view, NewPolicyIndex. by rewrite lookup_empty.
  - destruct (Start_prepare clock w) as [r w'] eqn:E.
    destruct (tracks_Start_prepare clock _ _ _ (si_index _ HI) I E) as (Hx' & Hg & _).
    pose proof (Start_prepare_frame _ _ _ _ E) as [Hb _]. simpl.
    apply (sys_inv_next w); [done|rewrite Hb; apply HI|done|done|..]; rewrite Hb; auto.
  - destruct HI as [Hb [Hpi Hv] Hi Ht]. apply (sys_inv_next w); [by split|done| |done|auto|auto].
    split; [done|]. intros k p Hp. apply Hg. by eapply Hv.
Qed.

(** C2: nothing is dropped that was never recorded. Start from any state whose
    kernel drops and indexed policies have been recorded in etcd (a fresh
    install is one), and let threat scores, reconciles, drift passes, restarts,
    index warm-ups and any other writes to the API happen in any order and
    number, each run of a handler being one step. Requests may fail at any
    point, a failed write may or may not have been committed, and what a List
    or Get of a policy returns may be any earlier state. Every address and
    tunnel the kernel then drops is claimed by a status that some policy has
    had in etcd, and so has the status of every policy a score is matched with. *)
Theorem enforcement_was_recorded (w w' : W) marks marks' :
  sys_inv w → rtc sys_step (w, marks) (w', marks') →
  (∀ x, x ∈ bl_ips (w_block w') → ∃ s, api_recorded (w_api w') s ∧ claims_ip s x) ∧
  (∀ t, t ∈ bl_tunnels (w_block w') → ∃ s, api_recorded (w_api w') s ∧ claims_tunnel s t) ∧
  (∀ ns labels p, p ∈ MatchingPolicies (w_index w') ns labels → api_recorded (w_api w') (pol_Status p)).
Proof using HAH HIS rc_enforces.
  intros HI Hrtc. assert (HI' : sys_inv w').
  { change (sys_inv (w, marks).1) in HI. change (sys_inv (w', marks').1).
    revert HI. induction Hrtc as [|c1 c2 c3 Hstep _ IH]; [done|]. intros HI. apply IH. by eapply step_sys. }
  split; [apply (si_ips _ HI')|]. split; [apply (si_tunnels _ HI')|].
  destruct (si_index _ HI') as [Hpi Hv]. intros ns labels p (_ & Hp & _)%MatchingPolicies_spec; [|done]. by eapply Hv.
Qed.
End System.

(** ** The theorem at a concrete run *)

(** An API server read through a cache that lags: policies are read from
    [lg_cache], written to [lg_etcd], and every status etcd gives up is logged. *)
Record LaggedApi := { lg_etcd : EtcdApi; lg_cache : EtcdApi; lg_log : list TelecomSecurityPolicyStatus }.

Definition statuses (a : EtcdApi) : list TelecomSecurityPolicyStatus := pol_Status <$> ea_policies a.
Definition lg_write (a : LaggedApi) (e : EtcdApi) : LaggedApi :=
  {| lg_etcd := e; lg_cache := lg_cache a; lg_log := statuses (lg_etcd a) ++ lg_log a |}.

#[export] Instance LaggedApi_server : ApiServer LaggedApi := {|
  api_GetPod k a := ((api_GetPod k (lg_etcd a)).1, a);
  api_GetPolicy k a := ((api_GetPolicy k (lg_cache a)).1, a);
  api_ListPolicies a := ((api_ListPolicies (lg_cache a)).1, a);
  api_UpdateStatus p a := let '(r, e) := api_UpdateStatus p (lg_etcd a) in (r, lg_write a e);
  api_Update p a := let '(r, e) := api_Update p (lg_etcd a) in (r, lg_write a e);
  api_GetKillSwitch a := ((api_GetKillSwitch (lg_etcd a)).1, a) |}.

Lemma lg_UpdateStatus p (a : LaggedApi) : api_UpdateStatus p a =
  ((api_UpdateStatus p (lg_etcd a)).1, lg_write a (api_UpdateStatus p (lg_etcd a)).2).
Proof.
  change (api_UpdateStatus p a) with (let '(r, e) := api_UpdateStatus p (lg_etcd a) in (r, lg_write a e)).
  by destruct (api_UpdateStatus p (lg_etcd a)).
Qed.
Lemma lg_Update p (a : LaggedApi) : api_Update p a =
  ((api_Update p (lg_etcd a)).1, lg_write a (api_Update p (lg_etcd a)).2).
Proof.
  change (api_Update p a) with (let '(r, e) := api_Update p (lg_etcd a) in (r, lg_write a e)).
  by destruct (api_Update p (lg_etcd a)).
Qed.

#[export] Program Instance LaggedApi_spec : ApiSpec LaggedApi := {| api_policies a := ea_view (lg_etcd a) |}.
Next Obligation. done. Qed.
Next Obligation. done. Qed.
Next Obligation. done. Qed.
Next Obligation. done. Qed.
Next Obligation. intros k a p. exact (GetPolicy_key k (lg_cache a) p). Qed.
Next Obligation. intros a k p. apply ea_view_keyed. Qed.
Next Obligation.
  intros p a q a' H. rewrite lg_UpdateStatus in H. destruct (api_UpdateStatus p (lg_etcd a)) as [r e] eqn:E.
  injection H as -> <-. exact (UpdateStatus_ok p _ q e E).
Qed.
Next Obligation.
  intros p a x a' H. rewrite lg_UpdateStatus in H. destruct (api_UpdateStatus p (lg_etcd a)) as [r e] eqn:E.
  injection H as -> <-. exact (UpdateStatus_err p _ x e E).
Qed.
Next Obligation.
  intros p a x a' H. rewrite lg_UpdateStatus in H. destruct (api_UpdateStatus p (lg_etcd a)) as [r e] eqn:E.
  injection H as -> <-. exact (UpdateStatus_conflict p _ x e E).
Qed.
Next Obligation.
  intros p a q a' H. rewrite lg_Update in H. destruct (api_Update p (lg_etcd a)) as [r e] eqn:E.
  injection H as -> <-. exact (Update_ok p _ q e E).
Qed.
Next Obligation.
  intros p a r a' k H. rewrite lg_Update in H. destruct (api_Update p (lg_etcd a)) as [r0 e] eqn:E.
  injection H as _ <-. exact (Update_other p _ r0 e k E).
Qed.

Lemma ea_view_statuses a k p : ea_view a !! k = Some p → pol_Status p ∈ statuses a.
Proof.
  unfold ea_view, statuses. intros Hin%elem_of_list_to_map_2. apply list_elem_of_fmap in Hin as (q & [= -> ->] & Hq).
  by apply list_elem_of_fmap_2.
Qed.

Definition lg_recorded (a : LaggedApi) (s : TelecomSecurityPolicyStatus) : Prop :=
  s ∈ lg_log a ∨ s ∈ statuses (lg_etcd a) ∨ s ∈ statuses (lg_cache a).
Lemma lg_write_grows a e s : lg_recorded a s → lg_recorded (lg_write a e) s.
Proof. unfold lg_recorded. simpl. rewrite elem_of_app. naive_solver. Qed.

#[export] Program Instance LaggedApi_history : StatusHistory LaggedApi := {| api_recorded := lg_recorded |}.
Next Obligation. intros a k p Hp. right. left. by eapply ea_view_statuses. Qed.
Next Obligation. done. Qed.
Next Obligation. done. Qed.
Next Obligation. done. Qed.
Next Obligation. intros p a s Hs. rewrite lg_UpdateStatus. by apply lg_write_grows. Qed.
Next Obligation. intros p a s Hs. rewrite lg_Update. by apply lg_write_grows. Qed.
Next Obligation. done. Qed.
Next Obligation.
  intros k a p. simpl. unfold ea_lookup. case_match eqn:E; [|done]. intros [= <-]. right. right. by eapply ea_view_statuses.
Qed.
Next Obligation.
  intros a l p. simpl. intros [= <-] Hp. right. right.
  apply list_elem_of_fmap in Hp as ([k q] & -> & Hin%elem_of_map_to_list). by eapply ea_view_statuses.
Qed.

Module SystemSample.
Import HashMaps WatcherSample ReconcilerSample.

(** A fresh install with one policy, read through a cache that never catches
    up; an attack; a drift pass; a reconcile. *)
Definition install : EtcdApi := sample_api [upf_policy true monitoring] None.
Definition LaggedWorld := World LaggedApi (Loader hmap) (list mesh_call) Z.
Definition start : LaggedWorld := {|
  w_api := {| lg_etcd := install; lg_cache := install; lg_log := [] |};
  w_block := LoaderSample.empty_loader 8; w_mesh := [];
  w_index := PolicyIndex_Put (upf_policy true monitoring) NewPolicyIndex;
  w_scoring := Some (NewScoringPipelineTracker 0 0); w_killswitch := Some (NewKillSwitch 0);
  w_limiter := Some {| rl_rate := f64_one; rl_burst := 1; rl_limiters := ∅ |};
  w_metrics := empty_registry; w_events := []; w_tick := 0 |}.
Definition attacked : LaggedWorld := (handle sample_clock thr attack start).2.
Definition marks : gset string := sy_unclaimed (Sync (sync_view attacked ∅)).2.
Definition passed : LaggedWorld := sync_world (Sync (sync_view attacked ∅)).2 attacked.
Definition reconciled : LaggedWorld := (Reconcile sample_clock rc key passed).2.

Lemma start_empty : bl_ips (w_block start) = ∅ ∧ bl_tunnels (w_block start) = ∅.
Proof. split; apply (bool_decide_unpack _); vm_compute; reflexivity. Qed.

Lemma start_inv : sys_inv start.
Proof.
  split; [apply (LoaderSample.empty_loader_inv 8)|split; [apply PolicyIndex_Put_inv, empty_pi_inv|]|..].
  - intros k p. simpl. rewrite PolicyIndex_Put_view. case_decide; [|unfold pi_view, NewPolicyIndex; by rewrite lookup_empty].
    intros [= <-]. right. left. by left.
  - intros a. rewrite (proj1 start_empty). by intros []%elem_of_empty.
  - intros a. rewrite (proj2 start_empty). by intros []%elem_of_empty.
Qed.

(** The drop is in force, and the pass that does not see its claim marks it. *)
Example attack_dropped : BlockedTunnels (w_block reconciled) = Ok [{| bt_IP := [10; 0; 0; 66]; bt_TEID := 7 |}] ∧
  elements marks = ["ip:10.0.0.66"; "tunnel:10.0.0.66/0x7"].
Proof. split; vm_compute; reflexivity. Qed.

Lemma enforcement_was_recorded_witness :
  ([10; 0; 0; 66], 7) ∈ bl_tunnels (w_block reconciled) ∧
  ∃ s, api_recorded (w_api reconciled) s ∧ claims_tunnel s ([10; 0; 0; 66], 7).
Proof.
  assert (Hin : ([10; 0; 0; 66], 7) ∈ bl_tunnels (w_block reconciled))
    by (apply (bool_decide_unpack _); vm_compute; reflexivity).
  split; [exact Hin|].
  refine (proj1 (proj2 (enforcement_was_recorded sample_clock thr rc eq_refl start reconciled ∅ marks start_inv _)) _ Hin).
  eapply rtc_l; [apply (step_score _ _ _ attack), attack_teid|].
  eapply rtc_l; [apply step_sync|]. apply rtc_once, step_reconcile.
Defined.
End SystemSample.
